(** * REHex: document model, character finder and selection state

    A shallow embedding of parts of the Reverse Engineer's Hex Editor:

    - [Util]: the clamping addition of [util.hpp];
    - [CharacterFinder]: the range lookup of [CharacterFinder.cpp];
    - [DocumentCtrl]: the selection state of [DocumentCtrl.cpp];
    - [Buffer], [ByteRangeMap], [NestedOffsetLengthMap], [Document]: the
      document model declared in [document.hpp].

    Definitions come first, the theorems about them follow. *)

From Stdlib Require Import ZArith List Bool Lia String.
From Stdlib Require Import Init.Byte.
Import ListNotations.

Local Open Scope Z_scope.

(* ===================================================================== *)
(** ** Machine integers *)
(* ===================================================================== *)

(** An integral type of C++: its signedness and its width in bits. *)
Record IntType := { it_signed : bool; it_bits : Z }.

Definition int_min (T : IntType) : Z :=
  if it_signed T then - 2 ^ (it_bits T - 1) else 0.

Definition int_max (T : IntType) : Z :=
  if it_signed T then 2 ^ (it_bits T - 1) - 1 else 2 ^ it_bits T - 1.

Definition in_range (T : IntType) (z : Z) : Prop := int_min T <= z <= int_max T.

(** Conversion of a mathematical integer to [T]: reduction modulo [2^bits],
    read in two's complement for a signed type. *)
Definition int_wrap (T : IntType) (z : Z) : Z :=
  if it_signed T
  then (z + 2 ^ (it_bits T - 1)) mod 2 ^ it_bits T - 2 ^ (it_bits T - 1)
  else z mod 2 ^ it_bits T.

Definition t_int : IntType := {| it_signed := true; it_bits := 32 |}.
Definition t_off_t : IntType := {| it_signed := true; it_bits := 64 |}.
Definition t_size_t : IntType := {| it_signed := false; it_bits := 64 |}.

(** Integer promotion: arithmetic on a type narrower than [int] is done in
    [int]. *)
Definition promote (T : IntType) : IntType :=
  if it_bits T <? 32 then t_int else T.

(** [off_t] arithmetic (64 bit, two's complement). *)
Definition off_wrap (z : Z) : Z := int_wrap t_off_t z.
Definition off_add (a b : Z) : Z := off_wrap (a + b).
Definition off_sub (a b : Z) : Z := off_wrap (a - b).
Definition OFF_MAX : Z := int_max t_off_t.
Definition OFF_MIN : Z := int_min t_off_t.

(* ===================================================================== *)
(** ** util.hpp *)
(* ===================================================================== *)

Module Util.

(** [*overflow = v], where [overflow] may be [NULL]: the pointer is modelled
    by the content of the cell it points to, [None] for [NULL]. *)
Definition store_flag (overflow : option bool) (v : bool) : option bool :=
  match overflow with
  | None => None
  | Some _ => Some v
  end.

(** The operators of [T] used by [_add_clamp_overflow]: operands are promoted,
    and the returned sum is converted back to [T]. *)
Definition t_add (T : IntType) (a b : Z) : Z :=
  int_wrap T (int_wrap (promote T) (a + b)).

Definition t_sub (T : IntType) (a b : Z) : Z := int_wrap (promote T) (a - b).

(** [template<typename T> T _add_clamp_overflow(T a, T b, bool *overflow,
    T T_min, T T_max, T T_zero)]: the returned value and the flag cell. *)
Definition _add_clamp_overflow (T : IntType) (a b : Z) (overflow : option bool)
    (T_min T_max T_zero : Z) : Z * option bool :=
  if negb (Bool.eqb (a <? T_zero) (b <? T_zero)) then
    (* a and b have differing signs - can't overflow *)
    (t_add T a b, store_flag overflow false)
  else if a <? T_zero then
    (* a and b are negative *)
    if t_sub T T_min b <=? a
    then (t_add T a b, store_flag overflow false)
    else (T_min, store_flag overflow true)
  else
    (* a and b are positive *)
    if t_sub T T_max b >=? a
    then (t_add T a b, store_flag overflow false)
    else (T_max, store_flag overflow true).

(** [template<typename T> T add_clamp_overflow(T a, T b, bool *overflow)]. *)
Definition add_clamp_overflow (T : IntType) (a b : Z) (overflow : option bool)
    : Z * option bool :=
  _add_clamp_overflow T a b overflow (int_min T) (int_max T) 0.

End Util.

(* ===================================================================== *)
(** ** CharacterFinder.cpp *)
(* ===================================================================== *)

Module CharacterFinder.

(** What a call can do besides returning: fail an [assert], or loop for
    ever (a decoder that reports characters of no size). *)
Inductive outcome (A : Type) : Type :=
| Returned (a : A)
| AssertFailed
| Diverged.
Arguments Returned {A} a.
Arguments AssertFailed {A}.
Arguments Diverged {A}.

(** [CharacterEncoder]: the word size and the decoder, which tells whether
    the bytes start a valid character and how many bytes it takes. *)
Record CharacterEncoder := {
  word_size : Z;
  decode : list byte -> bool * Z
}.

Section Finder.

(** The collaborators, declared in headers outside this development: the
    document (its type map and its data), the registry of data types, the
    ASCII encoder and the LRU cache. [read_data] yields [None] when it
    throws. *)
Variable Document : Type.
Variable get_range : Document -> Z -> option (Z * Z * string).
Variable read_data : Document -> Z -> Z -> option (list byte).
Variable by_name : string -> option CharacterEncoder.
Variable ascii_encoder : CharacterEncoder.
Variable LRUCache : Type.
Variable cache_get : LRUCache -> Z -> option (list Z) * LRUCache.
Variable cache_set : LRUCache -> Z -> list Z -> LRUCache.

Record CharacterFinder := {
  document : Document;
  base : Z;
  length : Z;
  chunk_size : Z;
  t1_filling : bool;
  t1_done : bool;
  t1 : list Z;
  t1_size : Z;
  t2 : LRUCache
}.

Definition set_t2 (cf : CharacterFinder) (c : LRUCache) : CharacterFinder :=
  {| document := document cf; base := base cf; length := length cf;
     chunk_size := chunk_size cf; t1_filling := t1_filling cf;
     t1_done := t1_done cf; t1 := t1 cf; t1_size := t1_size cf; t2 := c |}.

(** [t1[idx].load()]; the index is checked by the caller's [assert]. *)
Definition t1_load (cf : CharacterFinder) (idx : Z) : Z :=
  nth (Z.to_nat idx) (t1 cf) (-1).

(** [t1_idx >= 0 ? t1[t1_idx].load() : base]. *)
Definition t2_base_of (cf : CharacterFinder) (t1_idx : Z) : Z :=
  if t1_idx >=? 0 then t1_load cf t1_idx else base cf.

(** The loop that fills a new [t2] element: one relative offset per
    character; [fuel] bounds the iterations. *)
Fixpoint fill_t2_elem (fuel : nat) (encoder : CharacterEncoder)
    (type_at_base : option (Z * Z * string)) (doc : Document)
    (t2_base_offset t2_end_offset : Z) (data : list byte)
    (t2_off data_off : Z) (acc : list Z) : outcome (list Z) :=
  if (t2_off <? t2_end_offset)
     && (int_wrap t_size_t data_off <? Z.of_nat (List.length data)) then
    match fuel with
    | O => Diverged
    | S fuel' =>
        let acc' := acc ++ [int_wrap t_size_t (off_sub t2_off t2_base_offset)] in
        if match get_range doc t2_off, type_at_base with
           | Some (o1, l1, s1), Some (o2, l2, s2) =>
               (o1 =? o2) && (l1 =? l2) && String.eqb s1 s2
           | None, None => true
           | _, _ => false
           end
        then
          let ec := decode encoder (skipn (Z.to_nat data_off) data) in
          let char_size :=
            int_wrap t_int (if fst ec then snd ec else word_size encoder) in
          fill_t2_elem fuel' encoder type_at_base doc t2_base_offset
            t2_end_offset data (off_add t2_off char_size)
            (off_add data_off char_size) acc'
        else AssertFailed
    end
  else Returned acc.

(** [std::upper_bound]: the index of the first element greater than [x]. *)
Fixpoint upper_bound (l : list Z) (x : Z) : nat :=
  match l with
  | [] => O
  | y :: l' => if x <? y then O else S (upper_bound l' x)
  end.

(** The end of [get_char_range], once the [t2] element is at hand. *)
Definition locate_char (t2_elem : list Z) (offset t2_base_offset t2_end_offset : Z)
    : outcome (Z * Z) :=
  match t2_elem with
  | [] => AssertFailed
  | _ =>
      let next_idx :=
        upper_bound t2_elem (int_wrap t_size_t (off_sub offset t2_base_offset)) in
      let this_char_off := nth (pred next_idx) t2_elem 0 in
      let abs_this_char_off := off_add this_char_off t2_base_offset in
      if (next_idx <? List.length t2_elem)%nat then
        Returned (abs_this_char_off,
                  off_wrap (int_wrap t_size_t (nth next_idx t2_elem 0 - this_char_off)))
      else if t2_end_offset >? t2_base_offset then
        Returned (abs_this_char_off, off_sub t2_end_offset abs_this_char_off)
      else Returned (-1, -1)
  end.

(** [std::pair<off_t,off_t> CharacterFinder::get_char_range(off_t offset)]:
    the returned pair and the finder after the call. The [t1] slots are read
    from the state the call starts in. *)
Definition get_char_range (cf : CharacterFinder) (offset : Z)
    : outcome ((Z * Z) * CharacterFinder) :=
  if (offset <? base cf) || (offset >=? off_add (base cf) (length cf)) then
    (* Not in range tracked by this CharacterFinder. *)
    Returned ((-1, -1), cf)
  else
    let t1_idx := off_sub (Z.quot (off_sub offset (base cf)) (chunk_size cf)) 1 in
    if negb (t1_idx <? t1_size cf) then AssertFailed else
    let t2_base_offset := t2_base_of cf t1_idx in
    if t2_base_offset <? 0 then
      (* t1 slot not filled yet. *)
      Returned ((-1, -1), cf)
    else
      let t1_idx' := if t2_base_offset >? offset then off_sub t1_idx 1 else t1_idx in
      if negb (t1_idx' <? t1_size cf) then AssertFailed else
      let t2_base_offset :=
        if t2_base_offset >? offset then t2_base_of cf t1_idx' else t2_base_offset in
      let t2_end_offset :=
        if off_add t1_idx' 1 <? t1_size cf
        then t1_load cf (off_add t1_idx' 1)
        else off_add (base cf) (length cf) in
      if t2_end_offset <? 0 then
        (* t1 slot not filled yet. *)
        Returned ((-1, -1), cf)
      else
        let (found, c1) := cache_get (t2 cf) t2_base_offset in
        match found with
        | Some t2_elem =>
            match locate_char t2_elem offset t2_base_offset t2_end_offset with
            | Returned p => Returned (p, set_t2 cf c1)
            | AssertFailed => AssertFailed
            | Diverged => Diverged
            end
        | None =>
            let type_at_base := get_range (document cf) t2_base_offset in
            match type_at_base with
            | None => AssertFailed
            | Some (encoding_base, _, type_name) =>
                if negb (encoding_base <=? t2_base_offset) then AssertFailed else
                match (if String.eqb type_name EmptyString
                       then Some ascii_encoder else by_name type_name) with
                | None => AssertFailed
                | Some encoder =>
                    match read_data (document cf) t2_base_offset
                            (off_sub t2_end_offset t2_base_offset) with
                    | None => Returned ((-1, -1), set_t2 cf c1)
                    | Some data =>
                        match fill_t2_elem (S (List.length data)) encoder type_at_base
                                (document cf) t2_base_offset t2_end_offset data
                                t2_base_offset 0 [] with
                        | Returned new_t2_elem =>
                            let c2 := cache_set c1 t2_base_offset new_t2_elem in
                            let (again, c3) := cache_get c2 t2_base_offset in
                            match again with
                            | None => AssertFailed
                            | Some t2_elem =>
                                match locate_char t2_elem offset t2_base_offset
                                        t2_end_offset with
                                | Returned p => Returned (p, set_t2 cf c3)
                                | AssertFailed => AssertFailed
                                | Diverged => Diverged
                                end
                            end
                        | AssertFailed => AssertFailed
                        | Diverged => Diverged
                        end
                    end
                end
            end
        end.

(** [off_t CharacterFinder::get_char_start(off_t offset)]. *)
Definition get_char_start (cf : CharacterFinder) (offset : Z)
    : outcome (Z * CharacterFinder) :=
  match get_char_range cf offset with
  | Returned (p, cf') => Returned (fst p, cf')
  | AssertFailed => AssertFailed
  | Diverged => Diverged
  end.

(** [off_t CharacterFinder::get_char_length(off_t offset)]. *)
Definition get_char_length (cf : CharacterFinder) (offset : Z)
    : outcome (Z * CharacterFinder) :=
  match get_char_range cf offset with
  | Returned (p, cf') => Returned (snd p, cf')
  | AssertFailed => AssertFailed
  | Diverged => Diverged
  end.

(** [bool CharacterFinder::finished()]. *)
Definition finished (cf : CharacterFinder) : bool := t1_done cf.

End Finder.

End CharacterFinder.

(* ===================================================================== *)
(** ** DocumentCtrl.cpp: the selection *)
(* ===================================================================== *)

Module DocumentCtrl.

Inductive Event := EV_SELECTION_CHANGED.

(** The members of [DocumentCtrl] that the selection methods touch; the
    events posted and the repaints requested are kept as a queue and a
    counter. *)
Record DocumentCtrl := {
  selection_off : Z;
  selection_length : Z;
  selection_begin : Z;
  selection_end : Z;
  mouse_shift_initial : Z;
  posted : list Event;
  refreshes : nat
}.

(** The selection as the constructor leaves it. *)
Definition initial : DocumentCtrl :=
  {| selection_off := 0; selection_length := 0;
     selection_begin := -1; selection_end := -1;
     mouse_shift_initial := -1; posted := []; refreshes := O |}.

(** [void DocumentCtrl::set_selection(off_t off, off_t length)]. *)
Definition set_selection (dc : DocumentCtrl) (off length : Z) : DocumentCtrl :=
  let selection_begin' := if length >? 0 then off else -1 in
  let selection_end' := if length >? 0 then off_sub (off_add off length) 1 else -1 in
  let mouse_shift_initial' :=
    if (length <=? 0) || (mouse_shift_initial dc <? off)
       || (mouse_shift_initial dc >? off_add off length)
    then -1 else mouse_shift_initial dc in
  {| selection_off := off;
     selection_length := length;
     selection_begin := selection_begin';
     selection_end := selection_end';
     mouse_shift_initial := mouse_shift_initial';
     posted := posted dc ++ [EV_SELECTION_CHANGED];
     refreshes := S (refreshes dc) |}.

(** [void DocumentCtrl::clear_selection()]. *)
Definition clear_selection (dc : DocumentCtrl) : DocumentCtrl :=
  set_selection dc 0 0.

(** [std::pair<off_t, off_t> DocumentCtrl::get_selection()]. *)
Definition get_selection (dc : DocumentCtrl) : Z * Z :=
  (selection_off dc, selection_length dc).

(** [std::pair<off_t, off_t> DocumentCtrl::get_selection_raw()]. *)
Definition get_selection_raw (dc : DocumentCtrl) : Z * Z :=
  if selection_begin dc <? 0 then
    (* No selection. *)
    (-1, -1)
  else (selection_begin dc, selection_end dc).

End DocumentCtrl.

(* ===================================================================== *)
(** ** The Buffer collaborator *)
(* ===================================================================== *)

Module Buffer.

(** Modelled from the spec: the byte storage of [buffer.hpp], which is not
    among the sources; a linear sequence of bytes. *)
Definition Buffer : Type := list byte.

(** Modelled from the spec: the accesses a [Buffer] offers ([read],
    [overwrite], [insert], [erase]), as the storage sees them. *)
Inductive Access : Type :=
| Read (offset max_length : Z)
| Overwrite (offset : Z) (data : list byte)
| Insert (offset : Z) (data : list byte)
| Erase (offset length : Z).

(** Modelled from the spec: the storage behind a [Buffer] may fail an access
    with an I/O error; [io b a = true] says that access [a] fails on the
    buffer [b]. *)
Definition Storage : Type := Buffer -> Access -> bool.

(** Modelled from the spec: [length() -> integer]. *)
Definition length (b : Buffer) : Z := Z.of_nat (List.length b).

(** Modelled from the spec: [read(offset, max_length) -> bytes]; [None]
    stands for the error thrown on an I/O failure or an offset out of
    range. *)
Definition read (io : Storage) (b : Buffer) (offset max_length : Z)
    : option (list byte) :=
  if io b (Read offset max_length) then None
  else if (offset <? 0) || (max_length <? 0) || (length b <? offset) then None
  else Some (firstn (Z.to_nat max_length) (skipn (Z.to_nat offset) b)).

(** Modelled from the spec: [overwrite(offset, bytes)]. *)
Definition overwrite (io : Storage) (b : Buffer) (offset : Z) (data : list byte)
    : option Buffer :=
  if io b (Overwrite offset data) then None
  else if (offset <? 0) || (length b <? offset + length data) then None
  else Some (firstn (Z.to_nat offset) b ++ data
             ++ skipn (Z.to_nat offset + List.length data) b).

(** Modelled from the spec: [insert(offset, bytes)]. *)
Definition insert (io : Storage) (b : Buffer) (offset : Z) (data : list byte)
    : option Buffer :=
  if io b (Insert offset data) then None
  else if (offset <? 0) || (length b <? offset) then None
  else Some (firstn (Z.to_nat offset) b ++ data ++ skipn (Z.to_nat offset) b).

(** Modelled from the spec: [erase(offset, length)]. *)
Definition erase (io : Storage) (b : Buffer) (offset len : Z) : option Buffer :=
  if io b (Erase offset len) then None
  else if (offset <? 0) || (len <? 0) || (length b <? offset + len) then None
  else Some (firstn (Z.to_nat offset) b
             ++ skipn (Z.to_nat offset + Z.to_nat len) b).

(** A storage that never fails. *)
Definition reliable : Storage := fun _ _ => false.

(** A storage that fails every access. *)
Definition broken : Storage := fun _ _ => true.

End Buffer.

(* ===================================================================== *)
(** ** RangeMap<T> *)
(* ===================================================================== *)

Module ByteRangeMap.

Section Map.

Variable T : Type.

(** Equality of values, which decides whether neighbours are merged. *)
Variable eqb : T -> T -> bool.

(** [advance v delta]: the value of the part of a range that starts [delta]
    bytes into a range of value [v]; the identity for plain values, an
    addition for offsets. *)
Variable advance : T -> Z -> T.

(** Modelled from the spec: [RangeMap<T>] ([ByteRangeMap.hpp] is not among
    the sources), an ordered sequence of [(offset, length, value)]. *)
Definition t : Type := list (Z * Z * T).

(** Modelled from the spec: the invariant that ranges are sorted by offset
    and pairwise disjoint, with a length above zero. *)
Fixpoint well_formed (m : t) : bool :=
  match m with
  | [] => true
  | (o, l, _) :: r =>
      (0 <? l)
      && match r with
         | [] => true
         | (o', _, _) :: _ => o + l <=? o'
         end
      && well_formed r
  end.

(** The byte at [offset] lies in the range of the entry. *)
Definition covers (offset : Z) (e : Z * Z * T) : bool :=
  let '(o, l, _) := e in (o <=? offset) && (offset <? o + l).

(** Modelled from the spec: [get(offset) -> optional value/range]; a query
    outside of all ranges returns absent. *)
Definition get_range (m : t) (offset : Z) : option (Z * Z * T) :=
  find (covers offset) m.

(** Modelled from the spec: what is left of an entry once [[offset, offset
    + length)] is taken out of it: boundary entries are truncated or split,
    covered entries vanish. *)
Definition remainder (offset length : Z) (e : Z * Z * T) : list (Z * Z * T) :=
  let '(o, l, v) := e in
  if (o + l <=? offset) || (offset + length <=? o) then [e]
  else
    (if o <? offset then [(o, offset - o, v)] else [])
    ++ (if offset + length <? o + l
        then [(offset + length, o + l - (offset + length),
               advance v (offset + length - o))]
        else []).

(** Modelled from the spec: [clear_range(offset, length)]; a request with
    [length == 0] is a no-op. *)
Definition clear_range (m : t) (offset length : Z) : t :=
  if length <=? 0 then m else flat_map (remainder offset length) m.

(** Insertion of an entry at its place in the order of offsets. *)
Fixpoint insert_entry (e : Z * Z * T) (m : t) : t :=
  match m with
  | [] => [e]
  | h :: r =>
      if fst (fst e) <? fst (fst h) then e :: m else h :: insert_entry e r
  end.

(** Modelled from the spec: adjacent ranges holding equal values are
    merged. *)
Fixpoint merge (m : t) : t :=
  match m with
  | [] => []
  | (o1, l1, v1) :: r =>
      match merge r with
      | [] => [(o1, l1, v1)]
      | (o2, l2, v2) :: r' =>
          if (o1 + l1 =? o2) && eqb v1 v2
          then (o1, l1 + l2, v1) :: r'
          else (o1, l1, v1) :: (o2, l2, v2) :: r'
      end
  end.

(** Modelled from the spec: [set_range(offset, length, value)]: split or
    truncate the entries the range overlaps, remove the covered ones, insert
    the new entry, merge it with an adjacent entry of equal value. *)
Definition set_range (m : t) (offset length : Z) (value : T) : t :=
  if length <=? 0 then m
  else merge (insert_entry (offset, length, value)
                (flat_map (remainder offset length) m)).

(** Modelled from the spec: the ranges after [length] bytes were inserted at
    [offset]: a range at or after the offset is shifted; a range the
    insertion falls into is split around the new bytes. *)
Definition shift_inserted (offset length : Z) (e : Z * Z * T) : list (Z * Z * T) :=
  let '(o, l, v) := e in
  if offset <=? o then [(o + length, l, v)]
  else if offset <? o + l
       then [(o, offset - o, v);
             (offset + length, o + l - offset, advance v (offset - o))]
       else [e].

(** Modelled from the spec: the map once [length] bytes are inserted at
    [offset]. *)
Definition data_inserted (m : t) (offset length : Z) : t :=
  if length <=? 0 then m else flat_map (shift_inserted offset length) m.

(** Modelled from the spec: the ranges after [length] bytes were erased at
    [offset]: the ranges the erased bytes cut through are truncated, the ones
    after them are shifted back, and neighbours that now touch with equal
    values are merged. *)
Definition shift_erased (offset length : Z) (e : Z * Z * T) : Z * Z * T :=
  let '(o, l, v) := e in
  if offset + length <=? o then (o - length, l, v) else e.

(** Modelled from the spec: the map once [length] bytes are erased at
    [offset]. *)
Definition data_erased (m : t) (offset length : Z) : t :=
  if length <=? 0 then m
  else merge (map (shift_erased offset length)
                (flat_map (remainder offset length) m)).

(** The value stored over one byte. *)
Definition value_at (m : t) (offset : Z) : option T :=
  match get_range m offset with
  | Some (_, _, v) => Some v
  | None => None
  end.

End Map.

Arguments well_formed {T} m.
Arguments covers {T} offset e.
Arguments get_range {T} m offset.
Arguments remainder {T} advance offset length e.
Arguments clear_range {T} advance m offset length.
Arguments insert_entry {T} e m.
Arguments merge {T} eqb m.
Arguments set_range {T} eqb advance m offset length value.
Arguments shift_inserted {T} advance offset length e.
Arguments data_inserted {T} advance m offset length.
Arguments shift_erased {T} offset length e.
Arguments data_erased {T} eqb advance m offset length.
Arguments value_at {T} m offset.

(** Plain values are the same all along a range; an offset moves along. *)
Definition same {T : Type} (v : T) (delta : Z) : T := v.
Definition moved (v : Z) (delta : Z) : Z := v + delta.

End ByteRangeMap.

(* ===================================================================== *)
(** ** NestedRangeMap<T> *)
(* ===================================================================== *)

Module NestedOffsetLengthMap.

Section Map.

Variable T : Type.

(** Modelled from the spec: [NestedRangeMap<T>]
    ([NestedOffsetLengthMap.hpp] is not among the sources), an ordered
    collection of [(offset, length, value)] in which a range may contain
    another. *)
Definition t : Type := list (Z * Z * T).

(** Modelled from the spec: [contained.offset >= container.offset] and
    [contained.offset + contained.length <= container.offset +
    container.length]. *)
Definition contains (c_offset c_length offset length : Z) : bool :=
  (c_offset <=? offset) && (offset + length <=? c_offset + c_length).

(** The two ranges have a byte in common. *)
Definition intersects (o1 l1 o2 l2 : Z) : bool :=
  (o1 <? o2 + l2) && (o2 <? o1 + l1).

(** Modelled from the spec: a partial overlap: the ranges overlap and
    neither contains the other. *)
Definition partial_overlap (o1 l1 o2 l2 : Z) : bool :=
  intersects o1 l1 o2 l2 && negb (contains o1 l1 o2 l2)
  && negb (contains o2 l2 o1 l1).

(** No entry of the map overlaps the range partially. *)
Definition can_set (m : t) (offset length : Z) : bool :=
  forallb (fun e => let '(o, l, _) := e in negb (partial_overlap offset length o l)) m.

(** Modelled from the spec: the order of the keys: by offset, then by
    descending length, so that a containing range comes before the ranges it
    contains. *)
Definition key_before (o1 l1 o2 l2 : Z) : bool :=
  (o1 <? o2) || ((o1 =? o2) && (l2 <? l1)).

(** The entry is put at its place; an entry of the same range is
    replaced. *)
Fixpoint put (m : t) (offset length : Z) (value : T) : t :=
  match m with
  | [] => [(offset, length, value)]
  | (o, l, x) :: r =>
      if (o =? offset) && (l =? length) then (offset, length, value) :: r
      else if key_before offset length o l then (offset, length, value) :: m
      else (o, l, x) :: put r offset length value
  end.

(** Modelled from the spec: [set(offset, length, value) -> success |
    rejected]; [None] is the rejection, which makes no change. *)
Definition set (m : t) (offset length : Z) (value : T) : option t :=
  if can_set m offset length then Some (put m offset length value) else None.

Definition same_key (offset length : Z) (e : Z * Z * T) : bool :=
  let '(o, l, _) := e in (o =? offset) && (l =? length).

(** Modelled from the spec: [erase(offset, length) -> success | not_found];
    it requires an exact [(offset, length)] match. *)
Definition erase (m : t) (offset length : Z) : option t :=
  if existsb (same_key offset length) m
  then Some (filter (fun e => negb (same_key offset length e)) m)
  else None.

(** Modelled from the spec: [get_innermost(point)]: the smallest range that
    contains the point, which the order puts last. *)
Definition get_innermost (m : t) (point : Z) : option (Z * Z * T) :=
  fold_left
    (fun found e =>
       let '(o, l, _) := e in
       if (o <=? point) && (point <? o + l) then Some e else found)
    m None.

(** Modelled from the spec: the ranges after [length] bytes were inserted at
    [offset]: a range at or after the offset is shifted by the length; a
    range the insertion falls into grows, so that it still contains what it
    contained. *)
Definition shift_inserted (offset length : Z) (e : Z * Z * T) : Z * Z * T :=
  let '(o, l, v) := e in
  if offset <=? o then (o + length, l, v)
  else if offset <? o + l then (o, l + length, v)
  else e.

(** Modelled from the spec: the map once [length] bytes are inserted at
    [offset]. *)
Definition data_inserted (m : t) (offset length : Z) : t :=
  if length <=? 0 then m else map (shift_inserted offset length) m.

(** Modelled from the spec: the ranges after [length] bytes were erased at
    [offset]: a range after the erased bytes is shifted back by the length,
    a range they cut through is truncated, a range they cover is gone. *)
Definition shift_erased (offset length : Z) (e : Z * Z * T) : list (Z * Z * T) :=
  let '(o, l, v) := e in
  if offset + length <=? o then [(o - length, l, v)]
  else if o + l <=? offset then [e]
  else if (offset <=? o) && (o + l <=? offset + length) then []
  else [(Z.min o offset,
         l - (Z.min (o + l) (offset + length) - Z.max o offset), v)].

(** Modelled from the spec: the map once [length] bytes are erased at
    [offset]. *)
Definition data_erased (m : t) (offset length : Z) : t :=
  if length <=? 0 then m else flat_map (shift_erased offset length) m.

End Map.

Arguments can_set {T} m offset length.
Arguments put {T} m offset length value.
Arguments set {T} m offset length value.
Arguments same_key {T} offset length e.
Arguments erase {T} m offset length.
Arguments get_innermost {T} m point.
Arguments shift_inserted {T} offset length e.
Arguments data_inserted {T} m offset length.
Arguments shift_erased {T} offset length e.
Arguments data_erased {T} m offset length.

End NestedOffsetLengthMap.

(* ===================================================================== *)
(** ** document.hpp: the document *)
(* ===================================================================== *)

Module Document.

(** [struct Comment]: compared by its text. *)
Definition Comment : Type := string.

(** [enum CursorState]. *)
Inductive CursorState : Type :=
| CSTATE_HEX
| CSTATE_HEX_MID
| CSTATE_ASCII
| CSTATE_SPECIAL
| CSTATE_GOTO
| CSTATE_CURRENT.

Definition CommentMap : Type := NestedOffsetLengthMap.t Comment.
Definition HighlightMap : Type := NestedOffsetLengthMap.t Z.
Definition TypeMap : Type := ByteRangeMap.t string.
Definition OffsetMap : Type := ByteRangeMap.t Z.
Definition SeqMap : Type := ByteRangeMap.t Z.

(** The metadata a tracked change works on: the comments, the highlights,
    the types and the two halves of the virtual address mapping. *)
Record Metadata : Type := {
  md_comments : CommentMap;
  md_highlights : HighlightMap;
  md_types : TypeMap;
  md_real_to_virt_segs : OffsetMap;
  md_virt_to_real_segs : OffsetMap
}.

(** [struct TransOpFunc]: a reverse-closure. The closures the header builds
    with [_op_overwrite_undo], [_op_overwrite_redo], ... are kept as data:
    the name of the builder and what it captured; [apply_op] below runs one
    and returns its opposite. The closures of [_op_tracked_change] work on
    the metadata. *)
Inductive TransOpFunc : Type :=
| _op_overwrite_undo (offset : Z) (old_data : list byte)
    (new_cursor_pos : Z) (new_cursor_state : CursorState)
| _op_overwrite_redo (offset : Z) (new_data : list byte)
    (new_cursor_pos : Z) (new_cursor_state : CursorState)
| _op_insert_undo (offset length : Z)
    (new_cursor_pos : Z) (new_cursor_state : CursorState)
| _op_insert_redo (offset : Z) (data : list byte)
    (new_cursor_pos : Z) (new_cursor_state : CursorState)
| _op_erase_undo (offset : Z) (old_data : list byte)
    (new_cursor_pos : Z) (new_cursor_state : CursorState)
| _op_erase_redo (offset length : Z)
    (new_cursor_pos : Z) (new_cursor_state : CursorState)
| _op_replace_undo (offset : Z) (old_data : list byte) (new_data_length : Z)
    (new_cursor_pos : Z) (new_cursor_state : CursorState)
| _op_replace_redo (offset old_data_length : Z) (new_data : list byte)
    (new_cursor_pos : Z) (new_cursor_state : CursorState)
| _op_tracked_change (func next_func : Metadata -> Metadata).

(** [struct Transaction]. *)
Record Transaction : Type := {
  desc : string;
  complete : bool;
  ops : list TransOpFunc;
  old_cpos_off : Z;
  old_cursor_state : CursorState;
  old_comments : CommentMap;
  old_highlights : HighlightMap;
  old_types : TypeMap;
  old_real_to_virt_segs : OffsetMap;
  old_virt_to_real_segs : OffsetMap
}.

(** The data members of [class Document] that the model works on.
    Modelled from the spec: [active], the transaction that is open, if any;
    the sequence numbers are unbounded integers. The undo and redo stacks
    have their most recent transaction first. *)
Record Document : Type := {
  buffer : Buffer.Buffer;
  write_protect : bool;
  buffer_seq : Z;
  data_seq : SeqMap;
  saved_seq : Z;
  comments : CommentMap;
  highlights : HighlightMap;
  types : TypeMap;
  real_to_virt_segs : OffsetMap;
  virt_to_real_segs : OffsetMap;
  cpos_off : Z;
  cursor_state : CursorState;
  undo_stack : list Transaction;
  redo_stack : list Transaction;
  active : option Transaction
}.

(** [static const int UNDO_MAX = 64]. *)
Definition UNDO_MAX : nat := 64.

(** How a call ends: it returns, it rejects its arguments without any
    change, or an error of the storage is thrown out of it, in which case
    the document is left as it was when the error was thrown. *)
Inductive result (A : Type) : Type :=
| Done (a : A)
| Rejected
| Threw (d : Document).
Arguments Done {A} a.
Arguments Rejected {A}.
Arguments Threw {A} d.

(** *** Updates of single members *)

Definition set_buffer (d : Document) (b : Buffer.Buffer) : Document :=
  {| buffer := b; write_protect := write_protect d; buffer_seq := buffer_seq d;
     data_seq := data_seq d; saved_seq := saved_seq d; comments := comments d;
     highlights := highlights d; types := types d;
     real_to_virt_segs := real_to_virt_segs d;
     virt_to_real_segs := virt_to_real_segs d; cpos_off := cpos_off d;
     cursor_state := cursor_state d; undo_stack := undo_stack d;
     redo_stack := redo_stack d; active := active d |}.

Definition set_write_protect (d : Document) (w : bool) : Document :=
  {| buffer := buffer d; write_protect := w; buffer_seq := buffer_seq d;
     data_seq := data_seq d; saved_seq := saved_seq d; comments := comments d;
     highlights := highlights d; types := types d;
     real_to_virt_segs := real_to_virt_segs d;
     virt_to_real_segs := virt_to_real_segs d; cpos_off := cpos_off d;
     cursor_state := cursor_state d; undo_stack := undo_stack d;
     redo_stack := redo_stack d; active := active d |}.

Definition set_seqs (d : Document) (bseq : Z) (dseq : SeqMap) (sseq : Z) : Document :=
  {| buffer := buffer d; write_protect := write_protect d; buffer_seq := bseq;
     data_seq := dseq; saved_seq := sseq; comments := comments d;
     highlights := highlights d; types := types d;
     real_to_virt_segs := real_to_virt_segs d;
     virt_to_real_segs := virt_to_real_segs d; cpos_off := cpos_off d;
     cursor_state := cursor_state d; undo_stack := undo_stack d;
     redo_stack := redo_stack d; active := active d |}.

Definition set_cursor (d : Document) (pos : Z) (st : CursorState) : Document :=
  {| buffer := buffer d; write_protect := write_protect d; buffer_seq := buffer_seq d;
     data_seq := data_seq d; saved_seq := saved_seq d; comments := comments d;
     highlights := highlights d; types := types d;
     real_to_virt_segs := real_to_virt_segs d;
     virt_to_real_segs := virt_to_real_segs d; cpos_off := pos;
     cursor_state := st; undo_stack := undo_stack d;
     redo_stack := redo_stack d; active := active d |}.

Definition set_stacks (d : Document) (u r : list Transaction)
    (a : option Transaction) : Document :=
  {| buffer := buffer d; write_protect := write_protect d; buffer_seq := buffer_seq d;
     data_seq := data_seq d; saved_seq := saved_seq d; comments := comments d;
     highlights := highlights d; types := types d;
     real_to_virt_segs := real_to_virt_segs d;
     virt_to_real_segs := virt_to_real_segs d; cpos_off := cpos_off d;
     cursor_state := cursor_state d; undo_stack := u;
     redo_stack := r; active := a |}.

Definition metadata_of (d : Document) : Metadata :=
  {| md_comments := comments d; md_highlights := highlights d;
     md_types := types d; md_real_to_virt_segs := real_to_virt_segs d;
     md_virt_to_real_segs := virt_to_real_segs d |}.

Definition with_metadata (d : Document) (m : Metadata) : Document :=
  {| buffer := buffer d; write_protect := write_protect d; buffer_seq := buffer_seq d;
     data_seq := data_seq d; saved_seq := saved_seq d; comments := md_comments m;
     highlights := md_highlights m; types := md_types m;
     real_to_virt_segs := md_real_to_virt_segs m;
     virt_to_real_segs := md_virt_to_real_segs m; cpos_off := cpos_off d;
     cursor_state := cursor_state d; undo_stack := undo_stack d;
     redo_stack := redo_stack d; active := active d |}.

Definition with_comments (m : Metadata) (c : CommentMap) : Metadata :=
  {| md_comments := c; md_highlights := md_highlights m; md_types := md_types m;
     md_real_to_virt_segs := md_real_to_virt_segs m;
     md_virt_to_real_segs := md_virt_to_real_segs m |}.

Definition with_highlights (m : Metadata) (h : HighlightMap) : Metadata :=
  {| md_comments := md_comments m; md_highlights := h; md_types := md_types m;
     md_real_to_virt_segs := md_real_to_virt_segs m;
     md_virt_to_real_segs := md_virt_to_real_segs m |}.

Definition with_types (m : Metadata) (t : TypeMap) : Metadata :=
  {| md_comments := md_comments m; md_highlights := md_highlights m; md_types := t;
     md_real_to_virt_segs := md_real_to_virt_segs m;
     md_virt_to_real_segs := md_virt_to_real_segs m |}.

Definition with_mappings (m : Metadata) (r2v v2r : OffsetMap) : Metadata :=
  {| md_comments := md_comments m; md_highlights := md_highlights m;
     md_types := md_types m; md_real_to_virt_segs := r2v;
     md_virt_to_real_segs := v2r |}.

(** *** Construction *)

(** [Document::Document()]: a document for a new file. *)
Definition new_document : Document :=
  {| buffer := []; write_protect := false; buffer_seq := 0; data_seq := [];
     saved_seq := 0; comments := []; highlights := []; types := [];
     real_to_virt_segs := []; virt_to_real_segs := []; cpos_off := 0;
     cursor_state := CSTATE_HEX; undo_stack := []; redo_stack := [];
     active := None |}.

(** [Document::Document(const std::string &filename)]: a document for an
    existing file, given by its content. Modelled from the spec: no byte
    carries a stamp yet, and the document is clean. *)
Definition open_document (content : list byte) : Document :=
  set_buffer new_document content.

(** [Transaction::Transaction(desc, doc)]: the snapshot taken when a
    transaction is opened. *)
Definition new_transaction (description : string) (doc : Document) : Transaction :=
  {| desc := description; complete := false; ops := [];
     old_cpos_off := cpos_off doc; old_cursor_state := cursor_state doc;
     old_comments := comments doc; old_highlights := highlights doc;
     old_types := types doc;
     old_real_to_virt_segs := real_to_virt_segs doc;
     old_virt_to_real_segs := virt_to_real_segs doc |}.

Definition with_ops (t : Transaction) (o : list TransOpFunc) (c : bool) : Transaction :=
  {| desc := desc t; complete := c; ops := o;
     old_cpos_off := old_cpos_off t; old_cursor_state := old_cursor_state t;
     old_comments := old_comments t; old_highlights := old_highlights t;
     old_types := old_types t;
     old_real_to_virt_segs := old_real_to_virt_segs t;
     old_virt_to_real_segs := old_virt_to_real_segs t |}.

(** Modelled from the spec: the snapshot of a transaction is put back: the
    comments, the highlights, the types, the virtual mapping and the
    cursor. *)
Definition restore_snapshot (d : Document) (t : Transaction) : Document :=
  {| buffer := buffer d; write_protect := write_protect d; buffer_seq := buffer_seq d;
     data_seq := data_seq d; saved_seq := saved_seq d; comments := old_comments t;
     highlights := old_highlights t; types := old_types t;
     real_to_virt_segs := old_real_to_virt_segs t;
     virt_to_real_segs := old_virt_to_real_segs t; cpos_off := old_cpos_off t;
     cursor_state := old_cursor_state t; undo_stack := undo_stack d;
     redo_stack := redo_stack d; active := active d |}.

(** *** Simple accessors *)

(** [off_t Document::buffer_length() const]. *)
Definition buffer_length (d : Document) : Z := Buffer.length (buffer d).

Definition len (data : list byte) : Z := Z.of_nat (List.length data).

(** [Document::_set_cursor_position]: a negative position keeps the
    position; [CSTATE_CURRENT] keeps the state; [CSTATE_GOTO] leaves
    [CSTATE_HEX_MID] for [CSTATE_HEX] and keeps any other state. *)
Definition _set_cursor_position (d : Document) (position : Z)
    (state : CursorState) : Document :=
  set_cursor d
    (if position <? 0 then cpos_off d else position)
    (match state with
     | CSTATE_CURRENT => cursor_state d
     | CSTATE_GOTO =>
         match cursor_state d with
         | CSTATE_HEX_MID => CSTATE_HEX
         | s => s
         end
     | s => s
     end).

(** [void Document::set_cursor_position(off_t off, CursorState cursor_state)]. *)
Definition set_cursor_position (d : Document) (off : Z) (state : CursorState)
    : Document :=
  _set_cursor_position d off state.

(** *** The dirty tracker *)

(** Modelled from the spec: [mark_dirty(offset, length)] stamps [data_seq]
    over the range with the value [buffer_seq] has after its increment. *)
Definition mark_dirty (d : Document) (offset length : Z) : Document :=
  set_seqs d (buffer_seq d)
    (ByteRangeMap.set_range Z.eqb ByteRangeMap.same (data_seq d) offset length
       (buffer_seq d))
    (saved_seq d).

(** Modelled from the spec: the increment of [buffer_seq] that every edit of
    the buffer makes. *)
Definition bump_seq (d : Document) : Document :=
  set_seqs d (buffer_seq d + 1) (data_seq d) (saved_seq d).

(** Modelled from the spec: [mark_saved()] sets [saved_seq = buffer_seq]. *)
Definition mark_saved (d : Document) : Document :=
  set_seqs d (buffer_seq d) (data_seq d) (buffer_seq d).

(** Modelled from the spec: a byte at offset [o] is dirty iff its
    [data_seq] entry, or the current [buffer_seq] if it has none, exceeds
    [saved_seq]. *)
Definition is_byte_dirty (d : Document) (offset : Z) : bool :=
  match ByteRangeMap.get_range (data_seq d) offset with
  | Some (_, _, seq) => saved_seq d <? seq
  | None => saved_seq d <? buffer_seq d
  end.

(** [bool Document::is_buffer_dirty() const]. *)
Definition is_buffer_dirty (d : Document) : bool := saved_seq d <? buffer_seq d.

(** *** The virtual address mapping *)

(** Modelled from the spec: the cross-consistency of the two maps: each is
    well formed, and a segment of one is the mirrored segment of the
    other. *)
Definition mirrored_in (m m' : OffsetMap) : bool :=
  forallb
    (fun e => let '(o, l, v) := e in
       existsb (fun e' => let '(o', l', v') := e' in
                  (o' =? v) && (l' =? l) && (v' =? o)) m')
    m.

Definition mappings_consistent (r2v v2r : OffsetMap) : bool :=
  ByteRangeMap.well_formed r2v && ByteRangeMap.well_formed v2r
  && mirrored_in r2v v2r && mirrored_in v2r r2v.

(** Modelled from the spec: [real_to_virtual(offset)]; an address outside
    of any mapped segment translates as itself. *)
Definition real_to_virt_offset (d : Document) (real_offset : Z) : Z :=
  match ByteRangeMap.get_range (real_to_virt_segs d) real_offset with
  | Some (o, _, v) => v + (real_offset - o)
  | None => real_offset
  end.

(** Modelled from the spec: [virtual_to_real(offset)]. *)
Definition virt_to_real_offset (d : Document) (virt_offset : Z) : Z :=
  match ByteRangeMap.get_range (virt_to_real_segs d) virt_offset with
  | Some (o, _, v) => v + (virt_offset - o)
  | None => virt_offset
  end.

(** The part of a segment [(key, length) -> value] whose keys lie in
    [[offset, offset + length)], seen from the side of the values. *)
Definition covered_part (offset length : Z) (e : Z * Z * Z) : list (Z * Z) :=
  let '(o, l, v) := e in
  let lo := Z.max o offset in
  let hi := Z.min (o + l) (offset + length) in
  if lo <? hi then [(v + (lo - o), hi - lo)] else [].

(** Modelled from the spec: a mapping is cleared by its keys in one map, and
    the parts it covered are cleared in the other map. *)
Definition clear_mapping (m m' : OffsetMap) (offset length : Z)
    : OffsetMap * OffsetMap :=
  (ByteRangeMap.clear_range ByteRangeMap.moved m offset length,
   fold_left
     (fun acc p => ByteRangeMap.clear_range ByteRangeMap.moved acc (fst p) (snd p))
     (flat_map (covered_part offset length) m) m').

(** [Document::_update_mappings_data_inserted]. Modelled from the spec:
    every mapping entry at or after the real offset is shifted: the keys of
    [real_to_virt_segs], the values of [virt_to_real_segs]. *)
Definition virt_to_real_inserted (offset length : Z) (e : Z * Z * Z)
    : list (Z * Z * Z) :=
  let '(vo, l, ro) := e in
  if offset <=? ro then [(vo, l, ro + length)]
  else if offset <? ro + l
       then [(vo, offset - ro, ro); (vo + (offset - ro), ro + l - offset, offset + length)]
       else [e].

Definition _update_mappings_data_inserted (m : Metadata) (offset length : Z)
    : Metadata :=
  with_mappings m
    (ByteRangeMap.data_inserted ByteRangeMap.moved (md_real_to_virt_segs m)
       offset length)
    (if length <=? 0 then md_virt_to_real_segs m
     else flat_map (virt_to_real_inserted offset length) (md_virt_to_real_segs m)).

(** [Document::_virt_to_real_segs_data_erased]. Modelled from the spec: an
    erase narrows or deletes the segments it overlaps and shifts the later
    ones. *)
Definition virt_to_real_erased (offset length : Z) (e : Z * Z * Z)
    : list (Z * Z * Z) :=
  let '(vo, l, ro) := e in
  if offset + length <=? ro then [(vo, l, ro - length)]
  else if ro + l <=? offset then [e]
  else
    (if ro <? offset then [(vo, offset - ro, ro)] else [])
    ++ (if offset + length <? ro + l
        then [(vo + (offset + length - ro), ro + l - (offset + length), offset)]
        else []).

Definition _virt_to_real_segs_data_erased (v2r : OffsetMap) (offset length : Z)
    : OffsetMap :=
  if length <=? 0 then v2r else flat_map (virt_to_real_erased offset length) v2r.

(** *** The shift of the ranges under an edit of the buffer *)

(** Modelled from the spec: an insertion shifts every stored range
    (comments, highlights, types, mappings, stamps) at or after the edit
    point. *)
Definition ranges_data_inserted (d : Document) (offset length : Z) : Document :=
  let m := metadata_of d in
  let m1 :=
    with_types
      (with_highlights
         (with_comments m
            (NestedOffsetLengthMap.data_inserted (md_comments m) offset length))
         (NestedOffsetLengthMap.data_inserted (md_highlights m) offset length))
      (ByteRangeMap.data_inserted ByteRangeMap.same (md_types m) offset length) in
  let d1 := with_metadata d (_update_mappings_data_inserted m1 offset length) in
  set_seqs d1 (buffer_seq d1)
    (ByteRangeMap.data_inserted ByteRangeMap.same (data_seq d1) offset length)
    (saved_seq d1).

(** Modelled from the spec: an erase shifts every stored range after the
    erased bytes and truncates the ranges it cuts through. *)
Definition ranges_data_erased (d : Document) (offset length : Z) : Document :=
  let m := metadata_of d in
  let m1 :=
    with_mappings
      (with_types
         (with_highlights
            (with_comments m
               (NestedOffsetLengthMap.data_erased (md_comments m) offset length))
            (NestedOffsetLengthMap.data_erased (md_highlights m) offset length))
         (ByteRangeMap.data_erased String.eqb ByteRangeMap.same (md_types m)
            offset length))
      (ByteRangeMap.data_erased Z.eqb ByteRangeMap.moved
         (md_real_to_virt_segs m) offset length)
      (_virt_to_real_segs_data_erased (md_virt_to_real_segs m) offset length) in
  let d1 := with_metadata d m1 in
  set_seqs d1 (buffer_seq d1)
    (ByteRangeMap.data_erased Z.eqb ByteRangeMap.same (data_seq d1) offset length)
    (saved_seq d1).

Section WithStorage.

(** The storage the buffer of the document sits on. *)
Variable io : Buffer.Storage.

(** [std::vector<unsigned char> Document::read_data(offset, max_length)]. *)
Definition read_data (d : Document) (offset max_length : Z) : option (list byte) :=
  Buffer.read io (buffer d) offset max_length.

(** *** The edits that are not tracked *)

(** [Document::_UNTRACKED_overwrite_data]. Modelled from the spec: the
    buffer is written first. *)
Definition _UNTRACKED_overwrite_data (d : Document) (offset : Z)
    (data : list byte) : result Document :=
  match Buffer.overwrite io (buffer d) offset data with
  | None => Threw d
  | Some b => Done (set_buffer d b)
  end.

(** [Document::_UNTRACKED_insert_data]. Modelled from the spec: the buffer
    is written first, the ranges are shifted once that succeeded. *)
Definition _UNTRACKED_insert_data (d : Document) (offset : Z)
    (data : list byte) : result Document :=
  match Buffer.insert io (buffer d) offset data with
  | None => Threw d
  | Some b => Done (ranges_data_inserted (set_buffer d b) offset (len data))
  end.

(** [Document::_UNTRACKED_erase_data]. Modelled from the spec, as above. *)
Definition _UNTRACKED_erase_data (d : Document) (offset length : Z)
    : result Document :=
  match Buffer.erase io (buffer d) offset length with
  | None => Threw d
  | Some b => Done (ranges_data_erased (set_buffer d b) offset length)
  end.

(** Modelled from the spec: a replacement erases and inserts in the buffer,
    and shifts the ranges once both succeeded. *)
Definition _UNTRACKED_replace_data (d : Document) (offset old_length : Z)
    (data : list byte) : result Document :=
  match Buffer.erase io (buffer d) offset old_length with
  | None => Threw d
  | Some b1 =>
      match Buffer.insert io b1 offset data with
      | None => Threw (set_buffer d b1)
      | Some b2 =>
          Done (ranges_data_inserted
                  (ranges_data_erased (set_buffer d b2) offset old_length)
                  offset (len data))
      end
  end.

(** Modelled from the spec: what every edit of the buffer does once the
    buffer is written: [buffer_seq] is incremented once, the bytes concerned
    are marked dirty, the cursor is set. *)
Definition finish_edit (d : Document) (offset length : Z)
    (new_cursor_pos : Z) (new_cursor_state : CursorState) : Document :=
  _set_cursor_position (mark_dirty (bump_seq d) offset length)
    new_cursor_pos new_cursor_state.

(** *** Reverse-closures *)

(** [TransOpFunc TransOpFunc::operator()() const]. Modelled from the spec:
    a closure does its action against the buffer and the metadata and
    returns the closure of the opposite action, which has captured what that
    one needs: the bytes that were there and the cursor as it was. *)
Definition apply_op (d : Document) (op : TransOpFunc)
    : result (Document * TransOpFunc) :=
  match op with
  | _op_overwrite_redo offset new_data pos st =>
      match read_data d offset (len new_data) with
      | None => Threw d
      | Some old_data =>
          match _UNTRACKED_overwrite_data d offset new_data with
          | Done d1 =>
              Done (finish_edit d1 offset (len new_data) pos st,
                    _op_overwrite_undo offset old_data (cpos_off d) (cursor_state d))
          | Rejected => Rejected
          | Threw x => Threw x
          end
      end
  | _op_overwrite_undo offset old_data pos st =>
      match read_data d offset (len old_data) with
      | None => Threw d
      | Some new_data =>
          match _UNTRACKED_overwrite_data d offset old_data with
          | Done d1 =>
              Done (finish_edit d1 offset (len old_data) pos st,
                    _op_overwrite_redo offset new_data (cpos_off d) (cursor_state d))
          | Rejected => Rejected
          | Threw x => Threw x
          end
      end
  | _op_insert_redo offset data pos st =>
      match _UNTRACKED_insert_data d offset data with
      | Done d1 =>
          Done (finish_edit d1 offset (len data) pos st,
                _op_insert_undo offset (len data) (cpos_off d) (cursor_state d))
      | Rejected => Rejected
      | Threw x => Threw x
      end
  | _op_insert_undo offset length pos st =>
      match read_data d offset length with
      | None => Threw d
      | Some data =>
          match _UNTRACKED_erase_data d offset length with
          | Done d1 =>
              Done (finish_edit d1 offset 0 pos st,
                    _op_insert_redo offset data (cpos_off d) (cursor_state d))
          | Rejected => Rejected
          | Threw x => Threw x
          end
      end
  | _op_erase_redo offset length pos st =>
      match read_data d offset length with
      | None => Threw d
      | Some old_data =>
          match _UNTRACKED_erase_data d offset length with
          | Done d1 =>
              Done (finish_edit d1 offset 0 pos st,
                    _op_erase_undo offset old_data (cpos_off d) (cursor_state d))
          | Rejected => Rejected
          | Threw x => Threw x
          end
      end
  | _op_erase_undo offset old_data pos st =>
      match _UNTRACKED_insert_data d offset old_data with
      | Done d1 =>
          Done (finish_edit d1 offset (len old_data) pos st,
                _op_erase_redo offset (len old_data) (cpos_off d) (cursor_state d))
      | Rejected => Rejected
      | Threw x => Threw x
      end
  | _op_replace_redo offset old_data_length new_data pos st =>
      match read_data d offset old_data_length with
      | None => Threw d
      | Some old_data =>
          match _UNTRACKED_replace_data d offset old_data_length new_data with
          | Done d1 =>
              Done (finish_edit d1 offset (len new_data) pos st,
                    _op_replace_undo offset old_data (len new_data)
                      (cpos_off d) (cursor_state d))
          | Rejected => Rejected
          | Threw x => Threw x
          end
      end
  | _op_replace_undo offset old_data new_data_length pos st =>
      match read_data d offset new_data_length with
      | None => Threw d
      | Some new_data =>
          match _UNTRACKED_replace_data d offset new_data_length old_data with
          | Done d1 =>
              Done (finish_edit d1 offset (len old_data) pos st,
                    _op_replace_redo offset (len old_data) new_data
                      (cpos_off d) (cursor_state d))
          | Rejected => Rejected
          | Threw x => Threw x
          end
      end
  | _op_tracked_change func next_func =>
      Done (with_metadata d (func (metadata_of d)),
            _op_tracked_change next_func func)
  end.

(** The closures of a list are invoked one after the other; the closures
    they return are chained in the order of the invocations. *)
Fixpoint apply_ops (d : Document) (l : list TransOpFunc) (acc : list TransOpFunc)
    : result (Document * list TransOpFunc) :=
  match l with
  | [] => Done (d, acc)
  | op :: r =>
      match apply_op d op with
      | Done (d1, opposite) => apply_ops d1 r (acc ++ [opposite])
      | Rejected => Rejected
      | Threw x => Threw x
      end
  end.

(** *** Transactions *)

(** Modelled from the spec: the bounded undo stack: a push discards the
    oldest entry when the stack is full. *)
Definition push_bounded (t : Transaction) (stack : list Transaction)
    : list Transaction :=
  firstn UNDO_MAX (t :: stack).

(** [void Document::transact_begin(const std::string &desc)]. Modelled from
    the spec: a nested [begin] joins the transaction that is open. *)
Definition transact_begin (d : Document) (description : string) : Document :=
  match active d with
  | Some _ => d
  | None =>
      set_stacks d (undo_stack d) (redo_stack d)
        (Some (new_transaction description d))
  end.

(** [void Document::transact_commit()]. Modelled from the spec: the
    transaction is pushed to the bounded undo stack and the redo stack is
    cleared. *)
Definition transact_commit (d : Document) : Document :=
  match active d with
  | None => d
  | Some t =>
      set_stacks d (push_bounded (with_ops t (ops t) true) (undo_stack d)) [] None
  end.

(** [void Document::transact_rollback()]. Modelled from the spec: all
    closures are invoked in reverse at once, the snapshots are restored and
    nothing is pushed. *)
Definition transact_rollback (d : Document) : result Document :=
  match active d with
  | None => Done d
  | Some t =>
      match apply_ops (set_stacks d (undo_stack d) (redo_stack d) None)
              (rev (ops t)) [] with
      | Done (d1, _) => Done (restore_snapshot d1 t)
      | Rejected => Rejected
      | Threw x => Threw x
      end
  end.

(** [void Document::transact_step(const TransOpFunc &op, const std::string
    &desc)]. Modelled from the spec: the edit is made, and the closure it
    returns is appended to the open transaction; without one, a transaction
    of this one step is opened on the state before the edit and committed.
    An edit clears the redo stack. *)
Definition transact_step (d : Document) (op : TransOpFunc) (description : string)
    : result Document :=
  match apply_op d op with
  | Done (d1, opposite) =>
      match active d1 with
      | Some t =>
          Done (set_stacks d1 (undo_stack d1) []
                  (Some (with_ops t (ops t ++ [opposite]) false)))
      | None =>
          Done (transact_commit
                  (set_stacks d1 (undo_stack d1) (redo_stack d1)
                     (Some (with_ops (new_transaction description d)
                              [opposite] false))))
      end
  | Rejected => Rejected
  | Threw x => Threw x
  end.

(** [void Document::_tracked_change(desc, do_func, undo_func)]. *)
Definition _tracked_change (d : Document) (description : string)
    (do_func undo_func : Metadata -> Metadata) : result Document :=
  transact_step d (_op_tracked_change do_func undo_func) description.

(** [void Document::undo()]. Modelled from the spec: the most recent
    transaction is popped; its closures are invoked in reverse append order,
    the closures they return making up the redo transaction; its snapshot is
    restored, after the closures so that it is the restored state that
    stays; the redo transaction is pushed. An empty stack makes it a
    no-op. *)
Definition undo (d : Document) : result Document :=
  match undo_stack d with
  | [] => Done d
  | t :: rest =>
      match apply_ops (set_stacks d rest (redo_stack d) (active d))
              (rev (ops t)) [] with
      | Done (d1, forward) =>
          Done (set_stacks (restore_snapshot d1 t) (undo_stack d1)
                  (with_ops (new_transaction (desc t) d) forward true
                   :: redo_stack d1)
                  (active d1))
      | Rejected => Rejected
      | Threw x => Threw x
      end
  end.

(** [void Document::redo()]. Modelled from the spec: symmetric to [undo]. *)
Definition redo (d : Document) : result Document :=
  match redo_stack d with
  | [] => Done d
  | t :: rest =>
      match apply_ops (set_stacks d (undo_stack d) rest (active d))
              (rev (ops t)) [] with
      | Done (d1, backward) =>
          Done (set_stacks (restore_snapshot d1 t)
                  (with_ops (new_transaction (desc t) d) backward true
                   :: undo_stack d1)
                  (redo_stack d1) (active d1))
      | Rejected => Rejected
      | Threw x => Threw x
      end
  end.

(** [void Document::reset_to_clean()]: clears the undo/redo history and
    marks the document as clean. *)
Definition reset_to_clean (d : Document) : Document :=
  mark_saved (set_stacks d [] [] (active d)).

(** [void Document::save()], as far as the document is concerned.
    Modelled from the spec: [mark_saved()]. *)
Definition save (d : Document) : Document := mark_saved d.

(** *** The primitive edits *)

(** [void Document::overwrite_data(...)]. Modelled from the spec: the
    offsets are validated, then the edit is made as a step of a
    transaction. A write-protected document ignores the edits of its
    data. *)
Definition overwrite_data (d : Document) (offset : Z) (data : list byte)
    (new_cursor_pos : Z) (new_cursor_state : CursorState) (change_desc : string)
    : result Document :=
  if write_protect d then Rejected
  else if (offset <? 0) || (buffer_length d <? offset + len data) then Rejected
  else transact_step d
         (_op_overwrite_redo offset data new_cursor_pos new_cursor_state)
         change_desc.

(** [void Document::insert_data(...)]. Modelled from the spec, as above. *)
Definition insert_data (d : Document) (offset : Z) (data : list byte)
    (new_cursor_pos : Z) (new_cursor_state : CursorState) (change_desc : string)
    : result Document :=
  if write_protect d then Rejected
  else if (offset <? 0) || (buffer_length d <? offset) then Rejected
  else transact_step d
         (_op_insert_redo offset data new_cursor_pos new_cursor_state)
         change_desc.

(** [void Document::erase_data(...)]. Modelled from the spec, as above. *)
Definition erase_data (d : Document) (offset length : Z)
    (new_cursor_pos : Z) (new_cursor_state : CursorState) (change_desc : string)
    : result Document :=
  if write_protect d then Rejected
  else if (offset <? 0) || (length <? 0) || (buffer_length d <? offset + length)
  then Rejected
  else transact_step d
         (_op_erase_redo offset length new_cursor_pos new_cursor_state)
         change_desc.

(** [void Document::replace_data(...)]. Modelled from the spec, as above. *)
Definition replace_data (d : Document) (offset old_data_length : Z)
    (new_data : list byte)
    (new_cursor_pos : Z) (new_cursor_state : CursorState) (change_desc : string)
    : result Document :=
  if write_protect d then Rejected
  else if (offset <? 0) || (old_data_length <? 0)
          || (buffer_length d <? offset + old_data_length)
  then Rejected
  else transact_step d
         (_op_replace_redo offset old_data_length new_data
            new_cursor_pos new_cursor_state)
         change_desc.

(** The range lies in the file. *)
Definition in_file (d : Document) (offset length : Z) : bool :=
  (0 <=? offset) && (0 <=? length) && (offset + length <=? buffer_length d).

(** [bool Document::set_comment(off_t offset, off_t length, const Comment
    &comment)]. Modelled from the spec: [false] (here [Rejected]) if the
    range is beyond the file or overlaps a comment partially. *)
Definition set_comment (d : Document) (offset length : Z) (comment : Comment)
    : result Document :=
  if negb (in_file d offset length) then Rejected
  else
    match NestedOffsetLengthMap.set (comments d) offset length comment with
    | None => Rejected
    | Some _ =>
        _tracked_change d "set comment"
          (fun m =>
             match NestedOffsetLengthMap.set (md_comments m) offset length comment with
             | Some c => with_comments m c
             | None => m
             end)
          (fun m => with_comments m (comments d))
    end.

(** [bool Document::erase_comment(off_t offset, off_t length)]. Modelled
    from the spec: [false] if the comment is not found. *)
Definition erase_comment (d : Document) (offset length : Z) : result Document :=
  match NestedOffsetLengthMap.erase (comments d) offset length with
  | None => Rejected
  | Some _ =>
      _tracked_change d "delete comment"
        (fun m =>
           match NestedOffsetLengthMap.erase (md_comments m) offset length with
           | Some c => with_comments m c
           | None => m
           end)
        (fun m => with_comments m (comments d))
  end.

(** [bool Document::set_highlight(off_t off, off_t length, int
    highlight_colour_idx)]. Modelled from the spec, as [set_comment]. *)
Definition set_highlight (d : Document) (off length : Z)
    (highlight_colour_idx : Z) : result Document :=
  if negb (in_file d off length) then Rejected
  else
    match NestedOffsetLengthMap.set (highlights d) off length highlight_colour_idx with
    | None => Rejected
    | Some _ =>
        _tracked_change d "set highlight"
          (fun m =>
             match NestedOffsetLengthMap.set (md_highlights m) off length
                     highlight_colour_idx with
             | Some h => with_highlights m h
             | None => m
             end)
          (fun m => with_highlights m (highlights d))
    end.

(** [bool Document::erase_highlight(off_t off, off_t length)]. Modelled
    from the spec, as [erase_comment]. *)
Definition erase_highlight (d : Document) (off length : Z) : result Document :=
  match NestedOffsetLengthMap.erase (highlights d) off length with
  | None => Rejected
  | Some _ =>
      _tracked_change d "remove highlight"
        (fun m =>
           match NestedOffsetLengthMap.erase (md_highlights m) off length with
           | Some h => with_highlights m h
           | None => m
           end)
        (fun m => with_highlights m (highlights d))
  end.

(** [bool Document::set_data_type(off_t offset, off_t length, const
    std::string &type)]. Modelled from the spec: [false] if the range is
    beyond the file. *)
Definition set_data_type (d : Document) (offset length : Z) (type : string)
    : result Document :=
  if negb (in_file d offset length) then Rejected
  else
    _tracked_change d "set data type"
      (fun m =>
         with_types m
           (ByteRangeMap.set_range String.eqb ByteRangeMap.same (md_types m)
              offset length type))
      (fun m => with_types m (types d)).

(** Modelled from the spec: [set_mapping(real_offset, virt_offset, length)]
    inserts into both maps and verifies their cross-consistency. *)
Definition set_mapping (m : Metadata) (real_offset virt_offset length : Z)
    : option Metadata :=
  let r2v := ByteRangeMap.set_range Z.eqb ByteRangeMap.moved
               (md_real_to_virt_segs m) real_offset length virt_offset in
  let v2r := ByteRangeMap.set_range Z.eqb ByteRangeMap.moved
               (md_virt_to_real_segs m) virt_offset length real_offset in
  if mappings_consistent r2v v2r then Some (with_mappings m r2v v2r) else None.

(** [bool Document::set_virt_mapping(off_t real_offset, off_t virt_offset,
    off_t length)]. Modelled from the spec: rejected if the real range is
    beyond the file or the mapping conflicts with the ones there are; the
    maps are left as they were on a conflict. *)
Definition set_virt_mapping (d : Document) (real_offset virt_offset length : Z)
    : result Document :=
  if negb (in_file d real_offset length) || (virt_offset <? 0) then Rejected
  else
    match set_mapping (metadata_of d) real_offset virt_offset length with
    | None => Rejected
    | Some _ =>
        _tracked_change d "set virtual address mapping"
          (fun m =>
             match set_mapping m real_offset virt_offset length with
             | Some m' => m'
             | None => m
             end)
          (fun m => with_mappings m (real_to_virt_segs d) (virt_to_real_segs d))
    end.

(** [void Document::clear_virt_mapping_r(off_t real_offset, off_t length)].
    Modelled from the spec: [clear_mapping_by_real(offset, length)]. *)
Definition clear_virt_mapping_r (d : Document) (real_offset length : Z)
    : result Document :=
  _tracked_change d "clear virtual address mapping"
    (fun m =>
       let p := clear_mapping (md_real_to_virt_segs m) (md_virt_to_real_segs m)
                  real_offset length in
       with_mappings m (fst p) (snd p))
    (fun m => with_mappings m (real_to_virt_segs d) (virt_to_real_segs d)).

(** [void Document::clear_virt_mapping_v(off_t virt_offset, off_t length)].
    Modelled from the spec: [clear_mapping_by_virtual(offset, length)]. *)
Definition clear_virt_mapping_v (d : Document) (virt_offset length : Z)
    : result Document :=
  _tracked_change d "clear virtual address mapping"
    (fun m =>
       let p := clear_mapping (md_virt_to_real_segs m) (md_real_to_virt_segs m)
                  virt_offset length in
       with_mappings m (snd p) (fst p))
    (fun m => with_mappings m (real_to_virt_segs d) (virt_to_real_segs d)).

(** The primitive edits, as values, so that sequences of them can be
    run. *)
Inductive Edit : Type :=
| OverwriteData (offset : Z) (data : list byte) (pos : Z) (st : CursorState)
| InsertData (offset : Z) (data : list byte) (pos : Z) (st : CursorState)
| EraseData (offset length : Z) (pos : Z) (st : CursorState)
| ReplaceData (offset old_data_length : Z) (new_data : list byte)
    (pos : Z) (st : CursorState)
| SetComment (offset length : Z) (comment : Comment)
| EraseComment (offset length : Z)
| SetHighlight (off length : Z) (highlight_colour_idx : Z)
| EraseHighlight (off length : Z)
| SetDataType (offset length : Z) (type : string)
| SetVirtMapping (real_offset virt_offset length : Z)
| ClearVirtMappingR (real_offset length : Z)
| ClearVirtMappingV (virt_offset length : Z).

Definition primitive_edit (d : Document) (e : Edit) : result Document :=
  match e with
  | OverwriteData offset data pos st =>
      overwrite_data d offset data pos st "change data"
  | InsertData offset data pos st => insert_data d offset data pos st "change data"
  | EraseData offset length pos st => erase_data d offset length pos st "change data"
  | ReplaceData offset old_len data pos st =>
      replace_data d offset old_len data pos st "change data"
  | SetComment offset length comment => set_comment d offset length comment
  | EraseComment offset length => erase_comment d offset length
  | SetHighlight off length colour => set_highlight d off length colour
  | EraseHighlight off length => erase_highlight d off length
  | SetDataType offset length type => set_data_type d offset length type
  | SetVirtMapping real virt length => set_virt_mapping d real virt length
  | ClearVirtMappingR real length => clear_virt_mapping_r d real length
  | ClearVirtMappingV virt length => clear_virt_mapping_v d virt length
  end.

(** A sequence of edits, each of which has to succeed. *)
Fixpoint primitive_edits (d : Document) (es : list Edit) : result Document :=
  match es with
  | [] => Done d
  | e :: r =>
      match primitive_edit d e with
      | Done d1 => primitive_edits d1 r
      | Rejected => Rejected
      | Threw x => Threw x
      end
  end.

(** [n] calls of [undo()], each of which has to succeed. *)
Fixpoint undo_times (n : nat) (d : Document) : result Document :=
  match n with
  | O => Done d
  | S k =>
      match undo_times k d with
      | Done d1 => undo d1
      | Rejected => Rejected
      | Threw x => Threw x
      end
  end.

(** *** The operations a caller has *)

Inductive Command : Type :=
| DoEdit (e : Edit)
| TransactBegin (description : string)
| TransactCommit
| TransactRollback
| Undo
| Redo
| SetCursorPosition (off : Z) (st : CursorState)
| SetWriteProtect (w : bool)
| Save.

(** The document a call leaves behind: unchanged by a rejected call, as it
    was at the throw of a failed one. *)
Definition after (d : Document) (r : result Document) : Document :=
  match r with
  | Done d1 => d1
  | Rejected => d
  | Threw x => x
  end.

Definition run_command (d : Document) (c : Command) : Document :=
  match c with
  | DoEdit e => after d (primitive_edit d e)
  | TransactBegin description => transact_begin d description
  | TransactCommit => transact_commit d
  | TransactRollback => after d (transact_rollback d)
  | Undo => after d (undo d)
  | Redo => after d (redo d)
  | SetCursorPosition off st => set_cursor_position d off st
  | SetWriteProtect w => set_write_protect d w
  | Save => save d
  end.

Definition run_commands (d : Document) (cs : list Command) : Document :=
  fold_left run_command cs d.

End WithStorage.

Arguments push_bounded t stack : simpl never.

(** What the round trip of edits and undos is about: the content of the
    buffer, the comments, the highlights, the types, the virtual mapping and
    the cursor. *)
Record Visible : Type := {
  v_buffer : Buffer.Buffer;
  v_comments : CommentMap;
  v_highlights : HighlightMap;
  v_types : TypeMap;
  v_real_to_virt_segs : OffsetMap;
  v_virt_to_real_segs : OffsetMap;
  v_cpos_off : Z;
  v_cursor_state : CursorState
}.

Definition visible (d : Document) : Visible :=
  {| v_buffer := buffer d; v_comments := comments d;
     v_highlights := highlights d; v_types := types d;
     v_real_to_virt_segs := real_to_virt_segs d;
     v_virt_to_real_segs := virt_to_real_segs d;
     v_cpos_off := cpos_off d; v_cursor_state := cursor_state d |}.

(** What an edit must leave alone when the storage fails: the metadata, the
    dirty tracker, the cursor and the bookkeeping of the transactions. *)
Definition same_bookkeeping (d d' : Document) : Prop :=
  comments d' = comments d /\ highlights d' = highlights d /\
  types d' = types d /\
  real_to_virt_segs d' = real_to_virt_segs d /\
  virt_to_real_segs d' = virt_to_real_segs d /\
  buffer_seq d' = buffer_seq d /\ data_seq d' = data_seq d /\
  saved_seq d' = saved_seq d /\
  cpos_off d' = cpos_off d /\ cursor_state d' = cursor_state d /\
  undo_stack d' = undo_stack d /\ redo_stack d' = redo_stack d /\
  active d' = active d.

(** The two stacks hold no more than [UNDO_MAX] transactions together. *)
Definition stacks_bounded (d : Document) : Prop :=
  (List.length (undo_stack d) + List.length (redo_stack d) <= UNDO_MAX)%nat.

(** Two documents look the same and have the same [k] transactions on top
    of their undo stacks. *)
Definition agree (k : nat) (d d' : Document) : Prop :=
  visible d = visible d' /\
  firstn k (undo_stack d) = firstn k (undo_stack d').

(** The edits of the data of the file. *)
Definition edits_data (e : Edit) : bool :=
  match e with
  | OverwriteData _ _ _ _ | InsertData _ _ _ _
  | EraseData _ _ _ _ | ReplaceData _ _ _ _ _ => true
  | _ => false
  end.

(** The invariant of the dirty tracker: the ranges of [data_seq] have a
    length, and no stamp is ahead of [buffer_seq]. *)
Definition tracker_invariant (d : Document) : Prop :=
  Forall (fun e => 0 <= snd (fst e) /\ snd e <= buffer_seq d) (data_seq d).

(** The document was saved and not edited since. *)
Definition freshly_saved (d : Document) : Prop := saved_seq d = buffer_seq d.

(** The invariant of the virtual address mapping. *)
Definition mapping_invariant (d : Document) : Prop :=
  mappings_consistent (real_to_virt_segs d) (virt_to_real_segs d) = true.

(** The offset lies in a segment of the map. *)
Definition mapped (m : OffsetMap) (offset : Z) : Prop :=
  exists o l v, In (o, l, v) m /\ o <= offset < o + l.

End Document.

(* ===================================================================== *)
(** ** Examples *)
(* ===================================================================== *)

(** A finder over the bytes [[16, 48)] of a document without data, with an
    empty cache that stores nothing. *)
Definition example_finder : CharacterFinder.CharacterFinder unit unit :=
  {| CharacterFinder.document := tt; CharacterFinder.base := 16;
     CharacterFinder.length := 32; CharacterFinder.chunk_size := 8;
     CharacterFinder.t1_filling := false; CharacterFinder.t1_done := true;
     CharacterFinder.t1 := [24; 32; 40]; CharacterFinder.t1_size := 3;
     CharacterFinder.t2 := tt |}.

(** A document of 64 bytes whose bytes [[0, 16)] are mapped to the virtual
    addresses from [4096] on. *)
Definition mapped_document : Document.Document :=
  {| Document.buffer := repeat x00 64;
     Document.write_protect := false;
     Document.buffer_seq := 0; Document.data_seq := [];
     Document.saved_seq := 0;
     Document.comments := []; Document.highlights := []; Document.types := [];
     Document.real_to_virt_segs := [(0, 16, 4096)];
     Document.virt_to_real_segs := [(4096, 16, 0)];
     Document.cpos_off := 0; Document.cursor_state := Document.CSTATE_HEX;
     Document.undo_stack := []; Document.redo_stack := [];
     Document.active := None |}.

(** A document of 8 bytes that carry the stamp of the edit that wrote
    them, saved since, with an empty history. *)
Definition saved_document : Document.Document :=
  {| Document.buffer := [x00; x00; x00; x00; x00; x00; x00; x00];
     Document.write_protect := false;
     Document.buffer_seq := 1; Document.data_seq := [(0, 8, 1)];
     Document.saved_seq := 1;
     Document.comments := []; Document.highlights := []; Document.types := [];
     Document.real_to_virt_segs := []; Document.virt_to_real_segs := [];
     Document.cpos_off := 0; Document.cursor_state := Document.CSTATE_HEX;
     Document.undo_stack := []; Document.redo_stack := [];
     Document.active := None |}.

(** A document of 200 bytes with a comment on the bytes [[100, 105)]. *)
Definition commented_document : Document.Document :=
  {| Document.buffer := repeat x00 200;
     Document.write_protect := false;
     Document.buffer_seq := 0; Document.data_seq := [];
     Document.saved_seq := 0;
     Document.comments := [(100, 5, "note"%string)];
     Document.highlights := []; Document.types := [];
     Document.real_to_virt_segs := []; Document.virt_to_real_segs := [];
     Document.cpos_off := 0; Document.cursor_state := Document.CSTATE_HEX;
     Document.undo_stack := []; Document.redo_stack := [];
     Document.active := None |}.


(* ===================================================================== *)
(** ** Calls that may stop the program *)
(* ===================================================================== *)

(** A call that fails an [assert], divides by zero or reads outside an
    array does not return: it is [None]. *)
Definition bind {A B : Type} (e : option A) (k : A -> option B) : option B :=
  match e with
  | Some a => k a
  | None => None
  end.

Notation "'let?' x := e 'in' k" := (bind e (fun x => k))
  (at level 10, x name, e at level 200, k at level 200).
Notation "'assert!' c 'in' k" := (if c then k else None)
  (at level 10, c at level 200, k at level 200).

(** A [bool] used as an integer. *)
Definition b2z (b : bool) : Z := if b then 1 else 0.

Definition t_uint : IntType := {| it_signed := false; it_bits := 32 |}.
Definition INT_MAX : Z := int_max t_int.

(** More [off_t] arithmetic ([int64_t] is the same type here). Division
    truncates towards zero. *)
Definition off_mul (a b : Z) : Z := off_wrap (a * b).

Definition off_div (a b : Z) : option Z :=
  if b =? 0 then None else Some (off_wrap (Z.quot a b)).

Definition off_rem (a b : Z) : option Z :=
  if b =? 0 then None else Some (Z.rem a b).

(* ===================================================================== *)
(** ** util.hpp: colours as keys *)
(* ===================================================================== *)

Module ColourKey.

(** [wxColour], as [ColourKey] reads it: [Red()], [Green()], [Blue()] and
    [Alpha()], each an [unsigned char]. *)
Record wxColour := { Red : Z; Green : Z; Blue : Z; Alpha : Z }.

Definition is_colour (c : wxColour) : Prop :=
  0 <= Red c <= 255 /\ 0 <= Green c <= 255 /\
  0 <= Blue c <= 255 /\ 0 <= Alpha c <= 255.

(** [(unsigned int)(c) << n]. *)
Definition shl_uint (c n : Z) : Z :=
  int_wrap t_uint (Z.shiftl (int_wrap t_uint c) n).

(** [static unsigned int pack_colour(const wxColour &colour)]. *)
Definition pack_colour (colour : wxColour) : Z :=
  Z.lor (Z.lor (Z.lor (int_wrap t_uint (Red colour))
                      (shl_uint (Blue colour) 8))
               (shl_uint (Green colour) 16))
        (shl_uint (Alpha colour) 24).

Record ColourKey := { colour : wxColour; key : Z }.

(** [ColourKey(const wxColour &colour)]. *)
Definition of_colour (c : wxColour) : ColourKey :=
  {| colour := c; key := pack_colour c |}.

(** [operator<], [operator==] and [operator!=]. *)
Definition lt (a b : ColourKey) : bool := key a <? key b.
Definition eq (a b : ColourKey) : bool := key a =? key b.
Definition ne (a b : ColourKey) : bool := negb (key a =? key b).

End ColourKey.

(* ===================================================================== *)
(** ** DocumentCtrl.cpp: data regions *)
(* ===================================================================== *)

Module DataRegion.

Section Regions.

(** Declared in [DocumentCtrl.hpp]: the two values that the cursor functions
    return for "leave this region", and the size of the table of string
    widths. *)
Variable CURSOR_PREV_REGION : Z.
Variable CURSOR_NEXT_REGION : Z.
Variable PRECOMP_HF_STRING_WIDTH_TO : Z.

(** [dc.GetTextExtent(std::string(n, 'X')).GetWidth()] in the hex font. *)
Variable GetTextExtent : Z -> Z.

(** The members of [DocumentCtrl] that a region reads; [buffer_length] is
    [doc->buffer_length()]. *)
Record Ctrl := {
  buffer_length : Z;
  bytes_per_group : Z;
  show_ascii : bool;
  offset_column_width : Z;
  virtual_width : Z;
  cursor_state : Document.CursorState;
  hf_string_width_precomp : list Z
}.

(** [Region], [GenericDataRegion] and [DataRegion] in one record. The byte
    counts [bytes_per_line_actual] and [first_line_pad_bytes] are 32 bit
    members; in the sums below they are converted to [off_t], which keeps
    their value. *)
Record DataRegion := {
  indent_depth : Z;
  indent_final : Z;
  y_offset : Z;
  y_lines : Z;
  d_offset : Z;
  d_length : Z;
  offset_text_x : Z;
  hex_text_x : Z;
  ascii_text_x : Z;
  bytes_per_line_actual : Z;
  first_line_pad_bytes : Z
}.

(** [int DocumentCtrl::hf_string_width(int length)]. *)
Definition hf_string_width (doc : Ctrl) (length : Z) : option Z :=
  if length =? 0 then Some 0
  else if length <=? PRECOMP_HF_STRING_WIDTH_TO then
    assert! 0 <=? length - 1 in
    nth_error (hf_string_width_precomp doc) (Z.to_nat (length - 1))
  else Some (GetTextExtent length).

(** [int DocumentCtrl::hf_char_width()]. *)
Definition hf_char_width (doc : Ctrl) : option Z := hf_string_width doc 1.

(** [int DocumentCtrl::indent_width(int depth)]. *)
Definition indent_width (doc : Ctrl) (depth : Z) : option Z :=
  let? w := hf_char_width doc in
  Some (int_wrap t_int (w * depth)).

(** [void DataRegion::calc_height(DocumentCtrl &doc, wxDC &dc)]. *)
Definition calc_height (r : DataRegion) (doc : Ctrl) : option DataRegion :=
  let? indent_width := indent_width doc (indent_depth r) in
  let? w := hf_string_width doc (int_wrap t_int (bytes_per_line_actual r)) in
  let effective_length := off_add (d_length r) (first_line_pad_bytes r) in
  let? q := off_div effective_length (bytes_per_line_actual r) in
  let? m := off_rem effective_length (bytes_per_line_actual r) in
  let y_lines' := off_add (off_add q (b2z (negb (m =? 0)))) (indent_final r) in
  Some {| indent_depth := indent_depth r;
          indent_final := indent_final r;
          y_offset := y_offset r;
          y_lines :=
            if (off_add (d_offset r) (d_length r) =? buffer_length doc)
               && (m =? 0)
            then
              (* This is the last data region in the document. Make it one
                 row taller if the last row is full. *)
              off_add y_lines' 1
            else y_lines';
          d_offset := d_offset r;
          d_length := d_length r;
          offset_text_x := indent_width;
          hex_text_x := int_wrap t_int (indent_width + offset_column_width doc);
          ascii_text_x :=
            int_wrap t_int
              (int_wrap t_int (virtual_width doc - indent_width) - w);
          bytes_per_line_actual := bytes_per_line_actual r;
          first_line_pad_bytes := first_line_pad_bytes r |}.

(** [off_t DataRegion::cursor_left_from(off_t pos)]. *)
Definition cursor_left_from (r : DataRegion) (pos : Z) : option Z :=
  assert! pos >=? d_offset r in
  assert! pos <=? off_add (d_offset r) (d_length r) in
  let new_pos := off_sub pos 1 in
  if (new_pos >=? d_offset r) && (new_pos <? off_add (d_offset r) (d_length r))
  then Some new_pos
  else Some CURSOR_PREV_REGION.

(** [off_t DataRegion::cursor_right_from(off_t pos)]. *)
Definition cursor_right_from (r : DataRegion) (pos : Z) : option Z :=
  assert! pos >=? d_offset r in
  assert! pos <=? off_add (d_offset r) (d_length r) in
  let new_pos := off_add pos 1 in
  if (new_pos >=? d_offset r) && (new_pos <? off_add (d_offset r) (d_length r))
  then Some new_pos
  else Some CURSOR_NEXT_REGION.

(** [off_t DataRegion::cursor_up_from(off_t pos)]. *)
Definition cursor_up_from (r : DataRegion) (pos : Z) : option Z :=
  assert! pos >=? d_offset r in
  assert! pos <=? off_add (d_offset r) (d_length r) in
  let new_pos := off_sub pos (bytes_per_line_actual r) in
  let new_pos :=
    if (new_pos <? d_offset r)
       && (new_pos >=? off_sub (d_offset r) (first_line_pad_bytes r))
    then
      (* Moving from second line to first line, but first line is padded
         past this column. *)
      d_offset r
    else new_pos in
  if (new_pos >=? d_offset r) && (new_pos <? off_add (d_offset r) (d_length r))
  then Some new_pos
  else Some CURSOR_PREV_REGION.

(** [visual_offset + (((visual_length - 1) / bytes_per_line_actual) *
    bytes_per_line_actual)], as [cursor_down_from] and
    [last_row_nearest_column] compute it. *)
Definition last_row_off (r : DataRegion) : option Z :=
  let visual_offset := off_sub (d_offset r) (first_line_pad_bytes r) in
  let visual_length := off_add (d_length r) (first_line_pad_bytes r) in
  let? q := off_div (off_sub visual_length 1) (bytes_per_line_actual r) in
  Some (off_add visual_offset (off_mul q (bytes_per_line_actual r))).

(** [off_t DataRegion::cursor_down_from(off_t pos)]. *)
Definition cursor_down_from (r : DataRegion) (pos : Z) : option Z :=
  assert! pos >=? d_offset r in
  assert! pos <=? off_add (d_offset r) (d_length r) in
  let new_pos := off_add pos (bytes_per_line_actual r) in
  let? last_row_off := last_row_off r in
  if (pos <? last_row_off) && (new_pos >=? off_add (d_offset r) (d_length r))
  then
    (* There is a line below the current line, but it isn't as long as this
       one, so jump to the end of it. *)
    Some (off_sub (off_add (d_offset r) (d_length r)) 1)
  else if (new_pos >=? d_offset r)
          && (new_pos <? off_add (d_offset r) (d_length r))
  then Some new_pos
  else Some CURSOR_NEXT_REGION.

(** [off_t DataRegion::cursor_home_from(off_t pos)]. *)
Definition cursor_home_from (r : DataRegion) (pos : Z) : option Z :=
  assert! pos >=? d_offset r in
  assert! pos <=? off_add (d_offset r) (d_length r) in
  let visual_offset := off_sub (d_offset r) (first_line_pad_bytes r) in
  let? bytes_from_start_of_visual_line :=
    off_rem (off_sub pos visual_offset) (bytes_per_line_actual r) in
  Some (Z.max (off_sub pos bytes_from_start_of_visual_line) (d_offset r)).

(** [off_t DataRegion::cursor_end_from(off_t pos)]. *)
Definition cursor_end_from (r : DataRegion) (pos : Z) : option Z :=
  assert! pos >=? d_offset r in
  assert! pos <=? off_add (d_offset r) (d_length r) in
  let visual_offset := off_sub (d_offset r) (first_line_pad_bytes r) in
  let? bytes_from_start_of_visual_line :=
    off_rem (off_sub pos visual_offset) (bytes_per_line_actual r) in
  if bytes_from_start_of_visual_line =? bytes_per_line_actual r - 1 then
    (* Already at the end of the line. *)
    Some pos
  else
    Some (Z.min
            (off_sub
               (off_add pos
                  (off_sub (bytes_per_line_actual r)
                     bytes_from_start_of_visual_line)) 1)
            (off_sub (off_add (d_offset r) (d_length r)) 1)).

(** [int DataRegion::cursor_column(off_t pos)]. *)
Definition cursor_column (r : DataRegion) (pos : Z) : option Z :=
  assert! pos >=? d_offset r in
  assert! pos <=? off_add (d_offset r) (d_length r) in
  let visual_offset := off_sub (d_offset r) (first_line_pad_bytes r) in
  let region_offset := off_sub pos visual_offset in
  let? column := off_rem region_offset (bytes_per_line_actual r) in
  Some (int_wrap t_int column).

(** [off_t DataRegion::first_row_nearest_column(int column)]. *)
Definition first_row_nearest_column (r : DataRegion) (column : Z) : option Z :=
  let visual_offset := off_sub (d_offset r) (first_line_pad_bytes r) in
  let offset_at_col := off_add visual_offset column in
  let offset_at_col := Z.max offset_at_col (d_offset r) in
  let offset_at_col :=
    Z.min offset_at_col
      (off_sub (off_add visual_offset (bytes_per_line_actual r)) 1) in
  let offset_at_col :=
    Z.min offset_at_col
      (off_sub (off_add (d_offset r) (d_length r)) (b2z (d_length r >? 0))) in
  assert! offset_at_col >=? d_offset r in
  assert! offset_at_col
          <? off_add (off_add (d_offset r) (d_length r)) (b2z (d_length r =? 0)) in
  Some offset_at_col.

(** [off_t DataRegion::last_row_nearest_column(int column)]. *)
Definition last_row_nearest_column (r : DataRegion) (column : Z) : option Z :=
  let? last_row_off := last_row_off r in
  let offset_at_col := off_add last_row_off column in
  let offset_at_col := Z.max offset_at_col (d_offset r) in
  let offset_at_col := Z.max offset_at_col last_row_off in
  let offset_at_col :=
    Z.min offset_at_col
      (off_sub (off_add (d_offset r) (d_length r)) (b2z (d_length r >? 0))) in
  assert! offset_at_col >=? d_offset r in
  assert! offset_at_col
          <? off_add (off_add (d_offset r) (d_length r)) (b2z (d_length r =? 0)) in
  Some offset_at_col.

(** [off_t DataRegion::nth_row_nearest_column(int64_t row, int column)]. *)
Definition nth_row_nearest_column (r : DataRegion) (row column : Z) : option Z :=
  assert! row >=? 0 in
  assert! row <? y_lines r in
  let visual_offset := off_sub (d_offset r) (first_line_pad_bytes r) in
  let offset_at_col :=
    off_add (off_add visual_offset column)
      (off_mul row (bytes_per_line_actual r)) in
  (* Clamp to data range. *)
  let offset_at_col := Z.max offset_at_col (d_offset r) in
  let offset_at_col :=
    Z.min offset_at_col
      (off_sub (off_add (d_offset r) (d_length r)) (b2z (d_length r >? 0))) in
  Some offset_at_col.

End Regions.

(** A region as its constructor and [calc_width] leave it: offset and length
    are not negative, a line holds at least one byte and the padding of the
    first line is shorter than a line. The data ends far below the largest
    [off_t], so that no sum of an offset and a line wraps around. *)
Definition well_formed (r : DataRegion) : Prop :=
  0 <= d_offset r /\ 0 <= d_length r /\
  d_offset r + d_length r <= 2 ^ 62 /\
  1 <= bytes_per_line_actual r <= INT_MAX /\
  0 <= first_line_pad_bytes r < bytes_per_line_actual r.

(** The row of the region that shows the byte at [pos], counted from the
    first row of the region. *)
Definition row_of (r : DataRegion) (pos : Z) : Z :=
  (pos - (d_offset r - first_line_pad_bytes r)) / bytes_per_line_actual r.

(** [pos] is the offset of a byte of the region. *)
Definition inside (r : DataRegion) (pos : Z) : Prop :=
  d_offset r <= pos < d_offset r + d_length r.

End DataRegion.

(** A region of the 100 bytes from offset 20 on, shown 16 to a line, which
    pads its first line by four columns; and a control with a font eight
    pixels wide that shows a document of 120 bytes. *)
Definition example_region : DataRegion.DataRegion :=
  {| DataRegion.indent_depth := 0; DataRegion.indent_final := 0;
     DataRegion.y_offset := 0; DataRegion.y_lines := 7;
     DataRegion.d_offset := 20; DataRegion.d_length := 100;
     DataRegion.offset_text_x := 0; DataRegion.hex_text_x := 80;
     DataRegion.ascii_text_x := 672;
     DataRegion.bytes_per_line_actual := 16;
     DataRegion.first_line_pad_bytes := 4 |}.

Definition example_ctrl : DataRegion.Ctrl :=
  {| DataRegion.buffer_length := 120; DataRegion.bytes_per_group := 4;
     DataRegion.show_ascii := true; DataRegion.offset_column_width := 80;
     DataRegion.virtual_width := 800;
     DataRegion.cursor_state := Document.CSTATE_HEX;
     DataRegion.hf_string_width_precomp := [8; 16; 24; 32] |}.

(* ===================================================================== *)
(** ** DocumentCtrl.cpp: the selection follows the cursor *)
(* ===================================================================== *)

Module Keys.

Import DocumentCtrl.

(** The end of the cursor-key branch of [DocumentCtrl::OnChar]: a cursor key
    has moved the cursor from [cursor_pos] to [new_cursor_pos]; with Shift
    held ([modifiers & wxMOD_SHIFT]) the selection follows the cursor,
    otherwise it is cleared. *)
Definition OnChar_selection (dc : DocumentCtrl) (shift : bool)
    (cursor_pos new_cursor_pos : Z) : option DocumentCtrl :=
  if shift then
    let selection_end := off_add (selection_off dc) (selection_length dc) in
    if new_cursor_pos <? cursor_pos then
      if selection_length dc >? 0 then
        if selection_off dc >=? cursor_pos then
          assert! selection_end >=? new_cursor_pos in
          Some (set_selection dc new_cursor_pos
                  (off_sub selection_end new_cursor_pos))
        else if new_cursor_pos <? selection_off dc then
          Some (set_selection dc new_cursor_pos
                  (off_sub (selection_off dc) new_cursor_pos))
        else
          Some (set_selection dc (selection_off dc)
                  (off_sub new_cursor_pos (selection_off dc)))
      else
        Some (set_selection dc new_cursor_pos
                (off_sub cursor_pos new_cursor_pos))
    else if new_cursor_pos >? cursor_pos then
      if selection_length dc >? 0 then
        if selection_off dc >=? cursor_pos then
          if new_cursor_pos >=? selection_end then
            Some (set_selection dc selection_end
                    (off_sub new_cursor_pos selection_end))
          else
            Some (set_selection dc new_cursor_pos
                    (off_sub selection_end new_cursor_pos))
        else
          Some (set_selection dc (selection_off dc)
                  (off_sub new_cursor_pos (selection_off dc)))
      else
        Some (set_selection dc cursor_pos
                (off_sub new_cursor_pos cursor_pos))
    else Some dc
  else Some (clear_selection dc).

(** The end of the selection that the cursor is not at: the place of the
    cursor itself while nothing is selected, the far end of the selection
    otherwise. *)
Definition anchor (dc : DocumentCtrl) (cursor_pos : Z) : Z :=
  if selection_length dc >? 0 then
    if selection_off dc >=? cursor_pos
    then selection_off dc + selection_length dc
    else selection_off dc
  else cursor_pos.

End Keys.

(* ===================================================================== *)
(** ** DocumentCtrl.cpp: scrolling *)
(* ===================================================================== *)

Module Scroll.

(** A scroll bar of the window: what [GetScrollRange] and [GetScrollThumb]
    return and what [SetScrollPos] sets. *)
Record Scrollbar := { range : Z; thumb : Z; position : Z }.

(** The members of [DocumentCtrl] that scrolling touches, and the repaints
    requested. *)
Record DocumentCtrl := {
  client_width : Z;
  visible_lines : Z;
  scroll_xoff : Z;
  scroll_yoff : Z;
  scroll_yoff_max : Z;
  scroll_ydiv : Z;
  vertical : Scrollbar;
  horizontal : Scrollbar;
  refreshes : nat
}.

(** A control with the controls that scroll with it: those reached through
    [linked_scroll_prev], nearest first, and those reached through
    [linked_scroll_next]. *)
Record Linked := {
  self : DocumentCtrl;
  linked_scroll_prev : list DocumentCtrl;
  linked_scroll_next : list DocumentCtrl
}.

Definition set_scroll_xoff (c : DocumentCtrl) (x : Z) : DocumentCtrl :=
  {| client_width := client_width c; visible_lines := visible_lines c;
     scroll_xoff := x; scroll_yoff := scroll_yoff c;
     scroll_yoff_max := scroll_yoff_max c; scroll_ydiv := scroll_ydiv c;
     vertical := vertical c; horizontal := horizontal c;
     refreshes := refreshes c |}.

Definition set_scroll_yoff_member (c : DocumentCtrl) (y : Z) : DocumentCtrl :=
  {| client_width := client_width c; visible_lines := visible_lines c;
     scroll_xoff := scroll_xoff c; scroll_yoff := y;
     scroll_yoff_max := scroll_yoff_max c; scroll_ydiv := scroll_ydiv c;
     vertical := vertical c; horizontal := horizontal c;
     refreshes := refreshes c |}.

(** [SetScrollPos(wxVERTICAL, p)] and [SetScrollPos(wxHORIZONTAL, p)]. *)
Definition SetScrollPos_vertical (c : DocumentCtrl) (p : Z) : DocumentCtrl :=
  {| client_width := client_width c; visible_lines := visible_lines c;
     scroll_xoff := scroll_xoff c; scroll_yoff := scroll_yoff c;
     scroll_yoff_max := scroll_yoff_max c; scroll_ydiv := scroll_ydiv c;
     vertical := {| range := range (vertical c); thumb := thumb (vertical c);
                    position := p |};
     horizontal := horizontal c; refreshes := refreshes c |}.

Definition SetScrollPos_horizontal (c : DocumentCtrl) (p : Z) : DocumentCtrl :=
  {| client_width := client_width c; visible_lines := visible_lines c;
     scroll_xoff := scroll_xoff c; scroll_yoff := scroll_yoff c;
     scroll_yoff_max := scroll_yoff_max c; scroll_ydiv := scroll_ydiv c;
     vertical := vertical c;
     horizontal := {| range := range (horizontal c);
                      thumb := thumb (horizontal c); position := p |};
     refreshes := refreshes c |}.

Definition Refresh (c : DocumentCtrl) : DocumentCtrl :=
  {| client_width := client_width c; visible_lines := visible_lines c;
     scroll_xoff := scroll_xoff c; scroll_yoff := scroll_yoff c;
     scroll_yoff_max := scroll_yoff_max c; scroll_ydiv := scroll_ydiv c;
     vertical := vertical c; horizontal := horizontal c;
     refreshes := S (refreshes c) |}.

(** [int] arithmetic. *)
Definition int_add (a b : Z) : Z := int_wrap t_int (a + b).
Definition int_sub (a b : Z) : Z := int_wrap t_int (a - b).

(** [_update_vscroll_pos], as far as it concerns the control itself: it
    moves the vertical scroll bar to where [scroll_yoff] is. *)
Definition _update_vscroll_pos_own (c : DocumentCtrl) : option DocumentCtrl :=
  let range := range (vertical c) in
  let thumb := thumb (vertical c) in
  if scroll_yoff c =? scroll_yoff_max c then
    (* Last line, overcome any rounding and set scroll bar to max. *)
    Some (SetScrollPos_vertical c (int_sub range thumb))
  else
    let? q := off_div (scroll_yoff c) (scroll_ydiv c) in
    let position := Z.min (int_wrap t_int q) (int_sub range thumb) in
    let position :=
      if (position =? 0) && (scroll_yoff c >? 0) then 1
      else if (position =? int_sub range thumb)
              && (scroll_yoff c <? scroll_yoff_max c)
      then int_sub position 1
      else position in
    assert! position >=? 0 in
    assert! position <=? int_sub range thumb in
    Some (SetScrollPos_vertical c position).

(** What [_update_vscroll_pos] does to one of the linked controls. *)
Definition follow (c other : DocumentCtrl) : option DocumentCtrl :=
  let other := set_scroll_yoff_member other (scroll_yoff c) in
  let other :=
    if scroll_yoff other >? scroll_yoff_max other
    then set_scroll_yoff_member other (scroll_yoff_max other)
    else other in
  let? other := _update_vscroll_pos_own other in
  Some (Refresh other).

(** [linked_scroll_visit_others] with that function. *)
Fixpoint visit (c : DocumentCtrl) (others : list DocumentCtrl)
    : option (list DocumentCtrl) :=
  match others with
  | [] => Some []
  | other :: others' =>
      let? other' := follow c other in
      let? others'' := visit c others' in
      Some (other' :: others'')
  end.

(** [void DocumentCtrl::_update_vscroll_pos(bool
    update_linked_scroll_others)]. *)
Definition _update_vscroll_pos (update_linked_scroll_others : bool)
    (l : Linked) : option Linked :=
  let? c := _update_vscroll_pos_own (self l) in
  if update_linked_scroll_others then
    let? prev := visit c (linked_scroll_prev l) in
    let? next := visit c (linked_scroll_next l) in
    Some {| self := c; linked_scroll_prev := prev;
            linked_scroll_next := next |}
  else
    Some {| self := c; linked_scroll_prev := linked_scroll_prev l;
            linked_scroll_next := linked_scroll_next l |}.

Section DefaultArgument.

(** The default of [update_linked_scroll_others], which [DocumentCtrl.hpp]
    declares. *)
Variable update_linked_scroll_others : bool.

(** [void DocumentCtrl::_make_line_visible(int64_t line)]. *)
Definition _make_line_visible (l : Linked) (line : Z) : option Linked :=
  let c := self l in
  let scrolled (c' : DocumentCtrl) : option Linked :=
    assert! scroll_yoff c' <=? line in
    assert! off_add (off_add (scroll_yoff c') (visible_lines c'))
                    (b2z (visible_lines c' =? 0)) >? line in
    let? l' := _update_vscroll_pos update_linked_scroll_others
                 {| self := c'; linked_scroll_prev := linked_scroll_prev l;
                    linked_scroll_next := linked_scroll_next l |} in
    Some {| self := Refresh (self l');
            linked_scroll_prev := linked_scroll_prev l';
            linked_scroll_next := linked_scroll_next l' |} in
  if scroll_yoff c >? line then
    (* Need to scroll up, line will be at the top. *)
    scrolled (set_scroll_yoff_member c line)
  else if off_add (scroll_yoff c) (visible_lines c) <=? line then
    (* Need to scroll down, line will be the last fully-visible one. *)
    scrolled (set_scroll_yoff_member c
                (off_add (off_sub line (visible_lines c))
                   (b2z (negb (visible_lines c =? 0)))))
  else
    (* Don't need to scroll. *)
    Some l.

End DefaultArgument.

(** [void DocumentCtrl::_make_x_visible(int x_px, int width_px)]. *)
Definition _make_x_visible (c : DocumentCtrl) (x_px width_px : Z)
    : option DocumentCtrl :=
  let scrolled (c' : DocumentCtrl) : option DocumentCtrl :=
    assert! scroll_xoff c' <=? x_px in
    assert! (int_add (scroll_xoff c') (client_width c')
               >=? int_add x_px width_px)
            || (width_px >? client_width c') in
    Some (Refresh (SetScrollPos_horizontal c' (scroll_xoff c'))) in
  if scroll_xoff c >? x_px then
    (* Scroll to the left *)
    scrolled (set_scroll_xoff c x_px)
  else if (int_add (scroll_xoff c) (client_width c) <? int_add x_px width_px)
          && (width_px <=? client_width c) then
    (* Scroll to the right. *)
    scrolled (set_scroll_xoff c
                (int_sub x_px (int_sub (client_width c) width_px)))
  else
    (* Don't need to scroll. *)
    Some c.

(** What a linked control looks like once it has followed [c]. *)
Definition follows (c o o' : DocumentCtrl) : Prop :=
  scroll_yoff o' = Z.min (scroll_yoff c) (scroll_yoff_max o) /\
  scroll_yoff_max o' = scroll_yoff_max o /\
  vertical o'
    = {| range := range (vertical o);
         thumb := thumb (vertical o);
         position := position (vertical o') |} /\
  0 <= position (vertical o')
    <= range (vertical o) - thumb (vertical o) /\
  refreshes o' = S (refreshes o).

(** The scroll bar that [_update_vscroll] sets up: the thumb is shorter
    than the range, and the last line of the range is a position that an
    [int] holds. *)
Definition scrollbar_ready (c : DocumentCtrl) : Prop :=
  1 <= scroll_ydiv c /\
  0 <= thumb (vertical c) /\
  thumb (vertical c) < range (vertical c) <= INT_MAX /\
  0 <= scroll_yoff_max c <= 2 ^ 62 /\
  scroll_yoff_max c <= INT_MAX * scroll_ydiv c.

End Scroll.

(* ===================================================================== *)
(** ** DocumentCtrl.cpp: wrapping text *)
(* ===================================================================== *)

Module Text.

Definition newline : Ascii.ascii := Ascii.ascii_of_nat 10.

(** [std::string::npos]. *)
Definition npos : Z := int_max t_size_t.

Definition size (text : list Ascii.ascii) : Z := Z.of_nat (List.length text).

(** The index of the first [c] in [l]. *)
Fixpoint index_of (c : Ascii.ascii) (l : list Ascii.ascii) : option nat :=
  match l with
  | [] => None
  | x :: l' =>
      if Ascii.eqb x c then Some O
      else match index_of c l' with
           | Some k => Some (S k)
           | None => None
           end
  end.

(** [text.find_first_of(c, at)]. *)
Definition find_first_of (text : list Ascii.ascii) (c : Ascii.ascii) (at_ : Z) : Z :=
  match index_of c (skipn (Z.to_nat at_) text) with
  | Some k => at_ + Z.of_nat k
  | None => npos
  end.

(** [text.substr(at, n)], for [at] up to the size of the text. *)
Definition substr (text : list Ascii.ascii) (at_ n : Z) : list Ascii.ascii :=
  firstn (Z.to_nat n) (skipn (Z.to_nat at_) text).

(** [size_t] arithmetic. *)
Definition size_add (a b : Z) : Z := int_wrap t_size_t (a + b).
Definition size_sub (a b : Z) : Z := int_wrap t_size_t (a - b).

(** The loop of [format_text]; every turn moves [at] forward, and [fuel]
    bounds the number of turns. *)
Fixpoint format_text_loop (fuel : nat) (text : list Ascii.ascii) (cols at_ : Z)
    (lines : list (list Ascii.ascii)) : option (list (list Ascii.ascii)) :=
  if at_ <? size text then
    match fuel with
    | O => None
    | S fuel' =>
        let newline_at := find_first_of text newline at_ in
        if negb (newline_at =? npos) && (newline_at <=? size_add at_ cols) then
          (* There is a newline within one row's worth of text of our
             current position. Add all the text up to it and continue from
             after it. *)
          format_text_loop fuel' text cols (size_add newline_at 1)
            (lines ++ [substr text at_ (size_sub newline_at at_)])
        else
          (* The line is too long, just wrap it at whatever character is on
             the boundary. *)
          format_text_loop fuel' text cols (size_add at_ cols)
            (lines ++ [substr text at_ cols])
    end
  else Some lines.

(** [std::list<wxString> DocumentCtrl::format_text(const wxString &text,
    unsigned int cols, unsigned int from_line, unsigned int max_lines)]. The
    loop is given a turn for every character of the text. *)
Definition format_text (text : list Ascii.ascii) (cols from_line max_lines : Z)
    : option (list (list Ascii.ascii)) :=
  assert! cols >? 0 in
  let? lines := format_text_loop (List.length text) text cols 0 [] in
  let lines :=
    skipn (Z.to_nat (Z.min from_line (Z.of_nat (List.length lines)))) lines in
  let lines :=
    firstn (Z.to_nat (Z.min max_lines (Z.of_nat (List.length lines)))) lines in
  Some lines.

(** The characters of [l] other than line breaks. *)
Definition unbroken (l : list Ascii.ascii) : list Ascii.ascii :=
  filter (fun c => negb (Ascii.eqb c newline)) l.


(** A line that a row of [cols] columns can show. *)
Definition fits (cols : Z) (line : list Ascii.ascii) : Prop :=
  size line <= cols /\ ~ In newline line.

End Text.

(* ===================================================================== *)
(** ** DocumentCtrl.cpp: the region of an offset *)
(* ===================================================================== *)

Module Regions.

(** [GenericDataRegion]: the bytes that a region shows. *)
Record GenericDataRegion := { d_offset : Z; d_length : Z }.

(** [data_regions] holds the regions in the order of the display;
    [data_regions_sorted] holds iterators into it, here indices, sorted by
    [d_offset]. *)
Record DocumentCtrl := {
  data_regions : list GenericDataRegion;
  data_regions_sorted : list nat
}.

Definition region_at (dc : DocumentCtrl) (i : nat) : GenericDataRegion :=
  nth i (data_regions dc) {| d_offset := 0; d_length := 0 |}.

(** [std::upper_bound] over [data_regions_sorted], a range sorted by
    [d_offset]: the place of the first element whose [d_offset] is greater
    than [offset]. *)
Fixpoint upper_bound (dc : DocumentCtrl) (sorted : list nat) (offset : Z) : nat :=
  match sorted with
  | [] => O
  | i :: sorted' =>
      if offset <? d_offset (region_at dc i) then O
      else S (upper_bound dc sorted' offset)
  end.

(** [_data_region_by_offset(off_t offset)]; the iterator returned is an
    index into [data_regions], and [None] is [data_regions.end()]. *)
Definition _data_region_by_offset (dc : DocumentCtrl) (offset : Z) : option nat :=
  let region := upper_bound dc (data_regions_sorted dc) offset in
  match region with
  | O =>
      (* No region encompassing the requested offset. *)
      None
  | S region' =>
      let i := nth region' (data_regions_sorted dc) O in
      if (d_offset (region_at dc i) <=? offset)
         && (off_add (off_add (d_offset (region_at dc i))
                        (d_length (region_at dc i)))
               (b2z (Nat.eqb i (pred (List.length (data_regions dc)))))
             >? offset)
      then Some i
      else None
  end.

(** [data_regions_sorted] as [replace_all_regions] builds it from regions
    that do not overlap: it names every region once, and each region ends
    where the next one begins or before. *)
Fixpoint chained (dc : DocumentCtrl) (sorted : list nat) : Prop :=
  match sorted with
  | [] => True
  | i :: sorted' =>
      (i < List.length (data_regions dc))%nat /\
      0 <= d_offset (region_at dc i) /\ 0 <= d_length (region_at dc i) /\
      d_offset (region_at dc i) + d_length (region_at dc i) <= 2 ^ 62 /\
      match sorted' with
      | [] => True
      | j :: _ =>
          d_offset (region_at dc i) + d_length (region_at dc i)
            <= d_offset (region_at dc j)
      end /\
      chained dc sorted'
  end.

End Regions.

(** A control that shows 20 of 1000 lines from line 100 on, and scrolls
    together with a control of 500 lines. *)
Definition example_view : Scroll.DocumentCtrl :=
  {| Scroll.client_width := 640; Scroll.visible_lines := 20;
     Scroll.scroll_xoff := 0; Scroll.scroll_yoff := 100;
     Scroll.scroll_yoff_max := 980; Scroll.scroll_ydiv := 1;
     Scroll.vertical := {| Scroll.range := 1000; Scroll.thumb := 20;
                           Scroll.position := 100 |};
     Scroll.horizontal := {| Scroll.range := 800; Scroll.thumb := 640;
                             Scroll.position := 0 |};
     Scroll.refreshes := 0 |}.

Definition example_linked : Scroll.Linked :=
  {| Scroll.self := example_view;
     Scroll.linked_scroll_prev :=
       [ {| Scroll.client_width := 640; Scroll.visible_lines := 20;
            Scroll.scroll_xoff := 0; Scroll.scroll_yoff := 100;
            Scroll.scroll_yoff_max := 480; Scroll.scroll_ydiv := 1;
            Scroll.vertical := {| Scroll.range := 500; Scroll.thumb := 20;
                                  Scroll.position := 100 |};
            Scroll.horizontal := {| Scroll.range := 800; Scroll.thumb := 640;
                                    Scroll.position := 0 |};
            Scroll.refreshes := 0 |} ];
     Scroll.linked_scroll_next := [] |}.

(** Two lines of text, the second one longer than four columns. *)
Definition example_text : list Ascii.ascii :=
  String.list_ascii_of_string "one" ++ [Text.newline]
  ++ String.list_ascii_of_string "two three".

(** Three regions that follow each other, with a gap before the third. *)
Definition example_regions : Regions.DocumentCtrl :=
  {| Regions.data_regions :=
       [ {| Regions.d_offset := 0; Regions.d_length := 16 |};
         {| Regions.d_offset := 16; Regions.d_length := 32 |};
         {| Regions.d_offset := 100; Regions.d_length := 20 |} ];
     Regions.data_regions_sorted := [0%nat; 1%nat; 2%nat] |}.

(* ===================================================================== *)
(** ** CharacterFinder.cpp: the table and the thread that fills it *)
(* ===================================================================== *)

Module FinderThread.

(** Why a call or a turn of the thread does not come to its end: an [assert]
    fails, a division by zero or a store outside [t1] is undefined, or a
    loop makes no progress. *)
Inductive Fault := AssertFailed | DivisionByZero | OutsideArray | NoProgress.

Inductive run (A : Type) : Type :=
| Done (a : A)
| Stopped (why : Fault).
Arguments Done {A} a.
Arguments Stopped {A} why.

Section Thread.

(** The collaborators of the finder, as for [get_char_range], with the
    constructor and [clear()] of the cache and the constant
    [MAX_CHAR_SIZE] of [CharacterEncoder.hpp]. *)
Variable Document : Type.
Variable get_range : Document -> Z -> option (Z * Z * string).
Variable read_data : Document -> Z -> Z -> option (list byte).
Variable by_name : string -> option CharacterFinder.CharacterEncoder.
Variable ascii_encoder : CharacterFinder.CharacterEncoder.
Variable LRUCache : Type.
Variable cache_new : Z -> LRUCache.
Variable cache_clear : LRUCache -> LRUCache.
Variable MAX_CHAR_SIZE : Z.

Definition Finder : Type := CharacterFinder.CharacterFinder Document LRUCache.

(** The local variables of the thread [t1_worker]. *)
Record Worker := {
  idx : Z;
  base_off : Z;
  target_off : Z;
  encoding_base : Z;
  encoder : CharacterFinder.CharacterEncoder
}.

(** [t1_worker]: not joinable, running its loop, or past its loop and not
    joined yet. *)
Inductive Thread :=
| NotJoinable
| Running (w : Worker)
| Exited.

Record State := { finder : Finder; t1_worker : Thread }.

Definition with_flags (cf : Finder) (filling done : bool) : Finder :=
  {| CharacterFinder.document := CharacterFinder.document _ _ cf;
     CharacterFinder.base := CharacterFinder.base _ _ cf;
     CharacterFinder.length := CharacterFinder.length _ _ cf;
     CharacterFinder.chunk_size := CharacterFinder.chunk_size _ _ cf;
     CharacterFinder.t1_filling := filling;
     CharacterFinder.t1_done := done;
     CharacterFinder.t1 := CharacterFinder.t1 _ _ cf;
     CharacterFinder.t1_size := CharacterFinder.t1_size _ _ cf;
     CharacterFinder.t2 := CharacterFinder.t2 _ _ cf |}.

Definition with_t1 (cf : Finder) (t1 : list Z) : Finder :=
  {| CharacterFinder.document := CharacterFinder.document _ _ cf;
     CharacterFinder.base := CharacterFinder.base _ _ cf;
     CharacterFinder.length := CharacterFinder.length _ _ cf;
     CharacterFinder.chunk_size := CharacterFinder.chunk_size _ _ cf;
     CharacterFinder.t1_filling := CharacterFinder.t1_filling _ _ cf;
     CharacterFinder.t1_done := CharacterFinder.t1_done _ _ cf;
     CharacterFinder.t1 := t1;
     CharacterFinder.t1_size := CharacterFinder.t1_size _ _ cf;
     CharacterFinder.t2 := CharacterFinder.t2 _ _ cf |}.

(** [a[i] = v] on an array held as a list. *)
Fixpoint store (a : list Z) (i : nat) (v : Z) : list Z :=
  match a, i with
  | [], _ => []
  | _ :: a', O => v :: a'
  | x :: a', S i' => x :: store a' i' v
  end.

(** [t1[i] = v]: outside the [t1_size] elements of the array the store is
    undefined. *)
Definition t1_store (cf : Finder) (i v : Z) : run Finder :=
  if (0 <=? i) && (i <? CharacterFinder.t1_size _ _ cf)
     && (i <? Z.of_nat (List.length (CharacterFinder.t1 _ _ cf)))
  then Done (with_t1 cf (store (CharacterFinder.t1 _ _ cf) (Z.to_nat i) v))
  else Stopped OutsideArray.

(** The last statements of the thread: [t1_filling = false; t1_done =
    true]. *)
Definition worker_exit (st : State) : State :=
  {| finder := with_flags (finder st) false true; t1_worker := Exited |}.

(** What the inner loop of the thread finds. *)
Inductive Scan := Found (at_offset : Z) | NotFound | Endless.

(** The inner loop of the thread: it decodes characters from [data] until
    one ends at or after [target_off]; [fuel] bounds the turns. *)
Fixpoint worker_scan (fuel : nat) (encoder : CharacterFinder.CharacterEncoder)
    (data : list byte) (limit target_off at_offset data_off : Z) : Scan :=
  if (at_offset <? limit)
     && (int_wrap t_size_t data_off <? Z.of_nat (List.length data)) then
    match fuel with
    | O => Endless
    | S fuel' =>
        let ec := CharacterFinder.decode encoder (skipn (Z.to_nat data_off) data) in
        let char_size :=
          int_wrap t_int
            (if fst ec then snd ec else CharacterFinder.word_size encoder) in
        let at_offset := off_add at_offset char_size in
        let data_off := off_add data_off char_size in
        if (at_offset >=? target_off)
           && (off_add at_offset char_size <=? limit)
        then Found at_offset
        else worker_scan fuel' encoder data limit target_off at_offset data_off
    end
  else NotFound.

(** One turn of the outer loop of the thread, or its exit. The thread of
    the source runs beside the caller; here its turns are steps of the
    state, which may come between any two calls. *)
Definition worker_step (st : State) : run State :=
  match t1_worker st with
  | Running w =>
      let cf := finder st in
      let limit :=
        off_add (CharacterFinder.base _ _ cf) (CharacterFinder.length _ _ cf) in
      if CharacterFinder.t1_filling _ _ cf && (target_off w <? limit) then
        if negb (target_off w >=? base_off w) then Stopped AssertFailed else
        match read_data (CharacterFinder.document _ _ cf) (base_off w)
                (off_add (off_sub (target_off w) (base_off w)) MAX_CHAR_SIZE) with
        | None => Done (worker_exit st)
        | Some data =>
            if CharacterFinder.word_size (encoder w) =? 0
            then Stopped DivisionByZero else
            let at_offset :=
              off_sub (base_off w)
                (Z.rem (off_sub (base_off w) (encoding_base w))
                   (CharacterFinder.word_size (encoder w))) in
            match worker_scan (S (List.length data)) (encoder w) data limit
                    (target_off w) at_offset 0 with
            | Found at_offset =>
                match t1_store cf (idx w) at_offset with
                | Done cf' =>
                    Done {| finder := cf';
                            t1_worker :=
                              Running
                                {| idx := int_wrap t_size_t (idx w + 1);
                                   base_off := at_offset;
                                   target_off :=
                                     off_add (target_off w)
                                       (CharacterFinder.chunk_size _ _ cf);
                                   encoding_base := encoding_base w;
                                   encoder := encoder w |} |}
                | Stopped why => Stopped why
                end
            | NotFound => Done (worker_exit st)
            | Endless => Stopped NoProgress
            end
        end
      else Done (worker_exit st)
  | _ => Done st
  end.

Fixpoint worker_steps (n : nat) (st : State) : run State :=
  match n with
  | O => Done st
  | S n' =>
      match worker_step st with
      | Done st' => worker_steps n' st'
      | Stopped why => Stopped why
      end
  end.

(** [void CharacterFinder::start_worker()]. *)
Definition start_worker (st : State) : run State :=
  match t1_worker st with
  | NotJoinable =>
      let cf := finder st in
      if CharacterFinder.t1_size _ _ cf =? 0 then
        Done {| finder := with_flags cf false true; t1_worker := NotJoinable |}
      else
        let cf := with_flags cf true (CharacterFinder.t1_done _ _ cf) in
        match get_range (CharacterFinder.document _ _ cf)
                (CharacterFinder.base _ _ cf) with
        | None => Stopped AssertFailed
        | Some (encoding_base, _, type_name) =>
            if negb (encoding_base <=? CharacterFinder.base _ _ cf)
            then Stopped AssertFailed else
            match (if String.eqb type_name EmptyString
                   then Some ascii_encoder else by_name type_name) with
            | None => Stopped AssertFailed
            | Some encoder =>
                Done {| finder := cf;
                        t1_worker :=
                          Running
                            {| idx := 0;
                               base_off := CharacterFinder.base _ _ cf;
                               target_off :=
                                 off_add (CharacterFinder.base _ _ cf)
                                   (CharacterFinder.chunk_size _ _ cf);
                               encoding_base := encoding_base;
                               encoder := encoder |} |}
            end
        end
  | _ => Done st
  end.

(** [void CharacterFinder::stop_worker()]: a thread that runs finds
    [t1_filling] cleared at the next test of its loop and leaves. *)
Definition stop_worker (st : State) : State :=
  match t1_worker st with
  | NotJoinable => st
  | Running _ =>
      {| finder := with_flags (finder st) false true;
         t1_worker := NotJoinable |}
  | Exited =>
      {| finder :=
           with_flags (finder st) false (CharacterFinder.t1_done _ _ (finder st));
         t1_worker := NotJoinable |}
  end.

(** The loop of [reset_from]: [t1[i] = -1] for [i] from [first] up to
    [t1_size]. *)
Fixpoint reset_slots (n : nat) (cf : Finder) (i : Z) : run Finder :=
  match n with
  | O => Done cf
  | S n' =>
      match t1_store cf i (-1) with
      | Done cf' => reset_slots n' cf' (i + 1)
      | Stopped why => Stopped why
      end
  end.

(** [void CharacterFinder::reset_from(off_t offset)]. *)
Definition reset_from (st : State) (offset : Z) : run State :=
  let cf := finder st in
  if (offset <? CharacterFinder.base _ _ cf)
     || (offset >=? off_add (CharacterFinder.base _ _ cf)
                      (CharacterFinder.length _ _ cf))
  then
    (* Not in range tracked by this CharacterFinder. *)
    Done st
  else
    let st := stop_worker st in
    let cf := finder st in
    if CharacterFinder.chunk_size _ _ cf =? 0 then Stopped DivisionByZero else
    let first :=
      Z.max (off_sub (Z.quot (off_sub offset (CharacterFinder.base _ _ cf))
                        (CharacterFinder.chunk_size _ _ cf)) 1) 0 in
    match reset_slots (Z.to_nat (CharacterFinder.t1_size _ _ cf - first)) cf first with
    | Stopped why => Stopped why
    | Done cf =>
        let cf :=
          {| CharacterFinder.document := CharacterFinder.document _ _ cf;
             CharacterFinder.base := CharacterFinder.base _ _ cf;
             CharacterFinder.length := CharacterFinder.length _ _ cf;
             CharacterFinder.chunk_size := CharacterFinder.chunk_size _ _ cf;
             CharacterFinder.t1_filling := CharacterFinder.t1_filling _ _ cf;
             CharacterFinder.t1_done := false;
             CharacterFinder.t1 := CharacterFinder.t1 _ _ cf;
             CharacterFinder.t1_size := CharacterFinder.t1_size _ _ cf;
             CharacterFinder.t2 := cache_clear (CharacterFinder.t2 _ _ cf) |} in
        start_worker {| finder := cf; t1_worker := t1_worker st |}
    end.

(** [CharacterFinder::CharacterFinder(document, base, length, chunk_size,
    lru_cache_size)]; [uninit] gives the values that the new array [t1]
    holds before anything is stored in it. *)
Definition new (document : Document) (base length chunk_size lru_cache_size : Z)
    (uninit : nat -> Z) : run State :=
  if chunk_size =? 0 then Stopped DivisionByZero else
  let t1_size := Z.quot (int_wrap t_size_t length) chunk_size in
  let t1_size :=
    if (length >? 0) && (Z.rem (int_wrap t_size_t length) chunk_size =? 0)
    then
      (* If length is aligned to chunk_size, don't have an empty chunk at
         the end. *)
      int_wrap t_size_t (t1_size - 1)
    else t1_size in
  reset_from
    {| finder :=
         {| CharacterFinder.document := document;
            CharacterFinder.base := base;
            CharacterFinder.length := length;
            CharacterFinder.chunk_size := chunk_size;
            CharacterFinder.t1_filling := false;
            CharacterFinder.t1_done := false;
            CharacterFinder.t1 := map uninit (seq 0 (Z.to_nat t1_size));
            CharacterFinder.t1_size := t1_size;
            CharacterFinder.t2 := cache_new lru_cache_size |};
       t1_worker := NotJoinable |}
    base.

(** The encoder that [start_worker] picks for the type of the data at
    [base], if its assertions hold. *)
Definition encoder_at (document : Document) (base : Z)
    : option CharacterFinder.CharacterEncoder :=
  match get_range document base with
  | Some (encoding_base, _, type_name) =>
      if encoding_base <=? base then
        if String.eqb type_name EmptyString
        then Some ascii_encoder else by_name type_name
      else None
  | None => None
  end.

(** The table as the constructor sizes it, one slot for every chunk but
    the last, over a range that lies far below the largest [off_t]. *)
Definition table_sized (cf : Finder) : Prop :=
  0 < CharacterFinder.chunk_size _ _ cf <= 2 ^ 62 /\
  0 <= CharacterFinder.base _ _ cf /\
  0 < CharacterFinder.length _ _ cf /\
  CharacterFinder.base _ _ cf + CharacterFinder.length _ _ cf <= 2 ^ 62 /\
  CharacterFinder.t1_size _ _ cf
  = (CharacterFinder.length _ _ cf - 1) / CharacterFinder.chunk_size _ _ cf /\
  Z.of_nat (List.length (CharacterFinder.t1 _ _ cf))
  = CharacterFinder.t1_size _ _ cf.

(** Every slot of the table is empty or holds an offset at or after the
    start of the chunk it stands for. *)
Definition slots_placed (cf : Finder) : Prop :=
  forall i, 0 <= i < CharacterFinder.t1_size _ _ cf ->
    CharacterFinder.t1_load _ _ cf i = -1 \/
    CharacterFinder.base _ _ cf + (i + 1) * CharacterFinder.chunk_size _ _ cf
      <= CharacterFinder.t1_load _ _ cf i.

(** Every slot of the table is filled: it holds an offset of the document
    that lies in the chunk after the one it stands for. *)
Definition slots_filled (cf : Finder) : Prop :=
  forall i, 0 <= i < CharacterFinder.t1_size _ _ cf ->
    CharacterFinder.base _ _ cf + (i + 1) * CharacterFinder.chunk_size _ _ cf
      <= CharacterFinder.t1_load _ _ cf i
      < CharacterFinder.base _ _ cf + (i + 2) * CharacterFinder.chunk_size _ _ cf /\
    CharacterFinder.t1_load _ _ cf i
      < CharacterFinder.base _ _ cf + CharacterFinder.length _ _ cf.

(** The thread works on the chunk that its index names. *)
Definition thread_invariant (st : State) : Prop :=
  table_sized (finder st) /\ slots_placed (finder st) /\
  match t1_worker st with
  | Running w =>
      0 <= idx w /\
      target_off w
      = CharacterFinder.base _ _ (finder st)
        + (idx w + 1) * CharacterFinder.chunk_size _ _ (finder st)
  | _ => True
  end.

End Thread.

(** The size of the character that [encoder] reads at the front of
    [bytes], as the loops of the finder compute it. *)
Definition char_size (encoder : CharacterFinder.CharacterEncoder)
    (bytes : list byte) : Z :=
  if fst (CharacterFinder.decode encoder bytes)
  then snd (CharacterFinder.decode encoder bytes)
  else CharacterFinder.word_size encoder.

(** Offsets in increasing order. *)
Fixpoint increasing (l : list Z) : Prop :=
  match l with
  | x :: (y :: _) as l' => x < y /\ increasing l'
  | _ => True
  end.

End FinderThread.

(** An encoder of characters of one byte each, a document whose bytes all
    have the type without a name, and a thread at work on the first chunk
    of the bytes [[16, 48)]. *)
Definition example_encoder : CharacterFinder.CharacterEncoder :=
  {| CharacterFinder.word_size := 1;
     CharacterFinder.decode := fun _ => (true, 1) |}.

Definition example_types (_ : unit) (_ : Z) : option (Z * Z * string) :=
  Some (0, 64, EmptyString).

Definition example_data (_ : unit) (_ : Z) (length : Z) : option (list byte) :=
  Some (repeat x00 (Z.to_nat length)).

Definition example_thread : FinderThread.State unit unit :=
  {| FinderThread.finder :=
       {| CharacterFinder.document := tt; CharacterFinder.base := 16;
          CharacterFinder.length := 32; CharacterFinder.chunk_size := 8;
          CharacterFinder.t1_filling := true; CharacterFinder.t1_done := false;
          CharacterFinder.t1 := [-1; -1; -1]; CharacterFinder.t1_size := 3;
          CharacterFinder.t2 := tt |};
     FinderThread.t1_worker :=
       FinderThread.Running
         {| FinderThread.idx := 0; FinderThread.base_off := 16;
            FinderThread.target_off := 24; FinderThread.encoding_base := 0;
            FinderThread.encoder := example_encoder |} |}.

(** The finder of the example above with its table filled and its thread
    at its end. *)
Definition example_filled : FinderThread.State unit unit :=
  {| FinderThread.finder := example_finder;
     FinderThread.t1_worker := FinderThread.Exited |}.

(** A cache that keeps every element stored in it, and the finder of the
    example with such a cache, empty. *)
Definition example_cache_get (c : list (Z * list Z)) (k : Z)
    : option (list Z) * list (Z * list Z) :=
  (option_map snd (find (fun kv => fst kv =? k) c), c).

Definition example_cache_set (c : list (Z * list Z)) (k : Z) (v : list Z)
    : list (Z * list Z) :=
  (k, v) :: c.

Definition example_caching : CharacterFinder.CharacterFinder unit (list (Z * list Z)) :=
  {| CharacterFinder.document := tt; CharacterFinder.base := 16;
     CharacterFinder.length := 32; CharacterFinder.chunk_size := 8;
     CharacterFinder.t1_filling := false; CharacterFinder.t1_done := true;
     CharacterFinder.t1 := [24; 32; 40]; CharacterFinder.t1_size := 3;
     CharacterFinder.t2 := [] |}.

(* ===================================================================== *)
(** ** DocumentCtrl.cpp: from bytes to pixels and back *)
(* ===================================================================== *)

Module Pointer.

Import DataRegion.

Definition t_uint64 : IntType := {| it_signed := false; it_bits := 64 |}.

(** [GenericDataRegion::ScreenArea], the values used below. *)
Inductive ScreenArea := SA_NONE | SA_HEX | SA_ASCII | SA_SPECIAL.

(** [DocumentCtrl::Rect]: [x] and [w] in pixels, [y] and [h] in lines. *)
Record Rect := { x : Z; y : Z; w : Z; h : Z }.

Section Pixels.

Variable PRECOMP_HF_STRING_WIDTH_TO : Z.
Variable GetTextExtent : Z -> Z.

Definition hf_string_width : Ctrl -> Z -> option Z :=
  DataRegion.hf_string_width PRECOMP_HF_STRING_WIDTH_TO GetTextExtent.

Definition hf_char_width : Ctrl -> option Z :=
  DataRegion.hf_char_width PRECOMP_HF_STRING_WIDTH_TO GetTextExtent.

(** The loop of [hf_char_at_x] from [i] on. The loop of the source has no
    bound; [fuel] bounds the turns here, and [None] tells that the call met
    undefined behaviour in [hf_string_width] or found no character within
    [fuel] turns. *)
Fixpoint hf_char_at_x_from (fuel : nat) (doc : Ctrl) (x_px i : Z) : option Z :=
  match fuel with
  | O => None
  | S fuel' =>
      let? w := hf_string_width doc (int_wrap t_int (i + 1)) in
      if w >? x_px then Some i
      else hf_char_at_x_from fuel' doc x_px (int_wrap t_int (i + 1))
  end.

(** [int DocumentCtrl::hf_char_at_x(int x_px)]. *)
Definition hf_char_at_x (fuel : nat) (doc : Ctrl) (x_px : Z) : option Z :=
  hf_char_at_x_from fuel doc x_px 0.

(** [Rect DataRegion::calc_offset_bounds(off_t offset, DocumentCtrl
    *doc_ctrl)]. *)
Definition calc_offset_bounds (r : DataRegion) (doc_ctrl : Ctrl) (offset : Z)
    : option Rect :=
  assert! offset >=? d_offset r in
  assert! offset <=? off_add (d_offset r) (d_length r) in
  let region_offset :=
    off_sub offset (off_sub (d_offset r) (first_line_pad_bytes r)) in
  let? q := off_div region_offset (bytes_per_line_actual r) in
  let region_line := int_wrap t_uint64 (off_add (y_offset r) q) in
  let? line_off := off_rem region_offset (bytes_per_line_actual r) in
  match cursor_state doc_ctrl with
  | Document.CSTATE_ASCII =>
      let? sw := hf_string_width doc_ctrl (int_wrap t_int line_off) in
      let byte_x := int_wrap t_int (ascii_text_x r + sw) in
      let? cw := hf_char_width doc_ctrl in
      Some {| x := byte_x; y := region_line; w := cw; h := 1 |}
  | _ =>
      let bytes_per_group := bytes_per_group doc_ctrl in
      let? g := off_div line_off bytes_per_group in
      let? sw :=
        hf_string_width doc_ctrl
          (int_wrap t_int (off_add (off_mul line_off 2) g)) in
      let line_x := int_wrap t_int (hex_text_x r + sw) in
      let? w2 := hf_string_width doc_ctrl 2 in
      Some {| x := line_x; y := region_line; w := w2; h := 1 |}
  end.

(** [(d_offset - first_line_pad_bytes) + ((off_t)(bytes_per_line_actual) *
    mouse_y_lines)]: the product and the sum are computed in [uint64_t],
    the type of [mouse_y_lines], and the result is stored in an [off_t]. *)
Definition line_data_begin (r : DataRegion) (mouse_y_lines : Z) : Z :=
  off_wrap
    (int_wrap t_uint64
       (int_wrap t_uint64 (off_sub (d_offset r) (first_line_pad_bytes r))
        + int_wrap t_uint64
            (int_wrap t_uint64 (bytes_per_line_actual r) * mouse_y_lines))).

(** [std::min((line_data_begin + bytes_per_line_actual), (d_offset +
    d_length))]. *)
Definition line_data_end (r : DataRegion) (line_data_begin : Z) : Z :=
  Z.min (off_add line_data_begin (bytes_per_line_actual r))
        (off_add (d_offset r) (d_length r)).

(** [(doc.bytes_per_group * 2) + 1] in [unsigned int]. *)
Definition group_chars (doc : Ctrl) : Z :=
  int_wrap t_uint (int_wrap t_uint (bytes_per_group doc * 2) + 1).

(** [char_offset - (char_offset / ((doc.bytes_per_group * 2) + 1))],
    halved: the byte of the line that the character belongs to. *)
Definition line_offset_bytes (doc : Ctrl) (char_offset : Z) : option Z :=
  if group_chars doc =? 0 then None else
  let char_offset_sub_spaces :=
    int_wrap t_uint (char_offset - char_offset / group_chars doc) in
  Some (char_offset_sub_spaces / 2).

(** [off_t DataRegion::offset_at_xy_hex(DocumentCtrl &doc, int mouse_x_px,
    uint64_t mouse_y_lines)]. *)
Definition offset_at_xy_hex (fuel : nat) (r : DataRegion) (doc : Ctrl)
    (mouse_x_px mouse_y_lines : Z) : option Z :=
  if mouse_x_px <? hex_text_x r then Some (-1) else
  let mouse_x_px := int_wrap t_int (mouse_x_px - hex_text_x r) in
  let line_data_begin := line_data_begin r mouse_y_lines in
  let line_data_end := line_data_end r line_data_begin in
  let? c := hf_char_at_x fuel doc mouse_x_px in
  let char_offset := int_wrap t_uint c in
  if group_chars doc =? 0 then None else
  if int_wrap t_uint (char_offset + 1) mod group_chars doc =? 0 then
    (* Click was over a space between byte groups. *)
    Some (-1)
  else
    let? line_offset_bytes := line_offset_bytes doc char_offset in
    let clicked_offset := off_add line_data_begin line_offset_bytes in
    if clicked_offset <? d_offset r then
      (* Clicked in padding on first line. *)
      Some (-1)
    else if clicked_offset <? line_data_end then
      (* Clicked on a byte *)
      Some clicked_offset
    else
      (* Clicked past the end of the line *)
      Some (-1).

(** [off_t DataRegion::offset_at_xy_ascii(DocumentCtrl &doc, int
    mouse_x_px, uint64_t mouse_y_lines)]. *)
Definition offset_at_xy_ascii (fuel : nat) (r : DataRegion) (doc : Ctrl)
    (mouse_x_px mouse_y_lines : Z) : option Z :=
  if negb (show_ascii doc) || (mouse_x_px <? ascii_text_x r) then Some (-1) else
  let mouse_x_px := int_wrap t_int (mouse_x_px - ascii_text_x r) in
  let line_data_begin := line_data_begin r mouse_y_lines in
  let line_data_end := line_data_end r line_data_begin in
  let? c := hf_char_at_x fuel doc mouse_x_px in
  let char_offset := int_wrap t_uint c in
  let clicked_offset := off_add line_data_begin char_offset in
  if clicked_offset <? d_offset r then
    (* Clicked in padding on first line. *)
    Some (-1)
  else if clicked_offset <? line_data_end then
    (* Clicked on a character *)
    Some clicked_offset
  else
    (* Clicked past the end of the line *)
    Some (-1).

(** [off_t DataRegion::offset_near_xy_hex(DocumentCtrl &doc, int
    mouse_x_px, uint64_t mouse_y_lines)]. *)
Definition offset_near_xy_hex (fuel : nat) (r : DataRegion) (doc : Ctrl)
    (mouse_x_px mouse_y_lines : Z) : option Z :=
  let line_data_begin := line_data_begin r mouse_y_lines in
  let line_data_end := line_data_end r line_data_begin in
  if mouse_x_px <? hex_text_x r then
    (* Mouse is in offset area, return offset of last byte of previous
       line. *)
    Some (off_sub line_data_begin 1)
  else
    let mouse_x_px := int_wrap t_int (mouse_x_px - hex_text_x r) in
    let? c := hf_char_at_x fuel doc mouse_x_px in
    let char_offset := int_wrap t_uint c in
    let? line_offset_bytes := line_offset_bytes doc char_offset in
    let clicked_offset := off_add line_data_begin line_offset_bytes in
    if clicked_offset <? d_offset r then
      (* Mouse is in padding area on first line, return offset of last byte
         of previous line. *)
      Some (off_sub (d_offset r) 1)
    else if clicked_offset <? line_data_end then
      (* Mouse is on a byte. *)
      Some clicked_offset
    else
      (* Mouse is past end of line, return last byte of this line. *)
      Some (off_sub line_data_end 1).

(** [off_t DataRegion::offset_near_xy_ascii(DocumentCtrl &doc, int
    mouse_x_px, uint64_t mouse_y_lines)]. *)
Definition offset_near_xy_ascii (fuel : nat) (r : DataRegion) (doc : Ctrl)
    (mouse_x_px mouse_y_lines : Z) : option Z :=
  let line_data_begin := line_data_begin r mouse_y_lines in
  let line_data_end := line_data_end r line_data_begin in
  if negb (show_ascii doc) || (mouse_x_px <? ascii_text_x r) then
    (* Mouse is left of ASCII area, return last byte of previous line. *)
    Some (off_sub line_data_begin 1)
  else
    let mouse_x_px := int_wrap t_int (mouse_x_px - ascii_text_x r) in
    let? c := hf_char_at_x fuel doc mouse_x_px in
    let char_offset := int_wrap t_uint c in
    let clicked_offset := off_add line_data_begin char_offset in
    if clicked_offset <? d_offset r then
      (* Mouse is in padding area on first line, return offset of last byte
         of previous line. *)
      Some (off_sub (d_offset r) 1)
    else if clicked_offset <? line_data_end then
      (* Mouse is on a character. *)
      Some clicked_offset
    else
      (* Mouse is beyond end of line, return last byte of this line. *)
      Some (off_sub line_data_end 1).

(** [std::make_pair(off, (off >= 0 ? area : SA_NONE))]. *)
Definition in_area (area : ScreenArea) (off : Z) : Z * ScreenArea :=
  (off, if off >=? 0 then area else SA_NONE).

(** [std::pair<off_t, ScreenArea> DataRegion::offset_at_xy(DocumentCtrl
    &doc, int mouse_x_px, int64_t mouse_y_lines)]. *)
Definition offset_at_xy (fuel : nat) (r : DataRegion) (doc : Ctrl)
    (mouse_x_px mouse_y_lines : Z) : option (Z * ScreenArea) :=
  if show_ascii doc && (mouse_x_px >=? ascii_text_x r) then
    let? off :=
      offset_at_xy_ascii fuel r doc mouse_x_px (int_wrap t_uint64 mouse_y_lines) in
    Some (in_area SA_ASCII off)
  else if mouse_x_px >=? hex_text_x r then
    let? off :=
      offset_at_xy_hex fuel r doc mouse_x_px (int_wrap t_uint64 mouse_y_lines) in
    Some (in_area SA_HEX off)
  else Some (-1, SA_NONE).

(** [std::pair<off_t, ScreenArea> DataRegion::offset_near_xy(DocumentCtrl
    &doc, int mouse_x_px, int64_t mouse_y_lines, ScreenArea type_hint)]. *)
Definition offset_near_xy (fuel : nat) (r : DataRegion) (doc : Ctrl)
    (mouse_x_px mouse_y_lines : Z) (type_hint : ScreenArea)
    : option (Z * ScreenArea) :=
  let y := int_wrap t_uint64 mouse_y_lines in
  match type_hint with
  | SA_ASCII =>
      if show_ascii doc then
        let? off := offset_near_xy_ascii fuel r doc mouse_x_px y in
        Some (in_area SA_ASCII off)
      else Some (-1, SA_NONE)
  | SA_HEX =>
      let? off := offset_near_xy_hex fuel r doc mouse_x_px y in
      Some (in_area SA_HEX off)
  | _ =>
      if show_ascii doc && (mouse_x_px >=? ascii_text_x r) then
        let? off := offset_near_xy_ascii fuel r doc mouse_x_px y in
        Some (in_area SA_ASCII off)
      else if mouse_x_px >=? hex_text_x r then
        let? off := offset_near_xy_hex fuel r doc mouse_x_px y in
        Some (in_area SA_HEX off)
      else Some (-1, SA_NONE)
  end.

(** The font has a width for every string of up to [chars] characters, a
    longer string is wider, and none is wider than [width]. *)
Definition font_grows (doc : Ctrl) (chars width : Z) : Prop :=
  forall n, 0 <= n < chars ->
    exists wn wn',
      hf_string_width doc n = Some wn /\
      hf_string_width doc (n + 1) = Some wn' /\
      0 <= wn < wn' /\ wn' <= width.

End Pixels.

End Pointer.

(* ===================================================================== *)
(** ** DocumentCtrl.cpp: the bytes of a line *)
(* ===================================================================== *)

Module Layout.

Import DataRegion.

(** The members of [DocumentCtrl] that [calc_width] reads: those of
    [DataRegion.Ctrl], [bytes_per_line] and [client_width]. *)
Record Ctrl := {
  ctrl : DataRegion.Ctrl;
  bytes_per_line : Z;
  client_width : Z
}.

Section Lines.

(** Declared in [DocumentCtrl.hpp]: the size of the table of string widths,
    the two values of [bytes_per_line] that ask for lines as long as fit,
    and the 32 bit type of the members [bytes_per_line_actual] and
    [first_line_pad_bytes]. *)
Variable PRECOMP_HF_STRING_WIDTH_TO : Z.
Variable GetTextExtent : Z -> Z.
Variable BYTES_PER_LINE_FIT_BYTES : Z.
Variable BYTES_PER_LINE_FIT_GROUPS : Z.
Variable t_line_bytes : IntType.

Definition hf_string_width (doc : Ctrl) : Z -> option Z :=
  DataRegion.hf_string_width PRECOMP_HF_STRING_WIDTH_TO GetTextExtent (ctrl doc).

Definition hf_char_width (doc : Ctrl) : option Z :=
  DataRegion.hf_char_width PRECOMP_HF_STRING_WIDTH_TO GetTextExtent (ctrl doc).

Definition indent_width (doc : Ctrl) : Z -> option Z :=
  DataRegion.indent_width PRECOMP_HF_STRING_WIDTH_TO GetTextExtent (ctrl doc).

(** [int DataRegion::calc_width_for_bytes(DocumentCtrl &doc_ctrl, unsigned
    int line_bytes) const]. *)
Definition calc_width_for_bytes (r : DataRegion) (doc_ctrl : Ctrl)
    (line_bytes : Z) : option Z :=
  let? indent := indent_width doc_ctrl (indent_depth r) in
  (* hex data *)
  let? hex := hf_string_width doc_ctrl (int_wrap t_int (int_wrap t_uint (line_bytes * 2))) in
  if bytes_per_group (ctrl doc_ctrl) =? 0 then None else
  let? spaces :=
    hf_string_width doc_ctrl
      (int_wrap t_int
         (int_wrap t_uint (line_bytes - 1) / bytes_per_group (ctrl doc_ctrl))) in
  (* ASCII data *)
  let? char := hf_char_width doc_ctrl in
  let? ascii := hf_string_width doc_ctrl (int_wrap t_int line_bytes) in
  let show_ascii := b2z (show_ascii (ctrl doc_ctrl)) in
  let width := int_wrap t_int (offset_column_width (ctrl doc_ctrl)
                               + int_wrap t_int (indent * 2)) in
  let width := int_wrap t_int (width + hex) in
  let width := int_wrap t_int (width + spaces) in
  let width := int_wrap t_int (width + int_wrap t_int (show_ascii * char)) in
  Some (int_wrap t_int (width + int_wrap t_int (show_ascii * ascii))).

(** [while(calc_width_for_bytes(doc, bytes_per_line_actual + 1) <=
    doc.client_width) { ++bytes_per_line_actual; }]; [fuel] bounds the
    turns, and [None] tells that the loop met undefined behaviour or did
    not end within [fuel] turns. *)
Fixpoint fit_bytes (fuel : nat) (r : DataRegion) (doc : Ctrl)
    (bytes_per_line_actual : Z) : option Z :=
  match fuel with
  | O => None
  | S fuel' =>
      let? width :=
        calc_width_for_bytes r doc (int_wrap t_uint (bytes_per_line_actual + 1)) in
      if width <=? client_width doc then
        fit_bytes fuel' r doc (int_wrap t_line_bytes (bytes_per_line_actual + 1))
      else Some bytes_per_line_actual
  end.

(** [while(calc_width_for_bytes(doc, bytes_per_line_actual +
    doc.bytes_per_group) <= doc.client_width) { bytes_per_line_actual +=
    doc.bytes_per_group; }]. *)
Fixpoint fit_groups (fuel : nat) (r : DataRegion) (doc : Ctrl)
    (bytes_per_line_actual : Z) : option Z :=
  match fuel with
  | O => None
  | S fuel' =>
      let next :=
        int_wrap t_uint (bytes_per_line_actual + bytes_per_group (ctrl doc)) in
      let? width := calc_width_for_bytes r doc next in
      if width <=? client_width doc then
        fit_groups fuel' r doc (int_wrap t_line_bytes next)
      else Some bytes_per_line_actual
  end.

Definition with_line (r : DataRegion)
    (bytes_per_line_actual first_line_pad_bytes : Z) : DataRegion :=
  {| indent_depth := indent_depth r; indent_final := indent_final r;
     y_offset := y_offset r; y_lines := y_lines r;
     d_offset := d_offset r; d_length := d_length r;
     offset_text_x := offset_text_x r; hex_text_x := hex_text_x r;
     ascii_text_x := ascii_text_x r;
     bytes_per_line_actual := bytes_per_line_actual;
     first_line_pad_bytes := first_line_pad_bytes |}.

(** [int DataRegion::calc_width(DocumentCtrl &doc)]: the width returned and
    the region after the call. *)
Definition calc_width (fuel : nat) (r : DataRegion) (doc : Ctrl)
    : option (Z * DataRegion) :=
  (* Decide how many bytes to display per line *)
  let? r :=
    if bytes_per_line doc =? BYTES_PER_LINE_FIT_BYTES then
      let? n := fit_bytes fuel r doc (int_wrap t_line_bytes 1) in
      Some (with_line r n (int_wrap t_line_bytes 0))
    else if bytes_per_line doc =? BYTES_PER_LINE_FIT_GROUPS then
      let? n :=
        fit_groups fuel r doc (int_wrap t_line_bytes (bytes_per_group (ctrl doc))) in
      Some (with_line r n (int_wrap t_line_bytes 0))
    else
      let n := int_wrap t_line_bytes (bytes_per_line doc) in
      let? pad := off_rem (d_offset r) n in
      Some (with_line r n (int_wrap t_line_bytes pad)) in
  let? width :=
    calc_width_for_bytes r doc (int_wrap t_uint (bytes_per_line_actual r)) in
  Some (width, r).

(** A line of [n] bytes is not wider than the window. *)
Definition fits (r : DataRegion) (doc : Ctrl) (n : Z) : Prop :=
  exists width,
    calc_width_for_bytes r doc n = Some width /\ width <= client_width doc.

(** The font has a width for a line of every length up to [limit] and a
    group more, and no line of [limit] bytes or more fits the window. *)
Definition lines_measured (r : DataRegion) (doc : Ctrl) (limit : Z) : Prop :=
  forall n, 1 <= n <= limit + bytes_per_group (ctrl doc) ->
    exists width,
      calc_width_for_bytes r doc n = Some width /\
      (limit <= n -> client_width doc < width).

End Lines.

End Layout.

(** The control of the example in a window 500 pixels wide, asked for as
    many bytes to a line as fit. *)
Definition example_layout : Layout.Ctrl :=
  {| Layout.ctrl := example_ctrl; Layout.bytes_per_line := 0;
     Layout.client_width := 500 |}.

(* ===================================================================== *)
(** ** DocumentCtrl.cpp: the list of controls that scroll together *)
(* ===================================================================== *)

Module LinkedScroll.

(** A [DocumentCtrl *] is the number of the control it points to, and
    [NULL] is [None]. The heap gives, for every control, its members
    [linked_scroll_prev] and [linked_scroll_next]. *)
Record Links := {
  linked_scroll_prev : option nat;
  linked_scroll_next : option nat
}.

Definition Heap : Type := nat -> Links.

(** [c->linked_scroll_prev = v] and [c->linked_scroll_next = v]. *)
Definition set_prev (h : Heap) (c : nat) (v : option nat) : Heap :=
  fun k =>
    if Nat.eqb k c
    then {| linked_scroll_prev := v;
            linked_scroll_next := linked_scroll_next (h c) |}
    else h k.

Definition set_next (h : Heap) (c : nat) (v : option nat) : Heap :=
  fun k =>
    if Nat.eqb k c
    then {| linked_scroll_prev := linked_scroll_prev (h c);
            linked_scroll_next := v |}
    else h k.

Definition is_null (p : option nat) : bool :=
  match p with
  | None => true
  | Some _ => false
  end.

(** [void DocumentCtrl::linked_scroll_insert_self_after(DocumentCtrl *p)],
    called on the control [this]. *)
Definition linked_scroll_insert_self_after (h : Heap) (this p : nat)
    : option Heap :=
  assert! is_null (linked_scroll_prev (h this)) in
  assert! is_null (linked_scroll_next (h this)) in
  (* Insert ourself into the linked scroll list after p. *)
  let h := set_prev h this (Some p) in
  let h :=
    match linked_scroll_next (h p) with
    | Some n =>
        let h := set_prev h n (Some this) in
        set_next h this (linked_scroll_next (h p))
    | None => h
    end in
  Some (set_next h p (Some this)).

(** [void DocumentCtrl::linked_scroll_remove_self()], called on the control
    [this]. *)
Definition linked_scroll_remove_self (h : Heap) (this : nat) : option Heap :=
  assert! negb (is_null (linked_scroll_prev (h this)))
          || negb (is_null (linked_scroll_next (h this))) in
  let h :=
    match linked_scroll_prev (h this) with
    | Some p => set_next h p (linked_scroll_next (h this))
    | None => h
    end in
  let h :=
    match linked_scroll_next (h this) with
    | Some n => set_prev h n (linked_scroll_prev (h this))
    | None => h
    end in
  let h := set_prev h this None in
  Some (set_next h this None).

(** The list is linked in both directions: a control is the next of
    another exactly if that one is its previous. *)
Definition linked (h : Heap) : Prop :=
  forall a b,
    linked_scroll_next (h a) = Some b <-> linked_scroll_prev (h b) = Some a.

End LinkedScroll.

(** Three controls, of which the first two scroll together. *)
Definition example_heap : LinkedScroll.Heap :=
  fun k =>
    match k with
    | 0%nat => {| LinkedScroll.linked_scroll_prev := None;
                  LinkedScroll.linked_scroll_next := Some 1%nat |}
    | 1%nat => {| LinkedScroll.linked_scroll_prev := Some 0%nat;
                  LinkedScroll.linked_scroll_next := None |}
    | _ => {| LinkedScroll.linked_scroll_prev := None;
              LinkedScroll.linked_scroll_next := None |}
    end.

(* ===================================================================== *)
(** ** DocumentCtrl.cpp: the lines of the regions *)
(* ===================================================================== *)

Module Rows.

Section Regions.

(** [Region] with its members [y_offset] and [y_lines]; [calc_height] is
    virtual, and [None] tells that it does not return. *)
Variable Region : Type.
Variable y_offset : Region -> Z.
Variable y_lines : Region -> Z.
Variable set_y_offset : Region -> Z -> Region.
Variable calc_height : Region -> option Region.

(** The loop of [_handle_width_change] that recalculates the height and
    the y offset of each region, from [next_yo] on: the regions after the
    loop, and [next_yo] after it. *)
Fixpoint layout (regions : list Region) (next_yo : Z)
    : option (list Region * Z) :=
  match regions with
  | [] => Some ([], next_yo)
  | i :: regions' =>
      let i := set_y_offset i next_yo in
      let? i := calc_height i in
      let next_yo := off_add next_yo (y_lines i) in
      let? rest := layout regions' next_yo in
      Some (i :: fst rest, snd rest)
  end.

(** [std::upper_bound] over [regions], a range sorted by [y_offset]: the
    place of the first region whose [y_offset] is greater than the one
    looked for. *)
Fixpoint upper_bound (regions : list Region) (y : Z) : nat :=
  match regions with
  | [] => O
  | r :: regions' =>
      if y <? y_offset r then O else S (upper_bound regions' y)
  end.

(** [region_by_y_offset(int64_t y_offset)]; the iterator returned is an
    index into [regions]. *)
Definition region_by_y_offset (regions : list Region) (y : Z) : option nat :=
  let region := upper_bound regions y in
  (* ...by definition that can't be the first element... *)
  assert! negb (Nat.eqb region O) in
  (* ...so step backwards to get to the correct element. *)
  let region := pred region in
  let? r := nth_error regions region in
  assert! y_offset r <=? y in
  assert! off_add (y_offset r) (y_lines r) >? y in
  Some region.

(** The regions lie one below the other from line [y] on. *)
Fixpoint stacked (regions : list Region) (y : Z) : Prop :=
  match regions with
  | [] => True
  | r :: regions' =>
      y_offset r = y /\ 0 <= y_lines r /\ stacked regions' (y + y_lines r)
  end.

End Regions.

(** [y_offset = y] on a data region. *)
Definition set_y_offset (r : DataRegion.DataRegion) (y : Z) : DataRegion.DataRegion :=
  {| DataRegion.indent_depth := DataRegion.indent_depth r;
     DataRegion.indent_final := DataRegion.indent_final r;
     DataRegion.y_offset := y;
     DataRegion.y_lines := DataRegion.y_lines r;
     DataRegion.d_offset := DataRegion.d_offset r;
     DataRegion.d_length := DataRegion.d_length r;
     DataRegion.offset_text_x := DataRegion.offset_text_x r;
     DataRegion.hex_text_x := DataRegion.hex_text_x r;
     DataRegion.ascii_text_x := DataRegion.ascii_text_x r;
     DataRegion.bytes_per_line_actual := DataRegion.bytes_per_line_actual r;
     DataRegion.first_line_pad_bytes := DataRegion.first_line_pad_bytes r |}.

End Rows.

(* ===================================================================== *)
(** ** DocumentCtrl.cpp: where the cursor may be *)
(* ===================================================================== *)

Module Cursor.

(** A value of [GenericDataRegion::ScreenArea] as the flags set in it. *)
Record ScreenAreas := { SA_HEX : bool; SA_ASCII : bool; SA_SPECIAL : bool }.

(** The members of [DocumentCtrl] that [set_cursor_position] reads and
    writes. *)
Record DocumentCtrl := {
  regions : Regions.DocumentCtrl;
  insert_mode : bool;
  cpos_off : Z;
  cursor_state : Document.CursorState;
  cursor_visible : bool
}.

Section Position.

(** [screen_areas_at_offset] is virtual; [None] tells that it does not
    return. *)
Variable screen_areas_at_offset :
  Regions.GenericDataRegion -> Z -> option ScreenAreas.

Definition is_hex (s : Document.CursorState) : bool :=
  match s with
  | Document.CSTATE_HEX | Document.CSTATE_HEX_MID => true
  | _ => false
  end.

Definition is_ascii (s : Document.CursorState) : bool :=
  match s with
  | Document.CSTATE_ASCII => true
  | _ => false
  end.

Definition is_special (s : Document.CursorState) : bool :=
  match s with
  | Document.CSTATE_SPECIAL => true
  | _ => false
  end.

(** [void DocumentCtrl::set_cursor_position(off_t position,
    Document::CursorState cursor_state)]: the position and the state that
    it gives the cursor. What follows in the source, the timer of the
    cursor, [_make_byte_visible], [save_scroll_position] and [Refresh],
    does not touch them and is left out. [front()] and [back()] of an
    empty vector are undefined. *)
Definition set_cursor_position (dc : DocumentCtrl) (position : Z)
    (cursor_state : Document.CursorState) : option DocumentCtrl :=
  (* Clamp the cursor position to the valid ranges defined by the data
     regions. *)
  let data_regions := Regions.data_regions (regions dc) in
  let? first_dr := nth_error data_regions O in
  let? last_dr := nth_error data_regions (pred (List.length data_regions)) in
  let position :=
    match Regions._data_region_by_offset (regions dc) position with
    | None => Regions.d_offset first_dr
    | Some _ => position
    end in
  let position :=
    if negb (insert_mode dc) && (position >? Regions.d_offset last_dr)
       && (position =? off_add (Regions.d_offset last_dr) (Regions.d_length last_dr))
    then off_sub position 1
    else position in
  let cursor_state :=
    match cursor_state with
    | Document.CSTATE_GOTO =>
        match Cursor.cursor_state dc with
        | Document.CSTATE_HEX_MID => Document.CSTATE_HEX
        | s => s
        end
    | s => s
    end in
  (* Clamp cursor state to states valid at the new position. *)
  let? region := Regions._data_region_by_offset (regions dc) position in
  let? valid_areas :=
    screen_areas_at_offset (Regions.region_at (regions dc) region) position in
  assert! SA_HEX valid_areas || SA_ASCII valid_areas || SA_SPECIAL valid_areas in
  let cursor_state :=
    if (is_hex cursor_state && negb (SA_HEX valid_areas))
       || (is_ascii cursor_state && negb (SA_ASCII valid_areas))
       || (is_special cursor_state && negb (SA_SPECIAL valid_areas))
    then
      (* Requested cursor state is not valid. Pick something that is. *)
      if SA_HEX valid_areas then Document.CSTATE_HEX
      else if SA_ASCII valid_areas then Document.CSTATE_ASCII
      else if SA_SPECIAL valid_areas then Document.CSTATE_SPECIAL
      else cursor_state
    else cursor_state in
  Some {| regions := regions dc; insert_mode := insert_mode dc;
          cpos_off := position; cursor_state := cursor_state;
          cursor_visible := true |}.

(** The state of the cursor names an area that the region shows. *)
Definition state_shown (s : Document.CursorState) (areas : ScreenAreas) : Prop :=
  (is_hex s = true -> SA_HEX areas = true) /\
  (is_ascii s = true -> SA_ASCII areas = true) /\
  (is_special s = true -> SA_SPECIAL areas = true).

End Position.

(** [DataRegion::screen_areas_at_offset]. *)
Definition screen_areas_at_offset (show_ascii : bool)
    (r : Regions.GenericDataRegion) (offset : Z) : option ScreenAreas :=
  assert! offset >=? Regions.d_offset r in
  assert! offset <=? off_add (Regions.d_offset r) (Regions.d_length r) in
  if show_ascii
  then Some {| SA_HEX := true; SA_ASCII := true; SA_SPECIAL := false |}
  else Some {| SA_HEX := true; SA_ASCII := false; SA_SPECIAL := false |}.

End Cursor.

(** The cursor of a control that shows the regions of the example. *)
Definition example_cursor : Cursor.DocumentCtrl :=
  {| Cursor.regions := example_regions; Cursor.insert_mode := false;
     Cursor.cpos_off := 0; Cursor.cursor_state := Document.CSTATE_HEX;
     Cursor.cursor_visible := false |}.

(* ===================================================================== *)
(** * Theorems *)
(* ===================================================================== *)

(** ** Machine integers *)

Lemma pow2_double (n : Z) : 0 < n -> 2 ^ n = 2 * 2 ^ (n - 1).
Proof.
  intros Hn. replace n with (Z.succ (n - 1)) at 1 by lia.
  rewrite Z.pow_succ_r by lia. reflexivity.
Qed.

Lemma pow2_pos (n : Z) : 0 <= n -> 0 < 2 ^ n.
Proof. intros Hn. apply Z.pow_pos_nonneg; lia. Qed.

Lemma int_wrap_id (T : IntType) (z : Z) :
  0 < it_bits T -> in_range T z -> int_wrap T z = z.
Proof.
  unfold in_range, int_wrap, int_min, int_max. intros Hb Hz.
  pose proof (pow2_double (it_bits T) Hb) as Hd.
  pose proof (pow2_pos (it_bits T - 1) ltac:(lia)) as Hp.
  destruct (it_signed T).
  - rewrite Z.mod_small by lia. lia.
  - apply Z.mod_small. lia.
Qed.

Lemma promote_bits (T : IntType) : 0 < it_bits T -> 0 < it_bits (promote T).
Proof.
  unfold promote. destruct (it_bits T <? 32); simpl; lia.
Qed.

(** Every value of [T] is a value of the type [T] is promoted to, and so is
    every sum or difference that lies between two values of [T]. *)
Lemma promote_in_range (T : IntType) (z : Z) :
  0 < it_bits T -> in_range T z -> in_range (promote T) z.
Proof.
  unfold promote. intros Hb Hz.
  destruct (it_bits T <? 32) eqn:Hlt; [|exact Hz].
  apply Z.ltb_lt in Hlt.
  unfold in_range, int_min, int_max in *. simpl.
  assert (H31 : 2 ^ it_bits T <= 2 ^ 31) by (apply Z.pow_le_mono_r; lia).
  assert (H30 : 2 ^ (it_bits T - 1) <= 2 ^ 31) by (apply Z.pow_le_mono_r; lia).
  pose proof (pow2_pos (it_bits T - 1) ltac:(lia)).
  destruct (it_signed T); lia.
Qed.

Lemma t_add_exact (T : IntType) (a b : Z) :
  0 < it_bits T -> in_range T (a + b) -> Util.t_add T a b = a + b.
Proof.
  intros Hb Hs. unfold Util.t_add.
  rewrite (int_wrap_id (promote T)).
  - apply int_wrap_id; assumption.
  - apply promote_bits; assumption.
  - apply promote_in_range; assumption.
Qed.

Lemma t_sub_exact (T : IntType) (a b : Z) :
  0 < it_bits T -> in_range T (a - b) -> Util.t_sub T a b = a - b.
Proof.
  intros Hb Hs. unfold Util.t_sub.
  apply int_wrap_id; [apply promote_bits | apply promote_in_range]; assumption.
Qed.

Lemma int_min_le_0 (T : IntType) : 0 < it_bits T -> int_min T <= 0.
Proof.
  intros Hb. unfold int_min.
  pose proof (pow2_pos (it_bits T - 1) ltac:(lia)). destruct (it_signed T); lia.
Qed.

Lemma int_max_ge_0 (T : IntType) : 0 < it_bits T -> 0 <= int_max T.
Proof.
  intros Hb. unfold int_max.
  pose proof (pow2_pos (it_bits T - 1) ltac:(lia)).
  pose proof (pow2_pos (it_bits T) ltac:(lia)). destruct (it_signed T); lia.
Qed.

Lemma OFF_MIN_val : OFF_MIN = -9223372036854775808.
Proof. reflexivity. Qed.

Lemma OFF_MAX_val : OFF_MAX = 9223372036854775807.
Proof. reflexivity. Qed.

Lemma off_wrap_id (z : Z) : OFF_MIN <= z <= OFF_MAX -> off_wrap z = z.
Proof. intros Hz. apply int_wrap_id; [simpl; lia | exact Hz]. Qed.

(** ** util.hpp *)

(** The three branches of [_add_clamp_overflow] never compute a sum or a
    difference outside of [T]. *)
Lemma add_clamp_overflow_cases (T : IntType) (a b : Z) (overflow : option bool) :
  0 < it_bits T -> in_range T a -> in_range T b ->
  Util.add_clamp_overflow T a b overflow =
    if (int_min T <=? a + b) && (a + b <=? int_max T)
    then (a + b, Util.store_flag overflow false)
    else if a + b <? int_min T
         then (int_min T, Util.store_flag overflow true)
         else (int_max T, Util.store_flag overflow true).
Proof.
  intros Hb Ha Hb'.
  pose proof (int_min_le_0 T Hb) as Hmin. pose proof (int_max_ge_0 T Hb) as Hmax.
  unfold Util.add_clamp_overflow, Util._add_clamp_overflow.
  unfold in_range in Ha, Hb'.
  destruct (a <? 0) eqn:Ea; destruct (b <? 0) eqn:Eb; simpl;
    try apply Z.ltb_lt in Ea; try apply Z.ltb_ge in Ea;
    try apply Z.ltb_lt in Eb; try apply Z.ltb_ge in Eb.
  - (* both negative *)
    rewrite t_sub_exact by (try assumption; unfold in_range; lia).
    destruct (int_min T - b <=? a) eqn:E.
    + apply Z.leb_le in E. rewrite t_add_exact by (try assumption; unfold in_range; lia).
      replace (int_min T <=? a + b) with true by (symmetry; apply Z.leb_le; lia).
      replace (a + b <=? int_max T) with true by (symmetry; apply Z.leb_le; lia).
      reflexivity.
    + apply Z.leb_gt in E.
      replace (int_min T <=? a + b) with false by (symmetry; apply Z.leb_gt; lia).
      replace (a + b <? int_min T) with true by (symmetry; apply Z.ltb_lt; lia).
      reflexivity.
  - (* differing signs *)
    rewrite t_add_exact by (try assumption; unfold in_range; lia).
    replace (int_min T <=? a + b) with true by (symmetry; apply Z.leb_le; lia).
    replace (a + b <=? int_max T) with true by (symmetry; apply Z.leb_le; lia).
    reflexivity.
  - rewrite t_add_exact by (try assumption; unfold in_range; lia).
    replace (int_min T <=? a + b) with true by (symmetry; apply Z.leb_le; lia).
    replace (a + b <=? int_max T) with true by (symmetry; apply Z.leb_le; lia).
    reflexivity.
  - (* both positive *)
    rewrite t_sub_exact by (try assumption; unfold in_range; lia).
    destruct (int_max T - b >=? a) eqn:E.
    + apply Z.geb_le in E. rewrite t_add_exact by (try assumption; unfold in_range; lia).
      replace (int_min T <=? a + b) with true by (symmetry; apply Z.leb_le; lia).
      replace (a + b <=? int_max T) with true by (symmetry; apply Z.leb_le; lia).
      reflexivity.
    + rewrite Z.geb_leb in E. apply Z.leb_gt in E.
      replace (int_min T <=? a + b) with true by (symmetry; apply Z.leb_le; lia).
      replace (a + b <=? int_max T) with false by (symmetry; apply Z.leb_gt; lia).
      replace (a + b <? int_min T) with false by (symmetry; apply Z.ltb_ge; lia).
      reflexivity.
Qed.

(** C8. For all [a], [b] of an integral type [T], [add_clamp_overflow(a, b,
    &ov)] returns [a + b] and stores [false] in [ov] when the mathematical
    sum lies in [[T_min, T_max]]; it returns [T_max] when the sum exceeds
    [T_max] and [T_min] when the sum is below [T_min], and stores [true] in
    both cases. *)
Theorem add_clamp_overflow_spec (T : IntType) (a b : Z) (ov : bool) :
  0 < it_bits T -> in_range T a -> in_range T b ->
  (int_min T <= a + b <= int_max T ->
     Util.add_clamp_overflow T a b (Some ov) = (a + b, Some false)) /\
  (int_max T < a + b ->
     Util.add_clamp_overflow T a b (Some ov) = (int_max T, Some true)) /\
  (a + b < int_min T ->
     Util.add_clamp_overflow T a b (Some ov) = (int_min T, Some true)).
Proof.
  intros Hb Ha Hb'.
  rewrite (add_clamp_overflow_cases T a b (Some ov) Hb Ha Hb'). simpl.
  pose proof (int_min_le_0 T Hb). pose proof (int_max_ge_0 T Hb).
  repeat split; intros Hs.
  - replace (int_min T <=? a + b) with true by (symmetry; apply Z.leb_le; lia).
    replace (a + b <=? int_max T) with true by (symmetry; apply Z.leb_le; lia).
    reflexivity.
  - replace (int_min T <=? a + b) with true by (symmetry; apply Z.leb_le; lia).
    replace (a + b <=? int_max T) with false by (symmetry; apply Z.leb_gt; lia).
    replace (a + b <? int_min T) with false by (symmetry; apply Z.ltb_ge; lia).
    reflexivity.
  - replace (int_min T <=? a + b) with false by (symmetry; apply Z.leb_gt; lia).
    replace (a + b <? int_min T) with true by (symmetry; apply Z.ltb_lt; lia).
    reflexivity.
Qed.

Lemma add_clamp_overflow_spec_witness :
  Util.add_clamp_overflow t_int 2147483000 1000 (Some false)
    = (2147483647, Some true).
Proof.
  refine (proj1 (proj2 (add_clamp_overflow_spec t_int 2147483000 1000 false _ _ _)) _).
  - reflexivity.
  - split; discriminate.
  - split; discriminate.
  - reflexivity.
Defined.

(** ** CharacterFinder.cpp *)

Section CharacterFinderFacts.

Import CharacterFinder.

Variable Document : Type.
Variable get_range : Document -> Z -> option (Z * Z * string).
Variable read_data : Document -> Z -> Z -> option (list byte).
Variable by_name : string -> option CharacterEncoder.
Variable ascii_encoder : CharacterEncoder.
Variable LRUCache : Type.
Variable cache_get : LRUCache -> Z -> option (list Z) * LRUCache.
Variable cache_set : LRUCache -> Z -> list Z -> LRUCache.

Abbreviation Finder := (CharacterFinder.CharacterFinder Document LRUCache).
Abbreviation get_char_range :=
  (CharacterFinder.get_char_range Document get_range read_data by_name
     ascii_encoder LRUCache cache_get cache_set).
Abbreviation get_char_start :=
  (CharacterFinder.get_char_start Document get_range read_data by_name
     ascii_encoder LRUCache cache_get cache_set).
Abbreviation get_char_length :=
  (CharacterFinder.get_char_length Document get_range read_data by_name
     ascii_encoder LRUCache cache_get cache_set).

(** C9. For every offset strictly below [base] or at or above [base +
    length] (the sum as the finder computes it, in [off_t]),
    [get_char_range] returns [(-1, -1)] and leaves the finder, its caches
    included, as it was; [get_char_start] and [get_char_length] return [-1]
    there. *)
Theorem get_char_range_untracked (cf : Finder) (offset : Z) :
  offset < base _ _ cf \/ off_add (base _ _ cf) (length _ _ cf) <= offset ->
  get_char_range cf offset = Returned ((-1, -1), cf) /\
  get_char_start cf offset = Returned (-1, cf) /\
  get_char_length cf offset = Returned (-1, cf).
Proof.
  intros Hout.
  assert (Hr : get_char_range cf offset = Returned ((-1, -1), cf)).
  { unfold CharacterFinder.get_char_range.
    destruct Hout as [Hlo | Hhi].
    - apply Z.ltb_lt in Hlo. rewrite Hlo. reflexivity.
    - rewrite (proj2 (Z.geb_le _ _) Hhi), orb_true_r. reflexivity. }
  unfold CharacterFinder.get_char_start, CharacterFinder.get_char_length.
  rewrite Hr. auto.
Qed.

(** Where [base + length] is an [off_t], the bound is the mathematical sum. *)
Lemma get_char_range_untracked_exact (cf : Finder) (offset : Z) :
  OFF_MIN <= base _ _ cf + length _ _ cf <= OFF_MAX ->
  offset < base _ _ cf \/ base _ _ cf + length _ _ cf <= offset ->
  get_char_range cf offset = Returned ((-1, -1), cf).
Proof.
  intros Hsum Hout. apply get_char_range_untracked.
  unfold off_add. rewrite off_wrap_id by exact Hsum. exact Hout.
Qed.

End CharacterFinderFacts.

Lemma get_char_range_untracked_witness :
  CharacterFinder.get_char_range unit (fun _ _ => None) (fun _ _ _ => None)
    (fun _ => None) {| CharacterFinder.word_size := 1;
                       CharacterFinder.decode := fun _ => (true, 1) |}
    unit (fun c _ => (None, c)) (fun c _ _ => c) example_finder 48
  = CharacterFinder.Returned ((-1, -1), example_finder).
Proof.
  refine (proj1 (get_char_range_untracked unit _ _ _ _ unit _ _ example_finder 48 _)).
  right. vm_compute. discriminate.
Defined.

(** ** DocumentCtrl.cpp *)

(** C10, as the claim states it, fails for a negative offset: a selection
    of three bytes set at offset [-5] reads back as no selection. *)
Lemma set_selection_negative_offset :
  3 > 0 /\
  DocumentCtrl.get_selection_raw
    (DocumentCtrl.set_selection DocumentCtrl.initial (-5) 3) = (-1, -1) /\
  DocumentCtrl.get_selection_raw
    (DocumentCtrl.set_selection DocumentCtrl.initial (-5) 3) <> (-5, -5 + 3 - 1).
Proof.
  split; [lia|]. split; [reflexivity | discriminate].
Qed.

(** C10 (amended). After [set_selection(off, length)]: with [length > 0] and
    [off >= 0], [get_selection_raw()] returns [off] and [off + length - 1]
    (computed in [off_t], the mathematical value when it is representable);
    with [length > 0] and [off < 0] it returns [(-1, -1)]; with
    [length <= 0] the selection is empty and it returns [(-1, -1)].
    [clear_selection()] is [set_selection(0, 0)]. *)
Theorem set_selection_get_selection_raw (dc : DocumentCtrl.DocumentCtrl) (off length : Z) :
  (length > 0 -> 0 <= off ->
     DocumentCtrl.get_selection_raw (DocumentCtrl.set_selection dc off length)
       = (off, off_sub (off_add off length) 1) /\
     (OFF_MIN <= off + length <= OFF_MAX ->
        DocumentCtrl.get_selection_raw (DocumentCtrl.set_selection dc off length)
          = (off, off + length - 1))) /\
  (length > 0 -> off < 0 ->
     DocumentCtrl.get_selection_raw (DocumentCtrl.set_selection dc off length)
       = (-1, -1)) /\
  (length <= 0 ->
     DocumentCtrl.selection_begin (DocumentCtrl.set_selection dc off length) = -1 /\
     DocumentCtrl.selection_end (DocumentCtrl.set_selection dc off length) = -1 /\
     DocumentCtrl.get_selection_raw (DocumentCtrl.set_selection dc off length)
       = (-1, -1)) /\
  DocumentCtrl.clear_selection dc = DocumentCtrl.set_selection dc 0 0 /\
  DocumentCtrl.get_selection_raw (DocumentCtrl.clear_selection dc) = (-1, -1).
Proof.
  unfold DocumentCtrl.get_selection_raw, DocumentCtrl.clear_selection,
    DocumentCtrl.set_selection; simpl.
  assert (Hpos : length > 0 -> (length >? 0) = true)
    by (intros; apply Z.gtb_lt; lia).
  assert (Hneg : length <= 0 -> (length >? 0) = false)
    by (intros; rewrite Z.gtb_ltb; apply Z.ltb_ge; lia).
  split; [|split; [|split; [|split]]].
  - intros Hl Ho. rewrite (Hpos Hl).
    replace (off <? 0) with false by (symmetry; apply Z.ltb_ge; lia).
    split; [reflexivity|]. intros Hsum.
    unfold off_sub, off_add. rewrite (off_wrap_id (off + length)) by exact Hsum.
    rewrite off_wrap_id; [reflexivity|].
    rewrite OFF_MIN_val, OFF_MAX_val in *. lia.
  - intros Hl Ho. rewrite (Hpos Hl).
    replace (off <? 0) with true by (symmetry; apply Z.ltb_lt; lia).
    reflexivity.
  - intros Hl. rewrite (Hneg Hl). simpl. auto.
  - reflexivity.
  - reflexivity.
Qed.

(** ** Slices of lists *)

Section Slices.

Context {A : Type}.

Lemma firstn_prefix (p s : list A) : firstn (List.length p) (p ++ s) = p.
Proof.
  rewrite firstn_app, Nat.sub_diag, firstn_all. simpl. apply app_nil_r.
Qed.

Lemma skipn_prefix (p s : list A) : skipn (List.length p) (p ++ s) = s.
Proof.
  rewrite skipn_app, Nat.sub_diag, skipn_all. reflexivity.
Qed.

Lemma skipn_prefix2 (p x s : list A) :
  skipn (List.length p + List.length x) (p ++ x ++ s) = s.
Proof.
  rewrite app_assoc, <- length_app. apply skipn_prefix.
Qed.

(** A list is its first [n] items, the [k] items that follow, and the
    rest. *)
Lemma three_parts (b : list A) (n k : nat) :
  (n + k <= List.length b)%nat ->
  b = firstn n b ++ firstn k (skipn n b) ++ skipn (n + k) b /\
  List.length (firstn n b) = n /\
  List.length (firstn k (skipn n b)) = k.
Proof.
  intros Hle. repeat split.
  - rewrite <- (firstn_skipn n b) at 1. f_equal.
    rewrite <- (firstn_skipn k (skipn n b)) at 1. f_equal.
    rewrite skipn_skipn. f_equal. lia.
  - rewrite length_firstn. lia.
  - rewrite length_firstn, length_skipn. lia.
Qed.

End Slices.

(** ** The Buffer collaborator on a storage that does not fail *)

Lemma buffer_read_reliable (b : Buffer.Buffer) (offset n : Z) :
  0 <= offset -> 0 <= n -> offset + n <= Buffer.length b ->
  Buffer.read Buffer.reliable b offset n
    = Some (firstn (Z.to_nat n) (skipn (Z.to_nat offset) b)).
Proof.
  intros Ho Hn Hle. unfold Buffer.read, Buffer.reliable.
  replace (offset <? 0) with false by (symmetry; apply Z.ltb_ge; lia).
  replace (n <? 0) with false by (symmetry; apply Z.ltb_ge; lia).
  replace (Buffer.length b <? offset) with false by (symmetry; apply Z.ltb_ge; lia).
  reflexivity.
Qed.

Lemma buffer_overwrite_some (io : Buffer.Storage) (b b' : Buffer.Buffer)
    (offset : Z) (data : list byte) :
  Buffer.overwrite io b offset data = Some b' ->
  0 <= offset /\ offset + Buffer.length data <= Buffer.length b /\
  b' = firstn (Z.to_nat offset) b ++ data
       ++ skipn (Z.to_nat offset + List.length data) b.
Proof.
  unfold Buffer.overwrite. destruct (io b _); [discriminate|].
  destruct (offset <? 0) eqn:E1; [discriminate|].
  destruct (Buffer.length b <? offset + Buffer.length data) eqn:E2; [discriminate|].
  simpl. intros H. inversion H. apply Z.ltb_ge in E1, E2. auto.
Qed.

Lemma buffer_insert_some (io : Buffer.Storage) (b b' : Buffer.Buffer)
    (offset : Z) (data : list byte) :
  Buffer.insert io b offset data = Some b' ->
  0 <= offset <= Buffer.length b /\
  b' = firstn (Z.to_nat offset) b ++ data ++ skipn (Z.to_nat offset) b.
Proof.
  unfold Buffer.insert. destruct (io b _); [discriminate|].
  destruct (offset <? 0) eqn:E1; [discriminate|].
  destruct (Buffer.length b <? offset) eqn:E2; [discriminate|].
  simpl. intros H. inversion H. apply Z.ltb_ge in E1, E2. auto.
Qed.

Lemma buffer_erase_some (io : Buffer.Storage) (b b' : Buffer.Buffer)
    (offset n : Z) :
  Buffer.erase io b offset n = Some b' ->
  0 <= offset /\ 0 <= n /\ offset + n <= Buffer.length b /\
  b' = firstn (Z.to_nat offset) b ++ skipn (Z.to_nat offset + Z.to_nat n) b.
Proof.
  unfold Buffer.erase. destruct (io b _); [discriminate|].
  destruct (offset <? 0) eqn:E1; [discriminate|].
  destruct (n <? 0) eqn:E2; [discriminate|].
  destruct (Buffer.length b <? offset + n) eqn:E3; [discriminate|].
  simpl. intros H. inversion H. apply Z.ltb_ge in E1, E2, E3. auto.
Qed.

Lemma buffer_read_some (io : Buffer.Storage) (b : Buffer.Buffer)
    (offset n : Z) (x : list byte) :
  Buffer.read io b offset n = Some x ->
  0 <= offset <= Buffer.length b /\ 0 <= n /\
  x = firstn (Z.to_nat n) (skipn (Z.to_nat offset) b).
Proof.
  unfold Buffer.read. destruct (io b _); [discriminate|].
  destruct (offset <? 0) eqn:E1; [discriminate|].
  destruct (n <? 0) eqn:E2; [discriminate|].
  destruct (Buffer.length b <? offset) eqn:E3; [discriminate|].
  simpl. intros H. inversion H. apply Z.ltb_ge in E1, E2, E3. auto.
Qed.

Lemma buffer_overwrite_reliable (b : Buffer.Buffer) (offset : Z) (data : list byte) :
  0 <= offset -> offset + Buffer.length data <= Buffer.length b ->
  Buffer.overwrite Buffer.reliable b offset data
    = Some (firstn (Z.to_nat offset) b ++ data
            ++ skipn (Z.to_nat offset + List.length data) b).
Proof.
  intros Ho Hle. unfold Buffer.overwrite, Buffer.reliable.
  replace (offset <? 0) with false by (symmetry; apply Z.ltb_ge; lia).
  replace (Buffer.length b <? offset + Buffer.length data) with false
    by (symmetry; apply Z.ltb_ge; lia).
  reflexivity.
Qed.

Lemma buffer_insert_reliable (b : Buffer.Buffer) (offset : Z) (data : list byte) :
  0 <= offset <= Buffer.length b ->
  Buffer.insert Buffer.reliable b offset data
    = Some (firstn (Z.to_nat offset) b ++ data ++ skipn (Z.to_nat offset) b).
Proof.
  intros Ho. unfold Buffer.insert, Buffer.reliable.
  replace (offset <? 0) with false by (symmetry; apply Z.ltb_ge; lia).
  replace (Buffer.length b <? offset) with false by (symmetry; apply Z.ltb_ge; lia).
  reflexivity.
Qed.

Lemma buffer_erase_reliable (b : Buffer.Buffer) (offset n : Z) :
  0 <= offset -> 0 <= n -> offset + n <= Buffer.length b ->
  Buffer.erase Buffer.reliable b offset n
    = Some (firstn (Z.to_nat offset) b
            ++ skipn (Z.to_nat offset + Z.to_nat n) b).
Proof.
  intros Ho Hn Hle. unfold Buffer.erase, Buffer.reliable.
  replace (offset <? 0) with false by (symmetry; apply Z.ltb_ge; lia).
  replace (n <? 0) with false by (symmetry; apply Z.ltb_ge; lia).
  replace (Buffer.length b <? offset + n) with false by (symmetry; apply Z.ltb_ge; lia).
  reflexivity.
Qed.

(** Writing back the bytes that an overwrite replaced gives the buffer
    back. *)
Lemma overwrite_back (b : list byte) (n : nat) (data : list byte) :
  (n + List.length data <= List.length b)%nat ->
  let old := firstn (List.length data) (skipn n b) in
  let b' := firstn n b ++ data ++ skipn (n + List.length data) b in
  List.length old = List.length data /\
  firstn (List.length data) (skipn n b') = data /\
  firstn n b' ++ old ++ skipn (n + List.length old) b' = b.
Proof.
  intros Hle old b'.
  destruct (three_parts b n (List.length data) Hle) as (Hb & Hp & Hm).
  fold old in Hb, Hm. subst b'.
  set (p := firstn n b) in *. set (s := skipn (n + List.length data) b) in *.
  clearbody p s old. subst n.
  split; [exact Hm|].
  rewrite skipn_prefix, !firstn_prefix.
  split; [reflexivity|].
  rewrite Hm, skipn_prefix2. symmetry. exact Hb.
Qed.

(** Erasing the bytes that were inserted gives the buffer back. *)
Lemma insert_back (b : list byte) (n : nat) (data : list byte) :
  (n <= List.length b)%nat ->
  let b' := firstn n b ++ data ++ skipn n b in
  firstn (List.length data) (skipn n b') = data /\
  firstn n b' ++ skipn (n + List.length data) b' = b.
Proof.
  intros Hle b'. subst b'.
  assert (Hp : List.length (firstn n b) = n) by (rewrite length_firstn; lia).
  pose proof (firstn_skipn n b) as Hb.
  set (p := firstn n b) in *. set (s := skipn n b) in *.
  clearbody p s. subst n.
  rewrite skipn_prefix, !firstn_prefix, skipn_prefix2.
  split; [reflexivity | exact Hb].
Qed.

(** Inserting the bytes that were erased gives the buffer back. *)
Lemma erase_back (b : list byte) (n k : nat) :
  (n + k <= List.length b)%nat ->
  let old := firstn k (skipn n b) in
  let b' := firstn n b ++ skipn (n + k) b in
  List.length old = k /\
  firstn n b' ++ old ++ skipn n b' = b.
Proof.
  intros Hle old b'.
  destruct (three_parts b n k Hle) as (Hb & Hp & Hm).
  fold old in Hb, Hm. subst b'.
  set (p := firstn n b) in *. set (s := skipn (n + k) b) in *.
  clearbody p s old. subst n.
  split; [exact Hm|].
  rewrite firstn_prefix, skipn_prefix. symmetry. exact Hb.
Qed.

(** ** RangeMap<T> *)

(** Comparisons in a goal or a hypothesis are turned into the facts they
    decide. *)
Ltac zbool :=
  repeat match goal with
  | |- context [?a <=? ?b] => destruct (Z.leb_spec a b)
  | |- context [?a <? ?b] => destruct (Z.ltb_spec a b)
  | |- context [?a =? ?b] => destruct (Z.eqb_spec a b)
  | H : context [?a <=? ?b] |- _ => destruct (Z.leb_spec a b)
  | H : context [?a <? ?b] |- _ => destruct (Z.ltb_spec a b)
  | H : context [?a =? ?b] |- _ => destruct (Z.eqb_spec a b)
  end; simpl in *.

Section RangeMapFacts.

Context {T : Type}.

Implicit Types m : ByteRangeMap.t T.

Lemma value_at_cons (o l : Z) (v : T) m (x : Z) :
  ByteRangeMap.value_at ((o, l, v) :: m) x
    = if (o <=? x) && (x <? o + l) then Some v else ByteRangeMap.value_at m x.
Proof.
  unfold ByteRangeMap.value_at, ByteRangeMap.get_range. simpl.
  destruct ((o <=? x) && (x <? o + l)); reflexivity.
Qed.

Lemma value_at_app m1 m2 (x : Z) :
  ByteRangeMap.value_at (m1 ++ m2) x
    = match ByteRangeMap.value_at m1 x with
      | Some v => Some v
      | None => ByteRangeMap.value_at m2 x
      end.
Proof.
  induction m1 as [|[[o l] v] m1 IH]; [reflexivity|].
  simpl app. rewrite !value_at_cons.
  destruct ((o <=? x) && (x <? o + l)); [reflexivity | exact IH].
Qed.

(** Taking a range out of the map empties it there and changes nothing
    elsewhere. *)
Lemma value_at_remainder m (offset length x : Z) :
  0 < length ->
  ByteRangeMap.value_at
    (flat_map (ByteRangeMap.remainder ByteRangeMap.same offset length) m) x
  = if (offset <=? x) && (x <? offset + length) then None
    else ByteRangeMap.value_at m x.
Proof.
  intros Hlen. induction m as [|[[o l] v] m IH].
  - simpl. destruct ((offset <=? x) && (x <? offset + length)); reflexivity.
  - simpl flat_map. rewrite value_at_app, IH, value_at_cons. clear IH.
    unfold ByteRangeMap.remainder, ByteRangeMap.same.
    destruct ((o + l <=? offset) || (offset + length <=? o)) eqn:E.
    + rewrite value_at_cons. unfold ByteRangeMap.value_at at 1. simpl.
      zbool; try reflexivity; try lia; discriminate.
    + apply orb_false_iff in E. destruct E as [E1 E2].
      apply Z.leb_gt in E1, E2.
      destruct (o <? offset) eqn:E3; destruct (offset + length <? o + l) eqn:E4;
        simpl app; rewrite ?value_at_cons; unfold ByteRangeMap.value_at at 1; simpl;
        zbool; try reflexivity; try lia.
Qed.

Lemma value_at_insert_entry_other (e : Z * Z * T) m (x : Z) :
  ByteRangeMap.covers x e = false ->
  ByteRangeMap.value_at (ByteRangeMap.insert_entry e m) x
    = ByteRangeMap.value_at m x.
Proof.
  intros He. destruct e as [[o0 l0] v0]. simpl in He.
  induction m as [|[[o l] v] m IH]; simpl.
  - rewrite value_at_cons, He. reflexivity.
  - destruct (o0 <? o).
    + rewrite value_at_cons, He. reflexivity.
    + rewrite !value_at_cons, IH. reflexivity.
Qed.

Lemma value_at_insert_entry_here (o0 l0 : Z) (v0 : T) m (x : Z) :
  ByteRangeMap.covers x (o0, l0, v0) = true ->
  ByteRangeMap.value_at m x = None ->
  ByteRangeMap.value_at (ByteRangeMap.insert_entry (o0, l0, v0) m) x = Some v0.
Proof.
  intros He. simpl in He.
  induction m as [|[[o l] v] m IH]; simpl; intros Hnone.
  - rewrite value_at_cons, He. reflexivity.
  - rewrite value_at_cons in Hnone.
    destruct ((o <=? x) && (x <? o + l)) eqn:E; [discriminate|].
    destruct (o0 <? o).
    + rewrite value_at_cons, He. reflexivity.
    + rewrite value_at_cons, E. apply IH, Hnone.
Qed.

(** Merging neighbours of equal value keeps the value of every byte. *)
Lemma value_at_merge (eqb : T -> T -> bool) m :
  (forall a b, eqb a b = true -> a = b) ->
  Forall (fun e => 0 <= snd (fst e)) m ->
  Forall (fun e => 0 <= snd (fst e)) (ByteRangeMap.merge eqb m) /\
  forall x, ByteRangeMap.value_at (ByteRangeMap.merge eqb m) x
            = ByteRangeMap.value_at m x.
Proof.
  intros Heq Hpos. induction Hpos as [|[[o1 l1] v1] m Hl Hm [IHpos IHval]].
  - split; [constructor | reflexivity].
  - simpl in Hl. simpl ByteRangeMap.merge.
    destruct (ByteRangeMap.merge eqb m) as [|[[o2 l2] v2] r'] eqn:Em.
    + split; [repeat constructor; exact Hl|].
      intros x. rewrite !value_at_cons, <- IHval. reflexivity.
    + inversion IHpos as [|? ? Hl2 Hr']; subst. simpl in Hl2.
      destruct ((o1 + l1 =? o2) && eqb v1 v2) eqn:E.
      * apply andb_true_iff in E. destruct E as [E1 E2].
        apply Z.eqb_eq in E1. apply Heq in E2. subst o2 v2.
        split; [constructor; [simpl; lia | exact Hr']|].
        intros x. rewrite (value_at_cons o1 l1 v1 m), <- IHval, !value_at_cons.
        zbool; try reflexivity; lia.
      * split; [constructor; [exact Hl | exact IHpos]|].
        intros x. rewrite (value_at_cons o1 l1 v1 m), <- IHval, !value_at_cons.
        reflexivity.
Qed.

Lemma remainder_lengths (offset length : Z) m :
  Forall (fun e => 0 <= snd (fst e)) m ->
  Forall (fun e => 0 <= snd (fst e))
    (flat_map (ByteRangeMap.remainder (@ByteRangeMap.same T) offset length) m).
Proof.
  intros Hpos. induction Hpos as [|[[o l] v] m Hl Hm IH]; [constructor|].
  simpl flat_map. apply Forall_app. split; [|exact IH].
  unfold ByteRangeMap.remainder.
  destruct ((o + l <=? offset) || (offset + length <=? o)).
  - repeat constructor. exact Hl.
  - apply Forall_app. split.
    + destruct (Z.ltb_spec o offset); repeat constructor. simpl. lia.
    + destruct (Z.ltb_spec (offset + length) (o + l)); repeat constructor. simpl. lia.
Qed.

Lemma insert_entry_lengths (e : Z * Z * T) m :
  0 <= snd (fst e) ->
  Forall (fun e => 0 <= snd (fst e)) m ->
  Forall (fun e => 0 <= snd (fst e)) (ByteRangeMap.insert_entry e m).
Proof.
  intros He Hpos. induction Hpos as [|h m Hl Hm IH]; simpl.
  - repeat constructor. exact He.
  - destruct (fst (fst e) <? fst (fst h)); repeat constructor; assumption.
Qed.

(** The value of a byte after [set_range]: the new value in the range, the
    old one elsewhere. *)
Lemma value_at_set_range (eqb : T -> T -> bool) m (offset length : Z) (v : T) (x : Z) :
  (forall a b, eqb a b = true -> a = b) ->
  Forall (fun e => 0 <= snd (fst e)) m ->
  0 < length ->
  ByteRangeMap.value_at
    (ByteRangeMap.set_range eqb ByteRangeMap.same m offset length v) x
  = if (offset <=? x) && (x <? offset + length) then Some v
    else ByteRangeMap.value_at m x.
Proof.
  intros Heq Hpos Hlen. unfold ByteRangeMap.set_range.
  replace (length <=? 0) with false by (symmetry; apply Z.leb_gt; lia).
  destruct (value_at_merge eqb
              (ByteRangeMap.insert_entry (offset, length, v)
                 (flat_map (ByteRangeMap.remainder ByteRangeMap.same offset length) m))
              Heq) as [_ Hval].
  { apply insert_entry_lengths; [simpl; lia | apply remainder_lengths, Hpos]. }
  rewrite Hval.
  pose proof (value_at_remainder m offset length x Hlen) as Hrem.
  destruct ((offset <=? x) && (x <? offset + length)) eqn:E.
  - apply value_at_insert_entry_here; [exact E | exact Hrem].
  - rewrite value_at_insert_entry_other; [exact Hrem | exact E].
Qed.

Lemma well_formed_tail (e : Z * Z * T) m :
  ByteRangeMap.well_formed (e :: m) = true -> ByteRangeMap.well_formed m = true.
Proof.
  destruct e as [[o l] v]. simpl. intros H.
  apply andb_true_iff in H. apply H.
Qed.

Lemma well_formed_lengths m :
  ByteRangeMap.well_formed m = true -> Forall (fun e => 0 < snd (fst e)) m.
Proof.
  induction m as [|[[o l] v] m IH]; intros Hwf; constructor.
  - simpl in *. apply andb_true_iff in Hwf. destruct Hwf as [Hwf _].
    apply andb_true_iff in Hwf. destruct Hwf as [Hwf _]. apply Z.ltb_lt, Hwf.
  - apply IH. eapply well_formed_tail, Hwf.
Qed.

(** In a well formed map, what follows an entry starts after its end. *)
Lemma well_formed_after (o l : Z) (v : T) m :
  ByteRangeMap.well_formed ((o, l, v) :: m) = true ->
  forall o' l' v', In (o', l', v') m -> o + l <= o'.
Proof.
  revert o l v. induction m as [|[[o1 l1] v1] m IH]; intros o l v Hwf o' l' v' Hin.
  - destruct Hin.
  - pose proof (well_formed_tail _ _ Hwf) as Hwf1.
    assert (Hstep : 0 < l /\ o + l <= o1).
    { simpl in Hwf. apply andb_true_iff in Hwf. destruct Hwf as [Hwf _].
      apply andb_true_iff in Hwf. destruct Hwf as [H1 H2].
      apply Z.ltb_lt in H1. apply Z.leb_le in H2. auto. }
    destruct Hin as [Heq | Hin].
    + inversion Heq; subst. apply Hstep.
    + pose proof (IH o1 l1 v1 Hwf1 o' l' v' Hin) as Hnext.
      pose proof (well_formed_lengths _ Hwf1) as Hlen.
      inversion Hlen as [|? ? Hl1 _]; subst. simpl in Hl1. lia.
Qed.

(** In a well formed map, the entry over a byte is the one [get_range]
    finds. *)
Lemma get_range_unique m (o l : Z) (v : T) (x : Z) :
  ByteRangeMap.well_formed m = true ->
  In (o, l, v) m -> o <= x < o + l ->
  ByteRangeMap.get_range m x = Some (o, l, v).
Proof.
  intros Hwf Hin Hx. induction m as [|[[o1 l1] v1] m IH]; [destruct Hin|].
  unfold ByteRangeMap.get_range. simpl.
  destruct ((o1 <=? x) && (x <? o1 + l1)) eqn:E.
  - destruct Hin as [Heq | Hin]; [rewrite Heq; reflexivity|].
    pose proof (well_formed_after _ _ _ _ Hwf _ _ _ Hin) as Hafter.
    apply andb_true_iff in E. destruct E as [E1 E2].
    apply Z.leb_le in E1. apply Z.ltb_lt in E2. lia.
  - destruct Hin as [Heq | Hin].
    + inversion Heq; subst. zbool; try discriminate; lia.
    + apply IH; [eapply well_formed_tail, Hwf | exact Hin].
Qed.

Lemma get_range_some m (x : Z) (o l : Z) (v : T) :
  ByteRangeMap.get_range m x = Some (o, l, v) ->
  In (o, l, v) m /\ o <= x < o + l.
Proof.
  unfold ByteRangeMap.get_range. intros H. apply find_some in H.
  destruct H as [Hin Hc]. split; [exact Hin|].
  simpl in Hc. apply andb_true_iff in Hc. destruct Hc as [H1 H2].
  apply Z.leb_le in H1. apply Z.ltb_lt in H2. lia.
Qed.

Lemma get_range_none m (x : Z) :
  ByteRangeMap.get_range m x = None ->
  forall o l v, In (o, l, v) m -> ~ (o <= x < o + l).
Proof.
  unfold ByteRangeMap.get_range. intros H o l v Hin Hx.
  pose proof (find_none _ _ H _ Hin) as Hc. simpl in Hc.
  zbool; try discriminate; lia.
Qed.

End RangeMapFacts.

(** ** NestedRangeMap<T> *)

Section NestedMapFacts.

Context {T : Type}.

Implicit Types m : NestedOffsetLengthMap.t T.

Lemma can_set_false m (offset length o l : Z) (x : T) :
  In (o, l, x) m ->
  NestedOffsetLengthMap.partial_overlap offset length o l = true ->
  NestedOffsetLengthMap.can_set m offset length = false.
Proof.
  intros Hin Hov. unfold NestedOffsetLengthMap.can_set.
  destruct (forallb _ m) eqn:E; [|reflexivity].
  rewrite forallb_forall in E. specialize (E _ Hin). simpl in E.
  rewrite Hov in E. discriminate.
Qed.

Lemma can_set_true m (offset length : Z) :
  (forall o l x, In (o, l, x) m ->
     NestedOffsetLengthMap.partial_overlap offset length o l = false) ->
  NestedOffsetLengthMap.can_set m offset length = true.
Proof.
  intros Hall. unfold NestedOffsetLengthMap.can_set.
  apply forallb_forall. intros [[o l] x] Hin.
  rewrite (Hall _ _ _ Hin). reflexivity.
Qed.

Lemma put_in m (offset length : Z) (v : T) :
  In (offset, length, v) (NestedOffsetLengthMap.put m offset length v).
Proof.
  induction m as [|[[o l] x] m IH]; simpl.
  - left. reflexivity.
  - destruct ((o =? offset) && (l =? length)); [left; reflexivity|].
    destruct (NestedOffsetLengthMap.key_before offset length o l).
    + left. reflexivity.
    + right. exact IH.
Qed.

(** The entries of other ranges stay when an entry is put. *)
Lemma put_keeps m (offset length : Z) (v : T) (o l : Z) (x : T) :
  In (o, l, x) m -> (o, l) <> (offset, length) ->
  In (o, l, x) (NestedOffsetLengthMap.put m offset length v).
Proof.
  intros Hin Hne. induction m as [|[[o1 l1] x1] m IH]; [destruct Hin|].
  simpl. destruct ((o1 =? offset) && (l1 =? length)) eqn:E.
  - destruct Hin as [Heq | Hin]; [|right; exact Hin].
    inversion Heq; subst. apply andb_true_iff in E. destruct E as [E1 E2].
    apply Z.eqb_eq in E1, E2. subst. contradiction Hne. reflexivity.
  - destruct (NestedOffsetLengthMap.key_before offset length o1 l1).
    + right. exact Hin.
    + destruct Hin as [Heq | Hin]; [left; exact Heq | right; apply IH, Hin].
Qed.

(** A range lying in another does not overlap it partially. *)
Lemma contained_no_partial_overlap (o l offset length : Z) :
  NestedOffsetLengthMap.contains o l offset length = true ->
  NestedOffsetLengthMap.partial_overlap offset length o l = false.
Proof.
  unfold NestedOffsetLengthMap.partial_overlap. intros H. rewrite H.
  simpl. apply andb_false_r.
Qed.

End NestedMapFacts.



(** ** The virtual address mapping *)

Lemma mirrored_in_spec (m m' : Document.OffsetMap) (o l v : Z) :
  Document.mirrored_in m m' = true -> In (o, l, v) m -> In (v, l, o) m'.
Proof.
  unfold Document.mirrored_in. intros H Hin.
  rewrite forallb_forall in H. specialize (H _ Hin). simpl in H.
  apply existsb_exists in H. destruct H as [[[o' l'] v'] [Hin' He]].
  apply andb_true_iff in He. destruct He as [He E3].
  apply andb_true_iff in He. destruct He as [E1 E2].
  apply Z.eqb_eq in E1, E2, E3. subst. exact Hin'.
Qed.

(** A translation through a segment, followed by the translation through
    its mirror image, gives the address back. *)
Lemma translate_there_and_back (m m' : Document.OffsetMap) (x : Z) :
  ByteRangeMap.well_formed m' = true ->
  Document.mirrored_in m m' = true ->
  forall o l v, ByteRangeMap.get_range m x = Some (o, l, v) ->
  ByteRangeMap.get_range m' (v + (x - o)) = Some (v, l, o).
Proof.
  intros Hwf Hmir o l v Hget.
  apply get_range_some in Hget. destruct Hget as [Hin Hx].
  apply get_range_unique; [exact Hwf | | lia].
  eapply mirrored_in_spec; eassumption.
Qed.

(** C4. In a document whose virtual address mapping is consistent, the
    translation from real to virtual followed by the translation from
    virtual to real is the identity on every mapped real segment, and the
    other way round on every mapped virtual segment; outside of any mapped
    segment, either translation is the identity. *)
Theorem virt_real_round_trip (d : Document.Document) :
  Document.mapping_invariant d ->
  (forall r, Document.mapped (Document.real_to_virt_segs d) r ->
     Document.virt_to_real_offset d (Document.real_to_virt_offset d r) = r) /\
  (forall v, Document.mapped (Document.virt_to_real_segs d) v ->
     Document.real_to_virt_offset d (Document.virt_to_real_offset d v) = v) /\
  (forall r, ~ Document.mapped (Document.real_to_virt_segs d) r ->
     Document.real_to_virt_offset d r = r) /\
  (forall v, ~ Document.mapped (Document.virt_to_real_segs d) v ->
     Document.virt_to_real_offset d v = v).
Proof.
  unfold Document.mapping_invariant, Document.mappings_consistent.
  intros Hinv.
  apply andb_true_iff in Hinv. destruct Hinv as [Hinv Hm2].
  apply andb_true_iff in Hinv. destruct Hinv as [Hinv Hm1].
  apply andb_true_iff in Hinv. destruct Hinv as [Hwf1 Hwf2].
  assert (Hthere : forall m m' x,
    ByteRangeMap.well_formed m = true -> ByteRangeMap.well_formed m' = true ->
    Document.mirrored_in m m' = true -> Document.mapped m x ->
    exists o l v, ByteRangeMap.get_range m x = Some (o, l, v) /\
                  ByteRangeMap.get_range m' (v + (x - o)) = Some (v, l, o)).
  { intros m m' x Hw Hw' Hmir (o & l & v & Hin & Hx).
    exists o, l, v.
    assert (Hg : ByteRangeMap.get_range m x = Some (o, l, v))
      by (apply get_range_unique; assumption).
    split; [exact Hg|]. eapply translate_there_and_back; eassumption. }
  assert (Hout : forall (m : Document.OffsetMap) x,
    ~ Document.mapped m x -> ByteRangeMap.get_range m x = None).
  { intros m x Hno. destruct (ByteRangeMap.get_range m x) as [[[o l] v]|] eqn:E;
      [|reflexivity].
    apply get_range_some in E. exfalso. apply Hno. exists o, l, v. exact E. }
  unfold Document.virt_to_real_offset, Document.real_to_virt_offset.
  repeat split.
  - intros r Hr.
    destruct (Hthere _ _ r Hwf1 Hwf2 Hm1 Hr) as (o & l & v & Hg & Hg').
    rewrite Hg, Hg'. lia.
  - intros v Hv.
    destruct (Hthere _ _ v Hwf2 Hwf1 Hm2 Hv) as (o & l & r & Hg & Hg').
    rewrite Hg, Hg'. lia.
  - intros r Hr. rewrite (Hout _ _ Hr). reflexivity.
  - intros v Hv. rewrite (Hout _ _ Hv). reflexivity.
Qed.

(** The mapping of a new document is consistent, and [set_virt_mapping]
    keeps it so, whatever it returns. *)
Lemma mapping_invariant_new : Document.mapping_invariant Document.new_document.
Proof. reflexivity. Qed.

Lemma set_mapping_consistent (m m' : Document.Metadata) (real virt length : Z) :
  Document.set_mapping m real virt length = Some m' ->
  Document.mappings_consistent (Document.md_real_to_virt_segs m')
    (Document.md_virt_to_real_segs m') = true.
Proof.
  unfold Document.set_mapping.
  destruct (Document.mappings_consistent _ _) eqn:E; [|discriminate].
  intros H. inversion H. simpl. exact E.
Qed.

Lemma virt_real_round_trip_witness :
  Document.virt_to_real_offset mapped_document
    (Document.real_to_virt_offset mapped_document 5) = 5.
Proof.
  refine (proj1 (virt_real_round_trip mapped_document _) 5 _).
  - reflexivity.
  - exists 0, 16, 4096. split; [left; reflexivity | lia].
Defined.

(** ** The dirty tracker *)

Lemma is_byte_dirty_value_at (d : Document.Document) (x : Z) :
  Document.is_byte_dirty d x
  = match ByteRangeMap.value_at (Document.data_seq d) x with
    | Some seq => Document.saved_seq d <? seq
    | None => Document.saved_seq d <? Document.buffer_seq d
    end.
Proof.
  unfold Document.is_byte_dirty, ByteRangeMap.value_at.
  destruct (ByteRangeMap.get_range (Document.data_seq d) x) as [[[o l] s]|];
    reflexivity.
Qed.

(** A stamp found over a byte is a stamp of the map. *)
Lemma value_at_in {T : Type} (m : ByteRangeMap.t T) (x : Z) (v : T) :
  ByteRangeMap.value_at m x = Some v -> exists o l, In (o, l, v) m.
Proof.
  unfold ByteRangeMap.value_at.
  destruct (ByteRangeMap.get_range m x) as [[[o l] s]|] eqn:E; [|discriminate].
  intros H. inversion H; subst. apply get_range_some in E.
  exists o, l. apply E.
Qed.

(** What [overwrite_data] does to the dirty tracker when it returns. *)
Lemma overwrite_data_tracker (io : Buffer.Storage) (d d' : Document.Document)
    (offset : Z) (data : list byte) (pos : Z) (st : Document.CursorState)
    (description : string) :
  Document.overwrite_data io d offset data pos st description = Document.Done d' ->
  Document.buffer_seq d' = Document.buffer_seq d + 1 /\
  Document.saved_seq d' = Document.saved_seq d /\
  Document.data_seq d'
    = ByteRangeMap.set_range Z.eqb ByteRangeMap.same (Document.data_seq d)
        offset (Document.len data) (Document.buffer_seq d + 1).
Proof.
  unfold Document.overwrite_data.
  destruct (Document.write_protect d); [discriminate|].
  destruct ((offset <? 0) || _); [discriminate|].
  unfold Document.transact_step, Document.apply_op.
  destruct (Document.read_data io d offset (Document.len data)); [|discriminate].
  unfold Document._UNTRACKED_overwrite_data.
  destruct (Buffer.overwrite io (Document.buffer d) offset data); [|discriminate].
  simpl. destruct (Document.active d); intros H; inversion H; subst; simpl; auto.
Qed.

Lemma overwrite_data_reliable_done (d : Document.Document) (offset : Z)
    (data : list byte) (pos : Z) (st : Document.CursorState) (description : string) :
  Document.write_protect d = false ->
  0 <= offset -> offset + Document.len data <= Document.buffer_length d ->
  exists d', Document.overwrite_data Buffer.reliable d offset data pos st description
             = Document.Done d'.
Proof.
  intros Hwp Ho Hle. unfold Document.overwrite_data. rewrite Hwp.
  replace (offset <? 0) with false by (symmetry; apply Z.ltb_ge; lia).
  replace (Document.buffer_length d <? offset + Document.len data) with false
    by (symmetry; apply Z.ltb_ge; lia).
  simpl. unfold Document.transact_step, Document.apply_op, Document.read_data.
  unfold Document.buffer_length, Document.len in *.
  rewrite buffer_read_reliable by (unfold Buffer.length in *; lia).
  unfold Document._UNTRACKED_overwrite_data.
  rewrite buffer_overwrite_reliable by (unfold Buffer.length in *; lia).
  simpl. destruct (Document.active d); eexists; reflexivity.
Qed.




(** ** Reverse-closures and the storage *)

(** The accesses to the buffer that a goal or a hypothesis matches on are
    split into their outcomes. *)
Ltac buffer_cases :=
  repeat match goal with
  | |- context [match Buffer.read ?io ?b ?o ?n with _ => _ end] =>
      destruct (Buffer.read io b o n) eqn:?
  | |- context [match Buffer.overwrite ?io ?b ?o ?x with _ => _ end] =>
      destruct (Buffer.overwrite io b o x) eqn:?
  | |- context [match Buffer.insert ?io ?b ?o ?x with _ => _ end] =>
      destruct (Buffer.insert io b o x) eqn:?
  | |- context [match Buffer.erase ?io ?b ?o ?n with _ => _ end] =>
      destruct (Buffer.erase io b o n) eqn:?
  end.

Ltac unfold_op :=
  unfold Document.apply_op, Document.read_data,
    Document._UNTRACKED_overwrite_data, Document._UNTRACKED_insert_data,
    Document._UNTRACKED_erase_data, Document._UNTRACKED_replace_data.

Section ClosureFacts.

Variable io : Buffer.Storage.

(** A closure leaves the stacks and the open transaction alone; when the
    storage fails, it leaves everything alone but the buffer. *)
Lemma apply_op_frame (d : Document.Document) (op : Document.TransOpFunc) :
  match Document.apply_op io d op with
  | Document.Done (d1, _) =>
      Document.undo_stack d1 = Document.undo_stack d /\
      Document.redo_stack d1 = Document.redo_stack d /\
      Document.active d1 = Document.active d
  | Document.Rejected => False
  | Document.Threw x => Document.same_bookkeeping d x
  end.
Proof.
  destruct op; unfold_op; buffer_cases; simpl;
    unfold Document.same_bookkeeping; simpl; auto 20.
Qed.

Lemma apply_ops_frame (l : list Document.TransOpFunc) :
  forall (d : Document.Document) (acc : list Document.TransOpFunc),
  match Document.apply_ops io d l acc with
  | Document.Done (d1, _) =>
      Document.undo_stack d1 = Document.undo_stack d /\
      Document.redo_stack d1 = Document.redo_stack d /\
      Document.active d1 = Document.active d
  | Document.Rejected => False
  | Document.Threw x =>
      Document.undo_stack x = Document.undo_stack d /\
      Document.redo_stack x = Document.redo_stack d /\
      Document.active x = Document.active d
  end.
Proof.
  induction l as [|op l IH]; intros d acc; simpl; [auto|].
  pose proof (apply_op_frame d op) as Hop.
  destruct (Document.apply_op io d op) as [[d1 r]| |x].
  - destruct Hop as (Hu & Hr & Ha).
    specialize (IH d1 (acc ++ [r])).
    destruct (Document.apply_ops io d1 l (acc ++ [r])) as [[d2 fw]| |x];
      [| exact IH |]; rewrite <- Hu, <- Hr, <- Ha; exact IH.
  - exact Hop.
  - unfold Document.same_bookkeeping in Hop. tauto.
Qed.

(** The outcome of a closure on the buffer depends on the buffer only. *)
Lemma apply_op_same_buffer (d d' d1 : Document.Document)
    (op r : Document.TransOpFunc) :
  Document.buffer d' = Document.buffer d ->
  Document.apply_op io d op = Document.Done (d1, r) ->
  exists d1' r', Document.apply_op io d' op = Document.Done (d1', r') /\
                 Document.buffer d1' = Document.buffer d1.
Proof.
  intros Hb. destruct op; unfold_op; rewrite ?Hb; buffer_cases;
    try discriminate; intros H; inversion H; subst;
    eexists; eexists; (split; [reflexivity|]); simpl;
    try reflexivity; exact Hb.
Qed.

Lemma apply_ops_same_buffer (l : list Document.TransOpFunc) :
  forall (d d' d1 : Document.Document) (acc acc' fw : list Document.TransOpFunc),
  Document.buffer d' = Document.buffer d ->
  Document.apply_ops io d l acc = Document.Done (d1, fw) ->
  exists d1' fw', Document.apply_ops io d' l acc' = Document.Done (d1', fw') /\
                  Document.buffer d1' = Document.buffer d1.
Proof.
  induction l as [|op l IH]; intros d d' d1 acc acc' fw Hb; simpl.
  - intros H. inversion H; subst. eexists. eexists. split; [reflexivity | exact Hb].
  - destruct (Document.apply_op io d op) as [[d2 r]| |x] eqn:E; try discriminate.
    destruct (apply_op_same_buffer _ _ _ _ _ Hb E) as (d2' & r' & E' & Hb2).
    rewrite E'. apply IH. exact Hb2.
Qed.

End ClosureFacts.

(** ** Failures of the storage *)

Lemma transact_step_threw (io : Buffer.Storage) (d x : Document.Document)
    (op : Document.TransOpFunc) (description : string) :
  Document.transact_step io d op description = Document.Threw x ->
  Document.apply_op io d op = Document.Threw x /\ Document.same_bookkeeping d x.
Proof.
  unfold Document.transact_step.
  pose proof (apply_op_frame io d op) as Hop.
  destruct (Document.apply_op io d op) as [[d1 r]| |y].
  - destruct (Document.active d1); discriminate.
  - discriminate.
  - intros H. inversion H; subst. auto.
Qed.

(** An edit throws only what its closure throws. *)
Lemma primitive_edit_threw (io : Buffer.Storage) (d x : Document.Document)
    (e : Document.Edit) :
  Document.primitive_edit io d e = Document.Threw x ->
  Document.same_bookkeeping d x /\
  Document.edits_data e = true /\
  exists op, Document.apply_op io d op = Document.Threw x.
Proof.
  assert (Hmeta : forall f g, Document.apply_op io d (Document._op_tracked_change f g)
                              <> Document.Threw x) by (intros f g; discriminate).
  destruct e; simpl;
    unfold Document.overwrite_data, Document.insert_data, Document.erase_data,
      Document.replace_data, Document.set_comment, Document.erase_comment,
      Document.set_highlight, Document.erase_highlight, Document.set_data_type,
      Document.set_virt_mapping, Document.clear_virt_mapping_r,
      Document.clear_virt_mapping_v, Document._tracked_change;
    repeat match goal with
    | |- context [if ?c then _ else _] => destruct c; try discriminate
    | |- context [match ?c with Some _ => _ | None => _ end] =>
        destruct c; try discriminate
    end;
    intros H; apply transact_step_threw in H; destruct H as [Hop Hsame];
    try (exfalso; eapply Hmeta; exact Hop);
    (split; [exact Hsame | split; [reflexivity | eexists; exact Hop]]).
Qed.

(** On a storage that does not fail, the closure of a validated edit of the
    data does not throw. *)
Lemma read_reliable_none (b : Buffer.Buffer) (offset n : Z) :
  0 <= offset <= Buffer.length b -> 0 <= n ->
  Buffer.read Buffer.reliable b offset n <> None.
Proof.
  intros Ho Hn. unfold Buffer.read, Buffer.reliable.
  replace (offset <? 0) with false by (symmetry; apply Z.ltb_ge; lia).
  replace (n <? 0) with false by (symmetry; apply Z.ltb_ge; lia).
  replace (Buffer.length b <? offset) with false by (symmetry; apply Z.ltb_ge; lia).
  discriminate.
Qed.

Lemma length_nonneg (data : list byte) : 0 <= Buffer.length data.
Proof. unfold Buffer.length. lia. Qed.


Ltac unfold_edits :=
  unfold Document.primitive_edit, Document.overwrite_data, Document.insert_data,
    Document.erase_data, Document.replace_data, Document.set_comment,
    Document.erase_comment, Document.set_highlight, Document.erase_highlight,
    Document.set_data_type, Document.set_virt_mapping,
    Document.clear_virt_mapping_r, Document.clear_virt_mapping_v,
    Document._tracked_change.

Ltac lens :=
  unfold Document.buffer_length, Document.len, Buffer.length in *; lia.

Lemma transact_step_done (io : Buffer.Storage) (d d1 : Document.Document)
    (op r : Document.TransOpFunc) (description : string) :
  Document.apply_op io d op = Document.Done (d1, r) ->
  exists d', Document.transact_step io d op description = Document.Done d'.
Proof.
  intros H. unfold Document.transact_step. rewrite H.
  destruct (Document.active d1); eexists; reflexivity.
Qed.

Lemma erased_length (b : Buffer.Buffer) (offset n : Z) :
  0 <= offset -> 0 <= n -> offset + n <= Buffer.length b ->
  Buffer.length (firstn (Z.to_nat offset) b
                 ++ skipn (Z.to_nat offset + Z.to_nat n) b)
  = Buffer.length b - n.
Proof.
  intros Ho Hn Hle. unfold Buffer.length in *.
  rewrite length_app, length_firstn, length_skipn. lia.
Qed.

(** On a storage that does not fail, an edit of the data that passes the
    validation is made. *)
Lemma data_edit_reliable (d : Document.Document) (e : Document.Edit) :
  Document.edits_data e = true ->
  Document.primitive_edit Buffer.reliable d e = Document.Rejected \/
  exists d', Document.primitive_edit Buffer.reliable d e = Document.Done d'.
Proof.
  destruct e; try discriminate; intros _; unfold_edits;
    (destruct (Document.write_protect d); [left; reflexivity|]);
    match goal with
    | |- context [if ?c then _ else _] => destruct c eqn:Hv; [left; reflexivity|]
    end;
    right; repeat (apply orb_false_iff in Hv; destruct Hv as [Hv ?]);
    repeat match goal with
    | H : (_ <? _) = false |- _ => apply Z.ltb_ge in H
    end;
    unfold Document.buffer_length, Document.len in *.
  - eapply transact_step_done. unfold_op.
    rewrite buffer_read_reliable by lens.
    rewrite buffer_overwrite_reliable by lens.
    reflexivity.
  - eapply transact_step_done. unfold_op.
    rewrite buffer_insert_reliable by lens. reflexivity.
  - eapply transact_step_done. unfold_op.
    rewrite buffer_read_reliable by lens.
    rewrite buffer_erase_reliable by lens. reflexivity.
  - eapply transact_step_done. unfold_op.
    rewrite buffer_read_reliable by lens.
    rewrite buffer_erase_reliable by lens.
    rewrite buffer_insert_reliable by (rewrite erased_length; lens).
    reflexivity.
Qed.



(** ** The undo stack *)

Lemma push_bounded_length (t : Document.Transaction) (s : list Document.Transaction) :
  (List.length (Document.push_bounded t s) <= Document.UNDO_MAX)%nat.
Proof. unfold Document.push_bounded. rewrite length_firstn. lia. Qed.

Ltac stack_simpl :=
  cbn [Document.undo_stack Document.redo_stack Document.active
       Document.set_stacks Document.after Document.restore_snapshot].

Section StackFacts.

Variable io : Buffer.Storage.

Lemma transact_step_bounded (d : Document.Document) (op : Document.TransOpFunc)
    (description : string) :
  Document.stacks_bounded d ->
  Document.stacks_bounded
    (Document.after d (Document.transact_step io d op description)).
Proof.
  unfold Document.stacks_bounded, Document.transact_step. intros Hb.
  pose proof (apply_op_frame io d op) as Hop.
  destruct (Document.apply_op io d op) as [[d1 r]| |x]; stack_simpl.
  - destruct Hop as (Hu & Hr & Ha).
    destruct (Document.active d1); stack_simpl.
    + rewrite Hu. simpl. lia.
    + unfold Document.transact_commit. stack_simpl.
      match goal with
      | |- context [Document.push_bounded ?t ?s] =>
          pose proof (push_bounded_length t s)
      end.
      change (@List.length Document.Transaction []) with 0%nat. lia.
  - exact Hb.
  - unfold Document.same_bookkeeping in Hop.
    destruct Hop as (_ & _ & _ & _ & _ & _ & _ & _ & _ & _ & Hu & Hr & _).
    rewrite Hu, Hr. exact Hb.
Qed.

Lemma primitive_edit_bounded (d : Document.Document) (e : Document.Edit) :
  Document.stacks_bounded d ->
  Document.stacks_bounded (Document.after d (Document.primitive_edit io d e)).
Proof.
  intros Hb. destruct e; unfold_edits;
    repeat match goal with
    | |- context [if ?c then _ else _] => destruct c; try exact Hb
    | |- context [match ?c with Some _ => _ | None => _ end] =>
        destruct c; try exact Hb
    end;
    apply transact_step_bounded; exact Hb.
Qed.

Lemma undo_bounded (d : Document.Document) :
  Document.stacks_bounded d ->
  Document.stacks_bounded (Document.after d (Document.undo io d)).
Proof.
  unfold Document.stacks_bounded, Document.undo. intros Hb.
  destruct (Document.undo_stack d) as [|t rest] eqn:Es; simpl; [rewrite Es; exact Hb|].
  pose proof (apply_ops_frame io (rev (Document.ops t))
                (Document.set_stacks d rest (Document.redo_stack d) (Document.active d))
                []) as Hf.
  destruct (Document.apply_ops io _ (rev (Document.ops t)) []) as [[d1 fw]| |x];
    simpl in *.
  - destruct Hf as (Hu & Hr & _). rewrite Hu, Hr. simpl. lia.
  - destruct Hf.
  - destruct Hf as (Hu & Hr & _). rewrite Hu, Hr. lia.
Qed.

Lemma redo_bounded (d : Document.Document) :
  Document.stacks_bounded d ->
  Document.stacks_bounded (Document.after d (Document.redo io d)).
Proof.
  unfold Document.stacks_bounded, Document.redo. intros Hb.
  destruct (Document.redo_stack d) as [|t rest] eqn:Es; simpl; [rewrite Es; exact Hb|].
  pose proof (apply_ops_frame io (rev (Document.ops t))
                (Document.set_stacks d (Document.undo_stack d) rest (Document.active d))
                []) as Hf.
  destruct (Document.apply_ops io _ (rev (Document.ops t)) []) as [[d1 fw]| |x];
    simpl in *.
  - destruct Hf as (Hu & Hr & _). rewrite Hu, Hr. simpl. lia.
  - destruct Hf.
  - destruct Hf as (Hu & Hr & _). rewrite Hu, Hr. lia.
Qed.

(** What [transact_rollback] leaves behind, however it ends. *)
Lemma transact_rollback_spec (d : Document.Document) (t : Document.Transaction) :
  Document.active d = Some t ->
  match Document.transact_rollback io d with
  | Document.Done d' =>
      (exists d1 forward,
         Document.apply_ops io
           (Document.set_stacks d (Document.undo_stack d) (Document.redo_stack d) None)
           (rev (Document.ops t)) [] = Document.Done (d1, forward) /\
         d' = Document.restore_snapshot d1 t) /\
      Document.undo_stack d' = Document.undo_stack d /\
      Document.redo_stack d' = Document.redo_stack d /\
      Document.active d' = None /\
      Document.metadata_of d'
        = {| Document.md_comments := Document.old_comments t;
             Document.md_highlights := Document.old_highlights t;
             Document.md_types := Document.old_types t;
             Document.md_real_to_virt_segs := Document.old_real_to_virt_segs t;
             Document.md_virt_to_real_segs := Document.old_virt_to_real_segs t |} /\
      Document.cpos_off d' = Document.old_cpos_off t /\
      Document.cursor_state d' = Document.old_cursor_state t
  | Document.Rejected => False
  | Document.Threw x =>
      Document.undo_stack x = Document.undo_stack d /\
      Document.redo_stack x = Document.redo_stack d /\
      Document.active x = None
  end.
Proof.
  intros Ha. unfold Document.transact_rollback. rewrite Ha.
  pose proof (apply_ops_frame io (rev (Document.ops t))
                (Document.set_stacks d (Document.undo_stack d)
                   (Document.redo_stack d) None) []) as Hf.
  destruct (Document.apply_ops io _ (rev (Document.ops t)) []) as [[d1 fw]| |x];
    simpl in *.
  - destruct Hf as (Hu & Hr & Hact).
    split; [eexists; eexists; split; reflexivity|].
    repeat split; assumption.
  - exact Hf.
  - exact Hf.
Qed.

Lemma run_command_bounded (d : Document.Document) (c : Document.Command) :
  Document.stacks_bounded d ->
  Document.stacks_bounded (Document.run_command io d c).
Proof.
  intros Hb. destruct c; simpl.
  - apply primitive_edit_bounded, Hb.
  - unfold Document.transact_begin. destruct (Document.active d); exact Hb.
  - unfold Document.transact_commit, Document.stacks_bounded in *.
    destruct (Document.active d); [|exact Hb]. stack_simpl.
    pose proof (push_bounded_length
      (Document.with_ops t (Document.ops t) true) (Document.undo_stack d)).
    change (@List.length Document.Transaction []) with 0%nat. lia.
  - destruct (Document.active d) as [t|] eqn:Ha.
    + pose proof (transact_rollback_spec d t Ha) as Hr.
      unfold Document.stacks_bounded in *.
      destruct (Document.transact_rollback io d) as [d'| |x]; simpl.
      * destruct Hr as (_ & Hu & Hr & _). rewrite Hu, Hr. exact Hb.
      * exact Hb.
      * destruct Hr as (Hu & Hr & _). rewrite Hu, Hr. exact Hb.
    + unfold Document.transact_rollback. rewrite Ha. exact Hb.
  - apply undo_bounded, Hb.
  - apply redo_bounded, Hb.
  - exact Hb.
  - exact Hb.
  - exact Hb.
Qed.

Lemma run_commands_bounded (cs : list Document.Command) :
  forall d : Document.Document,
  Document.stacks_bounded d ->
  Document.stacks_bounded (Document.run_commands io d cs).
Proof.
  unfold Document.run_commands.
  induction cs as [|c cs IH]; intros d Hb; simpl; [exact Hb|].
  apply IH, run_command_bounded, Hb.
Qed.

End StackFacts.



(** ** Undoing an edit of the buffer *)

Lemma buffer_overwrite_back (b b1 : Buffer.Buffer) (offset : Z) (data old : list byte) :
  Buffer.read Buffer.reliable b offset (Document.len data) = Some old ->
  Buffer.overwrite Buffer.reliable b offset data = Some b1 ->
  Buffer.read Buffer.reliable b1 offset (Document.len old) = Some data /\
  Buffer.overwrite Buffer.reliable b1 offset old = Some b.
Proof.
  intros Hr Hw.
  apply buffer_read_some in Hr. destruct Hr as (_ & _ & Hold).
  apply buffer_overwrite_some in Hw. destruct Hw as (Ho & Hle & Hb1).
  unfold Document.len in *. rewrite Nat2Z.id in Hold.
  assert (Hn : (Z.to_nat offset + List.length data <= List.length b)%nat) by lens.
  destruct (overwrite_back b (Z.to_nat offset) data Hn) as (Hlen & Hread & Hback).
  rewrite <- Hold, <- Hb1 in *.
  assert (Hl1 : List.length b1 = List.length b).
  { rewrite Hb1, !length_app, length_firstn, length_skipn. lia. }
  split.
  - rewrite buffer_read_reliable by lens.
    rewrite Nat2Z.id, Hlen, Hread. reflexivity.
  - rewrite buffer_overwrite_reliable by lens.
    rewrite Hback. reflexivity.
Qed.

Lemma buffer_insert_back (b b1 : Buffer.Buffer) (offset : Z) (data : list byte) :
  Buffer.insert Buffer.reliable b offset data = Some b1 ->
  Buffer.read Buffer.reliable b1 offset (Document.len data) = Some data /\
  Buffer.erase Buffer.reliable b1 offset (Document.len data) = Some b.
Proof.
  intros Hi.
  apply buffer_insert_some in Hi. destruct Hi as (Ho & Hb1).
  unfold Document.len in *.
  assert (Hn : (Z.to_nat offset <= List.length b)%nat) by lens.
  destruct (insert_back b (Z.to_nat offset) data Hn) as (Hread & Hback).
  rewrite <- Hb1 in *.
  assert (Hl1 : List.length b1 = (List.length b + List.length data)%nat).
  { rewrite Hb1, !length_app, length_firstn, length_skipn. lia. }
  split.
  - rewrite buffer_read_reliable by lens.
    rewrite Nat2Z.id, Hread. reflexivity.
  - rewrite buffer_erase_reliable by lens.
    rewrite Nat2Z.id, Hback. reflexivity.
Qed.

Lemma buffer_erase_back (b b1 : Buffer.Buffer) (offset n : Z) (old : list byte) :
  Buffer.read Buffer.reliable b offset n = Some old ->
  Buffer.erase Buffer.reliable b offset n = Some b1 ->
  Document.len old = n /\
  Buffer.insert Buffer.reliable b1 offset old = Some b.
Proof.
  intros Hr He.
  apply buffer_read_some in Hr. destruct Hr as (_ & _ & Hold).
  apply buffer_erase_some in He. destruct He as (Ho & Hn0 & Hle & Hb1).
  unfold Document.len in *.
  assert (Hn : (Z.to_nat offset + Z.to_nat n <= List.length b)%nat) by lens.
  destruct (erase_back b (Z.to_nat offset) (Z.to_nat n) Hn) as (Hlen & Hback).
  rewrite <- Hold, <- Hb1 in *.
  assert (Hl1 : (Z.to_nat offset <= List.length b1)%nat).
  { rewrite Hb1, !length_app, length_firstn, length_skipn. lia. }
  split; [lia|].
  rewrite buffer_insert_reliable by lens.
  rewrite Hback. reflexivity.
Qed.

(** On a storage that does not fail, the closure that a closure returns
    undoes it: run on a document with the buffer the first one left, it
    gives the buffer back as it was. *)
Lemma apply_op_inverse (d d1 d' : Document.Document) (op r : Document.TransOpFunc) :
  Document.apply_op Buffer.reliable d op = Document.Done (d1, r) ->
  Document.buffer d' = Document.buffer d1 ->
  exists d2 r', Document.apply_op Buffer.reliable d' r = Document.Done (d2, r') /\
                Document.buffer d2 = Document.buffer d.
Proof.
  destruct op; unfold_op; buffer_cases; try discriminate;
    intros H Hb; inversion H; subst; clear H; simpl in Hb; unfold_op; rewrite ?Hb.
  - (* overwrite, undone *)
    destruct (buffer_overwrite_back _ _ _ _ _ Heqo Heqo0) as (Hr & Hw).
    rewrite Hr, Hw. eexists. eexists. split; reflexivity.
  - destruct (buffer_overwrite_back _ _ _ _ _ Heqo Heqo0) as (Hr & Hw).
    rewrite Hr, Hw. eexists. eexists. split; reflexivity.
  - (* the inserted bytes are erased, and inserted again *)
    destruct (buffer_erase_back _ _ _ _ _ Heqo Heqo0) as (Hl & Hi).
    rewrite Hi. eexists. eexists. split; reflexivity.
  - destruct (buffer_insert_back _ _ _ _ Heqo) as (Hr & He).
    rewrite Hr, He. eexists. eexists. split; reflexivity.
  - destruct (buffer_insert_back _ _ _ _ Heqo) as (Hr & He).
    rewrite Hr, He. eexists. eexists. split; reflexivity.
  - destruct (buffer_erase_back _ _ _ _ _ Heqo Heqo0) as (Hl & Hi).
    rewrite Hi. eexists. eexists. split; reflexivity.
  - (* a replacement, undone *)
    destruct (buffer_insert_back _ _ _ _ Heqo1) as (Hr & He).
    destruct (buffer_erase_back _ _ _ _ _ Heqo Heqo0) as (Hl & Hi).
    rewrite Hr, He, Hi. eexists. eexists. split; reflexivity.
  - destruct (buffer_insert_back _ _ _ _ Heqo1) as (Hr & He).
    destruct (buffer_erase_back _ _ _ _ _ Heqo Heqo0) as (Hl & Hi).
    rewrite Hr, He, Hi. eexists. eexists. split; reflexivity.
  - eexists. eexists. split; [reflexivity | exact Hb].
Qed.

(** ** Undoing a primitive edit *)

Lemma firstn_64_cons {A : Type} (x : A) (l : list A) :
  firstn 64 (x :: l) = x :: firstn 63 l.
Proof. reflexivity. Qed.

(** A step of a transaction made while none is open is undone by
    [undo]. *)
Lemma transact_step_undo (d d1 : Document.Document) (op : Document.TransOpFunc)
    (description : string) :
  Document.active d = None ->
  Document.transact_step Buffer.reliable d op description = Document.Done d1 ->
  Document.active d1 = None /\
  exists u, Document.undo Buffer.reliable d1 = Document.Done u /\
            Document.visible u = Document.visible d /\
            Document.undo_stack u = firstn 63 (Document.undo_stack d) /\
            Document.active u = None.
Proof.
  intros Ha. unfold Document.transact_step.
  pose proof (apply_op_frame Buffer.reliable d op) as Hf.
  destruct (Document.apply_op Buffer.reliable d op) as [[dE r]| |x] eqn:E;
    try discriminate.
  destruct Hf as (Hu & Hr & Hact). rewrite Hact, Ha.
  intros H. inversion H; subst d1; clear H.
  unfold Document.transact_commit. stack_simpl.
  split; [reflexivity|].
  unfold Document.undo. stack_simpl.
  unfold Document.push_bounded, Document.UNDO_MAX. rewrite firstn_64_cons.
  cbn [Document.ops Document.with_ops rev app].
  match goal with
  | |- context [Document.apply_ops _ ?D [r] []] =>
      destruct (apply_op_inverse d dE D op r E eq_refl) as (d2 & r' & E2 & Hb2);
      pose proof (apply_op_frame Buffer.reliable D r) as Hf2
  end.
  cbn [Document.apply_ops]. rewrite E2 in *. cbn [app].
  destruct Hf2 as (Hu2 & Hr2 & Hact2).
  eexists. split; [reflexivity|].
  stack_simpl. rewrite Hu2, Hact2. stack_simpl.
  split; [|split; [rewrite Hu; reflexivity | reflexivity]].
  unfold Document.visible. cbn. rewrite Hb2. reflexivity.
Qed.

Lemma primitive_edit_undo (d d1 : Document.Document) (e : Document.Edit) :
  Document.active d = None ->
  Document.primitive_edit Buffer.reliable d e = Document.Done d1 ->
  Document.active d1 = None /\
  exists u, Document.undo Buffer.reliable d1 = Document.Done u /\
            Document.visible u = Document.visible d /\
            Document.undo_stack u = firstn 63 (Document.undo_stack d) /\
            Document.active u = None.
Proof.
  intros Ha. destruct e; unfold_edits;
    repeat match goal with
    | |- context [if ?c then _ else _] => destruct c; try discriminate
    | |- context [match ?c with Some _ => _ | None => _ end] =>
        destruct c; try discriminate
    end;
    apply transact_step_undo; exact Ha.
Qed.

(** ** Round trip of edits and undos *)

Lemma agree_sym (k : nat) (d d' : Document.Document) :
  Document.agree k d d' -> Document.agree k d' d.
Proof. unfold Document.agree. intros [H1 H2]. split; symmetry; assumption. Qed.

Lemma firstn_S_nil {A : Type} (k : nat) (l : list A) :
  firstn (S k) l = [] -> l = [].
Proof. destruct l; [reflexivity | discriminate]. Qed.

(** [undo] on two documents that look the same and have the same
    transaction on top of their undo stacks gives documents that look the
    same. *)
Lemma undo_agree (io : Buffer.Storage) (k : nat) (d d' u : Document.Document) :
  Document.agree (S k) d d' ->
  Document.undo io d = Document.Done u ->
  exists u', Document.undo io d' = Document.Done u' /\ Document.agree k u u'.
Proof.
  unfold Document.agree. intros [Hv Hs].
  assert (Hbuf : Document.buffer d' = Document.buffer d).
  { change (Document.v_buffer (Document.visible d')
            = Document.v_buffer (Document.visible d)). rewrite Hv. reflexivity. }
  unfold Document.undo.
  destruct (Document.undo_stack d) as [|t rest] eqn:Es.
  - symmetry in Hs. apply firstn_S_nil in Hs. rewrite Hs.
    intros H. inversion H; subst u. exists d'. rewrite Es, Hs. auto.
  - destruct (Document.undo_stack d') as [|t' rest'] eqn:Es'; [discriminate|].
    simpl in Hs. inversion Hs as [[Ht Hrest]]. subst t'.
    pose proof (apply_ops_frame io (rev (Document.ops t))
      (Document.set_stacks d rest (Document.redo_stack d) (Document.active d)) [])
      as Hf.
    destruct (Document.apply_ops io
                (Document.set_stacks d rest (Document.redo_stack d) (Document.active d))
                (rev (Document.ops t)) []) as [[d1 fw]| |x] eqn:E; try discriminate.
    intros H. inversion H; subst u; clear H.
    destruct (apply_ops_same_buffer io (rev (Document.ops t))
                (Document.set_stacks d rest (Document.redo_stack d) (Document.active d))
                (Document.set_stacks d' rest' (Document.redo_stack d') (Document.active d'))
                d1 [] [] fw Hbuf E) as (d1' & fw' & E' & Hb1).
    pose proof (apply_ops_frame io (rev (Document.ops t))
      (Document.set_stacks d' rest' (Document.redo_stack d') (Document.active d')) [])
      as Hf'.
    rewrite E' in *.
    destruct Hf as (Hu & _). destruct Hf' as (Hu' & _).
    eexists. split; [reflexivity|]. stack_simpl.
    rewrite Hu, Hu'. stack_simpl.
    split; [|exact Hrest].
    unfold Document.visible. cbn. rewrite Hb1. reflexivity.
Qed.

Lemma firstn_firstn_le {A : Type} (k n : nat) (l : list A) :
  (k <= n)%nat -> firstn k (firstn n l) = firstn k l.
Proof. intros H. rewrite firstn_firstn. f_equal. lia. Qed.

(** After no more than 64 edits, as many calls of [undo] give back a
    document that looks as before the edits, with what is left of its undo
    stack on top. *)
Lemma edits_undone (es : list Document.Edit) :
  forall d d1 : Document.Document,
  Document.active d = None ->
  (List.length es <= 64)%nat ->
  Document.primitive_edits Buffer.reliable d es = Document.Done d1 ->
  exists d2,
    Document.undo_times Buffer.reliable (List.length es) d1 = Document.Done d2 /\
    Document.agree (64 - List.length es) d2 d.
Proof.
  induction es as [|e es IH]; intros d d1 Ha Hlen;
    cbn [Document.primitive_edits Document.undo_times List.length].
  - intros H. inversion H; subst. exists d1. split; [reflexivity|].
    split; reflexivity.
  - simpl in Hlen.
    destruct (Document.primitive_edit Buffer.reliable d e) as [dA| |x] eqn:Ee;
      try discriminate.
    intros Hrest.
    destruct (primitive_edit_undo d dA e Ha Ee) as (HaA & u & Hundo & Hvis & Hstack & _).
    destruct (IH dA d1 HaA ltac:(lia) Hrest) as (d2 & Htimes & Hagree).
    rewrite Htimes.
    replace (64 - List.length es)%nat with (S (63 - List.length es)) in Hagree by lia.
    destruct (undo_agree Buffer.reliable _ dA d2 u (agree_sym _ _ _ Hagree) Hundo)
      as (u' & Hundo' & Hagree').
    exists u'. split; [exact Hundo'|].
    replace (64 - S (List.length es))%nat with (63 - List.length es)%nat by lia.
    destruct Hagree' as [Hv Hs]. split.
    + rewrite <- Hv. exact Hvis.
    + rewrite <- Hs, Hstack. apply firstn_firstn_le. lia.
Qed.




(** ** The shift of the ranges *)

Section ShiftFacts.

Context {T : Type}.

Lemma nested_data_inserted_in (m : NestedOffsetLengthMap.t T)
    (offset n o l : Z) (v : T) :
  0 <= n -> In (o, l, v) m -> offset <= o ->
  In (o + n, l, v) (NestedOffsetLengthMap.data_inserted m offset n).
Proof.
  intros Hn Hin Ho. unfold NestedOffsetLengthMap.data_inserted.
  destruct (Z.leb_spec n 0).
  - replace n with 0 by lia. rewrite Z.add_0_r. exact Hin.
  - apply in_map_iff. exists (o, l, v). split; [|exact Hin].
    simpl. replace (offset <=? o) with true by (symmetry; apply Z.leb_le; lia).
    reflexivity.
Qed.

(** A range the insertion falls into grows by the inserted length, and a
    range before it stays. *)
Lemma nested_data_inserted_before (m : NestedOffsetLengthMap.t T)
    (offset n o l : Z) (v : T) :
  0 <= n -> In (o, l, v) m -> o < offset ->
  In (o, (if offset <? o + l then l + n else l), v)
    (NestedOffsetLengthMap.data_inserted m offset n).
Proof.
  intros Hn Hin Ho. unfold NestedOffsetLengthMap.data_inserted.
  destruct (Z.leb_spec n 0).
  - replace n with 0 by lia. rewrite Z.add_0_r.
    destruct (offset <? o + l); exact Hin.
  - apply in_map_iff. exists (o, l, v). split; [|exact Hin].
    simpl. replace (offset <=? o) with false by (symmetry; apply Z.leb_gt; lia).
    destruct (offset <? o + l); reflexivity.
Qed.

Lemma nested_data_erased_in (m : NestedOffsetLengthMap.t T)
    (offset n o l : Z) (v : T) :
  0 <= n -> In (o, l, v) m -> offset + n <= o ->
  In (o - n, l, v) (NestedOffsetLengthMap.data_erased m offset n).
Proof.
  intros Hn Hin Ho. unfold NestedOffsetLengthMap.data_erased.
  destruct (Z.leb_spec n 0).
  - replace n with 0 by lia. rewrite Z.sub_0_r. exact Hin.
  - apply in_flat_map. exists (o, l, v). split; [exact Hin|].
    simpl. replace (offset + n <=? o) with true by (symmetry; apply Z.leb_le; lia).
    left. reflexivity.
Qed.

(** A range that the erased bytes cut through, without covering it, is
    truncated by the bytes it loses. *)
Lemma nested_data_erased_cut (m : NestedOffsetLengthMap.t T)
    (offset n o l : Z) (v : T) :
  0 <= n -> In (o, l, v) m ->
  o < offset + n -> offset < o + l ->
  ~ (offset <= o /\ o + l <= offset + n) ->
  In (Z.min o offset, l - (Z.min (o + l) (offset + n) - Z.max o offset), v)
    (NestedOffsetLengthMap.data_erased m offset n).
Proof.
  intros Hn Hin H1 H2 H3. unfold NestedOffsetLengthMap.data_erased.
  destruct (Z.leb_spec n 0).
  { replace (Z.min o offset) with o by lia.
    replace (l - (Z.min (o + l) (offset + n) - Z.max o offset)) with l by lia.
    exact Hin. }
  apply in_flat_map. exists (o, l, v). split; [exact Hin|].
  simpl.
  replace (offset + n <=? o) with false by (symmetry; apply Z.leb_gt; lia).
  replace (o + l <=? offset) with false by (symmetry; apply Z.leb_gt; lia).
  destruct ((offset <=? o) && (o + l <=? offset + n)) eqn:E.
  - apply andb_true_iff in E. destruct E as [E1 E2].
    apply Z.leb_le in E1, E2. exfalso. apply H3. lia.
  - left. reflexivity.
Qed.

(** A range that the erased bytes cover is gone. *)
Lemma nested_data_erased_covered (m : NestedOffsetLengthMap.t T)
    (offset n : Z) (e : Z * Z * T) :
  0 < n -> In e (NestedOffsetLengthMap.data_erased m offset n) ->
  exists o l v, In (o, l, v) m /\
    ~ (offset <= o /\ o + l <= offset + n /\ o < offset + n /\ offset < o + l).
Proof.
  intros Hn. unfold NestedOffsetLengthMap.data_erased.
  replace (n <=? 0) with false by (symmetry; apply Z.leb_gt; lia).
  intros Hin. apply in_flat_map in Hin. destruct Hin as [[[o l] v] [Hin He]].
  exists o, l, v. split; [exact Hin|].
  unfold NestedOffsetLengthMap.shift_erased in He.
  destruct (Z.leb_spec (offset + n) o); [lia|].
  destruct (Z.leb_spec (o + l) offset); [lia|].
  destruct ((offset <=? o) && (o + l <=? offset + n)) eqn:E; [destruct He|].
  apply andb_false_iff in E. destruct E as [E | E]; apply Z.leb_gt in E; lia.
Qed.

Lemma range_data_inserted_in (m : ByteRangeMap.t T) (offset n o l : Z) (v : T) :
  0 <= n -> In (o, l, v) m -> offset <= o ->
  In (o + n, l, v) (ByteRangeMap.data_inserted ByteRangeMap.same m offset n).
Proof.
  intros Hn Hin Ho. unfold ByteRangeMap.data_inserted.
  destruct (Z.leb_spec n 0).
  - replace n with 0 by lia. rewrite Z.add_0_r. exact Hin.
  - apply in_flat_map. exists (o, l, v). split; [exact Hin|].
    simpl. replace (offset <=? o) with true by (symmetry; apply Z.leb_le; lia).
    left. reflexivity.
Qed.

(** After an insertion, the value of every byte is the value it had at
    its place before; the inserted bytes have none. *)
Lemma value_at_data_inserted (m : ByteRangeMap.t T) (offset n x : Z) :
  0 < n ->
  ByteRangeMap.value_at (ByteRangeMap.data_inserted ByteRangeMap.same m offset n) x
  = if x <? offset then ByteRangeMap.value_at m x
    else if x <? offset + n then None
    else ByteRangeMap.value_at m (x - n).
Proof.
  intros Hn. unfold ByteRangeMap.data_inserted.
  replace (n <=? 0) with false by (symmetry; apply Z.leb_gt; lia).
  induction m as [|[[o l] v] m IH].
  - simpl. destruct (x <? offset); [reflexivity|].
    destruct (x <? offset + n); reflexivity.
  - simpl flat_map. rewrite value_at_app, IH. clear IH.
    rewrite !value_at_cons.
    unfold ByteRangeMap.shift_inserted, ByteRangeMap.same.
    destruct (Z.leb_spec offset o).
    + rewrite value_at_cons. unfold ByteRangeMap.value_at at 1. simpl.
      zbool; try reflexivity; lia.
    + destruct (Z.ltb_spec offset (o + l)).
      * rewrite !value_at_cons. unfold ByteRangeMap.value_at at 1. simpl.
        zbool; try reflexivity; lia.
      * rewrite value_at_cons. unfold ByteRangeMap.value_at at 1. simpl.
        zbool; try reflexivity; lia.
Qed.

Lemma remainder_sides (m : ByteRangeMap.t T) (offset n : Z) :
  Forall (fun e => let '(o, l, _) := e in o + l <= offset \/ offset + n <= o)
    (flat_map (ByteRangeMap.remainder (@ByteRangeMap.same T) offset n) m).
Proof.
  induction m as [|[[o l] v] m IH]; [constructor|].
  simpl flat_map. apply Forall_app. split; [|exact IH].
  unfold ByteRangeMap.remainder.
  destruct ((o + l <=? offset) || (offset + n <=? o)) eqn:E.
  - constructor; [|constructor]. apply orb_true_iff in E.
    destruct E as [E | E]; apply Z.leb_le in E; lia.
  - apply Forall_app. split.
    + destruct (o <? offset); constructor; [lia | constructor].
    + destruct (offset + n <? o + l); constructor; [lia | constructor].
Qed.

Lemma value_at_map_shift_erased (m : ByteRangeMap.t T) (offset n x : Z) :
  0 < n -> offset <= x ->
  Forall (fun e => let '(o, l, _) := e in o + l <= offset \/ offset + n <= o) m ->
  ByteRangeMap.value_at (map (ByteRangeMap.shift_erased offset n) m) x
  = ByteRangeMap.value_at m (x + n).
Proof.
  intros Hn Hx Hs. induction Hs as [|[[o l] v] m He Hm IH]; [reflexivity|].
  simpl map. destruct (Z.leb_spec (offset + n) o).
  - rewrite !value_at_cons, IH. zbool; try reflexivity; lia.
  - rewrite !value_at_cons, IH. zbool; try reflexivity; lia.
Qed.

Lemma value_at_map_shift_erased_before (m : ByteRangeMap.t T) (offset n x : Z) :
  0 < n -> x < offset ->
  Forall (fun e => 0 <= snd (fst e)) m ->
  ByteRangeMap.value_at (map (ByteRangeMap.shift_erased offset n) m) x
  = ByteRangeMap.value_at m x.
Proof.
  intros Hn Hx Hs. induction Hs as [|[[o l] v] m He Hm IH]; [reflexivity|].
  simpl in He. simpl map. destruct (Z.leb_spec (offset + n) o).
  - rewrite !value_at_cons, IH. zbool; try reflexivity; lia.
  - rewrite !value_at_cons, IH. reflexivity.
Qed.

(** After an erase, the value of a byte before the erased ones is what it
    was, and the value of a byte after them is the value it had at its place
    before. *)
Lemma value_at_data_erased (eqb : T -> T -> bool) (m : ByteRangeMap.t T)
    (offset n x : Z) :
  (forall a b, eqb a b = true -> a = b) ->
  Forall (fun e => 0 <= snd (fst e)) m ->
  0 < n ->
  ByteRangeMap.value_at (ByteRangeMap.data_erased eqb ByteRangeMap.same m offset n) x
  = if x <? offset then ByteRangeMap.value_at m x
    else ByteRangeMap.value_at m (x + n).
Proof.
  intros Heq Hlen Hn. unfold ByteRangeMap.data_erased.
  replace (n <=? 0) with false by (symmetry; apply Z.leb_gt; lia).
  pose proof (remainder_lengths offset n m Hlen) as Hlen'.
  assert (Hlen'' : Forall (fun e : Z * Z * T => 0 <= snd (fst e))
            (map (ByteRangeMap.shift_erased offset n)
               (flat_map (ByteRangeMap.remainder ByteRangeMap.same offset n) m))).
  { apply Forall_map. eapply Forall_impl; [|exact Hlen'].
    intros [[o l] v]. simpl. destruct (offset + n <=? o); simpl; auto. }
  destruct (value_at_merge eqb _ Heq Hlen'') as [_ Hval]. rewrite Hval.
  destruct (Z.ltb_spec x offset).
  - rewrite value_at_map_shift_erased_before by assumption.
    rewrite value_at_remainder by assumption.
    replace (offset <=? x) with false by (symmetry; apply Z.leb_gt; lia).
    reflexivity.
  - rewrite value_at_map_shift_erased by (try assumption; apply remainder_sides).
    rewrite value_at_remainder by assumption.
    replace (x + n <? offset + n) with false by (symmetry; apply Z.ltb_ge; lia).
    rewrite andb_false_r. reflexivity.
Qed.

End ShiftFacts.

(** What [insert_data] and [erase_data] do to the ranges when they
    return. *)
Lemma insert_data_ranges (io : Buffer.Storage) (d d1 : Document.Document)
    (offset : Z) (data : list byte) (pos : Z) (st : Document.CursorState)
    (description : string) :
  Document.insert_data io d offset data pos st description = Document.Done d1 ->
  Document.comments d1
    = NestedOffsetLengthMap.data_inserted (Document.comments d) offset
        (Document.len data) /\
  Document.highlights d1
    = NestedOffsetLengthMap.data_inserted (Document.highlights d) offset
        (Document.len data) /\
  Document.types d1
    = ByteRangeMap.data_inserted ByteRangeMap.same (Document.types d) offset
        (Document.len data).
Proof.
  unfold Document.insert_data.
  destruct (Document.write_protect d); [discriminate|].
  destruct ((offset <? 0) || _); [discriminate|].
  unfold Document.transact_step. unfold_op.
  destruct (Buffer.insert io (Document.buffer d) offset data); [|discriminate].
  cbn [Document.active Document.finish_edit Document._set_cursor_position
       Document.set_cursor Document.mark_dirty Document.bump_seq Document.set_seqs
       Document.ranges_data_inserted Document.with_metadata Document.set_buffer].
  destruct (Document.active d); intros H; inversion H; subst;
    repeat split; reflexivity.
Qed.

Lemma erase_data_ranges (io : Buffer.Storage) (d d1 : Document.Document)
    (offset length pos : Z) (st : Document.CursorState) (description : string) :
  Document.erase_data io d offset length pos st description = Document.Done d1 ->
  0 <= length /\
  Document.comments d1
    = NestedOffsetLengthMap.data_erased (Document.comments d) offset length /\
  Document.highlights d1
    = NestedOffsetLengthMap.data_erased (Document.highlights d) offset length /\
  Document.types d1
    = ByteRangeMap.data_erased String.eqb ByteRangeMap.same (Document.types d)
        offset length.
Proof.
  unfold Document.erase_data.
  destruct (Document.write_protect d); [discriminate|].
  destruct (offset <? 0); [discriminate|].
  destruct (Z.ltb_spec length 0) as [Hneg | Hl]; [discriminate|].
  destruct (Document.buffer_length d <? offset + length); [discriminate|].
  cbn [orb].
  unfold Document.transact_step. unfold_op.
  destruct (Buffer.read io (Document.buffer d) offset length); [|discriminate].
  destruct (Buffer.erase io (Document.buffer d) offset length); [|discriminate].
  cbn [Document.active Document.finish_edit Document._set_cursor_position
       Document.set_cursor Document.mark_dirty Document.bump_seq Document.set_seqs
       Document.ranges_data_erased Document.with_metadata Document.set_buffer].
  destruct (Document.active d); intros Hd; inversion Hd; subst;
    repeat split; try reflexivity; assumption.
Qed.



(* ===================================================================== *)
(** * More of the code *)
(* ===================================================================== *)

(** ** util.hpp: clamping addition *)

(** X1. The order of the operands of [add_clamp_overflow] does not matter: the
    value returned and the flag stored are the same. *)
Theorem add_clamp_overflow_comm (T : IntType) (a b : Z) (overflow : option bool) :
  0 < it_bits T -> in_range T a -> in_range T b ->
  Util.add_clamp_overflow T a b overflow = Util.add_clamp_overflow T b a overflow.
Proof.
  intros Hb Ha Hb'.
  rewrite (add_clamp_overflow_cases T a b overflow Hb Ha Hb').
  rewrite (add_clamp_overflow_cases T b a overflow Hb Hb' Ha).
  rewrite (Z.add_comm b a). reflexivity.
Qed.

Lemma add_clamp_overflow_comm_witness :
  Util.add_clamp_overflow t_int 2147483000 1000 (Some false)
  = Util.add_clamp_overflow t_int 1000 2147483000 (Some false).
Proof.
  apply (add_clamp_overflow_comm t_int 2147483000 1000 (Some false)).
  - reflexivity.
  - split; discriminate.
  - split; discriminate.
Defined.

Lemma add_clamp_overflow_value (T : IntType) (a b : Z) (overflow : option bool) :
  0 < it_bits T -> in_range T a -> in_range T b ->
  fst (Util.add_clamp_overflow T a b overflow)
  = Z.max (int_min T) (Z.min (int_max T) (a + b)).
Proof.
  intros Hb Ha Hb'.
  rewrite (add_clamp_overflow_cases T a b overflow Hb Ha Hb').
  pose proof (int_min_le_0 T Hb). pose proof (int_max_ge_0 T Hb).
  destruct (Z.leb_spec (int_min T) (a + b));
    destruct (Z.leb_spec (a + b) (int_max T)); simpl; try lia;
    destruct (Z.ltb_spec (a + b) (int_min T)); simpl; lia.
Qed.

(** X2. [add_clamp_overflow] never leaves the range of its type, and it is
    monotone: a larger operand never gives a smaller result. A [NULL]
    [overflow] changes nothing of the value returned. *)
Theorem add_clamp_overflow_monotone (T : IntType) (a a' b : Z) (ov : bool) :
  0 < it_bits T -> in_range T a -> in_range T a' -> in_range T b -> a <= a' ->
  in_range T (fst (Util.add_clamp_overflow T a b None)) /\
  fst (Util.add_clamp_overflow T a b None)
    <= fst (Util.add_clamp_overflow T a' b None) /\
  fst (Util.add_clamp_overflow T b a None)
    <= fst (Util.add_clamp_overflow T b a' None) /\
  Util.add_clamp_overflow T a b None
    = (fst (Util.add_clamp_overflow T a b (Some ov)), None).
Proof.
  intros Hb Ha Ha' Hb' Hle.
  pose proof (int_min_le_0 T Hb). pose proof (int_max_ge_0 T Hb).
  split; [|split; [|split]].
  - rewrite add_clamp_overflow_value by assumption. unfold in_range. lia.
  - rewrite !add_clamp_overflow_value by assumption. lia.
  - rewrite !add_clamp_overflow_value by assumption. lia.
  - rewrite (add_clamp_overflow_cases T a b None Hb Ha Hb').
    rewrite (add_clamp_overflow_cases T a b (Some ov) Hb Ha Hb').
    destruct ((int_min T <=? a + b) && (a + b <=? int_max T)); [reflexivity|].
    destruct (a + b <? int_min T); reflexivity.
Qed.

Lemma add_clamp_overflow_monotone_witness :
  fst (Util.add_clamp_overflow t_int (-2147483000) (-1000) None)
    <= fst (Util.add_clamp_overflow t_int 5 (-1000) None).
Proof.
  refine (proj1 (proj2 (add_clamp_overflow_monotone t_int (-2147483000) 5 (-1000)
                          false _ _ _ _ _))).
  - reflexivity.
  - split; discriminate.
  - split; discriminate.
  - split; discriminate.
  - discriminate.
Defined.

(** ** util.hpp: colours as keys *)

Lemma lor_shiftl_add (a b n : Z) :
  0 <= n -> 0 <= a < 2 ^ n -> 0 <= b ->
  Z.lor a (Z.shiftl b n) = a + b * 2 ^ n.
Proof.
  intros Hn Ha Hb.
  assert (Hland : Z.land a (Z.shiftl b n) = 0).
  { apply Z.bits_inj'. intros i Hi.
    rewrite Z.land_spec, Z.bits_0.
    destruct (Z.ltb_spec i n).
    - rewrite Z.shiftl_spec_low by lia. apply andb_false_r.
    - destruct (Z.eq_dec a 0) as [-> | Hnz].
      + rewrite Z.bits_0. reflexivity.
      + assert (2 ^ n <= 2 ^ i) by (apply Z.pow_le_mono_r; lia).
        rewrite (Z.bits_above_log2 a i); [reflexivity | lia |].
        apply Z.log2_lt_pow2; lia. }
  rewrite <- Z.lxor_lor by exact Hland.
  rewrite <- Z.add_nocarry_lxor by exact Hland.
  rewrite Z.shiftl_mul_pow2 by lia. reflexivity.
Qed.

(** For channels that are [unsigned char]s the key is the number whose four
    bytes are, from the lowest up, red, blue, green and alpha. *)
Lemma pack_colour_value (c : ColourKey.wxColour) :
  ColourKey.is_colour c ->
  ColourKey.pack_colour c
  = ColourKey.Red c + 256 * ColourKey.Blue c + 65536 * ColourKey.Green c
    + 16777216 * ColourKey.Alpha c.
Proof.
  intros (Hr & Hg & Hb & Ha).
  unfold ColourKey.pack_colour, ColourKey.shl_uint.
  assert (Hid : forall z, 0 <= z <= 4294967295 -> int_wrap t_uint z = z).
  { intros z Hz. apply int_wrap_id; [reflexivity|]. split; [apply Hz|].
    destruct Hz as [_ Hz]. exact Hz. }
  rewrite !(Hid (ColourKey.Red c)), !(Hid (ColourKey.Blue c)),
    !(Hid (ColourKey.Green c)), !(Hid (ColourKey.Alpha c)) by lia.
  rewrite !Z.shiftl_mul_pow2 by lia.
  change (2 ^ 8) with 256. change (2 ^ 16) with 65536. change (2 ^ 24) with 16777216.
  rewrite !Hid by lia.
  replace (ColourKey.Blue c * 256) with (Z.shiftl (ColourKey.Blue c) 8)
    by (rewrite Z.shiftl_mul_pow2 by lia; reflexivity).
  rewrite lor_shiftl_add by (simpl; lia).
  replace (ColourKey.Green c * 65536) with (Z.shiftl (ColourKey.Green c) 16)
    by (rewrite Z.shiftl_mul_pow2 by lia; reflexivity).
  rewrite lor_shiftl_add by (simpl; lia).
  replace (ColourKey.Alpha c * 16777216) with (Z.shiftl (ColourKey.Alpha c) 24)
    by (rewrite Z.shiftl_mul_pow2 by lia; reflexivity).
  rewrite lor_shiftl_add by (simpl; lia).
  change (2 ^ 8) with 256. change (2 ^ 16) with 65536.
  change (2 ^ 24) with 16777216. lia.
Qed.

(** X3. Two colours have equal keys exactly when their four channels are
    equal, so [operator==] on keys is equality of colours, and of two
    different colours exactly one is [operator<] the other: the keys order
    the colours totally, as a map needs. *)
Theorem colour_key_total_order (c1 c2 : ColourKey.wxColour) :
  ColourKey.is_colour c1 -> ColourKey.is_colour c2 ->
  (ColourKey.eq (ColourKey.of_colour c1) (ColourKey.of_colour c2) = true
     <-> c1 = c2) /\
  (ColourKey.ne (ColourKey.of_colour c1) (ColourKey.of_colour c2) = true
     <-> c1 <> c2) /\
  (c1 <> c2 ->
   ColourKey.lt (ColourKey.of_colour c1) (ColourKey.of_colour c2)
   = negb (ColourKey.lt (ColourKey.of_colour c2) (ColourKey.of_colour c1))).
Proof.
  intros H1 H2.
  unfold ColourKey.eq, ColourKey.ne, ColourKey.lt, ColourKey.of_colour. simpl.
  rewrite (pack_colour_value c1 H1), (pack_colour_value c2 H2).
  assert (Hinj : ColourKey.Red c1 + 256 * ColourKey.Blue c1
                 + 65536 * ColourKey.Green c1 + 16777216 * ColourKey.Alpha c1
                 = ColourKey.Red c2 + 256 * ColourKey.Blue c2
                   + 65536 * ColourKey.Green c2 + 16777216 * ColourKey.Alpha c2
                 <-> c1 = c2).
  { split; [|intros ->; reflexivity].
    destruct H1 as (? & ? & ? & ?), H2 as (? & ? & ? & ?).
    destruct c1 as [r1 g1 b1 a1], c2 as [r2 g2 b2 a2].
    cbn [ColourKey.Red ColourKey.Green ColourKey.Blue ColourKey.Alpha] in *.
    intros He.
    assert (a1 = a2) by (destruct (Z.lt_trichotomy a1 a2) as [?|[?|?]]; lia).
    subst a2.
    assert (g1 = g2) by (destruct (Z.lt_trichotomy g1 g2) as [?|[?|?]]; lia).
    subst g2.
    assert (b1 = b2) by (destruct (Z.lt_trichotomy b1 b2) as [?|[?|?]]; lia).
    subst b2.
    assert (r1 = r2) by lia. subst. reflexivity. }
  split; [|split].
  - rewrite Z.eqb_eq. exact Hinj.
  - rewrite negb_true_iff, Z.eqb_neq, Hinj. reflexivity.
  - intros Hne. rewrite <- Hinj in Hne.
    destruct (Z.ltb_spec
      (ColourKey.Red c1 + 256 * ColourKey.Blue c1 + 65536 * ColourKey.Green c1
       + 16777216 * ColourKey.Alpha c1)
      (ColourKey.Red c2 + 256 * ColourKey.Blue c2 + 65536 * ColourKey.Green c2
       + 16777216 * ColourKey.Alpha c2));
    destruct (Z.ltb_spec
      (ColourKey.Red c2 + 256 * ColourKey.Blue c2 + 65536 * ColourKey.Green c2
       + 16777216 * ColourKey.Alpha c2)
      (ColourKey.Red c1 + 256 * ColourKey.Blue c1 + 65536 * ColourKey.Green c1
       + 16777216 * ColourKey.Alpha c1)); simpl; try reflexivity; lia.
Qed.

Lemma colour_key_total_order_witness :
  ColourKey.lt
    (ColourKey.of_colour {| ColourKey.Red := 255; ColourKey.Green := 0;
                            ColourKey.Blue := 0; ColourKey.Alpha := 255 |})
    (ColourKey.of_colour {| ColourKey.Red := 0; ColourKey.Green := 0;
                            ColourKey.Blue := 1; ColourKey.Alpha := 255 |})
  = negb (ColourKey.lt
    (ColourKey.of_colour {| ColourKey.Red := 0; ColourKey.Green := 0;
                            ColourKey.Blue := 1; ColourKey.Alpha := 255 |})
    (ColourKey.of_colour {| ColourKey.Red := 255; ColourKey.Green := 0;
                            ColourKey.Blue := 0; ColourKey.Alpha := 255 |})).
Proof.
  refine (proj2 (proj2 (colour_key_total_order
    {| ColourKey.Red := 255; ColourKey.Green := 0;
       ColourKey.Blue := 0; ColourKey.Alpha := 255 |}
    {| ColourKey.Red := 0; ColourKey.Green := 0;
       ColourKey.Blue := 1; ColourKey.Alpha := 255 |} _ _)) _).
  - unfold ColourKey.is_colour. simpl. lia.
  - unfold ColourKey.is_colour. simpl. lia.
  - discriminate.
Defined.

(** ** DocumentCtrl.cpp: moving the cursor in a data region *)

(** Sums that stay inside [off_t] are the mathematical sums. *)
Ltac off_exact :=
  unfold off_add, off_sub, off_mul in *;
  repeat match goal with
  | |- context [off_wrap ?z] =>
      rewrite (off_wrap_id z) by (rewrite OFF_MIN_val, OFF_MAX_val; lia)
  end.

Ltac zcases :=
  rewrite ?Z.geb_leb, ?Z.gtb_ltb in *;
  repeat match goal with
  | |- context [?a <=? ?b] => destruct (Z.leb_spec a b)
  | |- context [?a <? ?b] => destruct (Z.ltb_spec a b)
  | |- context [?a =? ?b] => destruct (Z.eqb_spec a b)
  end; cbn [andb orb negb b2z] in *.

Ltac region_facts r H :=
  destruct H as (Hoff & Hlen & Hend & Hbpl & Hpad);
  destruct r as [idepth ifinal yoff ylines doff dlen otx htx atx bpl pad];
  unfold DataRegion.inside, DataRegion.row_of, INT_MAX in *;
  cbn [DataRegion.d_offset DataRegion.d_length DataRegion.bytes_per_line_actual
       DataRegion.first_line_pad_bytes DataRegion.y_lines
       DataRegion.indent_final DataRegion.indent_depth DataRegion.y_offset
       DataRegion.offset_text_x DataRegion.hex_text_x DataRegion.ascii_text_x] in *;
  change (2 ^ 62) with 4611686018427387904 in *;
  change (int_max t_int) with 2147483647 in *.

(** X4. On a position of the region, or one past its end, [cursor_left_from] and
    [cursor_right_from] fail no assertion. Left of the first byte is
    [CURSOR_PREV_REGION] and right of the last byte is [CURSOR_NEXT_REGION];
    everywhere else they step by one byte, so that between two bytes of
    the region they are inverse to each other. *)
Theorem cursor_left_right_inverse (PREV NEXT : Z) (r : DataRegion.DataRegion)
    (pos : Z) :
  DataRegion.well_formed r ->
  DataRegion.d_offset r <= pos <= DataRegion.d_offset r + DataRegion.d_length r ->
  DataRegion.cursor_left_from PREV r pos
    = Some (if pos =? DataRegion.d_offset r then PREV else pos - 1) /\
  DataRegion.cursor_right_from NEXT r pos
    = Some (if pos + 1 <? DataRegion.d_offset r + DataRegion.d_length r
            then pos + 1 else NEXT) /\
  (DataRegion.inside r (pos + 1) ->
   DataRegion.cursor_right_from NEXT r pos = Some (pos + 1) /\
   DataRegion.cursor_left_from PREV r (pos + 1) = Some pos).
Proof.
  intros Hwf Hpos. region_facts r Hwf.
  unfold DataRegion.cursor_left_from, DataRegion.cursor_right_from.
  cbn [DataRegion.d_offset DataRegion.d_length].
  off_exact.
  split; [|split].
  - zcases; try lia; reflexivity.
  - zcases; try lia; reflexivity.
  - intros Hin. off_exact. split.
    + zcases; try lia; reflexivity.
    + replace (pos + 1 - 1) with pos by lia. zcases; try lia; reflexivity.
Qed.

(** Division facts for the rows of a region: [x] is [bpl * (x / bpl)] plus
    a remainder below [bpl]. *)
Lemma row_split (x bpl : Z) :
  0 < bpl -> x = bpl * (x / bpl) + x mod bpl /\ 0 <= x mod bpl < bpl.
Proof.
  intros Hb. split; [apply Z.div_mod; lia | apply Z.mod_pos_bound; lia].
Qed.

Lemma row_unique (x bpl q : Z) :
  0 < bpl -> bpl * q <= x < bpl * q + bpl -> x / bpl = q.
Proof.
  intros Hb Hx. symmetry. apply (Z.div_unique x bpl q (x - bpl * q)); lia.
Qed.

Lemma row_bounds (x bpl q : Z) :
  0 < bpl -> (x / bpl = q <-> bpl * q <= x < bpl * q + bpl).
Proof.
  intros Hb. split.
  - intros <-. destruct (row_split x bpl Hb). lia.
  - apply row_unique; assumption.
Qed.

Lemma row_monotone (x y bpl : Z) : 0 < bpl -> x <= y -> x / bpl <= y / bpl.
Proof. intros Hb Hxy. apply Z.div_le_mono; lia. Qed.

(** The offset of the last row, for a region that shows a byte at least. *)
Lemma last_row_off_value (r : DataRegion.DataRegion) :
  DataRegion.well_formed r ->
  1 <= DataRegion.d_length r + DataRegion.first_line_pad_bytes r ->
  DataRegion.last_row_off r
  = Some (DataRegion.d_offset r - DataRegion.first_line_pad_bytes r
          + DataRegion.bytes_per_line_actual r
            * DataRegion.row_of r (DataRegion.d_offset r + DataRegion.d_length r - 1)).
Proof.
  intros Hwf Hvl. region_facts r Hwf.
  unfold DataRegion.last_row_off, off_div.
  cbn [DataRegion.d_offset DataRegion.d_length DataRegion.bytes_per_line_actual
       DataRegion.first_line_pad_bytes].
  destruct (Z.eqb_spec bpl 0); [lia|]. cbn [bind].
  replace (doff + dlen - 1 - (doff - pad)) with (dlen + pad - 1) by lia.
  destruct (row_split (dlen + pad - 1) bpl ltac:(lia)) as [Hq Hm].
  assert (0 <= (dlen + pad - 1) / bpl) by (apply Z.div_pos; lia).
  off_exact.
  rewrite Z.quot_div_nonneg by lia.
  set (q := (dlen + pad - 1) / bpl) in *.
  set (m := (dlen + pad - 1) mod bpl) in *. clearbody q m.
  assert (q <= bpl * q) by nia.
  rewrite (off_wrap_id q) by (rewrite OFF_MIN_val, OFF_MAX_val; lia).
  rewrite (off_wrap_id (q * bpl)) by (rewrite OFF_MIN_val, OFF_MAX_val; lia).
  rewrite off_wrap_id by (rewrite OFF_MIN_val, OFF_MAX_val; lia).
  f_equal. lia.
Qed.

(** X5. On a position of the region, or one past its end, [cursor_up_from] fails
    no assertion. On the first row it returns [CURSOR_PREV_REGION]; on any
    other row it returns the position one line up, or the first byte of the
    region where the padding of the first row lies above the cursor. *)
Theorem cursor_up_from_spec (PREV : Z) (r : DataRegion.DataRegion) (pos : Z) :
  DataRegion.well_formed r ->
  DataRegion.d_offset r <= pos <= DataRegion.d_offset r + DataRegion.d_length r ->
  DataRegion.cursor_up_from PREV r pos
  = Some (if DataRegion.row_of r pos =? 0 then PREV
          else Z.max (pos - DataRegion.bytes_per_line_actual r)
                 (DataRegion.d_offset r)).
Proof.
  intros Hwf Hpos. region_facts r Hwf.
  unfold DataRegion.cursor_up_from.
  cbn [DataRegion.d_offset DataRegion.d_length DataRegion.bytes_per_line_actual
       DataRegion.first_line_pad_bytes].
  pose proof (row_bounds (pos - (doff - pad)) bpl 0 ltac:(lia)) as Hrow.
  off_exact.
  destruct (Z.eqb_spec ((pos - (doff - pad)) / bpl) 0) as [H0 | H0].
  - apply Hrow in H0. zcases; try lia; reflexivity.
  - assert (bpl <= pos - (doff - pad)).
    { destruct (Z.lt_ge_cases (pos - (doff - pad)) bpl); [|assumption].
      exfalso. apply H0, Hrow. lia. }
    zcases; try lia; f_equal; lia.
Qed.


(** X6. On a position of the region, or one past its end, [cursor_down_from]
    fails no assertion. On the last row it returns [CURSOR_NEXT_REGION]; on
    any other row it returns the position one line down, or the last byte of
    the region where the last row ends before that column. *)
Theorem cursor_down_from_spec (NEXT : Z) (r : DataRegion.DataRegion) (pos : Z) :
  DataRegion.well_formed r ->
  DataRegion.d_offset r <= pos <= DataRegion.d_offset r + DataRegion.d_length r ->
  DataRegion.cursor_down_from NEXT r pos
  = Some (if DataRegion.row_of r pos
             <? DataRegion.row_of r
                  (DataRegion.d_offset r + DataRegion.d_length r - 1)
          then Z.min (pos + DataRegion.bytes_per_line_actual r)
                 (DataRegion.d_offset r + DataRegion.d_length r - 1)
          else NEXT).
Proof.
  intros Hwf Hpos.
  destruct (Z.lt_ge_cases
              (DataRegion.d_length r + DataRegion.first_line_pad_bytes r) 1)
    as [Hempty | Hvl].
  - (* nothing to show: no byte and no padding *)
    region_facts r Hwf.
    unfold DataRegion.cursor_down_from, DataRegion.last_row_off, off_div.
    cbn [DataRegion.d_offset DataRegion.d_length DataRegion.bytes_per_line_actual
         DataRegion.first_line_pad_bytes].
    assert (dlen = 0) by lia. assert (pad = 0) by lia. subst dlen pad.
    assert (pos = doff) by lia. subst pos.
    destruct (Z.eqb_spec bpl 0); [lia|]. cbn [bind].
    replace (doff - (doff - 0)) with 0 by lia.
    replace (doff + 0 - 1 - (doff - 0)) with (-1) by lia.
    rewrite Z.div_0_l by lia.
    assert (Hm1 : -1 / bpl = -1).
    { apply row_unique; lia. }
    rewrite Hm1. cbn [Z.ltb Z.compare].
    off_exact.
    assert (Hq : -1 <= Z.quot (-1) bpl <= 0).
    { destruct (Z.eq_dec bpl 1) as [-> | Hb1]; [cbn; lia|].
      assert (Hz : Z.quot (-1) bpl = 0) by (apply Z.quot_small_iff; lia).
      rewrite Hz. lia. }
    change (0 + 0 - 1) with (-1).
    set (q := Z.quot (-1) bpl) in *. clearbody q.
    assert (Hq' : q = -1 \/ q = 0) by lia. clear Hq.
    destruct Hq' as [-> | ->]; off_exact; zcases; try lia; reflexivity.
  - unfold DataRegion.cursor_down_from.
    rewrite (last_row_off_value r Hwf Hvl). cbn [bind].
    region_facts r Hwf.
    destruct (row_split (pos - (doff - pad)) bpl ltac:(lia)) as [Hq Hm].
    destruct (row_split (doff + dlen - 1 - (doff - pad)) bpl ltac:(lia))
      as [Hq' Hm'].
    set (row := (pos - (doff - pad)) / bpl) in *.
    set (last := (doff + dlen - 1 - (doff - pad)) / bpl) in *.
    clearbody row last.
    off_exact.
    destruct (Z.ltb_spec row last) as [Hlt | Hge].
    + assert (pos < doff - pad + bpl * last) by nia.
      zcases; try lia; f_equal; lia.
    + assert (doff - pad + bpl * last <= pos) by nia.
      assert (doff + dlen <= pos + bpl) by nia.
      zcases; try lia; reflexivity.
Qed.


(** X7. Where a byte and the byte one line below it both belong to the region,
    [cursor_down_from] and [cursor_up_from] are inverse to each other. *)
Theorem cursor_up_down_inverse (PREV NEXT : Z) (r : DataRegion.DataRegion)
    (pos : Z) :
  DataRegion.well_formed r ->
  DataRegion.inside r pos ->
  DataRegion.inside r (pos + DataRegion.bytes_per_line_actual r) ->
  DataRegion.cursor_down_from NEXT r pos
    = Some (pos + DataRegion.bytes_per_line_actual r) /\
  DataRegion.cursor_up_from PREV r (pos + DataRegion.bytes_per_line_actual r)
    = Some pos.
Proof.
  intros Hwf Hin Hin'.
  assert (Hvl : 1 <= DataRegion.d_length r + DataRegion.first_line_pad_bytes r).
  { destruct Hwf as (? & ? & ? & ? & ?). unfold DataRegion.inside in Hin. lia. }
  unfold DataRegion.cursor_down_from, DataRegion.cursor_up_from.
  rewrite (last_row_off_value r Hwf Hvl). cbn [bind].
  region_facts r Hwf.
  destruct (row_split (pos - (doff - pad)) bpl ltac:(lia)) as [Hq Hm].
  destruct (row_split (doff + dlen - 1 - (doff - pad)) bpl ltac:(lia))
    as [Hq' Hm'].
  assert (Hrows : (pos - (doff - pad)) / bpl
                  < (doff + dlen - 1 - (doff - pad)) / bpl).
  { apply Z.lt_le_trans with ((pos + bpl - (doff - pad)) / bpl).
    - replace (pos + bpl - (doff - pad)) with (pos - (doff - pad) + 1 * bpl)
        by lia.
      rewrite Z.div_add by lia. lia.
    - apply row_monotone; lia. }
  set (row := (pos - (doff - pad)) / bpl) in *.
  set (last := (doff + dlen - 1 - (doff - pad)) / bpl) in *.
  clearbody row last.
  assert (pos < doff - pad + bpl * last) by nia.
  off_exact.
  replace (pos + bpl - bpl) with pos by lia.
  split; zcases; try lia; reflexivity.
Qed.

(** X8. For a byte of the region, [cursor_home_from] and [cursor_end_from]
    return the first and the last byte of the region on the row of that
    byte: the bytes of the region between the two results are exactly the
    bytes of the region that are shown on the same row. *)
Theorem cursor_home_end_row (r : DataRegion.DataRegion) (pos : Z) :
  DataRegion.well_formed r ->
  DataRegion.inside r pos ->
  exists h e,
    DataRegion.cursor_home_from r pos = Some h /\
    DataRegion.cursor_end_from r pos = Some e /\
    DataRegion.inside r h /\ DataRegion.inside r e /\ h <= pos <= e /\
    forall q, DataRegion.inside r q ->
      (DataRegion.row_of r q = DataRegion.row_of r pos <-> h <= q <= e).
Proof.
  intros Hwf Hin. region_facts r Hwf.
  unfold DataRegion.cursor_home_from, DataRegion.cursor_end_from, off_rem.
  cbn [DataRegion.d_offset DataRegion.d_length DataRegion.bytes_per_line_actual
       DataRegion.first_line_pad_bytes].
  destruct (Z.eqb_spec bpl 0); [lia|]. cbn [bind].
  off_exact.
  rewrite Z.rem_mod_nonneg by lia.
  destruct (row_split (pos - (doff - pad)) bpl ltac:(lia)) as [Hq Hm].
  assert (Hrows : forall q,
            (q - (doff - pad)) / bpl = (pos - (doff - pad)) / bpl <->
            bpl * ((pos - (doff - pad)) / bpl) <= q - (doff - pad)
              < bpl * ((pos - (doff - pad)) / bpl) + bpl).
  { intros q. apply row_bounds. lia. }
  assert (Hrow0 : 0 <= (pos - (doff - pad)) / bpl) by (apply Z.div_pos; lia).
  set (row := (pos - (doff - pad)) / bpl) in *.
  set (m := (pos - (doff - pad)) mod bpl) in *. clearbody row m.
  off_exact.
  replace (pos >=? doff) with true by (symmetry; apply Z.geb_le; lia).
  replace (pos <=? doff + dlen) with true by (symmetry; apply Z.leb_le; lia).
  assert (Hh : doff <= Z.max (pos - m) doff <= pos) by lia.
  destruct (Z.eqb_spec m (bpl - 1)) as [Hlast | Hnot].
  - exists (Z.max (pos - m) doff), pos.
    split; [reflexivity|]. split; [reflexivity|].
    split; [lia|]. split; [lia|]. split; [lia|].
    intros q Hqin. split.
    + intros Hq'. apply Hrows in Hq'. lia.
    + intros (H1 & H2). apply Hrows. split; [|lia].
      destruct (Z.max_spec (pos - m) doff) as [(? & Hx) | (? & Hx)];
        rewrite Hx in *; [|lia].
      assert (row = 0) by nia. subst row. lia.
  - exists (Z.max (pos - m) doff), (Z.min (pos + (bpl - m) - 1) (doff + dlen - 1)).
    split; [reflexivity|]. split; [reflexivity|].
    split; [lia|]. split; [lia|]. split; [lia|].
    intros q Hqin. split.
    + intros Hq'. apply Hrows in Hq'. lia.
    + intros (H1 & H2). apply Hrows. split; [|lia].
      destruct (Z.max_spec (pos - m) doff) as [(? & Hx) | (? & Hx)];
        rewrite Hx in *; [|lia].
      assert (row = 0) by nia. subst row. lia.
Qed.

(** X9. [first_row_nearest_column] and [last_row_nearest_column] fail no
    assertion. In a region that is not empty they return a byte of the
    region on its first row, and on its last row; no byte of that row is
    nearer to the column asked for. In an empty region they return its
    offset. *)
Theorem row_nearest_column_spec (r : DataRegion.DataRegion) (column : Z) :
  DataRegion.well_formed r ->
  - 2147483648 <= column <= 2147483647 ->
  let last := DataRegion.row_of r
                (DataRegion.d_offset r + DataRegion.d_length r - 1) in
  let column_of q row :=
    q - (DataRegion.d_offset r - DataRegion.first_line_pad_bytes r)
      - DataRegion.bytes_per_line_actual r * row in
  exists f l,
    DataRegion.first_row_nearest_column r column = Some f /\
    DataRegion.last_row_nearest_column r column = Some l /\
    (DataRegion.d_length r = 0 ->
       f = DataRegion.d_offset r /\ l = DataRegion.d_offset r) /\
    (0 < DataRegion.d_length r ->
       DataRegion.inside r f /\ DataRegion.row_of r f = 0 /\
       DataRegion.inside r l /\ DataRegion.row_of r l = last /\
       forall q, DataRegion.inside r q ->
         (DataRegion.row_of r q = 0 ->
            Z.abs (column_of f 0 - column) <= Z.abs (column_of q 0 - column)) /\
         (DataRegion.row_of r q = last ->
            Z.abs (column_of l last - column)
              <= Z.abs (column_of q last - column))).
Proof.
  intros Hwf Hcol last column_of.
  destruct (Z.eq_dec (DataRegion.d_length r) 0) as [Hz | Hnz].
  - (* the empty region *)
    assert (Hlro : exists o, DataRegion.last_row_off r = Some o /\
                   o <= DataRegion.d_offset r /\ - 2147483648 <= o).
    { destruct (Z.lt_ge_cases
                  (DataRegion.d_length r + DataRegion.first_line_pad_bytes r) 1)
        as [Hempty | Hvl].
      - region_facts r Hwf. subst dlen.
        unfold DataRegion.last_row_off, off_div.
        cbn [DataRegion.d_offset DataRegion.d_length
             DataRegion.bytes_per_line_actual DataRegion.first_line_pad_bytes].
        destruct (Z.eqb_spec bpl 0); [lia|]. cbn [bind].
        assert (pad = 0) by lia. subst pad.
        off_exact. change (0 + 0 - 1) with (-1).
        assert (Hq : -1 <= Z.quot (-1) bpl <= 0).
        { destruct (Z.eq_dec bpl 1) as [-> | Hb1]; [cbn; lia|].
          assert (Hz : Z.quot (-1) bpl = 0) by (apply Z.quot_small_iff; lia).
          rewrite Hz. lia. }
        set (q := Z.quot (-1) bpl) in *. clearbody q.
        assert (Hq' : q = -1 \/ q = 0) by lia. clear Hq.
        destruct Hq' as [-> | ->]; off_exact; eexists; split;
          try reflexivity; lia.
      - rewrite (last_row_off_value r Hwf Hvl). eexists. split; [reflexivity|].
        region_facts r Hwf. subst dlen.
        destruct (row_split (doff + 0 - 1 - (doff - pad)) bpl ltac:(lia))
          as [Hq Hm].
        assert (0 <= (doff + 0 - 1 - (doff - pad)) / bpl)
          by (apply Z.div_pos; lia).
        nia. }
    destruct Hlro as (o & Ho & Hole & Holo).
    unfold DataRegion.first_row_nearest_column,
      DataRegion.last_row_nearest_column.
    rewrite Ho. cbn [bind]. clear Ho.
    region_facts r Hwf. subst dlen.
    off_exact. cbn [b2z Z.gtb Z.eqb Z.compare].
    off_exact.
    exists doff, doff. split; [|split; [|split]].
    + zcases; try lia. f_equal. lia.
    + zcases; try lia. f_equal. lia.
    + auto.
    + lia.
  - assert (Hvl : 1 <= DataRegion.d_length r + DataRegion.first_line_pad_bytes r).
    { destruct Hwf as (? & ? & ? & ? & ?). lia. }
    unfold DataRegion.first_row_nearest_column,
      DataRegion.last_row_nearest_column.
    rewrite (last_row_off_value r Hwf Hvl). cbn [bind].
    subst last column_of.
    region_facts r Hwf.
    assert (Hrows : forall q row,
              (q - (doff - pad)) / bpl = row <->
              bpl * row <= q - (doff - pad) < bpl * row + bpl).
    { intros q row. apply row_bounds. lia. }
    destruct (row_split (doff + dlen - 1 - (doff - pad)) bpl ltac:(lia))
      as [Hq Hm].
    assert (0 <= (doff + dlen - 1 - (doff - pad)) / bpl)
      by (apply Z.div_pos; lia).
    set (last := (doff + dlen - 1 - (doff - pad)) / bpl) in *.
    set (m := (doff + dlen - 1 - (doff - pad)) mod bpl) in *.
    clearbody last m.
    replace (dlen >? 0) with true by (symmetry; apply Z.gtb_lt; lia).
    replace (dlen =? 0) with false by (symmetry; apply Z.eqb_neq; lia).
    cbn [b2z]. off_exact.
    eexists. eexists.
    split; [|split; [|split]].
    + zcases; try lia. reflexivity.
    + zcases; try lia. reflexivity.
    + intros; lia.
    + intros _. split; [lia|]. split; [apply Hrows; lia|].
      split; [lia|]. split; [apply Hrows; lia|].
      intros q Hq'. split; intros Hr; apply Hrows in Hr; lia.
Qed.

(** X10. Once [calc_height] has counted the rows of a region, every byte of the
    region lies on a row below [y_lines]; [cursor_column] gives its column,
    and [nth_row_nearest_column] finds the byte again from that row and
    that column without failing an assertion. *)
Theorem nth_row_cursor_column_round_trip (PRECOMP : Z) (GetTextExtent : Z -> Z)
    (doc : DataRegion.Ctrl) (r r' : DataRegion.DataRegion) (pos : Z) :
  DataRegion.well_formed r ->
  0 <= DataRegion.indent_final r <= INT_MAX ->
  DataRegion.calc_height PRECOMP GetTextExtent r doc = Some r' ->
  DataRegion.inside r pos ->
  0 <= DataRegion.row_of r pos < DataRegion.y_lines r' /\
  exists column,
    DataRegion.cursor_column r' pos = Some column /\
    0 <= column < DataRegion.bytes_per_line_actual r /\
    DataRegion.nth_row_nearest_column r' (DataRegion.row_of r pos) column
      = Some pos.
Proof.
  intros Hwf Hfin Hcalc Hin.
  unfold DataRegion.calc_height in Hcalc.
  destruct (DataRegion.indent_width PRECOMP GetTextExtent doc
              (DataRegion.indent_depth r)) as [iw|]; [|discriminate].
  cbn [bind] in Hcalc.
  destruct (DataRegion.hf_string_width PRECOMP GetTextExtent doc
              (int_wrap t_int (DataRegion.bytes_per_line_actual r))) as [w|];
    [|discriminate].
  cbn [bind] in Hcalc.
  region_facts r Hwf. unfold off_div, off_rem in Hcalc.
  destruct (Z.eqb_spec bpl 0); [lia|]. cbn [bind] in Hcalc.
  injection Hcalc as <-.
  unfold DataRegion.cursor_column, DataRegion.nth_row_nearest_column, off_rem.
  cbn [DataRegion.d_offset DataRegion.d_length DataRegion.bytes_per_line_actual
       DataRegion.first_line_pad_bytes DataRegion.y_lines].
  destruct (Z.eqb_spec bpl 0); [lia|]. cbn [bind].
  off_exact.
  rewrite !Z.rem_mod_nonneg by lia.
  rewrite !Z.quot_div_nonneg by lia.
  destruct (row_split (pos - (doff - pad)) bpl ltac:(lia)) as [Hq Hm].
  destruct (row_split (dlen + pad) bpl ltac:(lia)) as [Hq' Hm'].
  assert (Hrow0 : 0 <= (pos - (doff - pad)) / bpl) by (apply Z.div_pos; lia).
  assert (Hrow1 : 0 <= (dlen + pad) / bpl) by (apply Z.div_pos; lia).
  set (row := (pos - (doff - pad)) / bpl) in *.
  set (m := (pos - (doff - pad)) mod bpl) in *.
  set (rows := (dlen + pad) / bpl) in *.
  set (m' := (dlen + pad) mod bpl) in *. clearbody row m rows m'.
  assert (Hrows : row < rows + b2z (negb (m' =? 0))).
  { destruct (Z.eqb_spec m' 0); cbn [negb b2z]; nia. }
  assert (rows <= bpl * rows) by nia.
  assert (row <= bpl * row) by nia.
  assert (0 <= b2z (negb (m' =? 0)) <= 1)
    by (destruct (negb (m' =? 0)); cbn [b2z]; lia).
  rewrite (off_wrap_id rows) by (rewrite OFF_MIN_val, OFF_MAX_val; lia).
  rewrite (off_wrap_id (rows + _)) by (rewrite OFF_MIN_val, OFF_MAX_val; lia).
  rewrite (off_wrap_id (rows + _ + ifinal))
    by (rewrite OFF_MIN_val, OFF_MAX_val; lia).
  rewrite (int_wrap_id t_int m)
    by (try reflexivity; unfold in_range; cbn; lia).
  assert (Hy : row < (if (doff + dlen =? DataRegion.buffer_length doc) && (m' =? 0)
                      then off_wrap (rows + b2z (negb (m' =? 0)) + ifinal + 1)
                      else rows + b2z (negb (m' =? 0)) + ifinal)).
  { destruct ((doff + dlen =? DataRegion.buffer_length doc) && (m' =? 0)); [|lia].
    rewrite off_wrap_id by (rewrite OFF_MIN_val, OFF_MAX_val; lia). lia. }
  split; [lia|].
  exists m. split; [|split; [lia|]].
  - zcases; try lia; reflexivity.
  - replace (row >=? 0) with true by (symmetry; apply Z.geb_le; lia).
    replace (row <? _) with true by (symmetry; apply Z.ltb_lt; exact Hy).
    replace (dlen >? 0) with true by (symmetry; apply Z.gtb_lt; lia).
    cbn [b2z]. off_exact. f_equal. lia.
Qed.

Ltac example_facts :=
  unfold DataRegion.well_formed, DataRegion.inside, INT_MAX; cbn; lia.

Lemma cursor_left_right_inverse_witness :
  DataRegion.cursor_right_from (-3) example_region 57 = Some 58 /\
  DataRegion.cursor_left_from (-2) example_region 58 = Some 57.
Proof.
  apply (proj2 (proj2 (cursor_left_right_inverse (-2) (-3) example_region 57
                         ltac:(example_facts) ltac:(cbn; lia)))).
  example_facts.
Defined.

Lemma cursor_up_from_spec_witness :
  DataRegion.cursor_up_from (-2) example_region 33 = Some 20.
Proof.
  apply (cursor_up_from_spec (-2) example_region 33).
  - example_facts.
  - cbn. lia.
Defined.

Lemma cursor_down_from_spec_witness :
  DataRegion.cursor_down_from (-3) example_region 111 = Some 119.
Proof.
  apply (cursor_down_from_spec (-3) example_region 111).
  - example_facts.
  - cbn. lia.
Defined.

Lemma cursor_up_down_inverse_witness :
  DataRegion.cursor_down_from (-3) example_region 40 = Some 56 /\
  DataRegion.cursor_up_from (-2) example_region 56 = Some 40.
Proof.
  apply (cursor_up_down_inverse (-2) (-3) example_region 40).
  - example_facts.
  - example_facts.
  - example_facts.
Defined.

Lemma cursor_home_end_row_witness :
  exists h e,
    DataRegion.cursor_home_from example_region 57 = Some h /\
    DataRegion.cursor_end_from example_region 57 = Some e /\
    DataRegion.inside example_region h /\ DataRegion.inside example_region e /\
    h <= 57 <= e /\
    forall q, DataRegion.inside example_region q ->
      (DataRegion.row_of example_region q = DataRegion.row_of example_region 57
       <-> h <= q <= e).
Proof.
  apply (cursor_home_end_row example_region 57).
  - example_facts.
  - example_facts.
Defined.

Lemma row_nearest_column_spec_witness :
  exists f l,
    DataRegion.first_row_nearest_column example_region 2 = Some f /\
    DataRegion.last_row_nearest_column example_region 2147483647 = Some l /\
    DataRegion.inside example_region f /\ DataRegion.inside example_region l.
Proof.
  destruct (row_nearest_column_spec example_region 2 ltac:(example_facts)
              ltac:(lia)) as (f & l0 & Hf & Hl0 & He & Hin).
  destruct (row_nearest_column_spec example_region 2147483647
              ltac:(example_facts) ltac:(lia)) as (f0 & l & Hf0 & Hl & He' & Hin').
  exists f, l.
  destruct (Hin ltac:(cbn; lia)) as (Hf' & _).
  destruct (Hin' ltac:(cbn; lia)) as (_ & _ & Hl' & _).
  auto.
Defined.

Lemma nth_row_cursor_column_round_trip_witness :
  exists column,
    DataRegion.cursor_column example_region 57 = Some column /\
    0 <= column < 16 /\
    DataRegion.nth_row_nearest_column example_region
      (DataRegion.row_of example_region 57) column = Some 57.
Proof.
  apply (proj2 (nth_row_cursor_column_round_trip 0 (fun n => 8 * n) example_ctrl
                  example_region example_region 57 ltac:(example_facts)
                  ltac:(unfold INT_MAX; cbn; lia) ltac:(reflexivity)
                  ltac:(example_facts))).
Defined.

(** ** DocumentCtrl.cpp: the selection follows the cursor *)

(** X11. With Shift held, a cursor key that moves the cursor selects the bytes
    between the anchor (the end of the selection away from the cursor, or
    the place the cursor left if nothing was selected) and the new place of
    the cursor, whatever the direction; no assertion fails, and the anchor
    of the new selection, seen from the new place of the cursor, is the
    old anchor. A key that leaves the cursor where it is leaves the
    selection as it is. *)
Theorem OnChar_selection_anchor (dc : DocumentCtrl.DocumentCtrl)
    (cursor_pos new_cursor_pos : Z) :
  0 <= DocumentCtrl.selection_off dc ->
  0 <= DocumentCtrl.selection_length dc ->
  DocumentCtrl.selection_off dc + DocumentCtrl.selection_length dc <= 2 ^ 62 ->
  0 <= cursor_pos <= 2 ^ 62 ->
  0 <= new_cursor_pos <= 2 ^ 62 ->
  exists dc',
    Keys.OnChar_selection dc true cursor_pos new_cursor_pos = Some dc' /\
    (new_cursor_pos = cursor_pos -> dc' = dc) /\
    (new_cursor_pos <> cursor_pos ->
       DocumentCtrl.get_selection dc'
       = (Z.min (Keys.anchor dc cursor_pos) new_cursor_pos,
          Z.abs (new_cursor_pos - Keys.anchor dc cursor_pos)) /\
       Keys.anchor dc' new_cursor_pos = Keys.anchor dc cursor_pos).
Proof.
  intros Hoff Hlen Hend Hc Hn.
  change (2 ^ 62) with 4611686018427387904 in *.
  unfold Keys.OnChar_selection, Keys.anchor, DocumentCtrl.get_selection.
  set (so := DocumentCtrl.selection_off dc) in *.
  set (sl := DocumentCtrl.selection_length dc) in *.
  off_exact.
  rewrite ?Z.geb_leb, ?Z.gtb_ltb.
  destruct (Z.ltb_spec new_cursor_pos cursor_pos) as [Hlt | Hge];
    [|destruct (Z.ltb_spec cursor_pos new_cursor_pos) as [Hgt | Hle]].
  - destruct (Z.ltb_spec 0 sl) as [Hsel | Hnone].
    + destruct (Z.leb_spec cursor_pos so) as [Hat | Hbefore].
      * destruct (Z.leb_spec new_cursor_pos (so + sl)); [|lia].
        eexists. split; [reflexivity|]. split; [lia|]. intros _.
        cbn [DocumentCtrl.set_selection DocumentCtrl.selection_off
             DocumentCtrl.selection_length].
        off_exact. split; [f_equal; lia|].
        rewrite ?Z.geb_leb, ?Z.gtb_ltb. zcases; lia.
      * destruct (Z.ltb_spec new_cursor_pos so).
        -- eexists. split; [reflexivity|]. split; [lia|]. intros _.
           cbn [DocumentCtrl.set_selection DocumentCtrl.selection_off
                DocumentCtrl.selection_length].
           off_exact. split; [f_equal; lia|].
           rewrite ?Z.geb_leb, ?Z.gtb_ltb. zcases; lia.
        -- eexists. split; [reflexivity|]. split; [lia|]. intros _.
           cbn [DocumentCtrl.set_selection DocumentCtrl.selection_off
                DocumentCtrl.selection_length].
           off_exact. split; [f_equal; lia|].
           rewrite ?Z.geb_leb, ?Z.gtb_ltb. zcases; lia.
    + eexists. split; [reflexivity|]. split; [lia|]. intros _.
      cbn [DocumentCtrl.set_selection DocumentCtrl.selection_off
           DocumentCtrl.selection_length].
      off_exact. split; [f_equal; lia|].
      rewrite ?Z.geb_leb, ?Z.gtb_ltb. zcases; lia.
  - destruct (Z.ltb_spec 0 sl) as [Hsel | Hnone].
    + destruct (Z.leb_spec cursor_pos so) as [Hat | Hbefore].
      * destruct (Z.leb_spec (so + sl) new_cursor_pos).
        -- eexists. split; [reflexivity|]. split; [lia|]. intros _.
           cbn [DocumentCtrl.set_selection DocumentCtrl.selection_off
                DocumentCtrl.selection_length].
           off_exact. split; [f_equal; lia|].
           rewrite ?Z.geb_leb, ?Z.gtb_ltb. zcases; lia.
        -- eexists. split; [reflexivity|]. split; [lia|]. intros _.
           cbn [DocumentCtrl.set_selection DocumentCtrl.selection_off
                DocumentCtrl.selection_length].
           off_exact. split; [f_equal; lia|].
           rewrite ?Z.geb_leb, ?Z.gtb_ltb. zcases; lia.
      * eexists. split; [reflexivity|]. split; [lia|]. intros _.
        cbn [DocumentCtrl.set_selection DocumentCtrl.selection_off
             DocumentCtrl.selection_length].
        off_exact. split; [f_equal; lia|].
        rewrite ?Z.geb_leb, ?Z.gtb_ltb. zcases; lia.
    + eexists. split; [reflexivity|]. split; [lia|]. intros _.
      cbn [DocumentCtrl.set_selection DocumentCtrl.selection_off
           DocumentCtrl.selection_length].
      off_exact. split; [f_equal; lia|].
      rewrite ?Z.geb_leb, ?Z.gtb_ltb. zcases; lia.
  - exists dc. split; [reflexivity|]. split; [reflexivity|]. lia.
Qed.

Lemma OnChar_selection_anchor_witness :
  exists dc',
    Keys.OnChar_selection
      (DocumentCtrl.set_selection DocumentCtrl.initial 40 8) true 40 24
    = Some dc' /\
    DocumentCtrl.get_selection dc' = (24, 24) /\
    Keys.anchor dc' 24 = 48.
Proof.
  destruct (OnChar_selection_anchor
              (DocumentCtrl.set_selection DocumentCtrl.initial 40 8) 40 24
              ltac:(cbn; lia) ltac:(cbn; lia) ltac:(cbn; lia) ltac:(lia)
              ltac:(lia)) as (dc' & Hrun & _ & Hsel).
  exists dc'. split; [exact Hrun|]. exact (Hsel ltac:(lia)).
Defined.

(** ** DocumentCtrl.cpp: scrolling *)

Lemma int_exact (z : Z) :
  - 2147483648 <= z <= 2147483647 -> int_wrap t_int z = z.
Proof.
  intros Hz. apply int_wrap_id; [reflexivity|].
  unfold in_range. cbn. lia.
Qed.

Ltac int_exact_all :=
  unfold Scroll.int_add, Scroll.int_sub in *;
  repeat match goal with
  | |- context [int_wrap t_int ?z] => rewrite (int_exact z) by lia
  end.

Ltac scroll_fields :=
  cbn [Scroll.client_width Scroll.visible_lines Scroll.scroll_xoff
       Scroll.scroll_yoff Scroll.scroll_yoff_max Scroll.scroll_ydiv
       Scroll.vertical Scroll.horizontal Scroll.refreshes Scroll.range
       Scroll.thumb Scroll.position Scroll.self Scroll.linked_scroll_prev
       Scroll.linked_scroll_next Scroll.set_scroll_xoff
       Scroll.set_scroll_yoff_member Scroll.SetScrollPos_vertical
       Scroll.SetScrollPos_horizontal Scroll.Refresh] in *.

(** The scroll bar follows [scroll_yoff] without failing an assertion. *)
Lemma update_vscroll_pos_own_ready (c : Scroll.DocumentCtrl) :
  Scroll.scrollbar_ready c ->
  0 <= Scroll.scroll_yoff c <= Scroll.scroll_yoff_max c ->
  exists p,
    Scroll._update_vscroll_pos_own c = Some (Scroll.SetScrollPos_vertical c p) /\
    0 <= p <= Scroll.range (Scroll.vertical c) - Scroll.thumb (Scroll.vertical c).
Proof.
  intros (Hdiv & Hthumb & Hrange & Hmax & Hint) Hy.
  unfold Scroll._update_vscroll_pos_own, off_div, INT_MAX in *.
  change (int_max t_int) with 2147483647 in *.
  change (2 ^ 62) with 4611686018427387904 in *.
  set (range := Scroll.range (Scroll.vertical c)) in *.
  set (thumb := Scroll.thumb (Scroll.vertical c)) in *.
  destruct (Z.eqb_spec (Scroll.scroll_yoff c) (Scroll.scroll_yoff_max c)).
  - eexists. split; [reflexivity|]. int_exact_all. lia.
  - destruct (Z.eqb_spec (Scroll.scroll_ydiv c) 0); [lia|]. cbn [bind].
    rewrite Z.quot_div_nonneg by lia.
    assert (Hq : 0 <= Scroll.scroll_yoff c / Scroll.scroll_ydiv c <= 2147483647).
    { split; [apply Z.div_pos; lia|].
      apply Z.div_le_upper_bound; lia. }
    set (q := Scroll.scroll_yoff c / Scroll.scroll_ydiv c) in *. clearbody q.
    rewrite (off_wrap_id q) by (rewrite OFF_MIN_val, OFF_MAX_val; lia).
    int_exact_all.
    rewrite ?Z.geb_leb, ?Z.gtb_ltb.
    destruct (Z.eqb_spec (Z.min q (range - thumb)) 0) as [H0 | H0];
      destruct (Z.ltb_spec 0 (Scroll.scroll_yoff c)); cbn [andb].
    + zcases; try lia. eexists. split; [reflexivity|]. lia.
    + destruct (Z.eqb_spec (Z.min q (range - thumb)) (range - thumb));
        destruct (Z.ltb_spec (Scroll.scroll_yoff c) (Scroll.scroll_yoff_max c));
        cbn [andb]; int_exact_all; zcases; try lia;
        eexists; (split; [reflexivity|]); lia.
    + destruct (Z.eqb_spec (Z.min q (range - thumb)) (range - thumb));
        destruct (Z.ltb_spec (Scroll.scroll_yoff c) (Scroll.scroll_yoff_max c));
        cbn [andb]; int_exact_all; zcases; try lia;
        eexists; (split; [reflexivity|]); lia.
    + destruct (Z.eqb_spec (Z.min q (range - thumb)) (range - thumb));
        destruct (Z.ltb_spec (Scroll.scroll_yoff c) (Scroll.scroll_yoff_max c));
        cbn [andb]; int_exact_all; zcases; try lia;
        eexists; (split; [reflexivity|]); lia.
Qed.

Lemma follow_ready (c o : Scroll.DocumentCtrl) :
  Scroll.scrollbar_ready o -> 0 <= Scroll.scroll_yoff c ->
  exists o', Scroll.follow c o = Some o' /\ Scroll.follows c o o'.
Proof.
  intros Hready Hy. unfold Scroll.follow.
  set (o1 := if Scroll.scroll_yoff
                  (Scroll.set_scroll_yoff_member o (Scroll.scroll_yoff c))
                >? Scroll.scroll_yoff_max
                     (Scroll.set_scroll_yoff_member o (Scroll.scroll_yoff c))
             then Scroll.set_scroll_yoff_member
                    (Scroll.set_scroll_yoff_member o (Scroll.scroll_yoff c))
                    (Scroll.scroll_yoff_max
                       (Scroll.set_scroll_yoff_member o (Scroll.scroll_yoff c)))
             else Scroll.set_scroll_yoff_member o (Scroll.scroll_yoff c)).
  assert (Ho1 : o1 = Scroll.set_scroll_yoff_member o
                       (Z.min (Scroll.scroll_yoff c) (Scroll.scroll_yoff_max o))).
  { subst o1. scroll_fields. rewrite Z.gtb_ltb.
    destruct (Z.ltb_spec (Scroll.scroll_yoff_max o) (Scroll.scroll_yoff c)).
    - rewrite Z.min_r by lia. reflexivity.
    - rewrite Z.min_l by lia. reflexivity. }
  rewrite Ho1. clear Ho1 o1.
  destruct (update_vscroll_pos_own_ready
              (Scroll.set_scroll_yoff_member o
                 (Z.min (Scroll.scroll_yoff c) (Scroll.scroll_yoff_max o))))
    as (p & Hp & Hrange).
  - exact Hready.
  - destruct Hready as (_ & _ & _ & Hmax & _). scroll_fields. lia.
  - rewrite Hp. cbn [bind]. eexists. split; [reflexivity|].
    unfold Scroll.follows. scroll_fields. auto.
Qed.

Lemma visit_ready (c : Scroll.DocumentCtrl) (others : list Scroll.DocumentCtrl) :
  Forall Scroll.scrollbar_ready others -> 0 <= Scroll.scroll_yoff c ->
  exists others', Scroll.visit c others = Some others' /\
                  Forall2 (Scroll.follows c) others others'.
Proof.
  intros Hready Hy. induction Hready as [|o others Ho Hothers IH].
  - exists []. split; [reflexivity | constructor].
  - destruct (follow_ready c o Ho Hy) as (o' & Hfollow & Ho').
    destruct IH as (others' & Hvisit & Hall).
    exists (o' :: others'). cbn [Scroll.visit].
    rewrite Hfollow, Hvisit. split; [reflexivity|]. constructor; assumption.
Qed.

(** X12. [_update_vscroll_pos(true)] on a control whose scroll bar and whose
    linked controls' scroll bars are set up fails no assertion: it leaves
    [scroll_yoff] alone and puts the scroll bar inside its range, and every
    linked control follows to the same line, or to its own last line if it
    has fewer lines, and is repainted. *)
Theorem update_vscroll_pos_linked (l : Scroll.Linked) :
  Scroll.scrollbar_ready (Scroll.self l) ->
  Forall Scroll.scrollbar_ready (Scroll.linked_scroll_prev l) ->
  Forall Scroll.scrollbar_ready (Scroll.linked_scroll_next l) ->
  0 <= Scroll.scroll_yoff (Scroll.self l)
    <= Scroll.scroll_yoff_max (Scroll.self l) ->
  exists l' p,
    Scroll._update_vscroll_pos true l = Some l' /\
    Scroll.self l' = Scroll.SetScrollPos_vertical (Scroll.self l) p /\
    0 <= p <= Scroll.range (Scroll.vertical (Scroll.self l))
              - Scroll.thumb (Scroll.vertical (Scroll.self l)) /\
    Forall2 (Scroll.follows (Scroll.self l)) (Scroll.linked_scroll_prev l)
      (Scroll.linked_scroll_prev l') /\
    Forall2 (Scroll.follows (Scroll.self l)) (Scroll.linked_scroll_next l)
      (Scroll.linked_scroll_next l').
Proof.
  intros Hself Hprev Hnext Hy.
  unfold Scroll._update_vscroll_pos.
  destruct (update_vscroll_pos_own_ready (Scroll.self l) Hself Hy)
    as (p & Hp & Hrange).
  rewrite Hp. cbn [bind].
  destruct (visit_ready (Scroll.SetScrollPos_vertical (Scroll.self l) p)
              (Scroll.linked_scroll_prev l) Hprev ltac:(scroll_fields; lia))
    as (prev & Hvp & Hfp).
  destruct (visit_ready (Scroll.SetScrollPos_vertical (Scroll.self l) p)
              (Scroll.linked_scroll_next l) Hnext ltac:(scroll_fields; lia))
    as (next & Hvn & Hfn).
  rewrite Hvp, Hvn. cbn [bind].
  eexists. exists p. split; [reflexivity|]. scroll_fields.
  split; [reflexivity|]. split; [exact Hrange|]. split; assumption.
Qed.


(** X13. [_make_line_visible] on a control whose scroll bars are set up, for a
    line of the document, fails no assertion and leaves the line on the
    screen. It scrolls no further than needed: a line above the screen
    becomes the first line shown, a line below the screen the last one, and
    for a line that is on the screen nothing changes at all. *)
Theorem make_line_visible_spec (update_linked_scroll_others : bool)
    (l : Scroll.Linked) (line : Z) :
  Scroll.scrollbar_ready (Scroll.self l) ->
  Forall Scroll.scrollbar_ready (Scroll.linked_scroll_prev l) ->
  Forall Scroll.scrollbar_ready (Scroll.linked_scroll_next l) ->
  0 <= Scroll.scroll_yoff (Scroll.self l)
    <= Scroll.scroll_yoff_max (Scroll.self l) ->
  1 <= Scroll.visible_lines (Scroll.self l) <= INT_MAX ->
  0 <= line < Scroll.scroll_yoff_max (Scroll.self l)
             + Scroll.visible_lines (Scroll.self l) ->
  exists l',
    Scroll._make_line_visible update_linked_scroll_others l line = Some l' /\
    Scroll.scroll_yoff (Scroll.self l') <= line
      < Scroll.scroll_yoff (Scroll.self l')
        + Scroll.visible_lines (Scroll.self l') /\
    (line < Scroll.scroll_yoff (Scroll.self l) ->
       Scroll.scroll_yoff (Scroll.self l') = line) /\
    (Scroll.scroll_yoff (Scroll.self l) + Scroll.visible_lines (Scroll.self l)
       <= line ->
       Scroll.scroll_yoff (Scroll.self l')
       = line - Scroll.visible_lines (Scroll.self l) + 1) /\
    (Scroll.scroll_yoff (Scroll.self l) <= line
       < Scroll.scroll_yoff (Scroll.self l)
         + Scroll.visible_lines (Scroll.self l) ->
       l' = l).
Proof.
  intros Hself Hprev Hnext Hy Hvl Hline.
  pose proof Hself as (Hdiv & Hthumb & Hrange & Hmax & Hint).
  unfold INT_MAX in *. change (int_max t_int) with 2147483647 in *.
  change (2 ^ 62) with 4611686018427387904 in *.
  assert (Hrun : forall y, 0 <= y <= Scroll.scroll_yoff_max (Scroll.self l) ->
            exists l',
              Scroll._update_vscroll_pos update_linked_scroll_others
                {| Scroll.self := Scroll.set_scroll_yoff_member (Scroll.self l) y;
                   Scroll.linked_scroll_prev := Scroll.linked_scroll_prev l;
                   Scroll.linked_scroll_next := Scroll.linked_scroll_next l |}
              = Some l' /\
              Scroll.scroll_yoff (Scroll.self l') = y /\
              Scroll.visible_lines (Scroll.self l')
              = Scroll.visible_lines (Scroll.self l)).
  { intros y Hy'.
    destruct update_linked_scroll_others.
    - unfold Scroll._update_vscroll_pos. scroll_fields.
      destruct (update_vscroll_pos_own_ready
                  (Scroll.set_scroll_yoff_member (Scroll.self l) y))
        as (p & Hp & _); try assumption.
      rewrite Hp. cbn [bind].
      destruct (visit_ready
                  (Scroll.SetScrollPos_vertical
                     (Scroll.set_scroll_yoff_member (Scroll.self l) y) p)
                  (Scroll.linked_scroll_prev l) Hprev ltac:(scroll_fields; lia))
        as (prev & Hvp & _).
      destruct (visit_ready
                  (Scroll.SetScrollPos_vertical
                     (Scroll.set_scroll_yoff_member (Scroll.self l) y) p)
                  (Scroll.linked_scroll_next l) Hnext ltac:(scroll_fields; lia))
        as (next & Hvn & _).
      rewrite Hvp, Hvn. cbn [bind]. eexists. split; [reflexivity|].
      scroll_fields. auto.
    - unfold Scroll._update_vscroll_pos. scroll_fields.
      destruct (update_vscroll_pos_own_ready
                  (Scroll.set_scroll_yoff_member (Scroll.self l) y))
        as (p & Hp & _); try assumption.
      rewrite Hp. cbn [bind]. eexists. split; [reflexivity|].
      scroll_fields. auto. }
  assert (Hnz : (Scroll.visible_lines (Scroll.self l) =? 0) = false)
    by (apply Z.eqb_neq; lia).
  unfold Scroll._make_line_visible.
  rewrite ?Z.gtb_ltb.
  destruct (Z.ltb_spec line (Scroll.scroll_yoff (Scroll.self l))) as [Hup | Hnup].
  - (* scroll up *)
    destruct (Hrun line ltac:(lia)) as (l' & Hl' & Hy' & Hv').
    scroll_fields. rewrite Hnz. cbn [b2z]. off_exact.
    replace (line <=? line) with true by (symmetry; apply Z.leb_le; lia).
    replace (line <? line + Scroll.visible_lines (Scroll.self l) + 0) with true
      by (symmetry; apply Z.ltb_lt; lia).
    rewrite Hl'. cbn [bind]. eexists. split; [reflexivity|].
    scroll_fields. rewrite Hy', Hv'.
    split; [lia|]. split; [auto|]. split; lia.
  - off_exact.
    destruct (Z.leb_spec (Scroll.scroll_yoff (Scroll.self l)
                          + Scroll.visible_lines (Scroll.self l)) line)
      as [Hdown | Hvisible].
    + (* scroll down *)
      destruct (Hrun (line - Scroll.visible_lines (Scroll.self l) + 1) ltac:(lia))
        as (l' & Hl' & Hy' & Hv').
      scroll_fields. rewrite Hnz. cbn [b2z negb]. off_exact.
      replace (line - Scroll.visible_lines (Scroll.self l) + 1 <=? line) with true
        by (symmetry; apply Z.leb_le; lia).
      replace (line <? line - Scroll.visible_lines (Scroll.self l) + 1
                       + Scroll.visible_lines (Scroll.self l) + 0) with true
        by (symmetry; apply Z.ltb_lt; lia).
      rewrite Hl'. cbn [bind]. eexists. split; [reflexivity|].
      scroll_fields. rewrite Hy', Hv'.
      split; [lia|]. split; [lia|]. split; [auto|]. lia.
    + exists l. split; [reflexivity|]. split; [lia|].
      split; [lia|]. split; [lia|]. auto.
Qed.

(** X14. [_make_x_visible] fails no assertion. Afterwards [scroll_xoff] is at or
    before the left edge of the range asked for, and a range that is no
    wider than the window ends on the screen too; a range that was on the
    screen leaves the control as it is, and [scroll_yoff] is never
    touched. *)
Theorem make_x_visible_spec (c : Scroll.DocumentCtrl) (x_px width_px : Z) :
  0 <= Scroll.scroll_xoff c <= 2 ^ 29 ->
  0 <= Scroll.client_width c <= 2 ^ 29 ->
  0 <= x_px <= 2 ^ 29 -> 0 <= width_px <= 2 ^ 29 ->
  exists c',
    Scroll._make_x_visible c x_px width_px = Some c' /\
    Scroll.scroll_xoff c' <= x_px /\
    (width_px <= Scroll.client_width c ->
       x_px + width_px <= Scroll.scroll_xoff c' + Scroll.client_width c') /\
    (Scroll.scroll_xoff c <= x_px ->
     x_px + width_px <= Scroll.scroll_xoff c + Scroll.client_width c ->
       c' = c) /\
    Scroll.scroll_yoff c' = Scroll.scroll_yoff c.
Proof.
  intros Hx Hw Hpx Hwpx.
  change (2 ^ 29) with 536870912 in *.
  unfold Scroll._make_x_visible.
  rewrite ?Z.gtb_ltb, ?Z.geb_leb.
  destruct (Z.ltb_spec x_px (Scroll.scroll_xoff c)) as [Hleft | Hnleft].
  - scroll_fields. int_exact_all.
    replace (x_px <=? x_px) with true by (symmetry; apply Z.leb_le; lia).
    destruct (Z.leb_spec (x_px + width_px) (x_px + Scroll.client_width c));
      destruct (Z.ltb_spec (Scroll.client_width c) width_px); cbn [orb];
      try lia; (eexists; split; [reflexivity|]; scroll_fields;
                split; [lia|]; split; [lia|]; split; [lia | reflexivity]).
  - int_exact_all.
    destruct (Z.ltb_spec (Scroll.scroll_xoff c + Scroll.client_width c)
                (x_px + width_px)) as [Hright | Hnright];
      destruct (Z.leb_spec width_px (Scroll.client_width c)) as [Hfits | Hwide];
      cbn [andb].
    + scroll_fields. int_exact_all.
      replace (x_px - (Scroll.client_width c - width_px) <=? x_px) with true
        by (symmetry; apply Z.leb_le; lia).
      replace (x_px + width_px
               <=? x_px - (Scroll.client_width c - width_px)
                   + Scroll.client_width c) with true
        by (symmetry; apply Z.leb_le; lia).
      cbn [orb]. eexists. split; [reflexivity|]. scroll_fields.
      split; [lia|]. split; [lia|]. split; [lia | reflexivity].
    + exists c. split; [reflexivity|]. split; [lia|]. split; [lia|].
      split; [reflexivity | reflexivity].
    + exists c. split; [reflexivity|]. split; [lia|]. split; [lia|].
      split; [reflexivity | reflexivity].
    + exists c. split; [reflexivity|]. split; [lia|]. split; [lia|].
      split; [reflexivity | reflexivity].
Qed.

(** ** DocumentCtrl.cpp: wrapping text *)

Lemma size_exact (z : Z) :
  0 <= z < 2 ^ 64 -> int_wrap t_size_t z = z.
Proof.
  intros Hz. apply int_wrap_id; [reflexivity|].
  unfold in_range. cbn. change (2 ^ 64) with 18446744073709551616 in Hz. lia.
Qed.

Lemma index_of_some (c : Ascii.ascii) (l : list Ascii.ascii) (k : nat) :
  Text.index_of c l = Some k ->
  (k < List.length l)%nat /\ ~ In c (firstn k l) /\
  l = firstn k l ++ c :: skipn (S k) l.
Proof.
  revert k. induction l as [|x l IH]; intros k; cbn [Text.index_of].
  - discriminate.
  - destruct (Ascii.eqb_spec x c) as [-> | Hne].
    + intros [= <-]. cbn. split; [lia|]. split; [tauto | reflexivity].
    + destruct (Text.index_of c l) as [j|]; [|discriminate].
      intros [= <-]. destruct (IH j eq_refl) as (Hlt & Hnot & Heq).
      cbn [List.length firstn skipn]. split; [lia|]. split.
      * intros [Hx | Hin]; [congruence | exact (Hnot Hin)].
      * cbn [app]. f_equal. exact Heq.
Qed.

Lemma index_of_none (c : Ascii.ascii) (l : list Ascii.ascii) :
  Text.index_of c l = None -> ~ In c l.
Proof.
  induction l as [|x l IH]; cbn [Text.index_of]; [tauto|].
  destruct (Ascii.eqb_spec x c) as [-> | Hne]; [discriminate|].
  destruct (Text.index_of c l); [discriminate|].
  intros _ [Hx | Hin]; [congruence | exact (IH eq_refl Hin)].
Qed.

Lemma unbroken_id (l : list Ascii.ascii) :
  ~ In Text.newline l -> Text.unbroken l = l.
Proof.
  induction l as [|x l IH]; intros Hnot; [reflexivity|].
  cbn [Text.unbroken filter]. destruct (Ascii.eqb_spec x Text.newline) as [-> | Hne].
  - exfalso. apply Hnot. left. reflexivity.
  - cbn [negb]. f_equal. apply IH. intros Hin. apply Hnot. right. exact Hin.
Qed.

Lemma unbroken_app (l1 l2 : list Ascii.ascii) :
  Text.unbroken (l1 ++ l2) = Text.unbroken l1 ++ Text.unbroken l2.
Proof. apply filter_app. Qed.

Lemma in_firstn (c : Ascii.ascii) (n : nat) (l : list Ascii.ascii) :
  In c (firstn n l) -> In c l.
Proof.
  revert l. induction n as [|n IH]; intros l Hin; [destruct Hin|].
  destruct l as [|x l]; [destruct Hin|].
  destruct Hin as [-> | Hin]; [left; reflexivity | right; apply IH, Hin].
Qed.

Lemma not_in_firstn (c : Ascii.ascii) (n m : nat) (l : list Ascii.ascii) :
  (n <= m)%nat -> ~ In c (firstn m l) -> ~ In c (firstn n l).
Proof.
  intros Hnm Hnot Hin. apply Hnot.
  replace n with (Nat.min n m) in Hin by lia.
  rewrite <- firstn_firstn in Hin. exact (in_firstn _ _ _ Hin).
Qed.

Lemma skipn_past (A : Type) (k : nat) (l : list A) :
  (List.length l <= k)%nat -> skipn k l = [].
Proof. intros Hk. apply skipn_all2. exact Hk. Qed.

Lemma format_text_loop_spec (text : list Ascii.ascii) (c : nat) :
  (0 < c)%nat -> Text.size text + Z.of_nat c < 2 ^ 63 ->
  forall (fuel k : nat) (lines : list (list Ascii.ascii)),
    (List.length text - k <= fuel)%nat ->
    exists more,
      Text.format_text_loop fuel text (Z.of_nat c) (Z.of_nat k) lines
      = Some (lines ++ more) /\
      List.concat more = Text.unbroken (skipn k text) /\
      Forall (Text.fits (Z.of_nat c)) more.
Proof.
  intros Hc Hsize. unfold Text.size in Hsize.
  change (2 ^ 63) with 9223372036854775808 in Hsize.
  assert (Hdone : forall fuel k lines, (List.length text <= k)%nat ->
            exists more,
              Text.format_text_loop fuel text (Z.of_nat c) (Z.of_nat k) lines
              = Some (lines ++ more) /\
              List.concat more = Text.unbroken (skipn k text) /\
              Forall (Text.fits (Z.of_nat c)) more).
  { intros fuel k lines Hk. exists [].
    rewrite skipn_past by exact Hk. rewrite app_nil_r.
    split; [|split; [reflexivity | constructor]].
    destruct fuel; cbn [Text.format_text_loop]; unfold Text.size;
      destruct (Z.ltb_spec (Z.of_nat k) (Z.of_nat (List.length text)));
      try reflexivity; lia. }
  induction fuel as [|fuel IH]; intros k lines Hfuel.
  - apply Hdone. lia.
  - destruct (Nat.le_gt_cases (List.length text) k) as [Hk | Hk];
      [apply Hdone; exact Hk|].
    cbn [Text.format_text_loop]. unfold Text.size.
    destruct (Z.ltb_spec (Z.of_nat k) (Z.of_nat (List.length text))); [|lia].
    set (s := skipn k text).
    assert (Hs : List.length s = (List.length text - k)%nat)
      by (subst s; apply length_skipn).
    (* the line that is cut where the row is full *)
    assert (Hcut : ~ In Text.newline (firstn c s) ->
              exists more,
                Text.format_text_loop fuel text (Z.of_nat c)
                  (Text.size_add (Z.of_nat k) (Z.of_nat c))
                  (lines ++ [Text.substr text (Z.of_nat k) (Z.of_nat c)])
                = Some (lines ++ more) /\
                List.concat more = Text.unbroken s /\
                Forall (Text.fits (Z.of_nat c)) more).
    { intros Hnot. unfold Text.size_add, Text.substr.
      rewrite size_exact by (change (2 ^ 64) with 18446744073709551616; lia).
      rewrite !Nat2Z.id. fold s.
      replace (Z.of_nat k + Z.of_nat c) with (Z.of_nat (k + c)) by lia.
      destruct (IH (k + c)%nat (lines ++ [firstn c s]) ltac:(lia))
        as (more & Hrun & Hcat & Hfit).
      exists (firstn c s :: more). rewrite Hrun, <- app_assoc.
      split; [reflexivity|]. split.
      - cbn [List.concat]. rewrite Hcat.
        assert (Hsp : Text.unbroken s
                      = Text.unbroken (firstn c s ++ skipn c s))
          by (rewrite firstn_skipn; reflexivity).
        rewrite Hsp, unbroken_app.
        rewrite (unbroken_id (firstn c s)) by exact Hnot.
        subst s. rewrite skipn_skipn. replace (c + k)%nat with (k + c)%nat by lia.
        reflexivity.
      - constructor; [|exact Hfit]. split; [|exact Hnot].
        unfold Text.size. pose proof (firstn_le_length c s). lia. }
    unfold Text.find_first_of. rewrite Nat2Z.id. fold s.
    destruct (Text.index_of Text.newline s) as [j|] eqn:Hfind.
    + destruct (index_of_some _ _ _ Hfind) as (Hj & Hnot & Hsplit).
      replace (Z.of_nat k + Z.of_nat j =? Text.npos) with false
        by (symmetry; apply Z.eqb_neq; unfold Text.npos; cbn; lia).
      cbn [negb andb]. unfold Text.size_add at 1.
      rewrite size_exact by (change (2 ^ 64) with 18446744073709551616; lia).
      destruct (Z.leb_spec (Z.of_nat k + Z.of_nat j) (Z.of_nat k + Z.of_nat c))
        as [Hnear | Hfar].
      * unfold Text.size_add, Text.size_sub, Text.substr.
        rewrite !size_exact by (change (2 ^ 64) with 18446744073709551616; lia).
        replace (Z.of_nat k + Z.of_nat j - Z.of_nat k) with (Z.of_nat j) by lia.
        rewrite !Nat2Z.id. fold s.
        replace (Z.of_nat k + Z.of_nat j + 1) with (Z.of_nat (S (k + j))) by lia.
        destruct (IH (S (k + j)) (lines ++ [firstn j s]) ltac:(lia))
          as (more & Hrun & Hcat & Hfit).
        exists (firstn j s :: more). rewrite Hrun, <- app_assoc.
        split; [reflexivity|]. split.
        -- cbn [List.concat]. rewrite Hcat.
           assert (Hsp : Text.unbroken s
                         = Text.unbroken
                             (firstn j s ++ Text.newline :: skipn (S j) s))
             by (rewrite <- Hsplit; reflexivity).
           rewrite Hsp, unbroken_app.
           rewrite (unbroken_id (firstn j s)) by exact Hnot.
           cbn [Text.unbroken filter]. rewrite Ascii.eqb_refl. cbn [negb].
           fold (Text.unbroken (skipn (S j) s)).
           subst s. rewrite skipn_skipn.
           replace (S j + k)%nat with (S (k + j)) by lia. reflexivity.
        -- constructor; [|exact Hfit]. split; [|exact Hnot].
           unfold Text.size. pose proof (firstn_le_length j s). lia.
      * apply Hcut. apply (not_in_firstn _ c j); [lia | exact Hnot].
    + replace (Text.npos =? Text.npos) with true by (symmetry; apply Z.eqb_refl).
      cbn [negb andb]. apply Hcut.
      intros Hin. exact (index_of_none _ _ Hfind (in_firstn _ _ _ Hin)).
Qed.

(** X15. With at least one column, [format_text] fails no assertion and its loop
    ends. The lines it makes lose no character of the text but the line
    breaks, none of them is longer than [cols] or holds a line break, and
    [from_line] and [max_lines] pick the lines to return out of them: at
    most [max_lines] lines after the first [from_line] ones. *)
Theorem format_text_spec (text : list Ascii.ascii) (cols : Z) :
  0 < cols <= 4294967295 -> Text.size text < 2 ^ 62 ->
  exists all,
    List.concat all = Text.unbroken text /\
    Forall (Text.fits cols) all /\
    forall from_line max_lines, 0 <= from_line -> 0 <= max_lines ->
      Text.format_text text cols from_line max_lines
      = Some (firstn (Z.to_nat max_lines) (skipn (Z.to_nat from_line) all)).
Proof.
  intros Hcols Hsize.
  change (2 ^ 62) with 4611686018427387904 in Hsize.
  destruct (format_text_loop_spec text (Z.to_nat cols) ltac:(lia)
              ltac:(change (2 ^ 63) with 9223372036854775808; lia)
              (List.length text) O [] ltac:(lia))
    as (all & Hrun & Hcat & Hfit).
  rewrite Z2Nat.id in Hrun, Hfit by lia. cbn [app] in Hrun.
  change (Z.of_nat 0) with 0 in Hrun.
  exists all. split; [exact Hcat|]. split; [exact Hfit|].
  intros from_line max_lines Hfrom Hmax.
  unfold Text.format_text.
  replace (cols >? 0) with true by (symmetry; apply Z.gtb_lt; lia).
  rewrite Hrun. cbn [bind]. f_equal.
  assert (Hskip : skipn (Z.to_nat (Z.min from_line (Z.of_nat (List.length all)))) all
                  = skipn (Z.to_nat from_line) all).
  { destruct (Z.le_gt_cases from_line (Z.of_nat (List.length all))).
    - rewrite Z.min_l by lia. reflexivity.
    - rewrite Z.min_r by lia. rewrite Nat2Z.id.
      rewrite !skipn_past by lia. reflexivity. }
  rewrite Hskip.
  set (rest := skipn (Z.to_nat from_line) all).
  destruct (Z.le_gt_cases max_lines (Z.of_nat (List.length rest))).
  - rewrite Z.min_l by lia. reflexivity.
  - rewrite Z.min_r by lia. rewrite Nat2Z.id.
    rewrite !firstn_all2 by lia. reflexivity.
Qed.

(** ** DocumentCtrl.cpp: the region of an offset *)

Lemma chained_after (dc : Regions.DocumentCtrl) (a : nat) (s : list nat) (i : nat) :
  Regions.chained dc (a :: s) -> In i s ->
  Regions.d_offset (Regions.region_at dc a)
  + Regions.d_length (Regions.region_at dc a)
  <= Regions.d_offset (Regions.region_at dc i).
Proof.
  revert a. induction s as [|b s IH]; intros a Hch Hin; [destruct Hin|].
  cbn [Regions.chained] in Hch.
  destruct Hch as (_ & _ & _ & _ & Hab & Hb).
  destruct Hin as [<- | Hin]; [exact Hab|].
  pose proof (IH b Hb Hin) as Hbi.
  cbn [Regions.chained] in Hb. destruct Hb as (_ & _ & Hlen & _). lia.
Qed.

Lemma chained_in (dc : Regions.DocumentCtrl) (s : list nat) (i : nat) :
  Regions.chained dc s -> In i s ->
  (i < List.length (Regions.data_regions dc))%nat /\
  0 <= Regions.d_offset (Regions.region_at dc i) /\
  0 <= Regions.d_length (Regions.region_at dc i) /\
  Regions.d_offset (Regions.region_at dc i)
  + Regions.d_length (Regions.region_at dc i) <= 2 ^ 62.
Proof.
  induction s as [|a s IH]; intros Hch Hin; [destruct Hin|].
  cbn [Regions.chained] in Hch. destruct Hch as (H1 & H2 & H3 & H4 & _ & Hs).
  destruct Hin as [<- | Hin]; [auto | exact (IH Hs Hin)].
Qed.

Lemma upper_bound_le (dc : Regions.DocumentCtrl) (s : list nat) (offset : Z) :
  (Regions.upper_bound dc s offset <= List.length s)%nat.
Proof.
  induction s as [|a s IH]; cbn [Regions.upper_bound List.length]; [lia|].
  destruct (offset <? Regions.d_offset (Regions.region_at dc a)); lia.
Qed.

Lemma upper_bound_chained (dc : Regions.DocumentCtrl) (s : list nat)
    (offset : Z) (i : nat) :
  Regions.chained dc s -> In i s ->
  Regions.d_offset (Regions.region_at dc i) <= offset
    < Regions.d_offset (Regions.region_at dc i)
      + Regions.d_length (Regions.region_at dc i) ->
  exists p, Regions.upper_bound dc s offset = S p /\ nth p s O = i.
Proof.
  induction s as [|a s IH]; intros Hch Hin Hoff; [destruct Hin|].
  cbn [Regions.upper_bound].
  destruct Hin as [<- | Hin].
  - destruct (Z.ltb_spec offset (Regions.d_offset (Regions.region_at dc a)));
      [lia|].
    exists O. split; [|reflexivity]. f_equal.
    destruct s as [|b s]; [reflexivity|].
    cbn [Regions.upper_bound].
    pose proof (chained_after dc a (b :: s) b Hch ltac:(left; reflexivity)).
    destruct (Z.ltb_spec offset (Regions.d_offset (Regions.region_at dc b)));
      [reflexivity | lia].
  - pose proof (chained_after dc a s i Hch Hin) as Hai.
    cbn [Regions.chained] in Hch. destruct Hch as (_ & _ & Hlen & _ & _ & Hs).
    destruct (Z.ltb_spec offset (Regions.d_offset (Regions.region_at dc a)));
      [lia|].
    destruct (IH Hs Hin Hoff) as (p & Hp & Hnth).
    exists (S p). split; [f_equal; exact Hp | exact Hnth].
Qed.

(** [_data_region_by_offset] finds the region that holds the offset. *)
Lemma data_region_found (dc : Regions.DocumentCtrl) (offset : Z) (i : nat) :
  Regions.chained dc (Regions.data_regions_sorted dc) ->
  In i (Regions.data_regions_sorted dc) ->
  Regions.d_offset (Regions.region_at dc i) <= offset
    < Regions.d_offset (Regions.region_at dc i)
      + Regions.d_length (Regions.region_at dc i) ->
  Regions._data_region_by_offset dc offset = Some i.
Proof.
  intros Hch Hin Hoff.
  destruct (upper_bound_chained dc _ offset i Hch Hin Hoff) as (p & Hp & Hnth).
  destruct (chained_in dc _ i Hch Hin) as (_ & H0 & Hlen & Hend).
  change (2 ^ 62) with 4611686018427387904 in Hend.
  unfold Regions._data_region_by_offset. rewrite Hp, Hnth.
  assert (0 <= b2z (Nat.eqb i (pred (List.length (Regions.data_regions dc)))) <= 1)
    by (destruct (Nat.eqb _ _); cbn; lia).
  off_exact. rewrite Z.gtb_ltb.
  destruct (Z.leb_spec (Regions.d_offset (Regions.region_at dc i)) offset);
    [|lia].
  destruct (Z.ltb_spec offset
              (Regions.d_offset (Regions.region_at dc i)
               + Regions.d_length (Regions.region_at dc i)
               + b2z (Nat.eqb i (pred (List.length (Regions.data_regions dc))))));
    [reflexivity | lia].
Qed.

(** The region that [_data_region_by_offset] returns holds the offset, or
    is the last region and ends at it. *)
Lemma data_region_holds (dc : Regions.DocumentCtrl) (offset : Z) (i : nat) :
  Regions.chained dc (Regions.data_regions_sorted dc) ->
  Regions._data_region_by_offset dc offset = Some i ->
  In i (Regions.data_regions_sorted dc) /\
  Regions.d_offset (Regions.region_at dc i) <= offset /\
  (offset < Regions.d_offset (Regions.region_at dc i)
            + Regions.d_length (Regions.region_at dc i) \/
   offset = Regions.d_offset (Regions.region_at dc i)
            + Regions.d_length (Regions.region_at dc i) /\
   i = pred (List.length (Regions.data_regions dc))).
Proof.
  intros Hch. unfold Regions._data_region_by_offset.
  pose proof (upper_bound_le dc (Regions.data_regions_sorted dc) offset) as Hle.
  destruct (Regions.upper_bound dc (Regions.data_regions_sorted dc) offset)
    as [|p]; [discriminate|].
  set (j := nth p (Regions.data_regions_sorted dc) O).
  assert (Hin : In j (Regions.data_regions_sorted dc))
    by (subst j; apply nth_In; lia).
  destruct (chained_in dc _ j Hch Hin) as (_ & H0 & Hlen & Hend).
  change (2 ^ 62) with 4611686018427387904 in Hend.
  assert (0 <= b2z (Nat.eqb j (pred (List.length (Regions.data_regions dc)))) <= 1)
    by (destruct (Nat.eqb _ _); cbn; lia).
  off_exact. rewrite Z.gtb_ltb.
  destruct (Z.leb_spec (Regions.d_offset (Regions.region_at dc j)) offset);
    [|discriminate].
  destruct (Z.ltb_spec offset
              (Regions.d_offset (Regions.region_at dc j)
               + Regions.d_length (Regions.region_at dc j)
               + b2z (Nat.eqb j (pred (List.length (Regions.data_regions dc))))));
    [|discriminate].
  cbn [andb]. intros [= <-]. split; [exact Hin|]. split; [assumption|].
  destruct (Nat.eqb_spec j (pred (List.length (Regions.data_regions dc))));
    cbn [b2z] in *; [|left; lia].
  destruct (Z.eq_dec offset
              (Regions.d_offset (Regions.region_at dc j)
               + Regions.d_length (Regions.region_at dc j)));
    [right; auto | left; lia].
Qed.

(** X16. [_data_region_by_offset], on regions that do not overlap and are sorted
    as [replace_all_regions] sorts them, finds the region of every offset
    that a region holds. What it returns is a region that holds the offset,
    or the last region of the display when the offset is the one just
    past its end. *)
Theorem data_region_by_offset_spec (dc : Regions.DocumentCtrl) (offset : Z) :
  Regions.chained dc (Regions.data_regions_sorted dc) ->
  (forall i, In i (Regions.data_regions_sorted dc) ->
     Regions.d_offset (Regions.region_at dc i) <= offset
       < Regions.d_offset (Regions.region_at dc i)
         + Regions.d_length (Regions.region_at dc i) ->
     Regions._data_region_by_offset dc offset = Some i) /\
  (forall i, Regions._data_region_by_offset dc offset = Some i ->
     In i (Regions.data_regions_sorted dc) /\
     Regions.d_offset (Regions.region_at dc i) <= offset /\
     (offset < Regions.d_offset (Regions.region_at dc i)
               + Regions.d_length (Regions.region_at dc i) \/
      offset = Regions.d_offset (Regions.region_at dc i)
               + Regions.d_length (Regions.region_at dc i) /\
      i = pred (List.length (Regions.data_regions dc)))).
Proof.
  intros Hch. split.
  - intros i Hin Hoff. apply data_region_found; assumption.
  - intros i Hrun. apply data_region_holds; assumption.
Qed.

Ltac scroll_example :=
  unfold Scroll.scrollbar_ready, INT_MAX; cbn; lia.

Lemma update_vscroll_pos_linked_witness :
  exists l' p,
    Scroll._update_vscroll_pos true example_linked = Some l' /\
    Scroll.self l' = Scroll.SetScrollPos_vertical example_view p /\
    0 <= p <= 980 /\
    Forall2 (Scroll.follows example_view)
      (Scroll.linked_scroll_prev example_linked) (Scroll.linked_scroll_prev l') /\
    Forall2 (Scroll.follows example_view)
      (Scroll.linked_scroll_next example_linked) (Scroll.linked_scroll_next l').
Proof.
  apply (update_vscroll_pos_linked example_linked).
  - scroll_example.
  - constructor; [scroll_example | constructor].
  - constructor.
  - cbn. lia.
Defined.

Lemma make_line_visible_spec_witness :
  exists l',
    Scroll._make_line_visible true example_linked 500 = Some l' /\
    Scroll.scroll_yoff (Scroll.self l') = 481.
Proof.
  destruct (make_line_visible_spec true example_linked 500) as (l' & Hrun & _ & _ & Hdown & _).
  - scroll_example.
  - constructor; [scroll_example | constructor].
  - constructor.
  - cbn. lia.
  - unfold INT_MAX. cbn. lia.
  - cbn. lia.
  - exists l'. split; [exact Hrun|]. apply Hdown. cbn. lia.
Defined.

Lemma make_x_visible_spec_witness :
  exists c',
    Scroll._make_x_visible example_view 700 16 = Some c' /\
    Scroll.scroll_xoff c' <= 700 /\
    700 + 16 <= Scroll.scroll_xoff c' + Scroll.client_width c'.
Proof.
  destruct (make_x_visible_spec example_view 700 16) as (c' & Hrun & Hleft & Hright & _).
  - cbn. lia.
  - cbn. lia.
  - cbn. lia.
  - cbn. lia.
  - exists c'. split; [exact Hrun|]. split; [exact Hleft|].
    apply Hright. cbn. lia.
Defined.

Lemma format_text_spec_witness :
  exists all,
    List.concat all = Text.unbroken example_text /\
    Forall (Text.fits 4) all /\
    Text.format_text example_text 4 1 2
    = Some (firstn 2 (skipn 1 all)).
Proof.
  destruct (format_text_spec example_text 4) as (all & Hcat & Hfit & Hsel).
  - lia.
  - reflexivity.
  - exists all. split; [exact Hcat|]. split; [exact Hfit|].
    apply (Hsel 1 2); lia.
Defined.

Lemma data_region_by_offset_spec_witness :
  Regions._data_region_by_offset example_regions 20 = Some 1%nat.
Proof.
  apply (proj1 (data_region_by_offset_spec example_regions 20
                  ltac:(cbn; repeat split; lia)) 1%nat).
  - cbn. auto.
  - cbn. lia.
Defined.

(** ** CharacterFinder.cpp: the offsets of the characters of a chunk *)

Section FinderFacts.

Variable Document : Type.
Variable get_range : Document -> Z -> option (Z * Z * string).

Abbreviation fill_t2_elem := (CharacterFinder.fill_t2_elem Document get_range).

Lemma increasing_app_one (l : list Z) (x y : Z) :
  FinderThread.increasing (l ++ [x]) -> x < y ->
  FinderThread.increasing ((l ++ [x]) ++ [y]).
Proof.
  induction l as [|a l IH]; intros Hinc Hxy.
  - cbn. auto.
  - destruct l as [|b l].
    + cbn in *. tauto.
    + cbn [app FinderThread.increasing] in *. destruct Hinc as [Hab Hinc].
      split; [exact Hab | apply IH; assumption].
Qed.

Lemma same_type_eq (a b : option (Z * Z * string)) :
  a = b ->
  match a, b with
  | Some (o1, l1, s1), Some (o2, l2, s2) =>
      (o1 =? o2) && (l1 =? l2) && String.eqb s1 s2
  | None, None => true
  | _, _ => false
  end = true.
Proof.
  intros <-. destruct a as [[[o l] s]|]; [|reflexivity].
  rewrite !Z.eqb_refl, String.eqb_refl. reflexivity.
Qed.

(** The loop that fills a [t2] element, from any of its turns on: the
    offsets already collected end with the one of the turn before. *)
Lemma fill_t2_elem_turns (encoder : CharacterFinder.CharacterEncoder)
    (ty : option (Z * Z * string)) (doc : Document) (t2_base t2_end : Z)
    (data : list byte) :
  (forall bytes, 0 < FinderThread.char_size encoder bytes <= INT_MAX) ->
  (forall o, t2_base <= o < t2_end -> get_range doc o = ty) ->
  0 <= t2_base -> t2_end <= 2 ^ 62 -> Z.of_nat (List.length data) <= 2 ^ 62 ->
  forall (fuel : nat) (data_off : Z) (acc : list Z) (last : Z),
    0 <= data_off <= Z.of_nat (List.length data) + INT_MAX ->
    t2_base + data_off <= t2_end + INT_MAX ->
    (Z.to_nat (Z.of_nat (List.length data) - data_off) < fuel)%nat ->
    last < data_off ->
    FinderThread.increasing (acc ++ [last]) ->
    Forall (fun o => 0 <= o < Z.min (t2_end - t2_base) (Z.of_nat (List.length data)))
      (acc ++ [last]) ->
    exists elem,
      fill_t2_elem fuel encoder ty doc t2_base t2_end data
        (t2_base + data_off) data_off (acc ++ [last])
      = CharacterFinder.Returned ((acc ++ [last]) ++ elem) /\
      FinderThread.increasing ((acc ++ [last]) ++ elem) /\
      Forall (fun o => 0 <= o < Z.min (t2_end - t2_base) (Z.of_nat (List.length data)))
        ((acc ++ [last]) ++ elem).
Proof.
  intros Hsize Htype Hbase Hend Hdata.
  unfold INT_MAX in *. change (int_max t_int) with 2147483647 in *.
  change (2 ^ 62) with 4611686018427387904 in *.
  induction fuel as [|fuel IH]; intros data_off acc last Hoff Hsum Hfuel Hlast Hinc Hall;
    [lia|].
  cbn [CharacterFinder.fill_t2_elem].
  rewrite (size_exact data_off)
    by (change (2 ^ 64) with 18446744073709551616; lia).
  destruct (Z.ltb_spec (t2_base + data_off) t2_end) as [Ht | Ht];
    destruct (Z.ltb_spec data_off (Z.of_nat (List.length data))) as [Hd | Hd];
    cbn [andb];
    try (exists []; rewrite app_nil_r; split; [reflexivity|]; split; assumption).
  rewrite (same_type_eq _ _ (Htype (t2_base + data_off) ltac:(lia))).
  pose proof (Hsize (skipn (Z.to_nat data_off) data)) as Hcs.
  unfold FinderThread.char_size in Hcs.
  set (cs := if fst (CharacterFinder.decode encoder (skipn (Z.to_nat data_off) data))
             then snd (CharacterFinder.decode encoder (skipn (Z.to_nat data_off) data))
             else CharacterFinder.word_size encoder) in *.
  clearbody cs.
  rewrite (int_exact cs) by lia.
  off_exact.
  replace (t2_base + data_off - t2_base) with data_off by lia.
  rewrite (size_exact data_off)
    by (change (2 ^ 64) with 18446744073709551616; lia).
  replace (t2_base + data_off + cs) with (t2_base + (data_off + cs)) by lia.
  destruct (IH (data_off + cs) (acc ++ [last]) data_off) as (elem & Hrun & Hinc' & Hall').
  - lia.
  - lia.
  - lia.
  - lia.
  - apply increasing_app_one; assumption.
  - apply Forall_app. split; [exact Hall|]. constructor; [lia | constructor].
  - exists (data_off :: elem).
    replace ((acc ++ [last]) ++ data_off :: elem)
      with (((acc ++ [last]) ++ [data_off]) ++ elem)
      by (rewrite <- (app_assoc (acc ++ [last])); reflexivity).
    auto.
Qed.

(** The loop from its first turn, with fuel for a turn for every byte. *)
Lemma fill_t2_elem_chunk (encoder : CharacterFinder.CharacterEncoder)
    (ty : option (Z * Z * string)) (doc : Document) (t2_base t2_end : Z)
    (data : list byte) (fuel : nat) :
  (forall bytes, 0 < FinderThread.char_size encoder bytes <= INT_MAX) ->
  (forall o, t2_base <= o < t2_end -> get_range doc o = ty) ->
  0 <= t2_base < t2_end -> t2_end <= 2 ^ 62 ->
  0 < Z.of_nat (List.length data) <= 2 ^ 62 ->
  (List.length data <= fuel)%nat ->
  exists rest,
    fill_t2_elem (S fuel) encoder ty doc t2_base t2_end data t2_base 0 []
    = CharacterFinder.Returned (0 :: rest) /\
    FinderThread.increasing (0 :: rest) /\
    Forall (fun o => 0 <= o < Z.min (t2_end - t2_base) (Z.of_nat (List.length data)))
      (0 :: rest).
Proof.
  intros Hsize Htype Hbase Hend Hdata Hfuel.
  pose proof (Hsize data) as Hcs. unfold FinderThread.char_size in Hcs.
  unfold INT_MAX in Hcs. change (int_max t_int) with 2147483647 in Hcs.
  change (2 ^ 62) with 4611686018427387904 in Hend, Hdata.
  cbn [CharacterFinder.fill_t2_elem].
  change (int_wrap t_size_t 0) with 0.
  destruct (Z.ltb_spec t2_base t2_end); [|lia].
  destruct (Z.ltb_spec 0 (Z.of_nat (List.length data))); [|lia].
  cbn [andb app]. rewrite (same_type_eq _ _ (Htype t2_base ltac:(lia))).
  change (skipn (Z.to_nat 0) data) with data.
  set (cs := if fst (CharacterFinder.decode encoder data)
             then snd (CharacterFinder.decode encoder data)
             else CharacterFinder.word_size encoder) in *.
  clearbody cs.
  rewrite (int_exact cs) by lia. off_exact.
  replace (t2_base - t2_base) with 0 by lia.
  change (int_wrap t_size_t 0) with 0. change (0 + cs) with cs.
  destruct (fill_t2_elem_turns encoder ty doc t2_base t2_end data Hsize Htype
              ltac:(lia) ltac:(change (2 ^ 62) with 4611686018427387904; lia)
              ltac:(change (2 ^ 62) with 4611686018427387904; lia)
              fuel cs [] 0)
    as (elem & Hrun & Hinc & Hall).
  - unfold INT_MAX. change (int_max t_int) with 2147483647. lia.
  - unfold INT_MAX. change (int_max t_int) with 2147483647. lia.
  - lia.
  - lia.
  - exact I.
  - constructor; [lia | constructor].
  - cbn [app] in Hrun, Hinc, Hall. exists elem. auto.
Qed.

(** X17. Where the decoder gives every character a size of one byte at
    least and the whole chunk has one type, the loop of [get_char_range]
    that fills a new [t2] element comes to its end within a turn for every
    byte read and fails no assertion. The offsets it collects start with
    zero, increase strictly and stay below the length of the chunk. *)
Theorem fill_t2_elem_offsets (encoder : CharacterFinder.CharacterEncoder)
    (ty : option (Z * Z * string)) (doc : Document) (t2_base t2_end : Z)
    (data : list byte) :
  (forall bytes, 0 < FinderThread.char_size encoder bytes <= INT_MAX) ->
  (forall o, t2_base <= o < t2_end -> get_range doc o = ty) ->
  0 <= t2_base < t2_end -> t2_end <= 2 ^ 62 ->
  0 < Z.of_nat (List.length data) <= 2 ^ 62 ->
  exists rest,
    fill_t2_elem (S (List.length data)) encoder ty doc t2_base t2_end data
      t2_base 0 []
    = CharacterFinder.Returned (0 :: rest) /\
    FinderThread.increasing (0 :: rest) /\
    Forall (fun o => 0 <= o < Z.min (t2_end - t2_base) (Z.of_nat (List.length data)))
      (0 :: rest).
Proof.
  intros Hsize Htype Hbase Hend Hdata.
  destruct (fill_t2_elem_chunk encoder ty doc t2_base t2_end data
              (List.length data) Hsize Htype Hbase Hend Hdata (Nat.le_refl _))
    as (rest & Hrun & Hinc & Hall).
  exists rest. split; [exact Hrun|]. split; [exact Hinc | exact Hall].
Qed.

Lemma upper_bound_props (l : list Z) (x : Z) :
  (CharacterFinder.upper_bound l x <= List.length l)%nat /\
  (forall k, (k < CharacterFinder.upper_bound l x)%nat -> nth k l 0 <= x) /\
  ((CharacterFinder.upper_bound l x < List.length l)%nat ->
   x < nth (CharacterFinder.upper_bound l x) l 0).
Proof.
  induction l as [|y l IH]; cbn [CharacterFinder.upper_bound List.length].
  - split; [lia|]. split; intros; lia.
  - destruct IH as (Hle & Hbefore & Hat).
    destruct (Z.ltb_spec x y) as [Hxy | Hxy].
    + split; [lia|]. split; [intros; lia|]. intros _. exact Hxy.
    + split; [lia|]. split.
      * intros [|k] Hk; [exact Hxy | apply Hbefore; lia].
      * intros Hlt. cbn [nth]. apply Hat. lia.
Qed.

Lemma increasing_tail (x : Z) (l : list Z) :
  FinderThread.increasing (x :: l) -> FinderThread.increasing l.
Proof. destruct l as [|y l]; cbn; tauto. Qed.

Lemma increasing_nth (l : list Z) (i j : nat) :
  FinderThread.increasing l -> (i < j)%nat -> (j < List.length l)%nat ->
  nth i l 0 < nth j l 0.
Proof.
  revert i j. induction l as [|x l IH]; intros i j Hinc Hij Hj;
    [cbn in Hj; lia|].
  destruct j as [|j]; [lia|]. cbn [List.length] in Hj.
  pose proof (increasing_tail _ _ Hinc) as Hl.
  destruct i as [|i].
  - cbn [nth]. destruct l as [|y l]; [cbn in Hj; lia|].
    destruct Hinc as [Hxy _].
    destruct j as [|j]; [exact Hxy|].
    apply Z.lt_trans with y; [exact Hxy|].
    apply (IH O (S j) Hl); [lia | lia].
  - cbn [nth]. apply IH; [exact Hl | lia | lia].
Qed.

(** The end of [get_char_range] on the offsets of a chunk. *)
Lemma locate_char_inside (rest : list Z) (offset t2_base t2_end : Z) :
  FinderThread.increasing (0 :: rest) ->
  Forall (fun o => 0 <= o < t2_end - t2_base) (0 :: rest) ->
  0 <= t2_base <= offset -> offset < t2_end <= 2 ^ 62 ->
  exists s l,
    CharacterFinder.locate_char (0 :: rest) offset t2_base t2_end
    = CharacterFinder.Returned (s, l) /\
    s <= offset < s + l /\
    In (s - t2_base) (0 :: rest) /\
    (s + l = t2_end \/ In (s + l - t2_base) (0 :: rest)) /\
    forall o, In o (0 :: rest) -> ~ (s - t2_base < o < s + l - t2_base).
Proof.
  intros Hinc Hall Hbase Hend.
  change (2 ^ 62) with 4611686018427387904 in Hend.
  unfold CharacterFinder.locate_char.
  off_exact.
  rewrite (size_exact (offset - t2_base))
    by (change (2 ^ 64) with 18446744073709551616; lia).
  set (elem := 0 :: rest) in *.
  set (x := offset - t2_base).
  destruct (upper_bound_props elem x) as (Hle & Hbefore & Hat).
  assert (Hn : CharacterFinder.upper_bound elem x
               = S (CharacterFinder.upper_bound rest x)).
  { subst elem. cbn [CharacterFinder.upper_bound].
    destruct (Z.ltb_spec x 0); [lia | reflexivity]. }
  set (n := CharacterFinder.upper_bound elem x) in *.
  set (m := CharacterFinder.upper_bound rest x) in *.
  rewrite Hn in *. cbn [pred]. clearbody n m.
  assert (Hm : (m < List.length elem)%nat) by lia.
  pose proof (Hbefore m ltac:(lia)) as Hthis.
  assert (Hnth : forall k, (k < List.length elem)%nat ->
                 0 <= nth k elem 0 < t2_end - t2_base).
  { intros k Hk. rewrite Forall_forall in Hall. apply Hall, nth_In, Hk. }
  pose proof (Hnth m Hm) as Hmb.
  assert (Hgap : forall o, In o elem ->
            ~ (nth m elem 0 < o /\
               ((S m < List.length elem)%nat -> o < nth (S m) elem 0))).
  { intros o Hin (Hlo & Hhi).
    destruct (In_nth _ _ 0 Hin) as (k & Hk & <-).
    destruct (Nat.lt_trichotomy k m) as [Hkm | [-> | Hkm]].
    - pose proof (increasing_nth elem k m Hinc Hkm Hm). lia.
    - lia.
    - destruct (Nat.eq_dec k (S m)) as [-> | Hne].
      + specialize (Hhi Hk). lia.
      + assert (HS : (S m < List.length elem)%nat) by lia.
        pose proof (increasing_nth elem (S m) k Hinc ltac:(lia) Hk).
        specialize (Hhi HS). lia. }
  destruct (Nat.ltb_spec (S m) (List.length elem)) as [Hnext | Hlast].
  - pose proof (Hat Hnext) as Hx. pose proof (Hnth (S m) Hnext) as Hnb.
    rewrite (size_exact (nth (S m) elem 0 - nth m elem 0))
      by (change (2 ^ 64) with 18446744073709551616; lia).
    off_exact.
    eexists. eexists. split; [reflexivity|].
    split; [subst x; lia|]. split.
    + replace (nth m elem 0 + t2_base - t2_base) with (nth m elem 0) by lia.
      apply nth_In, Hm.
    + split.
      * right.
        replace (nth m elem 0 + t2_base + (nth (S m) elem 0 - nth m elem 0)
                 - t2_base) with (nth (S m) elem 0) by lia.
        apply nth_In, Hnext.
      * intros o Hin Hb. apply (Hgap o Hin).
        split; [lia | intros _; lia].
  - rewrite Z.gtb_ltb. destruct (Z.ltb_spec t2_base t2_end); [|lia].
    off_exact.
    eexists. eexists. split; [reflexivity|].
    split; [subst x; lia|]. split.
    + replace (nth m elem 0 + t2_base - t2_base) with (nth m elem 0) by lia.
      apply nth_In, Hm.
    + split; [left; lia|].
      intros o Hin Hb. apply (Hgap o Hin).
      split; [lia | intros; lia].
Qed.

(** X18. On the offsets of the characters of a chunk, which start with
    zero and increase, the end of [get_char_range] fails no assertion and
    returns, for an offset of the chunk, the start and the length of the
    character that holds it: the start is one of the offsets, the end is
    the next of them or the end of the chunk, and the offset lies between
    the two. *)
Theorem locate_char_contains (rest : list Z) (offset t2_base t2_end : Z) :
  FinderThread.increasing (0 :: rest) ->
  Forall (fun o => 0 <= o < t2_end - t2_base) (0 :: rest) ->
  0 <= t2_base <= offset -> offset < t2_end <= 2 ^ 62 ->
  exists s l,
    CharacterFinder.locate_char (0 :: rest) offset t2_base t2_end
    = CharacterFinder.Returned (s, l) /\
    s <= offset < s + l /\
    In (s - t2_base) (0 :: rest) /\
    (s + l = t2_end \/ In (s + l - t2_base) (0 :: rest)) /\
    forall o, In o (0 :: rest) -> ~ (s - t2_base < o < s + l - t2_base).
Proof.
  intros Hinc Hall Hbase Hend.
  destruct (locate_char_inside rest offset t2_base t2_end Hinc Hall Hbase Hend)
    as (s & l & Hrun & Hin & Hstart & Hnext & Hgap).
  exists s, l. split; [exact Hrun|]. split; [exact Hin|].
  split; [exact Hstart|]. split; [exact Hnext | exact Hgap].
Qed.

End FinderFacts.

(** ** CharacterFinder.cpp: the table and the thread that fills it *)

Section FinderThreadFacts.

Variable Document : Type.
Variable get_range : Document -> Z -> option (Z * Z * string).
Variable read_data : Document -> Z -> Z -> option (list byte).
Variable by_name : string -> option CharacterFinder.CharacterEncoder.
Variable ascii_encoder : CharacterFinder.CharacterEncoder.
Variable LRUCache : Type.
Variable cache_get : LRUCache -> Z -> option (list Z) * LRUCache.
Variable cache_set : LRUCache -> Z -> list Z -> LRUCache.
Variable cache_new : Z -> LRUCache.
Variable cache_clear : LRUCache -> LRUCache.
Variable MAX_CHAR_SIZE : Z.

Abbreviation Finder := (CharacterFinder.CharacterFinder Document LRUCache).
Abbreviation State := (FinderThread.State Document LRUCache).
Abbreviation get_char_range :=
  (CharacterFinder.get_char_range Document get_range read_data by_name
     ascii_encoder LRUCache cache_get cache_set).
Abbreviation worker_step :=
  (FinderThread.worker_step Document read_data LRUCache MAX_CHAR_SIZE).
Abbreviation worker_steps :=
  (FinderThread.worker_steps Document read_data LRUCache MAX_CHAR_SIZE).
Abbreviation start_worker :=
  (FinderThread.start_worker Document get_range by_name ascii_encoder LRUCache).
Abbreviation reset_from :=
  (FinderThread.reset_from Document get_range by_name ascii_encoder LRUCache
     cache_clear).
Abbreviation new_finder :=
  (FinderThread.new Document get_range by_name ascii_encoder LRUCache cache_new
     cache_clear).
Abbreviation encoder_at :=
  (FinderThread.encoder_at Document get_range by_name ascii_encoder).
Abbreviation table_sized := (FinderThread.table_sized Document LRUCache).
Abbreviation slots_placed := (FinderThread.slots_placed Document LRUCache).
Abbreviation thread_invariant := (FinderThread.thread_invariant Document LRUCache).
Abbreviation t1_load := (CharacterFinder.t1_load Document LRUCache).
Abbreviation base := (CharacterFinder.base Document LRUCache).
Abbreviation length := (CharacterFinder.length Document LRUCache).
Abbreviation chunk_size := (CharacterFinder.chunk_size Document LRUCache).
Abbreviation t1_size := (CharacterFinder.t1_size Document LRUCache).
Abbreviation t1 := (CharacterFinder.t1 Document LRUCache).
Abbreviation t1_done := (CharacterFinder.t1_done Document LRUCache).
Abbreviation t1_filling := (CharacterFinder.t1_filling Document LRUCache).
Abbreviation document := (CharacterFinder.document Document LRUCache).
Abbreviation finder := (FinderThread.finder Document LRUCache).
Abbreviation t1_worker := (FinderThread.t1_worker Document LRUCache).

Ltac finder_fields :=
  cbn [CharacterFinder.document CharacterFinder.base CharacterFinder.length
       CharacterFinder.chunk_size CharacterFinder.t1_filling
       CharacterFinder.t1_done CharacterFinder.t1 CharacterFinder.t1_size
       CharacterFinder.t2 FinderThread.finder FinderThread.t1_worker
       FinderThread.with_flags FinderThread.with_t1 FinderThread.worker_exit
       FinderThread.idx FinderThread.base_off FinderThread.target_off
       FinderThread.encoding_base FinderThread.encoder] in *.

Lemma store_length (a : list Z) (i : nat) (v : Z) :
  List.length (FinderThread.store a i v) = List.length a.
Proof.
  revert i. induction a as [|x a IH]; intros i; [reflexivity|].
  destruct i as [|i]; cbn [FinderThread.store List.length]; [reflexivity|].
  rewrite IH. reflexivity.
Qed.

Lemma store_nth (a : list Z) (i k : nat) (v d : Z) :
  (i < List.length a)%nat ->
  nth k (FinderThread.store a i v) d = if Nat.eqb k i then v else nth k a d.
Proof.
  revert i k. induction a as [|x a IH]; intros i k Hi; [cbn in Hi; lia|].
  destruct i as [|i]; destruct k as [|k]; cbn [FinderThread.store nth Nat.eqb];
    try reflexivity.
  apply IH. cbn in Hi. lia.
Qed.

Lemma worker_scan_found (fuel : nat) (enc : CharacterFinder.CharacterEncoder)
    (data : list byte) (limit target at_offset data_off a : Z) :
  FinderThread.worker_scan fuel enc data limit target at_offset data_off
  = FinderThread.Found a ->
  target <= a.
Proof.
  revert at_offset data_off.
  induction fuel as [|fuel IH]; intros at_offset data_off;
    cbn [FinderThread.worker_scan];
    destruct ((at_offset <? limit) && _); try discriminate.
  set (cs := int_wrap t_int _).
  destruct (Z.geb_spec (off_add at_offset cs) target) as [Hge | Hlt];
    cbn [andb].
  - destruct (off_add (off_add at_offset cs) cs <=? limit).
    + intros [= <-]. lia.
    + apply IH.
  - apply IH.
Qed.

Lemma table_sized_room (cf : Finder) (i : Z) :
  table_sized cf -> 0 <= i ->
  base cf + (i + 1) * chunk_size cf < base cf + length cf ->
  i < t1_size cf.
Proof.
  intros (Hchunk & Hbase & Hlen & Hend & Hsize & Hfit) Hi Hlt.
  rewrite Hsize.
  assert (i + 1 <= (length cf - 1) / chunk_size cf).
  { apply Z.div_le_lower_bound; [lia|]. lia. }
  lia.
Qed.

Lemma worker_step_invariant (st : State) :
  thread_invariant st ->
  worker_step st <> FinderThread.Stopped FinderThread.OutsideArray /\
  forall st', worker_step st = FinderThread.Done st' ->
    thread_invariant st' /\
    base (finder st') = base (finder st) /\
    length (finder st') = length (finder st) /\
    chunk_size (finder st') = chunk_size (finder st) /\
    t1_size (finder st') = t1_size (finder st).
Proof.
  intros (Hsized & Hslots & Hthread).
  assert (Hexit : thread_invariant (FinderThread.worker_exit _ _ st) /\
                  base (finder (FinderThread.worker_exit _ _ st)) = base (finder st) /\
                  length (finder (FinderThread.worker_exit _ _ st)) = length (finder st) /\
                  chunk_size (finder (FinderThread.worker_exit _ _ st))
                  = chunk_size (finder st) /\
                  t1_size (finder (FinderThread.worker_exit _ _ st))
                  = t1_size (finder st)).
  { split; [|auto]. split; [exact Hsized|]. split; [exact Hslots | exact I]. }
  unfold FinderThread.worker_step.
  destruct (t1_worker st) as [|w|] eqn:Hw;
    try (split; [discriminate|]; intros st' [= <-];
         split; [|auto]; split; [exact Hsized|];
         split; [exact Hslots | rewrite Hw; exact I]).
  destruct Hthread as (Hidx & Htarget).
  pose proof Hsized as (Hchunk & Hbase & Hlen & Hend & Hsize & Hfit).
  change (2 ^ 62) with 4611686018427387904 in *.
  set (cf := finder st) in *.
  off_exact.
  destruct (t1_filling cf); cbn [andb];
    [|split; [discriminate | intros st' [= <-]; exact Hexit]].
  destruct (Z.ltb_spec (FinderThread.target_off w) (base cf + length cf))
    as [Hroom | Hfull];
    [|split; [discriminate | intros st' [= <-]; exact Hexit]].
  destruct (negb _); [split; [discriminate | discriminate]|].
  destruct (read_data _ _ _) as [data|];
    [|split; [discriminate | intros st' [= <-]; exact Hexit]].
  destruct (CharacterFinder.word_size _ =? 0);
    [split; [discriminate | discriminate]|].
  destruct (FinderThread.worker_scan _ _ _ _ _ _ _) as [a| |] eqn:Hscan;
    [|split; [discriminate | intros st' [= <-]; exact Hexit]
     |split; [discriminate | discriminate]].
  apply worker_scan_found in Hscan.
  pose proof (table_sized_room cf (FinderThread.idx w) Hsized Hidx
                ltac:(rewrite <- Htarget; exact Hroom)) as Hlt.
  unfold FinderThread.t1_store. fold cf.
  replace (0 <=? FinderThread.idx w) with true by (symmetry; apply Z.leb_le; lia).
  replace (FinderThread.idx w <? t1_size cf) with true
    by (symmetry; apply Z.ltb_lt; lia).
  replace (FinderThread.idx w <? Z.of_nat (List.length (t1 cf))) with true
    by (symmetry; apply Z.ltb_lt; lia).
  cbn [andb]. split; [discriminate|]. intros st' [= <-].
  unfold FinderThread.thread_invariant.
  finder_fields. split; [|auto]. split; [|split].
  - (* the table keeps its size *)
    unfold FinderThread.table_sized. finder_fields.
    rewrite store_length. auto 10.
  - (* the slot written holds an offset of the next chunk or later *)
    intros i Hi. unfold CharacterFinder.t1_load in *. finder_fields.
    rewrite store_nth by lia.
    destruct (Nat.eqb_spec (Z.to_nat i) (Z.to_nat (FinderThread.idx w)))
      as [Heq | Hne].
    + right. assert (i = FinderThread.idx w) by lia. subst i. lia.
    + apply Hslots. exact Hi.
  - rewrite size_exact by (change (2 ^ 64) with 18446744073709551616; lia).
    split; [lia|]. fold cf.
    assert ((FinderThread.idx w + 1) * chunk_size cf < length cf) by lia.
    rewrite off_wrap_id by (rewrite OFF_MIN_val, OFF_MAX_val; lia).
    lia.
Qed.

(** X21. The thread that fills [t1] never stores outside the array: from a
    state in which the table has the size the constructor gave it and the
    thread works on the chunk its index names, no number of turns of the
    thread ends in a store outside [t1]. The turns keep the range, the
    chunk size and the size of the table, and every slot stays empty or
    holds an offset at or after the start of the chunk it stands for. *)
Theorem worker_stores_inside (st : State) (n : nat) :
  thread_invariant st ->
  worker_steps n st <> FinderThread.Stopped FinderThread.OutsideArray /\
  forall st', worker_steps n st = FinderThread.Done st' ->
    thread_invariant st' /\
    base (finder st') = base (finder st) /\
    length (finder st') = length (finder st) /\
    chunk_size (finder st') = chunk_size (finder st) /\
    t1_size (finder st') = t1_size (finder st).
Proof.
  revert st. induction n as [|n IH]; intros st Hinv;
    cbn [FinderThread.worker_steps].
  - split; [discriminate|]. intros st' [= <-]. auto.
  - destruct (worker_step_invariant st Hinv) as (Hsafe & Hstep).
    destruct (worker_step st) as [st1|why] eqn:Hrun.
    + destruct (Hstep st1 eq_refl) as (Hinv1 & Hb & Hl & Hc & Hs).
      destruct (IH st1 Hinv1) as (Hsafe' & Hsteps).
      split; [exact Hsafe'|]. intros st' Hst'.
      destruct (Hsteps st' Hst') as (Hinv' & Hb' & Hl' & Hc' & Hs').
      split; [exact Hinv'|]. rewrite Hb', Hl', Hc', Hs'. auto.
    + split; [exact Hsafe | discriminate].
Qed.

Lemma reset_slots_done (n : nat) (cf : Finder) (i : Z) :
  0 <= i -> i + Z.of_nat n <= t1_size cf ->
  Z.of_nat (List.length (t1 cf)) = t1_size cf ->
  exists slots,
    FinderThread.reset_slots _ _ n cf i
    = FinderThread.Done (FinderThread.with_t1 _ _ cf slots) /\
    List.length slots = List.length (t1 cf) /\
    forall k, 0 <= k ->
      nth (Z.to_nat k) slots (-1)
      = if (i <=? k) && (k <? i + Z.of_nat n) then -1
        else nth (Z.to_nat k) (t1 cf) (-1).
Proof.
  revert cf i. induction n as [|n IH]; intros cf i Hi Hn Hfit.
  - exists (t1 cf). cbn [FinderThread.reset_slots].
    split; [destruct cf; reflexivity|]. split; [reflexivity|].
    intros k Hk. destruct (Z.leb_spec i k); destruct (Z.ltb_spec k (i + Z.of_nat 0));
      cbn [andb]; try reflexivity; lia.
  - cbn [FinderThread.reset_slots]. unfold FinderThread.t1_store.
    replace (0 <=? i) with true by (symmetry; apply Z.leb_le; lia).
    replace (i <? t1_size cf) with true by (symmetry; apply Z.ltb_lt; lia).
    replace (i <? Z.of_nat (List.length (t1 cf))) with true
      by (symmetry; apply Z.ltb_lt; lia).
    cbn [andb].
    destruct (IH (FinderThread.with_t1 _ _ cf
                    (FinderThread.store (t1 cf) (Z.to_nat i) (-1))) (i + 1))
      as (slots & Hrun & Hlen & Hnth).
    + lia.
    + finder_fields. lia.
    + finder_fields. rewrite store_length. exact Hfit.
    + exists slots. rewrite Hrun. split; [reflexivity|].
      finder_fields. rewrite store_length in Hlen. split; [exact Hlen|].
      intros k Hk. rewrite (Hnth k Hk). rewrite store_nth by lia.
      destruct (Z.leb_spec (i + 1) k); destruct (Z.leb_spec i k);
        destruct (Z.ltb_spec k (i + 1 + Z.of_nat n));
        destruct (Z.ltb_spec k (i + Z.of_nat (S n))); cbn [andb];
        try reflexivity; try lia;
        destruct (Nat.eqb_spec (Z.to_nat k) (Z.to_nat i)); try reflexivity; lia.
Qed.

(** A lookup that meets an empty slot tells that it does not know, and
    changes nothing. *)
Lemma lookup_unfilled (cf : Finder) (first offset : Z) :
  table_sized cf -> 0 < t1_size cf -> 0 <= first ->
  (forall k, first <= k < t1_size cf -> t1_load cf k = -1) ->
  base cf <= offset < base cf + length cf ->
  first <= Z.max ((offset - base cf) / chunk_size cf - 1) 0 ->
  get_char_range cf offset = CharacterFinder.Returned ((-1, -1), cf).
Proof.
  intros (Hchunk & Hbase & Hlen & Hend & Hsize & Hfit) Hslots Hfirst Hempty
    Hin Hidx.
  change (2 ^ 62) with 4611686018427387904 in *.
  unfold CharacterFinder.get_char_range.
  off_exact.
  replace (offset <? base cf) with false by (symmetry; apply Z.ltb_ge; lia).
  replace (offset >=? base cf + length cf) with false
    by (symmetry; rewrite Z.geb_leb; apply Z.leb_gt; lia).
  cbn [orb].
  rewrite Z.quot_div_nonneg by lia.
  assert (Hq : 0 <= (offset - base cf) / chunk_size cf <= t1_size cf).
  { split; [apply Z.div_pos; lia|]. rewrite Hsize.
    apply Z.div_le_mono; lia. }
  assert (Hq' : (offset - base cf) / chunk_size cf <= offset - base cf)
    by (apply Z.div_le_upper_bound; nia).
  set (q := (offset - base cf) / chunk_size cf) in *. clearbody q.
  off_exact.
  replace (q - 1 <? t1_size cf) with true by (symmetry; apply Z.ltb_lt; lia).
  cbn [negb]. unfold CharacterFinder.t2_base_of.
  rewrite Z.geb_leb.
  destruct (Z.leb_spec 0 (q - 1)) as [Hpos | Hneg].
  - rewrite (Hempty (q - 1)) by lia. reflexivity.
  - replace (base cf <? 0) with false by (symmetry; apply Z.ltb_ge; lia).
    replace (base cf >? offset) with false
      by (symmetry; rewrite Z.gtb_ltb; apply Z.ltb_ge; lia).
    replace (q - 1 <? t1_size cf) with true by (symmetry; apply Z.ltb_lt; lia).
    cbn [negb]. off_exact.
    replace (q - 1 + 1 <? t1_size cf) with true by (symmetry; apply Z.ltb_lt; lia).
    rewrite (Hempty (q - 1 + 1)) by lia. reflexivity.
Qed.

(** What [reset_from] leaves behind for an offset of the range. *)
Lemma reset_from_done (st : State) (offset : Z)
    (e : CharacterFinder.CharacterEncoder) :
  table_sized (finder st) ->
  encoder_at (document (finder st)) (base (finder st)) = Some e ->
  base (finder st) <= offset < base (finder st) + length (finder st) ->
  let first :=
    Z.max ((offset - base (finder st)) / chunk_size (finder st) - 1) 0 in
  exists st',
    reset_from st offset = FinderThread.Done st' /\
    table_sized (finder st') /\
    document (finder st') = document (finder st) /\
    base (finder st') = base (finder st) /\
    length (finder st') = length (finder st) /\
    chunk_size (finder st') = chunk_size (finder st) /\
    t1_size (finder st') = t1_size (finder st) /\
    (forall k, first <= k < t1_size (finder st) -> t1_load (finder st') k = -1) /\
    (forall k, 0 <= k < first ->
       t1_load (finder st') k = t1_load (finder st) k) /\
    (t1_size (finder st) = 0 ->
       t1_done (finder st') = true /\ t1_filling (finder st') = false /\
       t1_worker st' = FinderThread.NotJoinable) /\
    (0 < t1_size (finder st) ->
       t1_done (finder st') = false /\ t1_filling (finder st') = true /\
       exists w, t1_worker st' = FinderThread.Running w /\
                 FinderThread.idx w = 0 /\
                 FinderThread.target_off w
                 = base (finder st) + chunk_size (finder st) /\
                 FinderThread.encoder w = e).
Proof.
  intros Hsized Henc Hin first.
  pose proof Hsized as (Hchunk & Hbase & Hlen & Hend & Hsize & Hfit).
  change (2 ^ 62) with 4611686018427387904 in *.
  assert (Hsize0 : 0 <= t1_size (finder st))
    by (rewrite Hsize; apply Z.div_pos; lia).
  unfold FinderThread.reset_from.
  off_exact.
  replace (offset <? base (finder st)) with false
    by (symmetry; apply Z.ltb_ge; lia).
  replace (offset >=? base (finder st) + length (finder st)) with false
    by (symmetry; rewrite Z.geb_leb; apply Z.leb_gt; lia).
  cbn [orb].
  set (st1 := FinderThread.stop_worker _ _ st).
  assert (Hst1 : exists f d, finder st1 = FinderThread.with_flags _ _ (finder st) f d
                             /\ t1_worker st1 = FinderThread.NotJoinable).
  { subst st1. unfold FinderThread.stop_worker.
    destruct (t1_worker st) eqn:Hw.
    - exists (t1_filling (finder st)), (t1_done (finder st)).
      split; [destruct st as [[] ?]; reflexivity | exact Hw].
    - eexists. eexists. split; reflexivity.
    - eexists. eexists. split; reflexivity. }
  destruct Hst1 as (f & d & Hf1 & Hw1). rewrite Hf1, Hw1. finder_fields.
  off_exact.
  destruct (Z.eqb_spec (chunk_size (finder st)) 0); [lia|].
  rewrite Z.quot_div_nonneg by lia.
  assert (Hq : 0 <= (offset - base (finder st)) / chunk_size (finder st)
               <= t1_size (finder st)).
  { split; [apply Z.div_pos; lia|]. rewrite Hsize.
    apply Z.div_le_mono; lia. }
  assert (Hq' : (offset - base (finder st)) / chunk_size (finder st)
                <= offset - base (finder st))
    by (apply Z.div_le_upper_bound; nia).
  subst first.
  set (q := (offset - base (finder st)) / chunk_size (finder st)) in *.
  clearbody q. off_exact.
  destruct (reset_slots_done (Z.to_nat (t1_size (finder st) - Z.max (q - 1) 0))
              (FinderThread.with_flags _ _ (finder st) f d) (Z.max (q - 1) 0))
    as (slots & Hrun & Hlen' & Hnth).
  - lia.
  - finder_fields. lia.
  - finder_fields. exact Hfit.
  - finder_fields. rewrite Hrun. finder_fields.
    unfold FinderThread.start_worker. finder_fields.
    unfold FinderThread.encoder_at in Henc.
    destruct (Z.eqb_spec (t1_size (finder st)) 0) as [Hzero | Hsome].
    + eexists. split; [reflexivity|]. finder_fields.
      split; [unfold FinderThread.table_sized; finder_fields;
              rewrite Hlen'; auto 10|].
      repeat (split; [reflexivity|]).
      split; [intros k Hk; lia|]. split; [intros k Hk; lia|].
      split; [auto | lia].
    + destruct (get_range (document (finder st)) (base (finder st)))
        as [[[eb l] name]|]; [|discriminate].
      destruct (eb <=? base (finder st)); [|discriminate]. cbn [negb].
      rewrite Henc.
      eexists. split; [reflexivity|]. finder_fields.
      split; [unfold FinderThread.table_sized; finder_fields;
              rewrite Hlen'; auto 10|].
      repeat (split; [reflexivity|]).
      split; [|split; [|split; [lia|]]].
      * intros k Hk. unfold CharacterFinder.t1_load. finder_fields.
        rewrite (Hnth k ltac:(lia)).
        replace (Z.max (q - 1) 0 <=? k) with true
          by (symmetry; apply Z.leb_le; lia).
        replace (k <? Z.max (q - 1) 0
                      + Z.of_nat (Z.to_nat (t1_size (finder st) - Z.max (q - 1) 0)))
          with true by (symmetry; apply Z.ltb_lt; lia).
        reflexivity.
      * intros k Hk. unfold CharacterFinder.t1_load. finder_fields.
        rewrite (Hnth k ltac:(lia)).
        replace (Z.max (q - 1) 0 <=? k) with false
          by (symmetry; apply Z.leb_gt; lia).
        reflexivity.
      * intros _. split; [reflexivity|]. split; [reflexivity|].
        eexists. split; [reflexivity|]. finder_fields.
        split; [reflexivity|]. split; [|reflexivity].
        apply off_wrap_id. rewrite OFF_MIN_val, OFF_MAX_val. lia.
Qed.


(** X19. The constructor, for a range of at least one byte with a known
    type at its start, comes to its end with a table of one slot for every
    chunk but the last, [(length - 1) / chunk_size] slots, all of them
    empty. A range of one chunk has no slot and is done at once, without a
    thread; a longer one starts the thread, is not done, and until the
    thread fills the table [get_char_range] answers (-1, -1) for every
    offset of the range. *)
Theorem new_finder_unfilled (doc : Document)
    (b l c lru_cache_size : Z) (uninit : nat -> Z)
    (e : CharacterFinder.CharacterEncoder) :
  0 < c <= 2 ^ 62 -> 0 <= b -> 0 < l -> b + l <= 2 ^ 62 ->
  encoder_at doc b = Some e ->
  exists st,
    new_finder doc b l c lru_cache_size uninit = FinderThread.Done st /\
    thread_invariant st /\
    t1_size (finder st) = (l - 1) / c /\
    (forall k, 0 <= k < t1_size (finder st) -> t1_load (finder st) k = -1) /\
    (l <= c ->
       t1_done (finder st) = true /\ t1_worker st = FinderThread.NotJoinable) /\
    (c < l ->
       t1_done (finder st) = false /\
       (exists w, t1_worker st = FinderThread.Running w) /\
       forall offset, b <= offset < b + l ->
         get_char_range (finder st) offset
         = CharacterFinder.Returned ((-1, -1), finder st)).
Proof.
  intros Hc Hb Hl Hend Henc.
  change (2 ^ 62) with 4611686018427387904 in *.
  unfold FinderThread.new.
  destruct (Z.eqb_spec c 0); [lia|].
  rewrite (size_exact l) by (change (2 ^ 64) with 18446744073709551616; lia).
  rewrite Z.quot_div_nonneg, Z.rem_mod_nonneg by lia.
  destruct (row_split l c ltac:(lia)) as [Hq Hm].
  assert (Hq0 : 0 <= l / c) by (apply Z.div_pos; lia).
  assert (Hsize : (if (l >? 0) && (l mod c =? 0)
                   then int_wrap t_size_t (l / c - 1) else l / c)
                  = (l - 1) / c).
  { replace (l >? 0) with true by (symmetry; apply Z.gtb_lt; lia).
    cbn [andb]. destruct (Z.eqb_spec (l mod c) 0) as [Hz | Hnz].
    - assert (1 <= l / c) by nia.
      rewrite size_exact by (change (2 ^ 64) with 18446744073709551616; nia).
      symmetry. apply row_unique; [lia | nia].
    - symmetry. apply row_unique; [lia | nia]. }
  rewrite Hsize.
  assert (Hsize0 : 0 <= (l - 1) / c) by (apply Z.div_pos; lia).
  set (st0 := {| FinderThread.finder := _; FinderThread.t1_worker := _ |}).
  assert (Hsized : table_sized (finder st0)).
  { subst st0. unfold FinderThread.table_sized. finder_fields.
    rewrite length_map, length_seq, Z2Nat.id by lia.
    change (2 ^ 62) with 4611686018427387904. auto 10. }
  destruct (reset_from_done st0 b e Hsized Henc ltac:(subst st0; finder_fields; lia))
    as (st' & Hrun & Hsized' & Hdoc & Hb' & Hl' & Hc' & Hs' & Hempty & Hkept
        & Hnone & Hsome).
  subst st0. finder_fields.
  replace (Z.max ((b - b) / c - 1) 0) with 0 in Hempty
    by (rewrite Z.sub_diag, Z.div_0_l by lia; reflexivity).
  exists st'. split; [exact Hrun|].
  assert (Hone : l <= c <-> (l - 1) / c = 0).
  { split.
    - intros Hle. apply row_unique; lia.
    - intros Hz. apply row_bounds in Hz; lia. }
  split; [|split; [exact Hs'|split; [|split]]].
  - split; [exact Hsized'|]. split.
    + intros i Hi. left. apply Hempty. rewrite Hs' in Hi. exact Hi.
    + destruct (Z.eq_dec ((l - 1) / c) 0) as [Hz | Hnz].
      * destruct (Hnone Hz) as (_ & _ & Hw). rewrite Hw. exact I.
      * destruct (Hsome ltac:(lia)) as (_ & _ & w & Hw & Hidx & Htarget & _).
        rewrite Hw, Hidx, Htarget, Hb', Hc'. split; lia.
  - intros k Hk. apply Hempty. rewrite Hs' in Hk. exact Hk.
  - intros Hle. destruct (Hnone (proj1 Hone Hle)) as (Hd & _ & Hw). auto.
  - intros Hlt.
    assert (Hpos : 0 < (l - 1) / c).
    { destruct (Z.eq_dec ((l - 1) / c) 0) as [Hz | Hnz]; [|lia].
      apply Hone in Hz. lia. }
    destruct (Hsome Hpos) as (Hd & _ & w & Hw & _).
    split; [exact Hd|]. split; [exists w; exact Hw|].
    intros offset Hin.
    apply (lookup_unfilled (finder st') 0).
    + exact Hsized'.
    + rewrite Hs'. exact Hpos.
    + lia.
    + intros k Hk. apply Hempty. rewrite Hs' in Hk. exact Hk.
    + rewrite Hb', Hl'. exact Hin.
    + lia.
Qed.

End FinderThreadFacts.

Lemma fill_t2_elem_offsets_witness :
  exists rest,
    CharacterFinder.fill_t2_elem unit example_types 5 example_encoder
      (Some (0, 64, EmptyString)) tt 16 20 [x00; x00; x00; x00] 16 0 []
    = CharacterFinder.Returned (0 :: rest) /\
    FinderThread.increasing (0 :: rest) /\
    Forall (fun o => 0 <= o < Z.min (20 - 16) 4) (0 :: rest).
Proof.
  apply (fill_t2_elem_offsets unit example_types example_encoder
           (Some (0, 64, EmptyString)) tt 16 20 [x00; x00; x00; x00]).
  - intros bytes. unfold FinderThread.char_size, INT_MAX. cbn. lia.
  - intros o Ho. reflexivity.
  - lia.
  - cbn. lia.
  - cbn. lia.
Defined.

Lemma locate_char_contains_witness :
  exists s l,
    CharacterFinder.locate_char [0; 2; 3] 17 16 20
    = CharacterFinder.Returned (s, l) /\
    s <= 17 < s + l.
Proof.
  destruct (locate_char_contains [2; 3] 17 16 20) as (s & l & Hrun & Hin & _).
  - cbn. lia.
  - repeat constructor; lia.
  - lia.
  - cbn. lia.
  - exists s, l. auto.
Defined.

Lemma worker_stores_inside_witness :
  FinderThread.worker_steps unit example_data unit 8 4 example_thread
  <> FinderThread.Stopped FinderThread.OutsideArray.
Proof.
  apply (worker_stores_inside unit example_data unit 8 example_thread 4).
  split; [|split].
  - unfold FinderThread.table_sized. cbn. lia.
  - intros i Hi. left. cbn in Hi.
    assert (Hi' : i = 0 \/ i = 1 \/ i = 2) by lia.
    destruct Hi' as [-> | [-> | ->]]; reflexivity.
  - cbn. lia.
Defined.


Lemma new_finder_unfilled_witness :
  exists st,
    FinderThread.new unit example_types (fun _ => None) example_encoder unit
      (fun _ => tt) (fun c => c) tt 16 32 8 4 (fun _ => 0)
    = FinderThread.Done st /\
    CharacterFinder.t1_size unit unit (FinderThread.finder unit unit st) = 3 /\
    CharacterFinder.get_char_range unit example_types example_data
      (fun _ => None) example_encoder unit (fun c _ => (None, c))
      (fun c _ _ => c) (FinderThread.finder unit unit st) 40
    = CharacterFinder.Returned ((-1, -1), FinderThread.finder unit unit st).
Proof.
  destruct (new_finder_unfilled unit example_types example_data (fun _ => None)
              example_encoder unit (fun c _ => (None, c)) (fun c _ _ => c)
              (fun _ => tt) (fun c => c) tt 16 32 8 4 (fun _ => 0)
              example_encoder ltac:(cbn; lia) ltac:(lia) ltac:(lia)
              ltac:(cbn; lia) ltac:(reflexivity))
    as (st & Hrun & _ & Hsize & _ & _ & Hlong).
  exists st. split; [exact Hrun|]. split; [exact Hsize|].
  apply (proj2 (proj2 (Hlong ltac:(lia)))). lia.
Defined.

(** ** CharacterFinder.cpp: a lookup in a filled table *)

Section FinderLookupFacts.

Variable Document : Type.
Variable get_range : Document -> Z -> option (Z * Z * string).
Variable read_data : Document -> Z -> Z -> option (list byte).
Variable by_name : string -> option CharacterFinder.CharacterEncoder.
Variable ascii_encoder : CharacterFinder.CharacterEncoder.
Variable LRUCache : Type.
Variable cache_get : LRUCache -> Z -> option (list Z) * LRUCache.
Variable cache_set : LRUCache -> Z -> list Z -> LRUCache.

Abbreviation Finder := (CharacterFinder.CharacterFinder Document LRUCache).
Abbreviation get_char_range :=
  (CharacterFinder.get_char_range Document get_range read_data by_name
     ascii_encoder LRUCache cache_get cache_set).
Abbreviation encoder_at :=
  (FinderThread.encoder_at Document get_range by_name ascii_encoder).
Abbreviation table_sized := (FinderThread.table_sized Document LRUCache).
Abbreviation slots_filled := (FinderThread.slots_filled Document LRUCache).
Abbreviation t1_load := (CharacterFinder.t1_load Document LRUCache).
Abbreviation base := (CharacterFinder.base Document LRUCache).
Abbreviation length := (CharacterFinder.length Document LRUCache).
Abbreviation chunk_size := (CharacterFinder.chunk_size Document LRUCache).
Abbreviation t1_size := (CharacterFinder.t1_size Document LRUCache).
Abbreviation t2 := (CharacterFinder.t2 Document LRUCache).
Abbreviation document := (CharacterFinder.document Document LRUCache).
Abbreviation set_t2 := (CharacterFinder.set_t2 Document LRUCache).

(** X22. In a finder whose table is filled, over data of one type whose
    decoder gives every character a size of one byte at least, a lookup of
    an offset of the range that finds nothing in the cache reads the chunk,
    stores its offsets in the cache and returns the start and the length of
    a character: the offset lies in it, and it lies in the range of the
    finder. Nothing but the cache changes. *)
Theorem get_char_range_filled (cf : Finder) (offset : Z)
    (e : CharacterFinder.CharacterEncoder) (ty : option (Z * Z * string)) :
  table_sized cf -> slots_filled cf ->
  (forall k, fst (cache_get (t2 cf) k) = None) ->
  (forall c k v, fst (cache_get (cache_set c k v) k) = Some v) ->
  (forall o, base cf <= o < base cf + length cf ->
     get_range (document cf) o = ty) ->
  encoder_at (document cf) (base cf) = Some e ->
  (forall bytes, 0 < FinderThread.char_size e bytes <= INT_MAX) ->
  (forall o n, base cf <= o -> 0 < n -> o + n <= base cf + length cf ->
     exists data, read_data (document cf) o n = Some data /\
                  0 < Z.of_nat (List.length data) <= 2 ^ 62) ->
  base cf <= offset < base cf + length cf ->
  exists s l c,
    get_char_range cf offset = CharacterFinder.Returned ((s, l), set_t2 cf c) /\
    s <= offset < s + l /\
    base cf <= s /\ s + l <= base cf + length cf.
Proof.
  intros Hsized Hslots Hmiss Hlaw Htype Henc Hsize Hread Hin.
  pose proof Hsized as (Hchunk & Hbase & Hlen & Hend & Hts & Hfit).
  change (2 ^ 62) with 4611686018427387904 in Hchunk, Hend.
  unfold CharacterFinder.get_char_range.
  off_exact.
  replace (offset <? base cf) with false by (symmetry; apply Z.ltb_ge; lia).
  replace (offset >=? base cf + length cf) with false
    by (symmetry; rewrite Z.geb_leb; apply Z.leb_gt; lia).
  cbn [orb].
  rewrite Z.quot_div_nonneg by lia.
  assert (Hq : 0 <= (offset - base cf) / chunk_size cf <= t1_size cf).
  { split; [apply Z.div_pos; lia|]. rewrite Hts.
    apply Z.div_le_mono; lia. }
  assert (Hq' : (offset - base cf) / chunk_size cf <= offset - base cf)
    by (apply Z.div_le_upper_bound; nia).
  destruct (row_split (offset - base cf) (chunk_size cf) ltac:(lia)) as [Hrow Hmod].
  set (q := (offset - base cf) / chunk_size cf) in *. clearbody q.
  off_exact.
  replace (q - 1 <? t1_size cf) with true by (symmetry; apply Z.ltb_lt; lia).
  cbn [negb]. unfold CharacterFinder.t2_base_of.
  rewrite !Z.geb_leb.
  set (tb0 := if 0 <=? q - 1 then t1_load cf (q - 1) else base cf) in *.
  assert (Htb0 : base cf <= tb0 /\
                 (offset < tb0 -> 1 <= q /\ tb0 = t1_load cf (q - 1))).
  { subst tb0. destruct (Z.leb_spec 0 (q - 1)) as [Hpos | Hneg].
    - destruct (Hslots (q - 1) ltac:(lia)) as [[Hlo Hhi] Hlim].
      split; [nia|]. intros _. split; [lia | reflexivity].
    - split; [lia|]. intros Hgt. lia. }
  set (idx := if tb0 >? offset then q - 1 - 1 else q - 1) in *.
  set (tb := if tb0 >? offset
             then if 0 <=? idx then t1_load cf idx else base cf
             else tb0) in *.
  set (te := if off_wrap (idx + 1) <? t1_size cf
             then t1_load cf (off_wrap (idx + 1))
             else base cf + length cf) in *.
  assert (Hidx : idx < t1_size cf)
    by (subst idx; destruct (tb0 >? offset); lia).
  assert (Hchunks : base cf <= tb <= offset /\ offset < te <= base cf + length cf).
  { subst tb te idx. rewrite Z.gtb_ltb.
    destruct (Z.ltb_spec offset tb0) as [Hgt | Hle].
    - destruct (proj2 Htb0 Hgt) as [Hq1 Heq].
      replace (q - 1 - 1 + 1) with (q - 1) by lia.
      rewrite off_wrap_id by (rewrite OFF_MIN_val, OFF_MAX_val; lia).
      replace (q - 1 <? t1_size cf) with true by (symmetry; apply Z.ltb_lt; lia).
      destruct (Hslots (q - 1) ltac:(lia)) as [[Hlo Hhi] Hlim].
      rewrite <- Heq. split; [|lia].
      destruct (Z.leb_spec 0 (q - 1 - 1)) as [Hpos | Hneg]; [|lia].
      destruct (Hslots (q - 1 - 1) ltac:(lia)) as [[Hlo' Hhi'] Hlim'].
      nia.
    - replace (q - 1 + 1) with q by lia.
      rewrite off_wrap_id by (rewrite OFF_MIN_val, OFF_MAX_val; lia).
      split; [lia|].
      destruct (Z.ltb_spec q (t1_size cf)) as [Hslot | Hlast]; [|lia].
      destruct (Hslots q ltac:(lia)) as [[Hlo Hhi] Hlim]. nia. }
  clearbody tb te idx.
  replace (tb0 <? 0) with false by (symmetry; apply Z.ltb_ge; lia).
  replace (idx <? t1_size cf) with true by (symmetry; apply Z.ltb_lt; lia).
  replace (te <? 0) with false by (symmetry; apply Z.ltb_ge; lia).
  cbn [negb].
  (* nothing is cached for the chunk *)
  pose proof (Hmiss tb) as Hnone.
  destruct (cache_get (t2 cf) tb) as [found c1]. cbn [fst] in Hnone. subst found.
  (* the type and the encoder of the chunk are those of the range *)
  unfold FinderThread.encoder_at in Henc.
  rewrite (Htype tb) by lia. rewrite (Htype (base cf)) in Henc by lia.
  destruct ty as [[[encoding_base type_length] type_name]|]; [|discriminate].
  destruct (Z.leb_spec encoding_base (base cf)) as [Hbelow | Habove];
    [|discriminate].
  replace (encoding_base <=? tb) with true by (symmetry; apply Z.leb_le; lia).
  cbn [negb]. rewrite Henc.
  (* the bytes of the chunk and the offsets of its characters *)
  off_exact.
  destruct (Hread tb (te - tb) ltac:(lia) ltac:(lia) ltac:(lia))
    as (data & Hdata & Hbytes).
  rewrite Hdata.
  destruct (fill_t2_elem_chunk Document get_range e
              (Some (encoding_base, type_length, type_name)) (document cf)
              tb te data (List.length data) Hsize
              ltac:(intros o Ho; apply Htype; lia) ltac:(lia)
              ltac:(change (2 ^ 62) with 4611686018427387904; lia) Hbytes
              (Nat.le_refl _))
    as (rest & Hfill & Hinc & Hall).
  rewrite Hfill.
  pose proof (Hlaw c1 tb (0 :: rest)) as Hagain.
  destruct (cache_get (cache_set c1 tb (0 :: rest)) tb) as [again c3].
  cbn [fst] in Hagain. subst again.
  (* the character of the offset *)
  assert (Hall' : Forall (fun o => 0 <= o < te - tb) (0 :: rest)).
  { apply (Forall_impl _ (P := fun o => 0 <= o < Z.min (te - tb)
                                          (Z.of_nat (List.length data))));
      [intros o Ho; lia | exact Hall]. }
  destruct (locate_char_inside rest offset tb te Hinc Hall' ltac:(lia)
              ltac:(change (2 ^ 62) with 4611686018427387904; lia))
    as (s & l & Hrun & Hinside & Hstart & Hnext & _).
  rewrite Hrun. exists s, l, c3. split; [reflexivity|]. split; [exact Hinside|].
  rewrite Forall_forall in Hall'.
  pose proof (Hall' _ Hstart) as Hs.
  split; [lia|].
  destruct Hnext as [-> | Hnext]; [lia|].
  pose proof (Hall' _ Hnext) as He. lia.
Qed.

End FinderLookupFacts.
Lemma get_char_range_filled_witness :
  exists s l c,
    CharacterFinder.get_char_range unit example_types example_data
      (fun _ => None) example_encoder (list (Z * list Z)) example_cache_get
      example_cache_set example_caching 35
    = CharacterFinder.Returned
        ((s, l), CharacterFinder.set_t2 unit (list (Z * list Z)) example_caching c) /\
    s <= 35 < s + l.
Proof.
  destruct (get_char_range_filled unit example_types example_data
              (fun _ => None) example_encoder (list (Z * list Z))
              example_cache_get example_cache_set example_caching 35
              example_encoder (Some (0, 64, EmptyString)))
    as (s & l & c & Hrun & Hin & _).
  - unfold FinderThread.table_sized. cbn. lia.
  - intros i Hi. cbn in Hi.
    assert (Hi' : i = 0 \/ i = 1 \/ i = 2) by lia.
    destruct Hi' as [-> | [-> | ->]]; vm_compute; intuition discriminate.
  - intros k. reflexivity.
  - intros c k v. cbn. rewrite Z.eqb_refl. reflexivity.
  - intros o Ho. reflexivity.
  - reflexivity.
  - intros bytes. unfold FinderThread.char_size, INT_MAX. cbn. lia.
  - intros o n Ho Hn Hend. cbn in Ho, Hend.
    exists (repeat x00 (Z.to_nat n)). split; [reflexivity|].
    rewrite repeat_length. change (2 ^ 62) with 4611686018427387904. lia.
  - cbn. lia.
  - exists s, l, c. split; [exact Hrun | exact Hin].
Defined.

(** ** DocumentCtrl.cpp: from bytes to pixels and back *)

Lemma uint_exact (z : Z) : 0 <= z <= 4294967295 -> int_wrap t_uint z = z.
Proof.
  intros Hz. apply int_wrap_id; [reflexivity|].
  unfold in_range. cbn. lia.
Qed.

Lemma uint64_exact (z : Z) :
  0 <= z < 18446744073709551616 -> int_wrap Pointer.t_uint64 z = z.
Proof.
  intros Hz. apply int_wrap_id; [reflexivity|].
  unfold in_range. cbn. lia.
Qed.

Section PointerFacts.

Variable PRECOMP_HF_STRING_WIDTH_TO : Z.
Variable GetTextExtent : Z -> Z.

Abbreviation hf_string_width :=
  (Pointer.hf_string_width PRECOMP_HF_STRING_WIDTH_TO GetTextExtent).
Abbreviation hf_char_at_x_from :=
  (Pointer.hf_char_at_x_from PRECOMP_HF_STRING_WIDTH_TO GetTextExtent).
Abbreviation hf_char_at_x :=
  (Pointer.hf_char_at_x PRECOMP_HF_STRING_WIDTH_TO GetTextExtent).
Abbreviation font_grows :=
  (Pointer.font_grows PRECOMP_HF_STRING_WIDTH_TO GetTextExtent).
Abbreviation calc_offset_bounds :=
  (Pointer.calc_offset_bounds PRECOMP_HF_STRING_WIDTH_TO GetTextExtent).
Abbreviation offset_at_xy :=
  (Pointer.offset_at_xy PRECOMP_HF_STRING_WIDTH_TO GetTextExtent).
Abbreviation offset_near_xy :=
  (Pointer.offset_near_xy PRECOMP_HF_STRING_WIDTH_TO GetTextExtent).

(** A longer string is not narrower. *)
Lemma font_grows_mono (doc : DataRegion.Ctrl) (chars width : Z) (k : nat) :
  font_grows doc chars width ->
  forall n wn wm, 0 <= n -> n + Z.of_nat k <= chars ->
    hf_string_width doc n = Some wn ->
    hf_string_width doc (n + Z.of_nat k) = Some wm ->
    wn <= wm.
Proof.
  intros Hfont. induction k as [|k IH]; intros n wn wm Hn Hk Hwn Hwm.
  - replace (n + Z.of_nat 0) with n in Hwm by lia.
    rewrite Hwn in Hwm. injection Hwm as <-. lia.
  - destruct (Hfont (n + Z.of_nat k) ltac:(lia)) as (a & b & Ha & Hb & Hab & _).
    replace (n + Z.of_nat k + 1) with (n + Z.of_nat (S k)) in Hb by lia.
    rewrite Hwm in Hb. injection Hb as <-.
    pose proof (IH n wn a Hn ltac:(lia) Hwn Ha). lia.
Qed.

(** The loop of [hf_char_at_x] goes on to the character that holds the
    pixel, and stops there. *)
Lemma hf_char_at_x_from_found (doc : DataRegion.Ctrl) (chars width c wc wc' x_px : Z) :
  font_grows doc chars width -> chars <= INT_MAX -> 0 <= c < chars ->
  hf_string_width doc c = Some wc -> hf_string_width doc (c + 1) = Some wc' ->
  wc <= x_px < wc' ->
  forall (fuel : nat) (i : Z), 0 <= i <= c -> (Z.to_nat (c - i) < fuel)%nat ->
    hf_char_at_x_from fuel doc x_px i = Some c.
Proof.
  intros Hfont Hchars Hc Hwc Hwc' Hx.
  unfold INT_MAX in Hchars. change (int_max t_int) with 2147483647 in Hchars.
  induction fuel as [|fuel IH]; intros i Hi Hfuel; [lia|].
  cbn [Pointer.hf_char_at_x_from].
  rewrite (int_exact (i + 1)) by lia.
  destruct (Z.eq_dec i c) as [-> | Hne].
  - fold hf_string_width. rewrite Hwc'. cbn [bind].
    rewrite Z.gtb_ltb. destruct (Z.ltb_spec x_px wc'); [reflexivity | lia].
  - destruct (Hfont i ltac:(lia)) as (a & b & Ha & Hb & Hab & _).
    fold hf_string_width. rewrite Hb. cbn [bind].
    pose proof (font_grows_mono doc chars width (Z.to_nat (c - (i + 1))) Hfont
                  (i + 1) b wc ltac:(lia) ltac:(lia) Hb
                  ltac:(replace (i + 1 + Z.of_nat (Z.to_nat (c - (i + 1))))
                          with c by lia; exact Hwc)) as Hle.
    rewrite Z.gtb_ltb. destruct (Z.ltb_spec x_px b); [lia|].
    apply IH; lia.
Qed.

(** The loop of [hf_char_at_x], from a character that starts at or before
    the pixel, stops at the character that holds the pixel. *)
Lemma hf_char_at_x_from_stops (doc : DataRegion.Ctrl)
    (chars width wlast x_px : Z) :
  font_grows doc chars width -> chars <= INT_MAX ->
  hf_string_width doc chars = Some wlast -> x_px < wlast ->
  forall (fuel : nat) (i wi : Z), 0 <= i < chars ->
    hf_string_width doc i = Some wi -> wi <= x_px ->
    (Z.to_nat (chars - i) <= fuel)%nat ->
    exists c wc wc',
      i <= c < chars /\
      hf_char_at_x_from fuel doc x_px i = Some c /\
      hf_string_width doc c = Some wc /\
      hf_string_width doc (c + 1) = Some wc' /\
      wc <= x_px < wc'.
Proof.
  intros Hfont Hchars Hlast Hx.
  unfold INT_MAX in Hchars. change (int_max t_int) with 2147483647 in Hchars.
  induction fuel as [|fuel IH]; intros i wi Hi Hwi Hle Hfuel; [lia|].
  cbn [Pointer.hf_char_at_x_from].
  rewrite (int_exact (i + 1)) by lia.
  destruct (Hfont i ltac:(lia)) as (a & b & Ha & Hb & Hab & _).
  fold hf_string_width. rewrite Hb. cbn [bind].
  rewrite Z.gtb_ltb. destruct (Z.ltb_spec x_px b) as [Hin | Hout].
  - exists i, wi, b. rewrite Hwi in Ha. injection Ha as <-.
    split; [lia|]. split; [reflexivity|]. split; [exact Hwi|].
    split; [exact Hb | lia].
  - assert (Hnext : i + 1 < chars).
    { destruct (Z.eq_dec (i + 1) chars) as [Heq | Hne]; [|lia].
      rewrite Heq, Hlast in Hb. injection Hb as <-. lia. }
    destruct (IH (i + 1) b ltac:(lia) Hb Hout ltac:(lia))
      as (c & wc & wc' & Hc & Hrun & Hwc & Hwc' & Hpx).
    exists c, wc, wc'. split; [lia|]. auto.
Qed.

(** X23. Where the font gives every longer string a greater width,
    [hf_char_at_x] comes to its end for a pixel of the string and returns
    the character that holds the pixel: the width of the characters before
    it is at most the pixel, and the width up to its end is greater. The
    loop takes no more turns than the string has characters. *)
Theorem hf_char_at_x_spec (doc : DataRegion.Ctrl)
    (chars width wlast x_px : Z) (fuel : nat) :
  font_grows doc chars width -> 0 < chars <= INT_MAX ->
  hf_string_width doc chars = Some wlast -> 0 <= x_px < wlast ->
  (Z.to_nat chars <= fuel)%nat ->
  exists c wc wc',
    0 <= c < chars /\
    hf_char_at_x fuel doc x_px = Some c /\
    hf_string_width doc c = Some wc /\
    hf_string_width doc (c + 1) = Some wc' /\
    wc <= x_px < wc'.
Proof.
  intros Hfont Hchars Hlast Hx Hfuel.
  unfold Pointer.hf_char_at_x.
  destruct (hf_char_at_x_from_stops doc chars width wlast x_px Hfont
              (proj2 Hchars) Hlast (proj2 Hx) fuel 0 0)
    as (c & wc & wc' & Hc & Hrun & Hwc & Hwc' & Hpx).
  - lia.
  - reflexivity.
  - lia.
  - lia.
  - exists c, wc, wc'. auto.
Qed.

(** The first byte of the line of the region, in exact arithmetic. *)
Lemma line_data_begin_value (r : DataRegion.DataRegion) (mouse_y_lines : Z) :
  - 2 ^ 62 <= DataRegion.d_offset r - DataRegion.first_line_pad_bytes r <= 2 ^ 62 ->
  - 2 ^ 62 <= DataRegion.d_offset r - DataRegion.first_line_pad_bytes r
              + DataRegion.bytes_per_line_actual r * mouse_y_lines <= 2 ^ 62 ->
  Pointer.line_data_begin r mouse_y_lines
  = DataRegion.d_offset r - DataRegion.first_line_pad_bytes r
    + DataRegion.bytes_per_line_actual r * mouse_y_lines.
Proof.
  intros Ha Hz. change (2 ^ 62) with 4611686018427387904 in *.
  unfold Pointer.line_data_begin. off_exact.
  set (a := DataRegion.d_offset r - DataRegion.first_line_pad_bytes r) in *.
  set (b := DataRegion.bytes_per_line_actual r) in *.
  unfold off_wrap, int_wrap, Pointer.t_uint64, t_off_t.
  cbn [it_signed it_bits].
  change (2 ^ 64) with 18446744073709551616.
  change (2 ^ (64 - 1)) with 9223372036854775808.
  rewrite Z.mul_mod_idemp_l by lia.
  rewrite <- Z.add_mod by lia.
  rewrite Zplus_mod_idemp_l.
  rewrite Z.mod_small by lia. lia.
Qed.

(** The character of a byte of the hex column is no space between groups,
    and the column leads back to the byte. *)
Lemma hex_char_byte (doc : DataRegion.Ctrl) (lo : Z) :
  1 <= DataRegion.bytes_per_group doc <= INT_MAX -> 0 <= lo ->
  2 * lo + lo / DataRegion.bytes_per_group doc < 2147483647 ->
  Pointer.group_chars doc = 2 * DataRegion.bytes_per_group doc + 1 /\
  (2 * lo + lo / DataRegion.bytes_per_group doc + 1)
    mod (2 * DataRegion.bytes_per_group doc + 1) <> 0 /\
  Pointer.line_offset_bytes doc (2 * lo + lo / DataRegion.bytes_per_group doc)
  = Some lo.
Proof.
  intros Hg Hlo Hc. unfold INT_MAX in Hg.
  change (int_max t_int) with 2147483647 in Hg.
  assert (Hgc : Pointer.group_chars doc = 2 * DataRegion.bytes_per_group doc + 1).
  { unfold Pointer.group_chars.
    rewrite (uint_exact (DataRegion.bytes_per_group doc * 2)) by lia.
    rewrite uint_exact by lia. lia. }
  unfold Pointer.line_offset_bytes. rewrite Hgc.
  destruct (row_split lo (DataRegion.bytes_per_group doc) ltac:(lia)) as [Hrow Hmod].
  assert (Hq : 0 <= lo / DataRegion.bytes_per_group doc)
    by (apply Z.div_pos; lia).
  set (g := DataRegion.bytes_per_group doc) in *.
  set (q := lo / g) in *. set (m := lo mod g) in *. clearbody q m.
  split; [reflexivity|]. split.
  - replace (2 * lo + q + 1) with (2 * m + 1 + q * (2 * g + 1)) by nia.
    rewrite Z_mod_plus_full, Z.mod_small by lia. lia.
  - destruct (Z.eqb_spec (2 * g + 1) 0); [lia|].
    assert (Hdiv : (2 * lo + q) / (2 * g + 1) = q).
    { replace (2 * lo + q) with (2 * m + q * (2 * g + 1)) by nia.
      rewrite Z_div_plus_full, Z.div_small by lia. lia. }
    rewrite Hdiv, uint_exact by lia.
    replace (2 * lo + q - q) with (lo * 2) by lia.
    rewrite Z.div_mul by lia. reflexivity.
Qed.

Lemma hex_round_trip (fuel : nat) (r : DataRegion.DataRegion)
    (doc : DataRegion.Ctrl) (offset width wc : Z) :
  DataRegion.well_formed r -> DataRegion.inside r offset ->
  1 <= DataRegion.bytes_per_group doc <= INT_MAX ->
  3 * DataRegion.bytes_per_line_actual r <= INT_MAX ->
  font_grows doc (3 * DataRegion.bytes_per_line_actual r) width ->
  0 <= DataRegion.hex_text_x r -> DataRegion.hex_text_x r + width <= INT_MAX ->
  (3 * Z.to_nat (DataRegion.bytes_per_line_actual r) <= fuel)%nat ->
  let region_offset :=
    offset - (DataRegion.d_offset r - DataRegion.first_line_pad_bytes r) in
  let line_off := region_offset mod DataRegion.bytes_per_line_actual r in
  hf_string_width doc (2 * line_off + line_off / DataRegion.bytes_per_group doc)
  = Some wc ->
  Pointer.offset_at_xy_hex PRECOMP_HF_STRING_WIDTH_TO GetTextExtent fuel r doc
    (DataRegion.hex_text_x r + wc)
    (region_offset / DataRegion.bytes_per_line_actual r) = Some offset /\
  Pointer.offset_near_xy_hex PRECOMP_HF_STRING_WIDTH_TO GetTextExtent fuel r doc
    (DataRegion.hex_text_x r + wc)
    (region_offset / DataRegion.bytes_per_line_actual r) = Some offset.
Proof.
  intros Hwf Hin Hg Hline Hfont Hx Hxw Hfuel region_offset line_off Hwc.
  pose proof Hwf as (Hoff & Hlen & Hend & Hbpl & Hpad).
  unfold DataRegion.inside, INT_MAX in *.
  change (int_max t_int) with 2147483647 in *.
  change (2 ^ 62) with 4611686018427387904 in *.
  destruct (row_split region_offset (DataRegion.bytes_per_line_actual r) ltac:(lia))
    as [Hrow Hmod].
  assert (Hq : 0 <= region_offset / DataRegion.bytes_per_line_actual r)
    by (apply Z.div_pos; subst region_offset; lia).
  fold line_off in Hrow, Hmod.
  assert (Hgq : 0 <= line_off / DataRegion.bytes_per_group doc <= line_off).
  { split; [apply Z.div_pos; lia|]. apply Z.div_le_upper_bound; nia. }
  set (c := 2 * line_off + line_off / DataRegion.bytes_per_group doc) in *.
  assert (Hc : 0 <= c < 3 * DataRegion.bytes_per_line_actual r) by (subst c; lia).
  destruct (Hfont c Hc) as (a & wc' & Ha & Hwc' & Hgrow & Hmax).
  fold hf_string_width in Ha, Hwc'.
  rewrite Hwc in Ha. injection Ha as <-.
  destruct (hex_char_byte doc line_off Hg ltac:(lia) ltac:(fold c; lia))
    as (Hgc & Hspace & Hbyte).
  fold c in Hspace, Hbyte.
  assert (Hbegin : Pointer.line_data_begin r
                     (region_offset / DataRegion.bytes_per_line_actual r)
                   = offset - line_off).
  { rewrite line_data_begin_value.
    - subst region_offset. lia.
    - change (2 ^ 62) with 4611686018427387904. lia.
    - change (2 ^ 62) with 4611686018427387904. subst region_offset. lia. }
  assert (Hchar : hf_char_at_x fuel doc wc = Some c).
  { unfold Pointer.hf_char_at_x.
    apply (hf_char_at_x_from_found doc (3 * DataRegion.bytes_per_line_actual r)
             width c wc wc' wc Hfont
             ltac:(unfold INT_MAX; change (int_max t_int) with 2147483647; lia)
             Hc Hwc Hwc' ltac:(lia) fuel 0); lia. }
  unfold Pointer.offset_at_xy_hex, Pointer.offset_near_xy_hex,
    Pointer.line_data_end.
  rewrite Hbegin.
  replace (DataRegion.hex_text_x r + wc <? DataRegion.hex_text_x r) with false
    by (symmetry; apply Z.ltb_ge; lia).
  replace (DataRegion.hex_text_x r + wc - DataRegion.hex_text_x r) with wc by lia.
  rewrite (int_exact wc) by lia.
  fold hf_char_at_x. rewrite Hchar. cbn [bind].
  rewrite (uint_exact c) by lia.
  rewrite (uint_exact (c + 1)) by lia.
  rewrite Hgc, Hbyte. cbn [bind].
  destruct (Z.eqb_spec (2 * DataRegion.bytes_per_group doc + 1) 0); [lia|].
  destruct (Z.eqb_spec ((c + 1) mod (2 * DataRegion.bytes_per_group doc + 1)) 0);
    [contradiction|].
  off_exact.
  replace (offset - line_off + line_off) with offset by lia.
  replace (offset <? DataRegion.d_offset r) with false
    by (symmetry; apply Z.ltb_ge; lia).
  replace (offset <? Z.min (offset - line_off + DataRegion.bytes_per_line_actual r)
                       (DataRegion.d_offset r + DataRegion.d_length r))
    with true by (symmetry; apply Z.ltb_lt; lia).
  split; reflexivity.
Qed.

Lemma ascii_round_trip (fuel : nat) (r : DataRegion.DataRegion)
    (doc : DataRegion.Ctrl) (offset width wc : Z) :
  DataRegion.well_formed r -> DataRegion.inside r offset ->
  3 * DataRegion.bytes_per_line_actual r <= INT_MAX ->
  font_grows doc (3 * DataRegion.bytes_per_line_actual r) width ->
  DataRegion.show_ascii doc = true ->
  0 <= DataRegion.ascii_text_x r -> DataRegion.ascii_text_x r + width <= INT_MAX ->
  (3 * Z.to_nat (DataRegion.bytes_per_line_actual r) <= fuel)%nat ->
  let region_offset :=
    offset - (DataRegion.d_offset r - DataRegion.first_line_pad_bytes r) in
  let line_off := region_offset mod DataRegion.bytes_per_line_actual r in
  hf_string_width doc line_off = Some wc ->
  Pointer.offset_at_xy_ascii PRECOMP_HF_STRING_WIDTH_TO GetTextExtent fuel r doc
    (DataRegion.ascii_text_x r + wc)
    (region_offset / DataRegion.bytes_per_line_actual r) = Some offset /\
  Pointer.offset_near_xy_ascii PRECOMP_HF_STRING_WIDTH_TO GetTextExtent fuel r doc
    (DataRegion.ascii_text_x r + wc)
    (region_offset / DataRegion.bytes_per_line_actual r) = Some offset.
Proof.
  intros Hwf Hin Hline Hfont Hshow Hx Hxw Hfuel region_offset line_off Hwc.
  pose proof Hwf as (Hoff & Hlen & Hend & Hbpl & Hpad).
  unfold DataRegion.inside, INT_MAX in *.
  change (int_max t_int) with 2147483647 in *.
  change (2 ^ 62) with 4611686018427387904 in *.
  destruct (row_split region_offset (DataRegion.bytes_per_line_actual r) ltac:(lia))
    as [Hrow Hmod].
  assert (Hq : 0 <= region_offset / DataRegion.bytes_per_line_actual r)
    by (apply Z.div_pos; subst region_offset; lia).
  fold line_off in Hrow, Hmod.
  assert (Hc : 0 <= line_off < 3 * DataRegion.bytes_per_line_actual r) by lia.
  destruct (Hfont line_off Hc) as (a & wc' & Ha & Hwc' & Hgrow & Hmax).
  fold hf_string_width in Ha, Hwc'.
  rewrite Hwc in Ha. injection Ha as <-.
  assert (Hbegin : Pointer.line_data_begin r
                     (region_offset / DataRegion.bytes_per_line_actual r)
                   = offset - line_off).
  { rewrite line_data_begin_value.
    - subst region_offset. lia.
    - change (2 ^ 62) with 4611686018427387904. lia.
    - change (2 ^ 62) with 4611686018427387904. subst region_offset. lia. }
  assert (Hchar : hf_char_at_x fuel doc wc = Some line_off).
  { unfold Pointer.hf_char_at_x.
    apply (hf_char_at_x_from_found doc (3 * DataRegion.bytes_per_line_actual r)
             width line_off wc wc' wc Hfont
             ltac:(unfold INT_MAX; change (int_max t_int) with 2147483647; lia)
             Hc Hwc Hwc' ltac:(lia) fuel 0); lia. }
  unfold Pointer.offset_at_xy_ascii, Pointer.offset_near_xy_ascii,
    Pointer.line_data_end.
  rewrite Hbegin, Hshow. cbn [negb orb].
  replace (DataRegion.ascii_text_x r + wc <? DataRegion.ascii_text_x r) with false
    by (symmetry; apply Z.ltb_ge; lia).
  replace (DataRegion.ascii_text_x r + wc - DataRegion.ascii_text_x r) with wc
    by lia.
  rewrite (int_exact wc) by lia.
  fold hf_char_at_x. rewrite Hchar. cbn [bind].
  rewrite (uint_exact line_off) by lia.
  off_exact.
  replace (offset - line_off + line_off) with offset by lia.
  replace (offset <? DataRegion.d_offset r) with false
    by (symmetry; apply Z.ltb_ge; lia).
  replace (offset <? Z.min (offset - line_off + DataRegion.bytes_per_line_actual r)
                       (DataRegion.d_offset r + DataRegion.d_length r))
    with true by (symmetry; apply Z.ltb_lt; lia).
  split; reflexivity.
Qed.

(** X24. The place that [calc_offset_bounds] gives for a byte of the
    region leads back to the byte: in the column of the cursor, the hex
    column or the ASCII column, [offset_at_xy] and [offset_near_xy] at the
    left edge of the bounds, on the line of the bounds counted from the
    first line of the region, return the offset of the byte and the area
    of the column. The bounds are one line high, on the row of the byte. *)
Theorem offset_bounds_round_trip (fuel : nat) (r : DataRegion.DataRegion)
    (doc : DataRegion.Ctrl) (offset width : Z) :
  DataRegion.well_formed r -> DataRegion.inside r offset ->
  0 <= DataRegion.y_offset r <= 2 ^ 61 ->
  1 <= DataRegion.bytes_per_group doc <= INT_MAX ->
  3 * DataRegion.bytes_per_line_actual r <= INT_MAX ->
  font_grows doc (3 * DataRegion.bytes_per_line_actual r) width ->
  0 <= DataRegion.hex_text_x r -> DataRegion.hex_text_x r + width <= INT_MAX ->
  (DataRegion.show_ascii doc = true ->
     DataRegion.hex_text_x r + width <= DataRegion.ascii_text_x r /\
     DataRegion.ascii_text_x r + width <= INT_MAX) ->
  (DataRegion.cursor_state doc = Document.CSTATE_ASCII ->
     DataRegion.show_ascii doc = true) ->
  (3 * Z.to_nat (DataRegion.bytes_per_line_actual r) <= fuel)%nat ->
  exists b,
    calc_offset_bounds r doc offset = Some b /\
    Pointer.h b = 1 /\
    Pointer.y b = DataRegion.y_offset r + DataRegion.row_of r offset /\
    let area :=
      match DataRegion.cursor_state doc with
      | Document.CSTATE_ASCII => Pointer.SA_ASCII
      | _ => Pointer.SA_HEX
      end in
    offset_at_xy fuel r doc (Pointer.x b) (Pointer.y b - DataRegion.y_offset r)
    = Some (offset, area) /\
    offset_near_xy fuel r doc (Pointer.x b) (Pointer.y b - DataRegion.y_offset r)
      Pointer.SA_NONE
    = Some (offset, area).
Proof.
  intros Hwf Hin Hy Hg Hline Hfont Hx Hxw Hcols Hstate Hfuel.
  pose proof Hwf as (Hoff & Hlen & Hend & Hbpl & Hpad).
  pose proof Hin as Hin'.
  unfold DataRegion.inside, INT_MAX, DataRegion.row_of in *.
  change (int_max t_int) with 2147483647 in *.
  change (2 ^ 62) with 4611686018427387904 in *.
  change (2 ^ 61) with 2305843009213693952 in *.
  set (region_offset :=
         offset - (DataRegion.d_offset r - DataRegion.first_line_pad_bytes r)) in *.
  destruct (row_split region_offset (DataRegion.bytes_per_line_actual r) ltac:(lia))
    as [Hrow Hmod].
  assert (Hq : 0 <= region_offset / DataRegion.bytes_per_line_actual r
               <= region_offset).
  { split; [apply Z.div_pos; subst region_offset; lia|].
    apply Z.div_le_upper_bound; subst region_offset; nia. }
  assert (Hro : 0 <= region_offset <= 4611686018427387904 + 2147483647)
    by (subst region_offset; lia).
  set (line_off := region_offset mod DataRegion.bytes_per_line_actual r) in *.
  assert (Hgq : 0 <= line_off / DataRegion.bytes_per_group doc <= line_off).
  { split; [apply Z.div_pos; lia|]. apply Z.div_le_upper_bound; nia. }
  (* the widths that the bounds are made of *)
  destruct (Hfont 0 ltac:(lia)) as (w0 & w1 & _ & Hw1 & _ & _).
  destruct (Hfont 1 ltac:(lia)) as (w1' & w2 & _ & Hw2 & _ & _).
  destruct (Hfont line_off ltac:(lia)) as (wa & wa' & Hwa & _ & Hga & Hma).
  destruct (Hfont (2 * line_off + line_off / DataRegion.bytes_per_group doc)
              ltac:(lia)) as (wh & wh' & Hwh & _ & Hgh & Hmh).
  fold hf_string_width in Hw1, Hw2, Hwa, Hwh.
  change (0 + 1) with 1 in Hw1. change (1 + 1) with 2 in Hw2.
  destruct (hex_round_trip fuel r doc offset width wh Hwf Hin'
              ltac:(unfold INT_MAX; change (int_max t_int) with 2147483647; lia)
              ltac:(unfold INT_MAX; change (int_max t_int) with 2147483647; lia)
              Hfont Hx
              ltac:(unfold INT_MAX; change (int_max t_int) with 2147483647; lia)
              Hfuel Hwh) as [Hat_hex Hnear_hex].
  fold region_offset in Hat_hex, Hnear_hex.
  (* the bounds *)
  unfold Pointer.calc_offset_bounds, off_div, off_rem.
  off_exact.
  replace (offset >=? DataRegion.d_offset r) with true
    by (symmetry; rewrite Z.geb_leb; apply Z.leb_le; lia).
  replace (offset <=? DataRegion.d_offset r + DataRegion.d_length r) with true
    by (symmetry; apply Z.leb_le; lia).
  fold region_offset.
  destruct (Z.eqb_spec (DataRegion.bytes_per_line_actual r) 0); [lia|].
  destruct (Z.eqb_spec (DataRegion.bytes_per_group doc) 0); [lia|].
  cbn [bind].
  rewrite (Z.rem_mod_nonneg region_offset (DataRegion.bytes_per_line_actual r))
    by lia.
  rewrite (Z.quot_div_nonneg region_offset (DataRegion.bytes_per_line_actual r))
    by lia.
  fold line_off.
  rewrite (Z.quot_div_nonneg line_off) by lia.
  off_exact.
  rewrite (uint64_exact (DataRegion.y_offset r
                         + region_offset / DataRegion.bytes_per_line_actual r))
    by lia.
  rewrite (int_exact line_off) by lia.
  replace (line_off * 2 + line_off / DataRegion.bytes_per_group doc)
    with (2 * line_off + line_off / DataRegion.bytes_per_group doc) by lia.
  rewrite int_exact by lia.
  change (Pointer.hf_char_width PRECOMP_HF_STRING_WIDTH_TO GetTextExtent doc)
    with (hf_string_width doc 1).
  rewrite Hwh, Hw2, Hwa, Hw1. cbn [bind].
  assert (Hline_of : int_wrap Pointer.t_uint64
                       (DataRegion.y_offset r
                        + region_offset / DataRegion.bytes_per_line_actual r
                        - DataRegion.y_offset r)
                     = region_offset / DataRegion.bytes_per_line_actual r).
  { replace (DataRegion.y_offset r
             + region_offset / DataRegion.bytes_per_line_actual r
             - DataRegion.y_offset r)
      with (region_offset / DataRegion.bytes_per_line_actual r) by lia.
    apply uint64_exact. lia. }
  assert (Hpos : (offset >=? 0) = true)
    by (rewrite Z.geb_leb; apply Z.leb_le; lia).
  destruct (DataRegion.cursor_state doc) eqn:Hcs;
    (eexists; split; [reflexivity|]; cbn [Pointer.x Pointer.y Pointer.h];
     split; [reflexivity|]; split; [reflexivity|];
     unfold Pointer.offset_at_xy, Pointer.offset_near_xy; rewrite Hline_of);
    try (rewrite (int_exact (DataRegion.hex_text_x r + wh)) by lia;
         replace (DataRegion.show_ascii doc
                  && (DataRegion.hex_text_x r + wh >=? DataRegion.ascii_text_x r))
           with false
           by (symmetry; destruct (DataRegion.show_ascii doc);
               [destruct (Hcols eq_refl); rewrite Z.geb_leb; apply Z.leb_gt; lia
               |reflexivity]);
         replace (DataRegion.hex_text_x r + wh >=? DataRegion.hex_text_x r)
           with true by (symmetry; rewrite Z.geb_leb; apply Z.leb_le; lia);
         rewrite Hat_hex, Hnear_hex; cbn [bind]; unfold Pointer.in_area;
         rewrite Hpos; split; reflexivity).
  pose proof (Hstate eq_refl) as Hshow.
  destruct (Hcols Hshow) as [Hright Hfits].
  destruct (ascii_round_trip fuel r doc offset width wa Hwf Hin'
              ltac:(unfold INT_MAX; change (int_max t_int) with 2147483647; lia)
              Hfont Hshow ltac:(lia)
              ltac:(unfold INT_MAX; change (int_max t_int) with 2147483647; lia)
              Hfuel Hwa) as [Hat_ascii Hnear_ascii].
  fold region_offset in Hat_ascii, Hnear_ascii.
  rewrite (int_exact (DataRegion.ascii_text_x r + wa)) by lia.
  rewrite Hshow.
  replace (DataRegion.ascii_text_x r + wa >=? DataRegion.ascii_text_x r)
    with true by (symmetry; rewrite Z.geb_leb; apply Z.leb_le; lia).
  cbn [andb]. rewrite Hat_ascii, Hnear_ascii. cbn [bind].
  unfold Pointer.in_area. rewrite Hpos. split; reflexivity.
Qed.

End PointerFacts.

(** The font of the example grows by eight pixels with every character. *)
Lemma example_font_grows :
  Pointer.font_grows 4 (fun n => 8 * n) example_ctrl 48 384.
Proof.
  intros n Hn. exists (8 * n), (8 * (n + 1)).
  unfold Pointer.hf_string_width, DataRegion.hf_string_width.
  assert (Hcases : n = 0 \/ n = 1 \/ n = 2 \/ n = 3 \/ n = 4 \/ 5 <= n) by lia.
  destruct Hcases as [-> | [-> | [-> | [-> | [-> | Hbig]]]]];
    try (cbn; repeat split; lia).
  replace (n =? 0) with false by (symmetry; apply Z.eqb_neq; lia).
  replace (n + 1 =? 0) with false by (symmetry; apply Z.eqb_neq; lia).
  replace (n <=? 4) with false by (symmetry; apply Z.leb_gt; lia).
  replace (n + 1 <=? 4) with false by (symmetry; apply Z.leb_gt; lia).
  repeat split; lia.
Qed.

Lemma hf_char_at_x_spec_witness :
  exists c,
    Pointer.hf_char_at_x 4 (fun n => 8 * n) 48 example_ctrl 100 = Some c /\
    0 <= c < 48.
Proof.
  destruct (hf_char_at_x_spec 4 (fun n => 8 * n) example_ctrl 48 384 384 100 48)
    as (c & wc & wc' & Hc & Hrun & _).
  - exact example_font_grows.
  - unfold INT_MAX. cbn. lia.
  - reflexivity.
  - lia.
  - lia.
  - exists c. split; [exact Hrun | exact Hc].
Defined.

Lemma offset_bounds_round_trip_witness :
  exists b,
    Pointer.calc_offset_bounds 4 (fun n => 8 * n) example_region example_ctrl 57
    = Some b /\
    Pointer.offset_near_xy 4 (fun n => 8 * n) 48 example_region example_ctrl
      (Pointer.x b) (Pointer.y b - 0) Pointer.SA_NONE
    = Some (57, Pointer.SA_HEX).
Proof.
  destruct (offset_bounds_round_trip 4 (fun n => 8 * n) 48 example_region
              example_ctrl 57 384)
    as (b & Hb & _ & _ & _ & Hnear).
  - example_facts.
  - example_facts.
  - cbn. lia.
  - unfold INT_MAX. cbn. lia.
  - unfold INT_MAX. cbn. lia.
  - exact example_font_grows.
  - cbn. lia.
  - unfold INT_MAX. cbn. lia.
  - intros _. unfold INT_MAX. cbn. lia.
  - intros Hstate. discriminate Hstate.
  - cbn. lia.
  - exists b. split; [exact Hb | exact Hnear].
Defined.

(** ** DocumentCtrl.cpp: the bytes of a line *)

Section LayoutFacts.

Variable PRECOMP_HF_STRING_WIDTH_TO : Z.
Variable GetTextExtent : Z -> Z.
Variable BYTES_PER_LINE_FIT_BYTES : Z.
Variable BYTES_PER_LINE_FIT_GROUPS : Z.
Variable t_line_bytes : IntType.

Abbreviation calc_width_for_bytes :=
  (Layout.calc_width_for_bytes PRECOMP_HF_STRING_WIDTH_TO GetTextExtent).
Abbreviation fit_bytes :=
  (Layout.fit_bytes PRECOMP_HF_STRING_WIDTH_TO GetTextExtent t_line_bytes).
Abbreviation fit_groups :=
  (Layout.fit_groups PRECOMP_HF_STRING_WIDTH_TO GetTextExtent t_line_bytes).
Abbreviation calc_width :=
  (Layout.calc_width PRECOMP_HF_STRING_WIDTH_TO GetTextExtent
     BYTES_PER_LINE_FIT_BYTES BYTES_PER_LINE_FIT_GROUPS t_line_bytes).
Abbreviation fits :=
  (Layout.fits PRECOMP_HF_STRING_WIDTH_TO GetTextExtent).
Abbreviation lines_measured :=
  (Layout.lines_measured PRECOMP_HF_STRING_WIDTH_TO GetTextExtent).
Abbreviation bytes_per_group doc := (DataRegion.bytes_per_group (Layout.ctrl doc)).

Hypothesis line_bytes_32 : it_bits t_line_bytes = 32.

Lemma line_exact (z : Z) :
  0 <= z <= 2147483647 -> int_wrap t_line_bytes z = z.
Proof.
  intros Hz. apply int_wrap_id; [rewrite line_bytes_32; lia|].
  unfold in_range, int_min, int_max. rewrite line_bytes_32.
  change (2 ^ (32 - 1)) with 2147483648. change (2 ^ 32) with 4294967296.
  destruct (it_signed t_line_bytes); lia.
Qed.

Lemma fit_bytes_ends (r : DataRegion.DataRegion) (doc : Layout.Ctrl) (limit : Z) :
  lines_measured r doc limit ->
  1 <= bytes_per_group doc -> limit + bytes_per_group doc <= INT_MAX ->
  forall (fuel : nat) (bpl : Z), 1 <= bpl <= limit ->
    (Z.to_nat (limit - bpl) < fuel)%nat ->
    exists n,
      fit_bytes fuel r doc bpl = Some n /\
      bpl <= n <= limit /\
      (bpl < n -> fits r doc n) /\
      ~ fits r doc (n + 1).
Proof.
  intros Hfont Hg Hmax. unfold INT_MAX in Hmax.
  change (int_max t_int) with 2147483647 in Hmax.
  induction fuel as [|fuel IH]; intros bpl Hbpl Hfuel; [lia|].
  cbn [Layout.fit_bytes].
  rewrite (uint_exact (bpl + 1)) by lia.
  destruct (Hfont (bpl + 1) ltac:(lia)) as (width & Hwidth & Hwide).
  rewrite Hwidth. cbn [bind].
  destruct (Z.leb_spec width (Layout.client_width doc)) as [Hfits | Hnot].
  - rewrite line_exact by lia.
    destruct (IH (bpl + 1) ltac:(lia) ltac:(lia)) as (n & Hrun & Hn & Hgrown & Hlast).
    exists n. split; [exact Hrun|]. split; [lia|]. split; [|exact Hlast].
    intros _. destruct (Z.eq_dec n (bpl + 1)) as [-> | Hne].
    + exists width. split; [exact Hwidth | exact Hfits].
    + apply Hgrown. lia.
  - exists bpl. split; [reflexivity|]. split; [lia|]. split; [lia|].
    intros (width' & Hwidth' & Hfits). rewrite Hwidth in Hwidth'.
    injection Hwidth' as <-. lia.
Qed.

Lemma fit_groups_ends (r : DataRegion.DataRegion) (doc : Layout.Ctrl) (limit : Z) :
  lines_measured r doc limit ->
  1 <= bytes_per_group doc -> limit + bytes_per_group doc <= INT_MAX ->
  forall (fuel : nat) (bpl : Z), 1 <= bpl <= limit ->
    bpl mod bytes_per_group doc = 0 ->
    (Z.to_nat (limit - bpl) < fuel)%nat ->
    exists n,
      fit_groups fuel r doc bpl = Some n /\
      bpl <= n <= limit /\
      n mod bytes_per_group doc = 0 /\
      (bpl < n -> fits r doc n) /\
      ~ fits r doc (n + bytes_per_group doc).
Proof.
  intros Hfont Hg Hmax. unfold INT_MAX in Hmax.
  change (int_max t_int) with 2147483647 in Hmax.
  induction fuel as [|fuel IH]; intros bpl Hbpl Hmult Hfuel; [lia|].
  cbn [Layout.fit_groups].
  rewrite (uint_exact (bpl + bytes_per_group doc)) by lia.
  destruct (Hfont (bpl + bytes_per_group doc) ltac:(lia)) as (width & Hwidth & Hwide).
  rewrite Hwidth. cbn [bind].
  destruct (Z.leb_spec width (Layout.client_width doc)) as [Hfits | Hnot].
  - rewrite line_exact by lia.
    assert (Hmult' : (bpl + bytes_per_group doc) mod bytes_per_group doc = 0).
    { rewrite <- Z.add_mod_idemp_r, Z.mod_same, Z.add_0_r by lia. exact Hmult. }
    destruct (IH (bpl + bytes_per_group doc) ltac:(lia) Hmult' ltac:(lia))
      as (n & Hrun & Hn & Hnm & Hgrown & Hlast).
    exists n. split; [exact Hrun|]. split; [lia|]. split; [exact Hnm|].
    split; [|exact Hlast].
    intros _. destruct (Z.eq_dec n (bpl + bytes_per_group doc)) as [-> | Hne].
    + exists width. split; [exact Hwidth | exact Hfits].
    + apply Hgrown. lia.
  - exists bpl. split; [reflexivity|]. split; [lia|]. split; [exact Hmult|].
    split; [lia|].
    intros (width' & Hwidth' & Hfits). rewrite Hwidth in Hwidth'.
    injection Hwidth' as <-. lia.
Qed.

(** X25. [calc_width] leaves the region with lines of one byte at least
    and a first line padded by less than a line, and by no more than the
    offset of the region. Asked for as many bytes as fit, it comes to its
    end, pads nothing and takes a line to which one more byte does not
    fit; asked for as many groups as fit, it takes a whole number of groups
    to which one more group does not fit; and a line that it made longer
    than the shortest fits the window. With a number of bytes given, it
    takes that number and pads the first line by the offset of the region
    modulo that number. The width returned is that of the line taken. *)
Theorem calc_width_line (fuel : nat) (r : DataRegion.DataRegion)
    (doc : Layout.Ctrl) (limit : Z) :
  0 <= DataRegion.d_offset r -> 0 <= DataRegion.d_length r ->
  DataRegion.d_offset r + DataRegion.d_length r <= 2 ^ 62 ->
  1 <= bytes_per_group doc <= limit -> limit + bytes_per_group doc <= INT_MAX ->
  lines_measured r doc limit ->
  (Layout.bytes_per_line doc <> BYTES_PER_LINE_FIT_BYTES ->
   Layout.bytes_per_line doc <> BYTES_PER_LINE_FIT_GROUPS ->
   1 <= Layout.bytes_per_line doc <= limit + bytes_per_group doc) ->
  (Z.to_nat limit <= fuel)%nat ->
  exists width r',
    calc_width fuel r doc = Some (width, r') /\
    DataRegion.well_formed r' /\
    DataRegion.first_line_pad_bytes r' <= DataRegion.d_offset r' /\
    r' = Layout.with_line r (DataRegion.bytes_per_line_actual r')
           (DataRegion.first_line_pad_bytes r') /\
    calc_width_for_bytes r doc (DataRegion.bytes_per_line_actual r') = Some width /\
    (Layout.bytes_per_line doc = BYTES_PER_LINE_FIT_BYTES ->
       DataRegion.first_line_pad_bytes r' = 0 /\
       (1 < DataRegion.bytes_per_line_actual r' ->
          width <= Layout.client_width doc) /\
       ~ fits r doc (DataRegion.bytes_per_line_actual r' + 1)) /\
    (Layout.bytes_per_line doc <> BYTES_PER_LINE_FIT_BYTES ->
     Layout.bytes_per_line doc = BYTES_PER_LINE_FIT_GROUPS ->
       DataRegion.first_line_pad_bytes r' = 0 /\
       DataRegion.bytes_per_line_actual r' mod bytes_per_group doc = 0 /\
       (bytes_per_group doc < DataRegion.bytes_per_line_actual r' ->
          width <= Layout.client_width doc) /\
       ~ fits r doc (DataRegion.bytes_per_line_actual r' + bytes_per_group doc)) /\
    (Layout.bytes_per_line doc <> BYTES_PER_LINE_FIT_BYTES ->
     Layout.bytes_per_line doc <> BYTES_PER_LINE_FIT_GROUPS ->
       DataRegion.bytes_per_line_actual r' = Layout.bytes_per_line doc /\
       DataRegion.first_line_pad_bytes r'
       = DataRegion.d_offset r mod Layout.bytes_per_line doc).
Proof.
  intros Hoff Hlen Hend Hg Hmax Hfont Hfixed Hfuel.
  pose proof Hmax as Hmax'. unfold INT_MAX in Hmax'.
  change (int_max t_int) with 2147483647 in Hmax'.
  unfold Layout.calc_width.
  destruct (Z.eqb_spec (Layout.bytes_per_line doc) BYTES_PER_LINE_FIT_BYTES)
    as [Hbytes | Hnbytes].
  - (* as many bytes as fit *)
    rewrite (line_exact 1), (line_exact 0) by lia.
    destruct (fit_bytes_ends r doc limit Hfont ltac:(lia) Hmax fuel 1
                ltac:(lia) ltac:(lia)) as (n & Hrun & Hn & Hgrown & Hlast).
    rewrite Hrun. cbn [bind Layout.with_line DataRegion.bytes_per_line_actual].
    rewrite (uint_exact n) by lia.
    destruct (Hfont n ltac:(lia)) as (width & Hwidth & _).
    change (calc_width_for_bytes (Layout.with_line r n 0) doc n)
      with (calc_width_for_bytes r doc n).
    rewrite Hwidth. cbn [bind].
    exists width, (Layout.with_line r n 0).
    split; [reflexivity|]. cbn [Layout.with_line DataRegion.bytes_per_line_actual
                                DataRegion.first_line_pad_bytes DataRegion.d_offset].
    split; [unfold DataRegion.well_formed, INT_MAX;
            change (int_max t_int) with 2147483647; cbn; lia|].
    split; [lia|]. split; [reflexivity|]. split; [exact Hwidth|].
    split; [|split; intros; contradiction].
    intros _. split; [reflexivity|]. split; [|exact Hlast].
    intros Hlong. destruct (Hgrown Hlong) as (width' & Hwidth' & Hfits).
    rewrite Hwidth in Hwidth'. injection Hwidth' as <-. exact Hfits.
  - destruct (Z.eqb_spec (Layout.bytes_per_line doc) BYTES_PER_LINE_FIT_GROUPS)
      as [Hgroups | Hngroups].
    + (* as many groups as fit *)
      rewrite (line_exact (bytes_per_group doc)), (line_exact 0) by lia.
      destruct (fit_groups_ends r doc limit Hfont ltac:(lia) Hmax fuel
                  (bytes_per_group doc) ltac:(lia)
                  ltac:(apply Z.mod_same; lia) ltac:(lia))
        as (n & Hrun & Hn & Hnm & Hgrown & Hlast).
      rewrite Hrun. cbn [bind Layout.with_line DataRegion.bytes_per_line_actual].
      rewrite (uint_exact n) by lia.
      destruct (Hfont n ltac:(lia)) as (width & Hwidth & _).
      change (calc_width_for_bytes (Layout.with_line r n 0) doc n)
        with (calc_width_for_bytes r doc n).
      rewrite Hwidth. cbn [bind].
      exists width, (Layout.with_line r n 0).
      split; [reflexivity|].
      cbn [Layout.with_line DataRegion.bytes_per_line_actual
           DataRegion.first_line_pad_bytes DataRegion.d_offset].
      split; [unfold DataRegion.well_formed, INT_MAX;
              change (int_max t_int) with 2147483647; cbn; lia|].
      split; [lia|]. split; [reflexivity|]. split; [exact Hwidth|].
      split; [intros; contradiction|]. split; [|intros; contradiction].
      intros _ _. split; [reflexivity|]. split; [exact Hnm|].
      split; [|exact Hlast].
      intros Hlong. destruct (Hgrown Hlong) as (width' & Hwidth' & Hfits).
      rewrite Hwidth in Hwidth'. injection Hwidth' as <-. exact Hfits.
    + (* the number of bytes given *)
      specialize (Hfixed Hnbytes Hngroups).
      rewrite (line_exact (Layout.bytes_per_line doc)) by lia.
      unfold off_rem.
      destruct (Z.eqb_spec (Layout.bytes_per_line doc) 0); [lia|].
      cbn [bind]. rewrite Z.rem_mod_nonneg by lia.
      destruct (row_split (DataRegion.d_offset r) (Layout.bytes_per_line doc)
                  ltac:(lia)) as [Hrow Hmod].
      assert (Hquot : 0 <= DataRegion.d_offset r / Layout.bytes_per_line doc)
        by (apply Z.div_pos; lia).
      set (pad := DataRegion.d_offset r mod Layout.bytes_per_line doc) in *.
      rewrite (line_exact pad) by lia.
      cbn [Layout.with_line DataRegion.bytes_per_line_actual].
      rewrite (uint_exact (Layout.bytes_per_line doc)) by lia.
      destruct (Hfont (Layout.bytes_per_line doc) ltac:(lia)) as (width & Hwidth & _).
      change (calc_width_for_bytes
                (Layout.with_line r (Layout.bytes_per_line doc) pad) doc
                (Layout.bytes_per_line doc))
        with (calc_width_for_bytes r doc (Layout.bytes_per_line doc)).
      rewrite Hwidth. cbn [bind].
      exists width, (Layout.with_line r (Layout.bytes_per_line doc) pad).
      split; [reflexivity|].
      cbn [Layout.with_line DataRegion.bytes_per_line_actual
           DataRegion.first_line_pad_bytes DataRegion.d_offset].
      split; [unfold DataRegion.well_formed, INT_MAX;
              change (int_max t_int) with 2147483647; cbn; lia|].
      split; [nia|]. split; [reflexivity|]. split; [exact Hwidth|].
      split; [intros; contradiction|]. split; [intros; contradiction|].
      intros _ _. split; reflexivity.
Qed.

End LayoutFacts.

(** In the example a line of up to 16 bytes fits the window. *)
Lemma example_lines_measured :
  Layout.lines_measured 4 (fun n => 8 * n) example_region example_layout 17.
Proof.
  intros n Hn. cbn in Hn.
  assert (Hcases : n = 1 \/ n = 2 \/ n = 3 \/ n = 4 \/ n = 5 \/ n = 6 \/ n = 7 \/ n = 8 \/ n = 9 \/ n = 10 \/ n = 11 \/ n = 12 \/ n = 13 \/ n = 14 \/ n = 15 \/ n = 16 \/ n = 17 \/ n = 18 \/ n = 19 \/ n = 20 \/ n = 21) by lia.
  destruct Hcases as [-> | [-> | [-> | [-> | [-> | [-> | [-> | [-> | [-> | [-> | [-> | [-> | [-> | [-> | [-> | [-> | [-> | [-> | [-> | [-> | ->]]]]]]]]]]]]]]]]]]]];
    (eexists; split;
     [vm_compute; reflexivity
     |unfold example_layout, Layout.client_width; lia]).
Qed.

Lemma calc_width_line_witness :
  exists width r',
    Layout.calc_width 4 (fun n => 8 * n) 0 (-1) t_uint 17 example_region
      example_layout = Some (width, r') /\
    DataRegion.well_formed r'.
Proof.
  destruct (calc_width_line 4 (fun n => 8 * n) 0 (-1) t_uint eq_refl 17
              example_region example_layout 17)
    as (width & r' & Hrun & Hwf & _).
  - cbn. lia.
  - cbn. lia.
  - cbn. lia.
  - cbn. lia.
  - unfold INT_MAX. cbn. lia.
  - exact example_lines_measured.
  - intros Hbytes. exfalso. apply Hbytes. reflexivity.
  - lia.
  - exists width, r'. split; [exact Hrun | exact Hwf].
Defined.

(** ** DocumentCtrl.cpp: the list of controls that scroll together *)

Ltac heap_cases :=
  unfold LinkedScroll.set_prev, LinkedScroll.set_next in *;
  repeat match goal with
  | |- context [Nat.eqb ?a ?b] => destruct (Nat.eqb_spec a b); subst
  | H : context [Nat.eqb ?a ?b] |- _ => destruct (Nat.eqb_spec a b); subst
  end;
  cbn [LinkedScroll.linked_scroll_prev LinkedScroll.linked_scroll_next] in *.

(** X26. [linked_scroll_insert_self_after], called on a control that is in
    no list with another control [p] of a list linked in both directions,
    fails no assertion and puts the control between [p] and the control
    that followed [p]: the list is linked in both directions again, and
    the links of every other control are as before. *)
Theorem linked_scroll_insert_self_after_spec (h : LinkedScroll.Heap) (this p : nat) :
  LinkedScroll.linked h -> this <> p ->
  LinkedScroll.linked_scroll_next (h p) <> Some p ->
  LinkedScroll.linked_scroll_prev (h this) = None ->
  LinkedScroll.linked_scroll_next (h this) = None ->
  exists h',
    LinkedScroll.linked_scroll_insert_self_after h this p = Some h' /\
    LinkedScroll.linked h' /\
    LinkedScroll.linked_scroll_prev (h' this) = Some p /\
    LinkedScroll.linked_scroll_next (h' p) = Some this /\
    LinkedScroll.linked_scroll_next (h' this) = LinkedScroll.linked_scroll_next (h p) /\
    LinkedScroll.linked_scroll_prev (h' p) = LinkedScroll.linked_scroll_prev (h p) /\
    (forall n, LinkedScroll.linked_scroll_next (h p) = Some n ->
       LinkedScroll.linked_scroll_prev (h' n) = Some this /\
       LinkedScroll.linked_scroll_next (h' n) = LinkedScroll.linked_scroll_next (h n)) /\
    (forall k, k <> this -> k <> p ->
       LinkedScroll.linked_scroll_next (h p) <> Some k -> h' k = h k).
Proof.
  intros Hlinked Hne Hloop Hprev Hnext.
  unfold LinkedScroll.linked_scroll_insert_self_after.
  rewrite Hprev, Hnext. cbn [LinkedScroll.is_null].
  assert (Hp : LinkedScroll.set_prev h this (Some p) p = h p)
    by (unfold LinkedScroll.set_prev; destruct (Nat.eqb_spec p this);
        [congruence | reflexivity]).
  rewrite Hp.
  destruct (LinkedScroll.linked_scroll_next (h p)) as [n|] eqn:Hpn.
  - assert (Hn : n <> this).
    { intros ->. apply Hlinked in Hpn. congruence. }
    assert (Hnp : n <> p) by congruence.
    assert (Hnprev : LinkedScroll.linked_scroll_prev (h n) = Some p)
      by (apply Hlinked; exact Hpn).
    eexists. split; [reflexivity|].
    split; [|repeat split].
    + intros a b. pose proof (Hlinked a b) as Hab.
      pose proof (Hlinked a n) as Han. pose proof (Hlinked a this) as Hat.
      pose proof (Hlinked this b) as Htb. pose proof (Hlinked p b) as Hpb.
      heap_cases; split; intros H; try congruence; try tauto;
        first [apply (proj1 (Hlinked _ _)) in H; congruence
              |apply (proj2 (Hlinked _ _)) in H; congruence].
    + heap_cases; congruence.
    + heap_cases; congruence.
    + heap_cases; congruence.
    + heap_cases; congruence.
    + injection H as <-. heap_cases; congruence.
    + injection H as <-. heap_cases; congruence.
    + intros k Hk Hkp Hkn. heap_cases; congruence.
  - eexists. split; [reflexivity|].
    split; [|repeat split].
    + intros a b. pose proof (Hlinked a b) as Hab.
      heap_cases; split; intros H; try congruence; try tauto;
        first [apply (proj1 (Hlinked _ _)) in H; congruence
              |apply (proj2 (Hlinked _ _)) in H; congruence].
    + heap_cases; congruence.
    + heap_cases; congruence.
    + heap_cases; congruence.
    + heap_cases; congruence.
    + discriminate.
    + discriminate.
    + intros k Hk Hkp Hkn. heap_cases; congruence.
Qed.

(** X27. [linked_scroll_remove_self] fails its assertion on a control that
    is in no list. On a control of a list linked in both directions it
    takes the control out: its neighbours are linked to each other, the
    control itself has no neighbour left, the list is linked in both
    directions again, and the links of every other control are as before. *)
Theorem linked_scroll_remove_self_spec (h : LinkedScroll.Heap) (this : nat) :
  LinkedScroll.linked h ->
  (LinkedScroll.linked_scroll_prev (h this) = None ->
   LinkedScroll.linked_scroll_next (h this) = None ->
   LinkedScroll.linked_scroll_remove_self h this = None) /\
  (LinkedScroll.linked_scroll_prev (h this) <> None \/
   LinkedScroll.linked_scroll_next (h this) <> None ->
   exists h',
     LinkedScroll.linked_scroll_remove_self h this = Some h' /\
     LinkedScroll.linked h' /\
     LinkedScroll.linked_scroll_prev (h' this) = None /\
     LinkedScroll.linked_scroll_next (h' this) = None /\
     (forall p, LinkedScroll.linked_scroll_prev (h this) = Some p -> p <> this ->
        LinkedScroll.linked_scroll_next (h' p)
        = LinkedScroll.linked_scroll_next (h this)) /\
     (forall n, LinkedScroll.linked_scroll_next (h this) = Some n -> n <> this ->
        LinkedScroll.linked_scroll_prev (h' n)
        = LinkedScroll.linked_scroll_prev (h this)) /\
     (forall k, k <> this ->
        LinkedScroll.linked_scroll_prev (h this) <> Some k ->
        LinkedScroll.linked_scroll_next (h this) <> Some k -> h' k = h k)).
Proof.
  intros Hlinked. unfold LinkedScroll.linked_scroll_remove_self. split.
  - intros -> ->. reflexivity.
  - intros Hin.
    assert (Hassert : negb (LinkedScroll.is_null
                              (LinkedScroll.linked_scroll_prev (h this)))
                      || negb (LinkedScroll.is_null
                                 (LinkedScroll.linked_scroll_next (h this)))
                      = true).
    { destruct (LinkedScroll.linked_scroll_prev (h this));
        destruct (LinkedScroll.linked_scroll_next (h this));
        cbn; try reflexivity. destruct Hin; congruence. }
    rewrite Hassert. clear Hassert.
    assert (Hnext_kept : forall q v,
              LinkedScroll.linked_scroll_next
                (LinkedScroll.set_next h q
                   (LinkedScroll.linked_scroll_next (h this)) this)
              = LinkedScroll.linked_scroll_next (h this) /\
              LinkedScroll.linked_scroll_prev (LinkedScroll.set_next h q v this)
              = LinkedScroll.linked_scroll_prev (h this)).
    { intros q v. heap_cases; split; reflexivity. }
    eexists. split; [reflexivity|].
    destruct (LinkedScroll.linked_scroll_prev (h this)) as [p|] eqn:Hp;
      destruct (LinkedScroll.linked_scroll_next (h this)) as [n|] eqn:Hn;
      try (destruct Hin; congruence);
      try rewrite (proj1 (Hnext_kept p None));
      try rewrite (proj1 (Hnext_kept p (Some n)));
      try rewrite (proj2 (Hnext_kept p (Some n)));
      try rewrite Hp; try rewrite Hn;
      (split; [|repeat split]);
      try (intros a b; pose proof (Hlinked a b) as Hab;
           heap_cases; split; intros H; try congruence; try tauto;
           first [apply (proj1 (Hlinked _ _)) in H; congruence
                 |apply (proj2 (Hlinked _ _)) in H; congruence]);
      try (heap_cases; congruence);
      try (intros q Hq Hne; heap_cases; congruence);
      try (intros k Hk Hkp Hkn; heap_cases; congruence).
    + pose proof (proj2 (Hlinked p this) Hp) as Hpt.
      pose proof (proj1 (Hlinked this n) Hn) as Hnt.
      intros a b; pose proof (Hlinked a b) as Hab;
        heap_cases; split; intros H; try congruence; try tauto;
        try (first [apply (proj1 (Hlinked _ _)) in H; congruence
                   |apply (proj2 (Hlinked _ _)) in H; congruence]).
    + pose proof (proj2 (Hlinked p this) Hp) as Hpt.
      intros a b; pose proof (Hlinked a b) as Hab;
        heap_cases; split; intros H; try congruence; try tauto;
        try (first [apply (proj1 (Hlinked _ _)) in H; congruence
                   |apply (proj2 (Hlinked _ _)) in H; congruence]).
    + pose proof (proj1 (Hlinked this n) Hn) as Hnt.
      intros a b; pose proof (Hlinked a b) as Hab;
        heap_cases; split; intros H; try congruence; try tauto;
        try (first [apply (proj1 (Hlinked _ _)) in H; congruence
                   |apply (proj2 (Hlinked _ _)) in H; congruence]).
Qed.

(** X28. [linked_scroll_remove_self] undoes
    [linked_scroll_insert_self_after]: a control that is put into a list
    linked in both directions and taken out again leaves every control
    with the links it had. *)
Theorem linked_scroll_insert_remove (h : LinkedScroll.Heap) (this p : nat) :
  LinkedScroll.linked h -> this <> p ->
  LinkedScroll.linked_scroll_next (h p) <> Some p ->
  LinkedScroll.linked_scroll_prev (h this) = None ->
  LinkedScroll.linked_scroll_next (h this) = None ->
  exists h' h'',
    LinkedScroll.linked_scroll_insert_self_after h this p = Some h' /\
    LinkedScroll.linked_scroll_remove_self h' this = Some h'' /\
    forall k, h'' k = h k.
Proof.
  intros Hlinked Hne Hloop Hprev Hnext.
  unfold LinkedScroll.linked_scroll_insert_self_after.
  rewrite Hprev, Hnext. cbn [LinkedScroll.is_null].
  assert (Hp : LinkedScroll.set_prev h this (Some p) p = h p)
    by (unfold LinkedScroll.set_prev; destruct (Nat.eqb_spec p this);
        [congruence | reflexivity]).
  rewrite Hp.
  assert (Heta : forall l l' : LinkedScroll.Links,
            LinkedScroll.linked_scroll_prev l = LinkedScroll.linked_scroll_prev l' ->
            LinkedScroll.linked_scroll_next l = LinkedScroll.linked_scroll_next l' ->
            l = l').
  { intros [a b] [a' b']. cbn. intros -> ->. reflexivity. }
  destruct (LinkedScroll.linked_scroll_next (h p)) as [n|] eqn:Hpn.
  - assert (Hn : n <> this).
    { intros ->. apply Hlinked in Hpn. congruence. }
    assert (Hnp : n <> p) by congruence.
    assert (Hnprev : LinkedScroll.linked_scroll_prev (h n) = Some p)
      by (apply Hlinked; exact Hpn).
    eexists. eexists. split; [reflexivity|].
    set (h1 := LinkedScroll.set_next _ p (Some this)).
    assert (Hp1 : LinkedScroll.linked_scroll_prev (h1 this) = Some p)
      by (subst h1; heap_cases; congruence).
    assert (Hn1 : LinkedScroll.linked_scroll_next (h1 this) = Some n)
      by (subst h1; heap_cases; congruence).
    unfold LinkedScroll.linked_scroll_remove_self.
    rewrite Hp1, Hn1. cbn [LinkedScroll.is_null negb orb].
    assert (Hn2 : LinkedScroll.linked_scroll_next
                    (LinkedScroll.set_next h1 p (Some n) this) = Some n)
      by (heap_cases; congruence).
    assert (Hp2 : LinkedScroll.linked_scroll_prev
                    (LinkedScroll.set_next h1 p (Some n) this) = Some p)
      by (heap_cases; congruence).
    rewrite Hn2, Hp2.
    split; [reflexivity|].
    intros k. clear Hp1 Hn1 Hn2 Hp2. subst h1.
    apply Heta; heap_cases; rewrite ?Hpn in *; heap_cases; congruence.
  - eexists. eexists. split; [reflexivity|].
    set (h1 := LinkedScroll.set_next _ p (Some this)).
    assert (Hp1 : LinkedScroll.linked_scroll_prev (h1 this) = Some p)
      by (subst h1; heap_cases; congruence).
    assert (Hn1 : LinkedScroll.linked_scroll_next (h1 this) = None)
      by (subst h1; heap_cases; congruence).
    unfold LinkedScroll.linked_scroll_remove_self.
    rewrite Hp1, Hn1. cbn [LinkedScroll.is_null negb orb].
    assert (Hn2 : LinkedScroll.linked_scroll_next
                    (LinkedScroll.set_next h1 p None this) = None)
      by (heap_cases; congruence).
    rewrite Hn2.
    split; [reflexivity|].
    intros k. clear Hp1 Hn1 Hn2. subst h1.
    apply Heta; heap_cases; congruence.
Qed.

Lemma example_heap_linked : LinkedScroll.linked example_heap.
Proof.
  intros a b.
  destruct a as [|[|a]]; destruct b as [|[|b]]; cbn; split; intros H;
    first [discriminate H | reflexivity | congruence].
Qed.

Lemma linked_scroll_insert_self_after_spec_witness :
  exists h',
    LinkedScroll.linked_scroll_insert_self_after example_heap 2 0 = Some h' /\
    LinkedScroll.linked h' /\
    LinkedScroll.linked_scroll_next (h' 0%nat) = Some 2%nat.
Proof.
  destruct (linked_scroll_insert_self_after_spec example_heap 2 0)
    as (h' & Hrun & Hlinked & _ & Hnext & _).
  - exact example_heap_linked.
  - discriminate.
  - cbn. discriminate.
  - reflexivity.
  - reflexivity.
  - exists h'. split; [exact Hrun|]. split; [exact Hlinked | exact Hnext].
Defined.

Lemma linked_scroll_remove_self_spec_witness :
  exists h',
    LinkedScroll.linked_scroll_remove_self example_heap 1 = Some h' /\
    LinkedScroll.linked h' /\
    LinkedScroll.linked_scroll_next (h' 0%nat) = None.
Proof.
  destruct (proj2 (linked_scroll_remove_self_spec example_heap 1
                     example_heap_linked))
    as (h' & Hrun & Hlinked & _ & _ & Hprev & _).
  - left. cbn. discriminate.
  - exists h'. split; [exact Hrun|]. split; [exact Hlinked|].
    apply (Hprev 0%nat); [reflexivity | discriminate].
Defined.

Lemma linked_scroll_insert_remove_witness :
  exists h' h'',
    LinkedScroll.linked_scroll_insert_self_after example_heap 2 0 = Some h' /\
    LinkedScroll.linked_scroll_remove_self h' 2 = Some h'' /\
    forall k, h'' k = example_heap k.
Proof.
  apply (linked_scroll_insert_remove example_heap 2 0).
  - exact example_heap_linked.
  - discriminate.
  - cbn. discriminate.
  - reflexivity.
  - reflexivity.
Defined.

(** ** DocumentCtrl.cpp: the lines of the regions *)

Section RowsFacts.

Variable Region : Type.
Variable y_offset : Region -> Z.
Variable y_lines : Region -> Z.
Variable set_y_offset : Region -> Z -> Region.
Variable calc_height : Region -> option Region.

Abbreviation layout := (Rows.layout Region y_lines set_y_offset calc_height).
Abbreviation upper_bound := (Rows.upper_bound Region y_offset).
Abbreviation region_by_y_offset := (Rows.region_by_y_offset Region y_offset y_lines).
Abbreviation stacked := (Rows.stacked Region y_offset y_lines).

(** The loop of [_handle_width_change] stacks the regions. *)
Lemma layout_stacked (max_lines : Z) (regions : list Region) :
  0 <= max_lines ->
  Forall (fun r => forall y, exists r',
            calc_height (set_y_offset r y) = Some r' /\
            y_offset r' = y /\ 0 <= y_lines r' <= max_lines) regions ->
  forall next_yo,
    0 <= next_yo ->
    next_yo + Z.of_nat (List.length regions) * max_lines <= 2 ^ 62 ->
    exists regions' total,
      layout regions next_yo = Some (regions', total) /\
      List.length regions' = List.length regions /\
      stacked regions' next_yo /\
      next_yo <= total <= next_yo + Z.of_nat (List.length regions) * max_lines /\
      (regions <> [] -> forall r, In r regions' -> y_offset r + y_lines r <= total) /\
      (forall r, In r regions' -> next_yo <= y_offset r /\ 0 <= y_lines r) /\
      (total = next_yo + fold_right (fun r n => y_lines r + n) 0 regions').
Proof.
  intros Hmax Hall. induction Hall as [|r regions Hr Hall IH]; intros next_yo Hyo Hfit.
  - exists [], next_yo. cbn. repeat split; try lia; try tauto.
  - cbn [Rows.layout List.length] in *.
    destruct (Hr next_yo) as (r' & Hcalc & Hy & Hlines).
    rewrite Hcalc. cbn [bind].
    change (2 ^ 62) with 4611686018427387904 in *.
    off_exact.
    destruct (IH (next_yo + y_lines r') ltac:(lia) ltac:(nia))
      as (regions' & total & Hrun & Hlen & Hstack & Htotal & Hin & Hlow & Hsum).
    rewrite Hrun. cbn [bind fst snd].
    exists (r' :: regions'), total.
    split; [reflexivity|]. split; [cbn; lia|].
    split; [cbn [Rows.stacked]; split; [exact Hy|]; split; [lia | exact Hstack]|].
    split; [nia|]. split; [|split].
    + intros _ x [<- | Hx]; [lia|].
      destruct regions as [|r0 regions0].
      * cbn in Hlen. destruct regions'; [contradiction | discriminate].
      * apply Hin; [discriminate | exact Hx].
    + intros x [<- | Hx]; [lia|]. specialize (Hlow x Hx). lia.
    + cbn [fold_right]. lia.
Qed.

(** In stacked regions the region of a line is found. *)
Lemma stacked_lookup (regions : list Region) :
  forall y0 y,
    stacked regions y0 ->
    y0 <= y < y0 + fold_right (fun r n => y_lines r + n) 0 regions ->
    exists i r,
      upper_bound regions y = S i /\ nth_error regions i = Some r /\
      y_offset r <= y < y_offset r + y_lines r.
Proof.
  induction regions as [|r regions IH]; intros y0 y Hstack Hy;
    cbn [fold_right Rows.stacked Rows.upper_bound] in *; [lia|].
  destruct Hstack as (Hoff & Hlines & Hstack).
  destruct (Z.ltb_spec y (y_offset r)) as [Hlt | Hge]; [lia|].
  destruct (Z.lt_ge_cases y (y0 + y_lines r)) as [Hhere | Hbelow].
  - exists O, r. split; [|split; [reflexivity | lia]].
    f_equal. destruct regions as [|r1 regions1]; [reflexivity|].
    cbn [Rows.stacked Rows.upper_bound] in *.
    destruct Hstack as (Hoff1 & _).
    destruct (Z.ltb_spec y (y_offset r1)); [reflexivity | lia].
  - destruct (IH (y0 + y_lines r) y Hstack ltac:(lia)) as (i & r1 & Hub & Hnth & Hin).
    exists (S i), r1. rewrite Hub. auto.
Qed.

Lemma stacked_heights (regions : list Region) :
  forall y0, stacked regions y0 ->
    0 <= fold_right (fun r n => y_lines r + n) 0 regions.
Proof.
  induction regions as [|r regions IH]; intros y0 Hstack; cbn in *; [lia|].
  destruct Hstack as (_ & Hlines & Hstack). specialize (IH _ Hstack). lia.
Qed.

Lemma upper_bound_above (regions : list Region) :
  forall y0 y, stacked regions y0 -> y < y0 -> upper_bound regions y = O.
Proof.
  intros y0 y Hstack Hy. destruct regions as [|r regions]; [reflexivity|].
  cbn in *. destruct Hstack as (Hoff & _).
  destruct (Z.ltb_spec y (y_offset r)); [reflexivity | lia].
Qed.

(** Past the last line of stacked regions no region holds the line. *)
Lemma stacked_past (regions : list Region) :
  forall y0 y,
    stacked regions y0 ->
    y0 + fold_right (fun r n => y_lines r + n) 0 regions <= y ->
    forall i r, nth_error regions i = Some r -> y_offset r + y_lines r <= y.
Proof.
  induction regions as [|r regions IH]; intros y0 y Hstack Hy i x Hnth;
    [destruct i; discriminate|].
  cbn [fold_right Rows.stacked] in *.
  destruct Hstack as (Hoff & Hlines & Hstack).
  pose proof (stacked_heights regions _ Hstack) as Hsum.
  destruct i as [|i].
  - injection Hnth as <-. lia.
  - cbn [nth_error] in Hnth. apply (IH (y0 + y_lines r) y Hstack ltac:(lia) i x Hnth).
Qed.

(** X29. The loop of [_handle_width_change] that gives every region its
    [y_offset] comes to its end where every [calc_height] does, and
    stacks the regions from line 0 on. After it [region_by_y_offset]
    fails no assertion for a line of the document and returns the region
    that holds the line; for a line before the first or after the last it
    fails an assertion. *)
Theorem region_by_y_offset_spec (max_lines : Z) (regions : list Region) :
  0 <= max_lines ->
  Z.of_nat (List.length regions) * max_lines <= 2 ^ 62 ->
  Forall (fun r => forall y, exists r',
            calc_height (set_y_offset r y) = Some r' /\
            y_offset r' = y /\ 0 <= y_lines r' <= max_lines) regions ->
  exists regions' total,
    layout regions 0 = Some (regions', total) /\
    List.length regions' = List.length regions /\
    stacked regions' 0 /\
    (forall y, 0 <= y < total ->
       exists i r,
         region_by_y_offset regions' y = Some i /\
         nth_error regions' i = Some r /\
         y_offset r <= y < y_offset r + y_lines r) /\
    (forall y, y < 0 \/ total <= y -> region_by_y_offset regions' y = None).
Proof.
  intros Hmax Hfit Hall.
  destruct (layout_stacked max_lines regions Hmax Hall 0 ltac:(lia) ltac:(lia))
    as (regions' & total & Hrun & Hlen & Hstack & Htotal & Hin & Hlow & Hsum).
  exists regions', total. split; [exact Hrun|]. split; [exact Hlen|].
  split; [exact Hstack|].
  change (2 ^ 62) with 4611686018427387904 in *.
  split.
  - intros y Hy.
    destruct (stacked_lookup regions' 0 y Hstack ltac:(lia))
      as (i & r & Hub & Hnth & Hline).
    exists i, r. unfold Rows.region_by_y_offset.
    rewrite Hub. cbn [Nat.eqb negb pred]. rewrite Hnth. cbn [bind].
    assert (Hr : In r regions') by (apply nth_error_In with i; exact Hnth).
    assert (Hregions : regions <> []).
    { intros ->. destruct regions'; [destruct i; discriminate | discriminate]. }
    pose proof (Hin Hregions r Hr). destruct (Hlow r Hr).
    off_exact. rewrite Z.gtb_ltb.
    destruct (Z.leb_spec (y_offset r) y); [|lia].
    destruct (Z.ltb_spec y (y_offset r + y_lines r)); [|lia].
    auto.
  - intros y Hy. unfold Rows.region_by_y_offset.
    destruct Hy as [Hneg | Hpast].
    + rewrite (upper_bound_above regions' 0 y Hstack Hneg). reflexivity.
    + destruct (upper_bound regions' y) as [|i]; [reflexivity|].
      cbn [Nat.eqb negb pred].
      destruct (nth_error regions' i) as [r|] eqn:Hnth; [|reflexivity].
      cbn [bind].
      assert (Hr : In r regions') by (apply nth_error_In with i; exact Hnth).
      assert (Hregions : regions <> []).
      { intros ->. destruct regions'; [destruct i; discriminate | discriminate]. }
      pose proof (Hin Hregions r Hr). destruct (Hlow r Hr).
      pose proof (stacked_past regions' 0 y Hstack ltac:(lia) i r Hnth).
      off_exact. rewrite Z.gtb_ltb.
      destruct (y_offset r <=? y); [|reflexivity].
      destruct (Z.ltb_spec y (y_offset r + y_lines r)); [lia | reflexivity].
Qed.

End RowsFacts.

Lemma region_by_y_offset_spec_witness :
  exists regions' total i,
    Rows.layout DataRegion.DataRegion DataRegion.y_lines Rows.set_y_offset
      (fun r => DataRegion.calc_height 4 (fun n => 8 * n) r example_ctrl)
      [example_region; example_region] 0 = Some (regions', total) /\
    Rows.region_by_y_offset DataRegion.DataRegion DataRegion.y_offset
      DataRegion.y_lines regions' 9 = Some i.
Proof.
  destruct (region_by_y_offset_spec DataRegion.DataRegion DataRegion.y_offset
              DataRegion.y_lines Rows.set_y_offset
              (fun r => DataRegion.calc_height 4 (fun n => 8 * n) r example_ctrl)
              8 [example_region; example_region])
    as (regions' & total & Hrun & _ & _ & Hfound & _).
  - lia.
  - cbn. lia.
  - apply Forall_cons; [|apply Forall_cons; [|apply Forall_nil]];
      intros y; eexists;
      (split; [vm_compute; reflexivity | split; [reflexivity | cbn; lia]]).
  - assert (Htotal : total = 14).
    { vm_compute in Hrun. injection Hrun as _ Ht. symmetry. exact Ht. }
    destruct (Hfound 9 ltac:(lia)) as (i & r & Hi & _).
    exists regions', total, i. split; [exact Hrun | exact Hi].
Defined.

(** ** DocumentCtrl.cpp: where the cursor may be *)

Section CursorFacts.

Variable screen_areas_at_offset :
  Regions.GenericDataRegion -> Z -> option Cursor.ScreenAreas.

Abbreviation set_cursor_position :=
  (Cursor.set_cursor_position screen_areas_at_offset).


End CursorFacts.

